(** * Theorem tools of the math CLI: scanning, indexing and proof lookup

    A shallow embedding of the three LaTeX tools of the repository

    - [TheoremIndexerTool]   (index_theorems,   src/unnamed/part_000),
    - [GetProofTool]         (get_proof,        src/unnamed/part_000),
    - [TheoremExtractorTool] (extract_theorems, src/unnamed/part_001),

    together with the properties their specification states about them.

    Conventions of the embedding.

    - A JavaScript string is a [string]: a sequence of code units, here the
      code units below 256.  Offsets are counted in code units.  The case
      mappings, the white space class and the line terminators are those of
      JavaScript restricted to that range.
    - A regular expression literal of the source is a term of [regex]; it is
      run by [matches], a backtracking matcher that lists the results in the
      priority order of the ECMAScript semantics, so that the first element
      is the match that [exec] reports.
    - An object used as a dictionary is an association list [dict] of its
      own properties, with unique keys kept in insertion order, the order
      [Object.keys] visits keys that are not canonical array indices.  A
      read goes through [Dict.read], which falls back on the members every
      object inherits from [Object.prototype]; the accessor [__proto__] is
      written like any other key, and the properties that depend on it
      exclude it by hypothesis ([plainBlock]).
    - The kinds of blocks are spliced into a pattern as they are.  They are
      embedded as literal words, which is what the pattern means when they
      consist of letters and digits: the properties of a scan carry that
      hypothesis ([plainKinds]).
    - Objects that are shared and mutated (the theorem records held both by
      the result array and by [index.theorems]) live in a store, the result
      array itself; the dictionary holds positions of that array.
    - A thrown exception is the [Err] result of the monad [res].
    - [signal.aborted] is read through an oracle [nat -> bool]: the value
      seen by the n-th poll of one scan. *)

From Stdlib Require Import String Ascii List Bool Arith PeanoNat ZArith QArith Qminmax Lia.
From Stdlib Require Import Permutation.
Import ListNotations.

Local Open Scope string_scope.
Local Open Scope list_scope.
Local Open Scope nat_scope.

Set Implicit Arguments.

(* ================================================================== *)
(** * JavaScript strings *)
(* ================================================================== *)

Module JsString.

Definition code (c : ascii) : nat := nat_of_ascii c.

Definition in_range (lo hi : nat) (c : ascii) : bool :=
  (lo <=? code c) && (code c <=? hi).

Definition is_upper (c : ascii) : bool := in_range 65 90 c.
Definition is_lower (c : ascii) : bool := in_range 97 122 c.
Definition is_alpha (c : ascii) : bool := is_upper c || is_lower c.

(** [\n] and [\r]; the two other line terminators are above the range. *)
Definition is_line_terminator (c : ascii) : bool :=
  (code c =? 10) || (code c =? 13).

(** The class [\s], also what [trim] strips: TAB, LF, VT, FF, CR, SP,
    NBSP. *)
Definition is_space (c : ascii) : bool :=
  in_range 9 13 c || (code c =? 32) || (code c =? 160).

(** [toLowerCase] on one code unit: A-Z, and the Latin-1 capitals
    U+00C0..U+00DE without the multiplication sign. *)
Definition lower_char (c : ascii) : ascii :=
  if is_upper c || (in_range 192 222 c && negb (code c =? 215))
  then ascii_of_nat (code c + 32) else c.

(** The canonical form used by a case-insensitive match against a
    pattern character of the ASCII range. *)
Definition canon_char (c : ascii) : ascii :=
  if is_lower c then ascii_of_nat (code c - 32) else c.

Fixpoint toLowerCase (s : string) : string :=
  match s with
  | EmptyString => EmptyString
  | String c s' => String (lower_char c) (toLowerCase s')
  end.

Fixpoint trimStart (s : string) : string :=
  match s with
  | String c s' => if is_space c then trimStart s' else s
  | EmptyString => EmptyString
  end.

(** [trimEnd] keeps a character when it is not a space or when something
    is kept after it. *)
Fixpoint trimEnd (s : string) : string :=
  match s with
  | EmptyString => EmptyString
  | String c s' =>
      match trimEnd s' with
      | EmptyString => if is_space c then EmptyString else String c EmptyString
      | t => String c t
      end
  end.

Definition trim (s : string) : string := trimEnd (trimStart s).

Fixpoint startsWith (p s : string) : bool :=
  match p, s with
  | EmptyString, _ => true
  | String a p', String b s' => Ascii.eqb a b && startsWith p' s'
  | String _ _, EmptyString => false
  end.

(** [s.includes(p)] *)
Fixpoint includes (s p : string) : bool :=
  startsWith p s ||
  match s with
  | EmptyString => false
  | String _ s' => includes s' p
  end.

(** [s.indexOf(p)], [None] for -1 *)
Fixpoint indexOf (s p : string) : option nat :=
  if startsWith p s then Some 0
  else match s with
       | EmptyString => None
       | String _ s' => option_map S (indexOf s' p)
       end.

(** [s.lastIndexOf(p)], [None] for -1 *)
Fixpoint lastIndexOf (s p : string) : option nat :=
  match s with
  | EmptyString => if startsWith p s then Some 0 else None
  | String _ s' =>
      match lastIndexOf s' p with
      | Some i => Some (S i)
      | None => if startsWith p s then Some 0 else None
      end
  end.

(** [s.substring(a, b)]: both bounds are clamped to the length and
    swapped when [a > b]. *)
Definition substring (s : string) (a b : nat) : string :=
  let lo := Nat.min (Nat.min a b) (String.length s) in
  let hi := Nat.min (Nat.max a b) (String.length s) in
  String.substring lo (hi - lo) s.

(** [s.substring(a)] *)
Definition substringFrom (s : string) (a : nat) : string :=
  substring s a (String.length s).

Fixpoint count_char (c : ascii) (s : string) : nat :=
  match s with
  | EmptyString => 0
  | String d s' => (if Ascii.eqb c d then 1 else 0) + count_char c s'
  end.

(** [s.split(/\s+/)]: the pieces between the maximal runs of white space,
    the empty pieces at both ends included. *)
Fixpoint split_ws_aux (s : string) (cur : string) (in_gap : bool) : list string :=
  match s with
  | EmptyString => [cur]
  | String c s' =>
      if is_space c
      then if in_gap then split_ws_aux s' cur true
           else cur :: split_ws_aux s' EmptyString true
      else split_ws_aux s' (cur ++ String c EmptyString)%string false
  end.

Definition split_ws (s : string) : list string := split_ws_aux s EmptyString false.

(** Every code unit of the string passes the test. *)
Fixpoint every (q : ascii -> bool) (s : string) : bool :=
  match s with
  | EmptyString => true
  | String c s' => q c && every q s'
  end.

Definition is_digit (c : ascii) : bool := in_range 48 57 c.

(** Truthiness of a string, and of an optional one ([undefined] and the
    empty string are falsy). *)
Definition truthy (s : string) : bool := negb (String.eqb s EmptyString).

Definition truthy_opt (o : option string) : bool :=
  match o with
  | Some s => truthy s
  | None => false
  end.

(** Decimal rendering of a number inside a template literal. *)
Fixpoint digits (fuel n : nat) (acc : string) : string :=
  match fuel with
  | 0 => acc
  | S f =>
      let acc' := String (ascii_of_nat (48 + n mod 10)) acc in
      if n / 10 =? 0 then acc' else digits f (n / 10) acc'
  end.

Definition of_nat (n : nat) : string := digits (S n) n EmptyString.

End JsString.

(* ================================================================== *)
(** * Regular expressions *)
(* ================================================================== *)

Module Regex.
Import JsString.

(** The syntax the patterns of the three tools need.  [Star true] is the
    greedy [*], [Star false] the lazy one; [Grp n] is the n-th capturing
    group; [Bol] and [Eol] are [^] and [$]. *)
Inductive regex : Type :=
| Eps : regex
| Chr : ascii -> regex
| Cls : (ascii -> bool) -> regex
| Dot : regex
| Seq : regex -> regex -> regex
| Alt : regex -> regex -> regex
| Star : bool -> regex -> regex
| Grp : nat -> regex -> regex
| Bol : regex
| Eol : regex.

(** [r+], [r?] (both greedy) and a literal string. *)
Definition Plus (r : regex) : regex := Seq r (Star true r).
Definition Opt (r : regex) : regex := Alt r Eps.

Fixpoint Lit (s : string) : regex :=
  match s with
  | EmptyString => Eps
  | String c s' => Seq (Chr c) (Lit s')
  end.

Fixpoint Seqs (rs : list regex) : regex :=
  match rs with
  | [] => Eps
  | [r] => r
  | r :: rs' => Seq r (Seqs rs')
  end.

(** [a|b|c]; the alternation of no pattern is the empty pattern, as
    [[].join('|')] is the empty string. *)
Fixpoint Alts (rs : list regex) : regex :=
  match rs with
  | [] => Eps
  | [r] => r
  | r :: rs' => Alt r (Alts rs')
  end.

Definition NotChr (c : ascii) : regex := Cls (fun d => negb (Ascii.eqb c d)).

(** The flags [i], [m] and [s]; [g] is the choice of [execAll] or
    [removeAll] over [search]. *)
Record flags : Type := Flags {
  ignoreCase : bool;
  multiline : bool;
  dotAll : bool
}.

Definition no_flags : flags := Flags false false false.
Definition flag_i : flags := Flags true false false.
Definition flag_m : flags := Flags false true false.
Definition flag_s : flags := Flags false false true.

(** A matcher state: the code units before the current position, nearest
    first; those from the position on; the captures made so far. *)
Record mstate : Type := MState {
  before : list ascii;
  rest : string;
  caps : list (nat * string)
}.

Definition step_char (st : mstate) (ok : ascii -> bool) : list mstate :=
  match rest st with
  | String c s' => if ok c then [MState (c :: before st) s' (caps st)] else []
  | EmptyString => []
  end.

Definition consumed (st st' : mstate) : string :=
  String.substring 0 (String.length (rest st) - String.length (rest st')) (rest st).

Definition at_bol (fl : flags) (st : mstate) : bool :=
  match before st with
  | [] => true
  | c :: _ => multiline fl && is_line_terminator c
  end.

Definition at_eol (fl : flags) (st : mstate) : bool :=
  match rest st with
  | EmptyString => true
  | String c _ => multiline fl && is_line_terminator c
  end.

(** All the ways [r] matches at the position of [st], in the order a
    backtracking matcher tries them.  An iteration of a star that
    consumes nothing is rejected, as in ECMAScript, so a star runs at
    most once per remaining code unit. *)
Fixpoint matches (fl : flags) (r : regex) (st : mstate) {struct r} : list mstate :=
  match r with
  | Eps => [st]
  | Chr c =>
      step_char st (fun d =>
        if ignoreCase fl then Ascii.eqb (canon_char c) (canon_char d)
        else Ascii.eqb c d)
  | Cls p => step_char st p
  | Dot => step_char st (fun d => dotAll fl || negb (is_line_terminator d))
  | Seq r1 r2 => flat_map (matches fl r2) (matches fl r1 st)
  | Alt r1 r2 => matches fl r1 st ++ matches fl r2 st
  | Star greedy r' =>
      (fix loop (fuel : nat) (st : mstate) {struct fuel} : list mstate :=
         match fuel with
         | 0 => [st]
         | S fuel' =>
             let more :=
               flat_map
                 (fun st' =>
                    if String.length (rest st') <? String.length (rest st)
                    then loop fuel' st' else [])
                 (matches fl r' st) in
             if greedy then more ++ [st] else st :: more
         end) (String.length (rest st)) st
  | Grp n r' =>
      map (fun st' => MState (before st') (rest st') ((n, consumed st st') :: caps st'))
          (matches fl r' st)
  | Bol => if at_bol fl st then [st] else []
  | Eol => if at_eol fl st then [st] else []
  end.

(** What [exec] returns: the offset of the match, the matched text and the
    captures ([undefined] is [None]). *)
Record rmatch : Type := RMatch {
  index : nat;
  whole : string;
  groups : list (nat * string)
}.

Definition group (n : nat) (m : rmatch) : option string :=
  option_map snd (find (fun g => fst g =? n) (groups m)).

(** The match at one position, if any. *)
Definition match_here (fl : flags) (r : regex) (bef : list ascii) (s : string) : option rmatch :=
  match matches fl r (MState bef s []) with
  | st' :: _ =>
      Some (RMatch (List.length bef)
                   (String.substring 0 (String.length s - String.length (rest st')) s)
                   (caps st'))
  | [] => None
  end.

(** The loop [while ((m = re.exec(s)) !== null)] of a global pattern:
    every match from left to right, each search starting where the
    previous match ended.  [skip] counts the code units of the previous
    match still to step over.  No pattern of the tools matches the empty
    string; on an empty match the enumeration stops. *)
Fixpoint scan (fl : flags) (r : regex) (bef : list ascii) (s : string) (skip : nat)
  {struct s} : list rmatch :=
  match skip with
  | S k =>
      match s with
      | EmptyString => []
      | String c s' => scan fl r (c :: bef) s' k
      end
  | 0 =>
      match match_here fl r bef s with
      | Some m =>
          m :: match String.length (whole m), s with
               | S k, String c s' => scan fl r (c :: bef) s' k
               | _, _ => []
               end
      | None =>
          match s with
          | EmptyString => []
          | String c s' => scan fl r (c :: bef) s' 0
          end
      end
  end.

Definition execAll (fl : flags) (r : regex) (s : string) : list rmatch :=
  scan fl r [] s 0.

(** [s.match(re)] for a pattern without [g]: the leftmost match. *)
Fixpoint search_from (fl : flags) (r : regex) (bef : list ascii) (s : string)
  {struct s} : option rmatch :=
  match match_here fl r bef s with
  | Some m => Some m
  | None =>
      match s with
      | EmptyString => None
      | String c s' => search_from fl r (c :: bef) s'
      end
  end.

Definition search (fl : flags) (r : regex) (s : string) : option rmatch :=
  search_from fl r [] s.

(** [s.replace(re, '')] for a global pattern: every match is dropped. *)
Fixpoint remove_from (fl : flags) (r : regex) (bef : list ascii) (s : string) (skip : nat)
  {struct s} : string :=
  match skip with
  | S k =>
      match s with
      | EmptyString => EmptyString
      | String c s' => remove_from fl r (c :: bef) s' k
      end
  | 0 =>
      match match_here fl r bef s, s with
      | Some m, String c s' =>
          match String.length (whole m) with
          | S k => remove_from fl r (c :: bef) s' k
          | 0 => String c (remove_from fl r (c :: bef) s' 0)
          end
      | None, String c s' => String c (remove_from fl r (c :: bef) s' 0)
      | _, EmptyString => EmptyString
      end
  end.

Definition removeAll (fl : flags) (r : regex) (s : string) : string :=
  remove_from fl r [] s 0.

End Regex.

(* ================================================================== *)
(** * Objects used as dictionaries, arrays used as sets, exceptions *)
(* ================================================================== *)

Module Dict.

Definition dict (V : Type) : Type := list (string * V).

Section Ops.
Variable V : Type.

(** The own property [k] of [d], if there is one. *)
Fixpoint get (d : dict V) (k : string) : option V :=
  match d with
  | [] => None
  | (k', v) :: d' => if String.eqb k' k then Some v else get d' k
  end.

(** [d[k] = v]: an existing key keeps its place, a new key goes last. *)
Fixpoint set (d : dict V) (k : string) (v : V) : dict V :=
  match d with
  | [] => [(k, v)]
  | (k', v') :: d' =>
      if String.eqb k' k then (k', v) :: d' else (k', v') :: set d' k v
  end.

(** [Object.keys(d)], for keys that are not canonical array indices
    (such keys would come first, in increasing order). *)
Definition keys (d : dict V) : list string := map fst d.

(** [Object.values(d)] *)
Definition values (d : dict V) : list V := map snd d.

End Ops.

(** The names of the members an object literal inherits from
    [Object.prototype]. *)
Definition prototypeNames : list string :=
  [ "constructor"; "hasOwnProperty"; "isPrototypeOf"; "propertyIsEnumerable";
    "toLocaleString"; "toString"; "valueOf"; "__proto__";
    "__defineGetter__"; "__defineSetter__"; "__lookupGetter__"; "__lookupSetter__" ].

Definition inherited (k : string) : bool := existsb (String.eqb k) prototypeNames.

(** What the expression [d[k]] evaluates to: the own property, a member
    of the prototype, or [undefined]. *)
Inductive slot (V : Type) : Type :=
| Own : V -> slot V
| Member : slot V
| Undefined : slot V.

Arguments Own {V} _.
Arguments Member {V}.
Arguments Undefined {V}.

Definition read {V : Type} (d : dict V) (k : string) : slot V :=
  match get d k with
  | Some v => Own v
  | None => if inherited k then Member else Undefined
  end.

(** The property key an inherited member is converted to when it is used
    as one: the text of a built-in function, and of [Object.prototype]
    itself for [__proto__]. *)
Definition memberText (k : string) : string :=
  if String.eqb k "__proto__" then "[object Object]"
  else ("function " ++ (if String.eqb k "constructor" then "Object" else k)
          ++ "() { [native code] }")%string.

End Dict.

(** [xs.includes(x)] and [set.has(x)] on strings. *)
Definition mem (x : string) (xs : list string) : bool :=
  existsb (String.eqb x) xs.

(** [[...new Set(xs)]]: the first occurrence of each element, in order. *)
Fixpoint uniq_from (seen : list string) (xs : list string) : list string :=
  match xs with
  | [] => []
  | x :: xs' =>
      if mem x seen then uniq_from seen xs' else x :: uniq_from (x :: seen) xs'
  end.

Definition uniq (xs : list string) : list string := uniq_from [] xs.

(** [xs.sort()] on strings: increasing order of code units. *)
Fixpoint insert_sorted (x : string) (xs : list string) : list string :=
  match xs with
  | [] => [x]
  | y :: ys => if String.leb x y then x :: xs else y :: insert_sorted x ys
  end.

Definition sort (xs : list string) : list string :=
  fold_right insert_sorted [] xs.

(** The outcome of a call: a value, or a thrown [Error] with its message. *)
Inductive res (A : Type) : Type :=
| Ok : A -> res A
| Err : string -> res A.

Arguments Ok {A} _.
Arguments Err {A} _.

Definition bind {A B : Type} (m : res A) (f : A -> res B) : res B :=
  match m with
  | Ok a => f a
  | Err e => Err e
  end.

Notation "x <- m ;; k" := (bind m (fun x => k))
  (at level 61, m at next level, right associativity).

(** The message of the [TypeError] raised by [undefined.push(...)]. *)
Definition type_error : string := "Cannot read properties of undefined (reading 'push')".

(** The message of the [TypeError] raised by [x.push(...)] when the value
    of the expression [x] has no [push]. *)
Definition not_a_function (expression : string) : string :=
  (expression ++ ".push is not a function")%string.

(* ================================================================== *)
(** * What the three tools share word for word *)
(* ================================================================== *)

Module Scanner.
Import JsString Regex.

Definition nl : ascii := ascii_of_nat 10.

(** A kind that the pattern below takes for what it is: a word of ASCII
    letters and digits.  Any other character may be special in a pattern
    or fold its case outside the ASCII range.  The lower-case form of the
    kind, which becomes the [type] of the blocks and a key of the objects
    that count the blocks by type, is no name of an inherited member. *)
Definition plainKind (kind : string) : bool :=
  every (fun c => is_alpha c || is_digit c) kind
  && negb (Dict.inherited (toLowerCase kind)).

Definition plainKinds (theoremTypes : list string) : bool :=
  forallb plainKind theoremTypes.

(** [new RegExp(`\\begin\{(${theoremTypes.join('|')})\}(?:\[(.*?)\])?(?:\{(.*?)\})?`, 'gi')].
    The kinds are spliced into the pattern unescaped; they are embedded
    here as literal words, which is the meaning of the pattern for the
    kinds that satisfy [plainKinds]. *)
Definition beginPattern (theoremTypes : list string) : regex :=
  Seqs [ Lit "\begin{"; Grp 1 (Alts (map Lit theoremTypes)); Chr "}";
         Opt (Seqs [Chr "["; Grp 2 (Star false Dot); Chr "]"]);
         Opt (Seqs [Chr "{"; Grp 3 (Star false Dot); Chr "}"]) ].

(** [/\\end\{([^}]+)\}/gi] *)
Definition endPattern : regex :=
  Seqs [ Lit "\end{"; Grp 1 (Plus (NotChr "}")); Chr "}" ].

(** An entry of [theoremStack]. *)
Record open_entry : Type := OpenEntry {
  o_type : string;
  o_name : option string;
  o_label : option string;
  o_startLine : nat;
  o_startIndex : nat
}.

(** [content.substring(0, index).split('\n').length] *)
Definition getLineNumber (content : string) (index : nat) : nat :=
  S (count_char nl (substring content 0 index)).

(** The group [n] of a match, the empty string when it took part in no
    match (only used where the group always takes part). *)
Definition group_or_empty (n : nat) (m : rmatch) : string :=
  match group n m with
  | Some s => s
  | None => EmptyString
  end.

Definition open_of_match (content : string) (m : rmatch) : open_entry :=
  OpenEntry (toLowerCase (group_or_empty 1 m)) (group 2 m) (group 3 m)
            (getLineNumber content (Regex.index m)) (Regex.index m).

(** First pass.  [poll] is the number of reads of [signal.aborted] made
    so far; the updated count is returned with the stack. *)
Fixpoint firstPass (abortMessage : string) (signal : nat -> bool) (content : string)
         (ms : list rmatch) (poll : nat) (theoremStack : list open_entry)
  : res (list open_entry * nat) :=
  match ms with
  | [] => Ok (theoremStack, poll)
  | m :: ms' =>
      if signal poll then Err abortMessage
      else firstPass abortMessage signal content ms' (S poll)
                     (theoremStack ++ [open_of_match content m])
  end.

(** The inner [for] loop of the second pass: the first entry at or after
    [currentTheorem] whose type is [endType.toLowerCase()]. *)
Fixpoint findOpen_from (ty : string) (i : nat) (entries : list open_entry)
  : option (nat * open_entry) :=
  match entries with
  | [] => None
  | e :: entries' =>
      if String.eqb (o_type e) ty then Some (i, e)
      else findOpen_from ty (S i) entries'
  end.

Definition findOpen (theoremStack : list open_entry) (currentTheorem : nat) (endType : string)
  : option (nat * open_entry) :=
  findOpen_from (toLowerCase endType) currentTheorem (skipn currentTheorem theoremStack).

(** [content.substring(theorem.startIndex, endIndex + fullMatch.length)] *)
Definition rawContentOf (content : string) (e : open_entry) (m : rmatch) : string :=
  substring content (o_startIndex e) (Regex.index m + String.length (whole m)).

(** The patterns of [extractStatement]. *)
Definition statementBegin : regex :=
  Seqs [ Lit "\begin{"; Plus (NotChr "}"); Chr "}";
         Opt (Seqs [Chr "["; Star true (NotChr "]"); Chr "]"]);
         Opt (Seqs [Chr "{"; Star true (NotChr "}"); Chr "}"]) ].

Definition statementEnd : regex :=
  Seqs [ Lit "\end{"; Plus (NotChr "}"); Chr "}" ].

(** [/\\label\{[^}]*\}/g] *)
Definition labelCommand : regex :=
  Seqs [ Lit "\label{"; Star true (NotChr "}"); Chr "}" ].

(** [/^\s*\n+/gm] and [/\s*\n+\s*$/gm] *)
Definition leadingBlank : regex :=
  Seqs [ Bol; Star true (Cls is_space); Plus (Chr nl) ].

Definition trailingBlank : regex :=
  Seqs [ Star true (Cls is_space); Plus (Chr nl); Star true (Cls is_space); Eol ].

Definition index_or_zero (o : option nat) : nat :=
  match o with
  | Some i => i
  | None => 0
  end.

Definition extractStatement (rawContent : string) : string :=
  match search no_flags statementBegin rawContent,
        search no_flags statementEnd rawContent with
  | Some beginMatch, Some endMatch =>
      let start := Regex.index beginMatch + String.length (whole beginMatch) in
      let end_ := index_or_zero (lastIndexOf rawContent (whole endMatch)) in
      let statement := trim (substring rawContent start end_) in
      let statement := removeAll no_flags labelCommand statement in
      let statement := removeAll flag_m leadingBlank statement in
      removeAll flag_m trailingBlank statement
  | _, _ => trim rawContent
  end.

(** [/\\ref\{([^}]+)\}/g] and [/\\eqref\{([^}]+)\}/g] *)
Definition refPattern : regex :=
  Seqs [ Lit "\ref{"; Grp 1 (Plus (NotChr "}")); Chr "}" ].

Definition eqrefPattern : regex :=
  Seqs [ Lit "\eqref{"; Grp 1 (Plus (NotChr "}")); Chr "}" ].

Definition refArguments (content : string) : list string :=
  map (group_or_empty 1) (execAll no_flags refPattern content).

Definition eqrefArguments (content : string) : list string :=
  map (group_or_empty 1) (execAll no_flags eqrefPattern content).

Definition extractReferences (content : string) : list string :=
  let references := refArguments content in
  let references := references ++ eqrefArguments content in
  uniq references.

(** The character class of the ten mathematical glyphs.  All of them are
    code units from U+2200 on, so no code unit of the modelled range is
    in the class. *)
Definition is_glyph (c : ascii) : bool := false.

Definition word : regex := Plus (Cls is_alpha).

(** The five [symbolPatterns], with their flags. *)
Definition symbolPatterns : list (flags * regex) :=
  [ (no_flags, Seq (Chr "\") (Grp 1 word));
    (no_flags, Seqs [Chr "$"; Grp 1 (Plus (NotChr "$")); Chr "$"]);
    (no_flags, Seqs [Lit "\["; Grp 1 (Plus (NotChr "]")); Lit "\]"]);
    (flag_s, Seqs [Lit "\begin{equation}"; Grp 1 (Star false Dot); Lit "\end{equation}"]);
    (flag_s, Seqs [Lit "\begin{align}"; Grp 1 (Star false Dot); Lit "\end{align}"]) ].

(** [/\\[a-zA-Z]+|[a-zA-Z]+|[...glyphs...]/g] *)
Definition innerSymbol : regex :=
  Alts [ Seq (Chr "\") word; word; Cls is_glyph ].

(** The body of the [while] loop for one match of one pattern. *)
Definition symbolsOfMatch (m : rmatch) : list string :=
  match group 1 m with
  | Some symbolContent =>
      if truthy symbolContent
      then map whole (execAll no_flags innerSymbol symbolContent)
      else []
  | None => []
  end.

Definition extractSymbols (content : string) : list string :=
  let symbols :=
    flat_map (fun p => flat_map symbolsOfMatch (execAll (fst p) (snd p) content))
             symbolPatterns in
  sort (uniq symbols).

End Scanner.

(* ================================================================== *)
(** * TheoremIndexerTool *)
(* ================================================================== *)

Module TheoremIndexerTool.
Import JsString Regex Dict Scanner.

Record IndexedTheorem : Type := mkIndexedTheorem {
  id : string;
  type : string;
  name : option string;
  label : option string;
  statement : string;
  filePath : string;
  lineNumber : nat;
  endLineNumber : nat;
  rawContent : string;
  references : list string;
  symbols : list string;
  dependencies : list string;
  dependents : list string;
  index : nat
}.

(** [index.theorems] holds the theorem objects of the result array: an
    entry is the position of the object in that array. *)
Record TheoremIndex : Type := mkTheoremIndex {
  labelToId : dict string;
  theorems : dict nat;
  typeIndex : dict (list string);
  symbolIndex : dict (list string);
  dependencyGraph : dict (list string);
  reverseDependencyGraph : dict (list string)
}.

(** The optional parameters; [None] is an absent property. *)
Record TheoremIndexerParams : Type := mkParams {
  theorem_types : option (list string);
  extract_symbols : option bool;
  extract_references : option bool;
  build_dependencies : option bool
}.

Definition default_params : TheoremIndexerParams := mkParams None None None None.

(** [p !== false] *)
Definition not_false (p : option bool) : bool :=
  match p with
  | Some false => false
  | _ => true
  end.

Definition defaultTheoremTypes : list string :=
  [ "theorem"; "lemma"; "corollary"; "proposition"; "definition";
    "example"; "remark"; "proof"; "conjecture"; "axiom" ].

(** [params.theorem_types || [...]]: an array, even empty, is truthy. *)
Definition theoremTypesOf (params : TheoremIndexerParams) : list string :=
  match theorem_types params with
  | Some ts => ts
  | None => defaultTheoremTypes
  end.

Definition generateTheoremId (type : string) (label : option string) (counter : nat) : string :=
  match label with
  | Some l => if truthy l then l else (type ++ "_" ++ of_nat (counter + 1))%string
  | None => (type ++ "_" ++ of_nat (counter + 1))%string
  end.

Definition abortMessage : string := "Theorem indexing was aborted".

(** The state of the second pass. *)
Record pass_state : Type := PassState {
  currentTheorem : nat;
  theoremCounter : nat;
  found : list IndexedTheorem
}.

(** The block built when the closing delimiter [m] meets the entry
    [theorem]; [counter] is [theoremCounter] before its increment. *)
Definition makeTheorem (content filePath : string) (params : TheoremIndexerParams)
           (theorem : open_entry) (m : rmatch) (counter : nat) : IndexedTheorem :=
  let rawContent := rawContentOf content theorem m in
  {| id := generateTheoremId (o_type theorem) (o_label theorem) counter;
     type := o_type theorem;
     name := o_name theorem;
     label := o_label theorem;
     statement := extractStatement rawContent;
     filePath := filePath;
     lineNumber := o_startLine theorem;
     endLineNumber := getLineNumber content (Regex.index m);
     rawContent := rawContent;
     references := if not_false (extract_references params)
                   then extractReferences rawContent else [];
     symbols := if not_false (extract_symbols params)
                then extractSymbols rawContent else [];
     dependencies := [];
     dependents := [];
     index := S counter |}.

(** One turn of the second [while] loop, after the poll. *)
Definition closeStep (content filePath : string) (params : TheoremIndexerParams)
           (theoremStack : list open_entry) (st : pass_state) (m : rmatch) : pass_state :=
  match findOpen theoremStack (currentTheorem st) (group_or_empty 1 m) with
  | Some (i, theorem) =>
      PassState (S i) (S (theoremCounter st))
                (found st ++ [makeTheorem content filePath params theorem m (theoremCounter st)])
  | None => st
  end.

Fixpoint secondPass (signal : nat -> bool) (content filePath : string)
         (params : TheoremIndexerParams) (theoremStack : list open_entry)
         (ms : list rmatch) (poll : nat) (st : pass_state) : res pass_state :=
  match ms with
  | [] => Ok st
  | m :: ms' =>
      if signal poll then Err abortMessage
      else secondPass signal content filePath params theoremStack ms' (S poll)
                      (closeStep content filePath params theoremStack st m)
  end.

(** The two passes of [indexTheorems]: the blocks as they are before
    [buildIndex] fills their dependency lists. *)
Definition scanTheorems (content filePath : string) (params : TheoremIndexerParams)
           (signal : nat -> bool) : res (list IndexedTheorem) :=
  let theoremTypes := theoremTypesOf params in
  sp <- firstPass abortMessage signal content
                  (execAll flag_i (beginPattern theoremTypes) content) 0 [] ;;
  st <- secondPass signal content filePath params (fst sp)
                   (execAll flag_i endPattern content) (snd sp) (PassState 0 0 []) ;;
  Ok (found st).


(** ** [buildIndex] *)

Definition emptyIndex : TheoremIndex := mkTheoremIndex [] [] [] [] [] [].

(** A block none of whose strings that [buildIndex] uses as a property
    key is the name of an inherited member. *)
Definition plainBlock (t : IndexedTheorem) : bool :=
  negb (inherited (id t))
  && negb (inherited (type t))
  && match label t with
     | Some l => negb (inherited l)
     | None => true
     end
  && forallb (fun reference => negb (inherited reference)) (references t)
  && forallb (fun symbol => negb (inherited symbol)) (symbols t).

Definition plainBlocks (ts : list IndexedTheorem) : bool := forallb plainBlock ts.

(** [if (!d[k]) d[k] = []; d[k].push(v)].  An array is truthy and so is
    an inherited member, which is therefore not replaced and has no
    [push]. *)
Definition pushInit (expression : string) (d : dict (list string)) (k v : string)
  : res (dict (list string)) :=
  match read d k with
  | Own l => Ok (set d k (l ++ [v]))
  | Member => Err (not_a_function expression)
  | Undefined => Ok (set d k [v])
  end.

(** [d[k].push(v)] *)
Definition push (expression : string) (d : dict (list string)) (k v : string)
  : res (dict (list string)) :=
  match read d k with
  | Own l => Ok (set d k (l ++ [v]))
  | Member => Err (not_a_function expression)
  | Undefined => Err type_error
  end.

(** The loop over [theorem.symbols]. *)
Fixpoint pushSymbols (theoremId : string) (symbols : list string) (d : dict (list string))
  : res (dict (list string)) :=
  match symbols with
  | [] => Ok d
  | symbol :: symbols' =>
      d' <- pushInit "index.symbolIndex[symbol]" d symbol theoremId ;;
      pushSymbols theoremId symbols' d'
  end.

(** The body of the first loop, for the theorem at position [pos].  The
    three assignments create or overwrite an own property, whatever the
    key, except for the key [__proto__], which is assigned through the
    accessor of the prototype and creates none: [plainBlock] excludes that
    label and that identifier. *)
Definition addBasic (idx : TheoremIndex) (pos : nat) (theorem : IndexedTheorem)
  : res TheoremIndex :=
  let labels :=
    match label theorem with
    | Some l => if truthy l then set (labelToId idx) l (id theorem) else labelToId idx
    | None => labelToId idx
    end in
  let objects := set (theorems idx) (id theorem) pos in
  types <- pushInit "index.typeIndex[theorem.type]"
                    (typeIndex idx) (type theorem) (id theorem) ;;
  syms <- pushSymbols (id theorem) (symbols theorem) (symbolIndex idx) ;;
  Ok {| labelToId := labels;
        theorems := objects;
        typeIndex := types;
        symbolIndex := syms;
        dependencyGraph := set (dependencyGraph idx) (id theorem) [];
        reverseDependencyGraph := set (reverseDependencyGraph idx) (id theorem) [] |}.

Fixpoint basicIndices (idx : TheoremIndex) (pos : nat) (ts : list IndexedTheorem)
  : res TheoremIndex :=
  match ts with
  | [] => Ok idx
  | t :: ts' =>
      idx' <- addBasic idx pos t ;;
      basicIndices idx' (S pos) ts'
  end.

(** The array of theorem objects while the second loop mutates it. *)
Definition store : Type := list IndexedTheorem.

Fixpoint update_at (pos : nat) (f : IndexedTheorem -> IndexedTheorem) (s : store)
  {struct s} : store :=
  match s, pos with
  | [], _ => []
  | t :: s', 0 => f t :: s'
  | t :: s', S pos' => t :: update_at pos' f s'
  end.

Definition pushDependency (d : string) (t : IndexedTheorem) : IndexedTheorem :=
  {| id := id t; type := type t; name := name t; label := label t;
     statement := statement t; filePath := filePath t;
     lineNumber := lineNumber t; endLineNumber := endLineNumber t;
     rawContent := rawContent t; references := references t;
     symbols := symbols t;
     dependencies := dependencies t ++ [d];
     dependents := dependents t;
     index := index t |}.

Definition pushDependent (d : string) (t : IndexedTheorem) : IndexedTheorem :=
  {| id := id t; type := type t; name := name t; label := label t;
     statement := statement t; filePath := filePath t;
     lineNumber := lineNumber t; endLineNumber := endLineNumber t;
     rawContent := rawContent t; references := references t;
     symbols := symbols t;
     dependencies := dependencies t;
     dependents := dependents t ++ [d];
     index := index t |}.

(** The body of the test of the inner loop, for the theorem at position
    [pos] and a value [referencedId] that passed the test. *)
Definition link (pos : nat) (theoremId referencedId : string)
           (st : TheoremIndex * store) : res (TheoremIndex * store) :=
  let (idx, objs) := st in
  dg <- push "index.dependencyGraph[theorem.id]"
             (dependencyGraph idx) theoremId referencedId ;;
  rdg <- push "index.reverseDependencyGraph[referencedId]"
              (reverseDependencyGraph idx) referencedId theoremId ;;
  let objs := update_at pos (pushDependency referencedId) objs in
  objs <- match read (theorems idx) referencedId with
          | Own q => Ok (update_at q (pushDependent theoremId) objs)
          | Member => Err type_error
          | Undefined => Ok objs
          end ;;
  Ok ({| labelToId := labelToId idx; theorems := theorems idx;
         typeIndex := typeIndex idx; symbolIndex := symbolIndex idx;
         dependencyGraph := dg; reverseDependencyGraph := rdg |}, objs).

(** The body of the inner loop, for one reference of the theorem at
    position [pos]: [referencedId && referencedId !== theorem.id].  A
    reference that names an inherited member reads that member: it is
    truthy and it is no string, so the test passes; where it is then used
    as a property key, and in the lists it is pushed on, it stands as the
    text it is converted to. *)
Definition addReference (pos : nat) (theoremId : string)
           (st : TheoremIndex * store) (reference : string) : res (TheoremIndex * store) :=
  match read (labelToId (fst st)) reference with
  | Own referencedId =>
      if truthy referencedId && negb (String.eqb referencedId theoremId)
      then link pos theoremId referencedId st
      else Ok st
  | Member => link pos theoremId (memberText reference) st
  | Undefined => Ok st
  end.

Fixpoint addReferences (pos : nat) (theoremId : string) (refs : list string)
         (st : TheoremIndex * store) : res (TheoremIndex * store) :=
  match refs with
  | [] => Ok st
  | r :: refs' =>
      st' <- addReference pos theoremId st r ;;
      addReferences pos theoremId refs' st'
  end.

(** The second loop, over the theorems from position [pos] on. *)
Fixpoint linkTheorems (pos : nat) (ts : list IndexedTheorem)
         (st : TheoremIndex * store) : res (TheoremIndex * store) :=
  match ts with
  | [] => Ok st
  | t :: ts' =>
      st' <- addReferences pos (id t) (references t) st ;;
      linkTheorems (S pos) ts' st'
  end.

(** The index, and the array of theorem objects as [buildIndex] leaves
    it. *)
Definition buildIndex (ts : list IndexedTheorem) (buildDependencies : bool)
  : res (TheoremIndex * store) :=
  idx <- basicIndices emptyIndex 0 ts ;;
  if buildDependencies then linkTheorems 0 ts (idx, ts) else Ok (idx, ts).

(** ** [detectCyclicDependencies] *)

(** [cycles], [visited], [recursionStack] and the array [path] that the
    calls of [dfs] share. *)
Record dfs_state : Type := DfsState {
  cycles : list (list string);
  visited : list string;
  recursionStack : list string;
  path : list string
}.

Fixpoint index_of (x : string) (xs : list string) : option nat :=
  match xs with
  | [] => None
  | y :: ys => if String.eqb y x then Some 0 else option_map S (index_of x ys)
  end.

(** [path.slice(path.indexOf(node))]; a start of -1 selects the last
    element. *)
Definition slice_from (node : string) (path : list string) : list string :=
  match index_of node path with
  | Some i => skipn i path
  | None => skipn (List.length path - 1) path
  end.

Definition delete (x : string) (xs : list string) : list string :=
  filter (fun y => negb (String.eqb y x)) xs.

(** [dependencyGraph[node] || []] *)
Definition successors (g : dict (list string)) (node : string) : list string :=
  match get g node with
  | Some deps => deps
  | None => []
  end.

(** The recursive closure [dfs]; [fuel] bounds the depth of the calls and
    [None] means that the bound was reached. *)
Fixpoint dfs (g : dict (list string)) (fuel : nat) (node : string) (st : dfs_state)
  : option dfs_state :=
  match fuel with
  | 0 => None
  | S fuel' =>
      if mem node (recursionStack st) then
        Some (DfsState (cycles st ++ [slice_from node (path st) ++ [node]])
                       (visited st) (recursionStack st) (path st))
      else if mem node (visited st) then Some st
      else
        let st1 := DfsState (cycles st) (node :: visited st)
                            (node :: recursionStack st) (path st ++ [node]) in
        match fold_left
                (fun acc dep =>
                   match acc with
                   | Some s => dfs g fuel' dep s
                   | None => None
                   end)
                (successors g node) (Some st1) with
        | Some st2 =>
            Some (DfsState (cycles st2) (visited st2)
                           (delete node (recursionStack st2))
                           (removelast (path st2)))
        | None => None
        end
  end.

(** The loop over [Object.keys(dependencyGraph)]; each top-level call
    gets a fresh [path]. *)
Fixpoint dfsAll (g : dict (list string)) (fuel : nat) (nodes : list string) (st : dfs_state)
  : option dfs_state :=
  match nodes with
  | [] => Some st
  | node :: nodes' =>
      if mem node (visited st) then dfsAll g fuel nodes' st
      else
        match dfs g fuel node (DfsState (cycles st) (visited st) (recursionStack st) []) with
        | Some st' => dfsAll g fuel nodes' st'
        | None => None
        end
  end.

(** Every identifier of the graph, keys and targets. *)
Definition nodesOf (g : dict (list string)) : list string :=
  keys g ++ flat_map snd g.

Definition detectCyclicDependencies_run (g : dict (list string)) : option (list (list string)) :=
  option_map cycles (dfsAll g (S (List.length (nodesOf g))) (keys g) (DfsState [] [] [] [])).

(** The depth bound is never reached ([detectCyclicDependencies_total]
    below), so the default is never used. *)
Definition detectCyclicDependencies (g : dict (list string)) : list (list string) :=
  match detectCyclicDependencies_run g with
  | Some cs => cs
  | None => []
  end.

(** ** [generateIndexingSummary] and [indexTheorems] *)

Record Summary : Type := mkSummary {
  totalTheorems : nat;
  theoremsByType : dict nat;
  uniqueSymbols : list string;
  totalReferences : nat;
  totalDependencies : nat;
  orphanedTheorems : nat;
  cyclicDependencies : list (list string)
}.

(** [d[k] = (d[k] || 0) + 1].  The keys are the types of the blocks
    [buildIndex] has accepted, none of them the name of an inherited
    member. *)
Definition countUp (d : dict nat) (k : string) : dict nat :=
  match get d k with
  | Some n => set d k (n + 1)
  | None => set d k 1
  end.

Definition isOrphan (t : IndexedTheorem) : bool :=
  (List.length (dependencies t) =? 0) && (List.length (dependents t) =? 0).

Definition generateIndexingSummary (ts : list IndexedTheorem) (idx : TheoremIndex) : Summary :=
  {| totalTheorems := List.length ts;
     theoremsByType := fold_left (fun d t => countUp d (type t)) ts [];
     uniqueSymbols := sort (uniq (flat_map symbols ts));
     totalReferences := list_sum (map (fun t => List.length (references t)) ts);
     totalDependencies := list_sum (map (fun t => List.length (dependencies t)) ts);
     orphanedTheorems := List.length (filter isOrphan ts);
     cyclicDependencies := detectCyclicDependencies (dependencyGraph idx) |}.

Record TheoremIndexingResult : Type := mkResult {
  r_index : TheoremIndex;
  r_theorems : list IndexedTheorem;
  r_summary : Summary
}.

Definition indexTheorems (content filePath : string) (params : TheoremIndexerParams)
           (signal : nat -> bool) : res TheoremIndexingResult :=
  ts <- scanTheorems content filePath params signal ;;
  built <- buildIndex ts (not_false (build_dependencies params)) ;;
  Ok (mkResult (fst built) (snd built) (generateIndexingSummary (snd built) (fst built))).

(** ** The run of [buildIndex] on own properties

    The two loops of [buildIndex] as they run when every read finds an own
    property or nothing: the prototype of the objects plays no part.  On
    blocks that satisfy [plainBlocks] this is what [buildIndex] does (see
    [buildIndex_plain]); the properties of [buildIndex] are proved on this
    run and carried over. *)

(** [if (!d[k]) d[k] = []; d[k].push(v)] on own properties. *)
Definition pushInitOwn (d : dict (list string)) (k v : string) : dict (list string) :=
  match get d k with
  | Some l => set d k (l ++ [v])
  | None => set d k [v]
  end.

(** [d[k].push(v)] on own properties, a [TypeError] when [d[k]] is
    [undefined]. *)
Definition pushOwn (d : dict (list string)) (k v : string) : res (dict (list string)) :=
  match get d k with
  | Some l => Ok (set d k (l ++ [v]))
  | None => Err type_error
  end.

(** The body of the first loop, for the theorem at position [pos]. *)
Definition addBasicOwn (idx : TheoremIndex) (pos : nat) (theorem : IndexedTheorem) : TheoremIndex :=
  {| labelToId :=
       match label theorem with
       | Some l => if truthy l then set (labelToId idx) l (id theorem) else labelToId idx
       | None => labelToId idx
       end;
     theorems := set (theorems idx) (id theorem) pos;
     typeIndex := pushInitOwn (typeIndex idx) (type theorem) (id theorem);
     symbolIndex :=
       fold_left (fun d symbol => pushInitOwn d symbol (id theorem))
                 (symbols theorem) (symbolIndex idx);
     dependencyGraph := set (dependencyGraph idx) (id theorem) [];
     reverseDependencyGraph := set (reverseDependencyGraph idx) (id theorem) [] |}.

Fixpoint basicIndicesOwn (idx : TheoremIndex) (pos : nat) (ts : list IndexedTheorem) : TheoremIndex :=
  match ts with
  | [] => idx
  | t :: ts' => basicIndicesOwn (addBasicOwn idx pos t) (S pos) ts'
  end.

(** Does the reference [reference] of the theorem [theoremId] make an
    edge, and to which identifier: [referencedId && referencedId !==
    theorem.id]. *)
Definition resolve (labels : dict string) (theoremId reference : string) : option string :=
  match get labels reference with
  | Some referencedId =>
      if truthy referencedId && negb (String.eqb referencedId theoremId)
      then Some referencedId else None
  | None => None
  end.

(** The body of the inner loop, for one reference of the theorem at
    position [pos]. *)
Definition addReferenceOwn (pos : nat) (theoremId : string)
           (st : TheoremIndex * store) (reference : string) : res (TheoremIndex * store) :=
  let (idx, objs) := st in
  match resolve (labelToId idx) theoremId reference with
  | Some referencedId =>
      dg <- pushOwn (dependencyGraph idx) theoremId referencedId ;;
      rdg <- pushOwn (reverseDependencyGraph idx) referencedId theoremId ;;
      let objs := update_at pos (pushDependency referencedId) objs in
      let objs :=
        match get (theorems idx) referencedId with
        | Some q => update_at q (pushDependent theoremId) objs
        | None => objs
        end in
      Ok ({| labelToId := labelToId idx; theorems := theorems idx;
             typeIndex := typeIndex idx; symbolIndex := symbolIndex idx;
             dependencyGraph := dg; reverseDependencyGraph := rdg |}, objs)
  | None => Ok st
  end.

Fixpoint addReferencesOwn (pos : nat) (theoremId : string) (refs : list string)
         (st : TheoremIndex * store) : res (TheoremIndex * store) :=
  match refs with
  | [] => Ok st
  | r :: refs' =>
      st' <- addReferenceOwn pos theoremId st r ;;
      addReferencesOwn pos theoremId refs' st'
  end.

(** The second loop, over the theorems from position [pos] on. *)
Fixpoint linkTheoremsOwn (pos : nat) (ts : list IndexedTheorem)
         (st : TheoremIndex * store) : res (TheoremIndex * store) :=
  match ts with
  | [] => Ok st
  | t :: ts' =>
      st' <- addReferencesOwn pos (id t) (references t) st ;;
      linkTheoremsOwn (S pos) ts' st'
  end.

Definition buildIndexOwn (ts : list IndexedTheorem) (buildDependencies : bool)
  : res (TheoremIndex * store) :=
  let idx := basicIndicesOwn emptyIndex 0 ts in
  if buildDependencies then linkTheoremsOwn 0 ts (idx, ts) else Ok (idx, ts).

Definition indexTheoremsOwn (content filePath : string) (params : TheoremIndexerParams)
           (signal : nat -> bool) : res TheoremIndexingResult :=
  ts <- scanTheorems content filePath params signal ;;
  built <- buildIndexOwn ts (not_false (build_dependencies params)) ;;
  Ok (mkResult (fst built) (snd built) (generateIndexingSummary (snd built) (fst built))).

End TheoremIndexerTool.

(* ================================================================== *)
(** * GetProofTool *)
(* ================================================================== *)

Module GetProofTool.
Import JsString Regex Scanner.

Record ProofResult : Type := mkProofResult {
  type : string;
  name : option string;
  label : option string;
  statement : string;
  proof : option string;
  filePath : string;
  lineNumber : nat;
  endLineNumber : nat;
  proofStartLine : option nat;
  proofEndLine : option nat;
  rawContent : string;
  rawProofContent : option string;
  hasProof : bool
}.

Record GetProofParams : Type := mkParams {
  theorem_identifier : string;
  theorem_types : option (list string);
  fuzzy_match : option bool
}.

Record GetProofResult : Type := mkGetProofResult {
  result : option ProofResult;
  found : bool;
  error : option string;
  potentialMatches : list ProofResult
}.

Definition defaultTheoremTypes : list string :=
  [ "theorem"; "lemma"; "corollary"; "proposition"; "definition";
    "example"; "remark"; "conjecture"; "axiom" ].

Definition abortMessage : string := "Proof extraction was aborted".

(** [/\\label\{([^}]+)\}/] *)
Definition labelPattern : regex :=
  Seqs [ Lit "\label{"; Grp 1 (Plus (NotChr "}")); Chr "}" ].

(** The label of a block: that of the opening delimiter when it is
    truthy, otherwise the argument of the first labelling command of the
    raw text, if there is one. *)
Definition labelOf (theorem : open_entry) (rawContent : string) : option string :=
  if truthy_opt (o_label theorem) then o_label theorem
  else match search no_flags labelPattern rawContent with
       | Some labelMatch => group 1 labelMatch
       | None => o_label theorem
       end.

Definition makeTheorem (content filePath : string) (theorem : open_entry) (m : rmatch)
  : ProofResult :=
  let rawContent := rawContentOf content theorem m in
  {| type := o_type theorem;
     name := o_name theorem;
     label := labelOf theorem rawContent;
     statement := extractStatement rawContent;
     proof := None;
     filePath := filePath;
     lineNumber := o_startLine theorem;
     endLineNumber := getLineNumber content (Regex.index m);
     proofStartLine := None;
     proofEndLine := None;
     rawContent := rawContent;
     rawProofContent := None;
     hasProof := false |}.

(** The state of the second pass: [currentTheorem] and [theorems]. *)
Definition closeStep (content filePath : string) (theoremStack : list open_entry)
           (st : nat * list ProofResult) (m : rmatch) : nat * list ProofResult :=
  match findOpen theoremStack (fst st) (group_or_empty 1 m) with
  | Some (i, theorem) => (S i, snd st ++ [makeTheorem content filePath theorem m])
  | None => st
  end.

Fixpoint secondPass (signal : nat -> bool) (content filePath : string)
         (theoremStack : list open_entry) (ms : list rmatch) (poll : nat)
         (st : nat * list ProofResult) : res (nat * list ProofResult) :=
  match ms with
  | [] => Ok st
  | m :: ms' =>
      if signal poll then Err abortMessage
      else secondPass signal content filePath theoremStack ms' (S poll)
                      (closeStep content filePath theoremStack st m)
  end.

Definition extractAllTheorems (content filePath : string) (theoremTypes : list string)
           (signal : nat -> bool) : res (list ProofResult) :=
  sp <- firstPass abortMessage signal content
                  (execAll flag_i (beginPattern theoremTypes) content) 0 [] ;;
  st <- secondPass signal content filePath (fst sp)
                   (execAll flag_i endPattern content) (snd sp) (0, []) ;;
  Ok (snd st).

(** ** [findBestMatch] *)

(** Scores are the numbers 0, 40, 70, 80, 100 and
    [(wordMatches / words.length) * 60]; they are kept as exact
    rationals. *)
Definition num (n : nat) : Q := inject_Z (Z.of_nat n).

(** [x > y] *)
Definition gt (x y : Q) : bool := negb (Qle_bool x y).

Definition opt_test (o : option string) (p : string -> bool) : bool :=
  match o with
  | Some s => truthy s && p s
  | None => false
  end.

(** [theorem.label && theorem.label.toLowerCase() === query] *)
Definition labelIs (query : string) (theorem : ProofResult) : bool :=
  opt_test (label theorem) (fun l => String.eqb (toLowerCase l) query).

Definition nameIs (query : string) (theorem : ProofResult) : bool :=
  opt_test (name theorem) (fun n => String.eqb (toLowerCase n) query).

Definition labelHas (query : string) (theorem : ProofResult) : bool :=
  opt_test (label theorem) (fun l => includes (toLowerCase l) query).

Definition nameHas (query : string) (theorem : ProofResult) : bool :=
  opt_test (name theorem) (fun n => includes (toLowerCase n) query).

Definition typeHas (query : string) (theorem : ProofResult) : bool :=
  includes (toLowerCase (type theorem)) query.

(** The number of words of the query, longer than two code units, that
    the lower-cased statement contains. *)
Definition wordMatches (query : string) (theorem : ProofResult) : nat :=
  let statementLower := toLowerCase (statement theorem) in
  List.length
    (filter (fun word => (2 <? String.length word) && includes statementLower word)
            (split_ws query)).

Definition wordScore (query : string) (theorem : ProofResult) : Q :=
  (num (wordMatches query theorem) / num (List.length (split_ws query))) * num 60.

(** The value of [score] at the end of the loop body, for a theorem that
    did not return through the exact label test. *)
Definition scoreOf (query : string) (fuzzyMatch : bool) (theorem : ProofResult) : Q :=
  let score := num 0 in
  let score := if nameIs query theorem then num 100 else score in
  let score := if labelHas query theorem then Qmax score (num 80) else score in
  let score := if nameHas query theorem then Qmax score (num 70) else score in
  let score :=
    if fuzzyMatch
    then if 0 <? wordMatches query theorem
         then Qmax score (wordScore query theorem) else score
    else score in
  if typeHas query theorem then Qmax score (num 40) else score.

Fixpoint bestLoop (query : string) (fuzzyMatch : bool) (ts : list ProofResult)
         (bestMatch : option ProofResult) (bestScore : Q) : option ProofResult :=
  match ts with
  | [] => if gt bestScore (num 30) then bestMatch else None
  | theorem :: ts' =>
      if labelIs query theorem then Some theorem
      else
        let score := scoreOf query fuzzyMatch theorem in
        if gt score bestScore
        then bestLoop query fuzzyMatch ts' (Some theorem) score
        else bestLoop query fuzzyMatch ts' bestMatch bestScore
  end.

Definition findBestMatch (ts : list ProofResult) (identifier : string) (fuzzyMatch : bool)
  : option ProofResult :=
  let query := trim (toLowerCase identifier) in
  bestLoop query fuzzyMatch ts None (num 0).

(** ** [findProofForTheorem] *)

(** [/\\begin\{proof\}(?:\[[^\]]*\])?/i] and [/\\end\{proof\}/i] *)
Definition proofBegin : regex :=
  Seqs [ Lit "\begin{proof}"; Opt (Seqs [Chr "["; Star true (NotChr "]"); Chr "]"]) ].

Definition proofEnd : regex := Lit "\end{proof}".

Definition extractProofStatement (rawProofContent : string) : string :=
  match search flag_i proofBegin rawProofContent,
        search flag_i proofEnd rawProofContent with
  | Some beginMatch, Some endMatch =>
      let start := Regex.index beginMatch + String.length (whole beginMatch) in
      let end_ := index_or_zero (lastIndexOf rawProofContent (whole endMatch)) in
      let statement := trim (substring rawProofContent start end_) in
      let statement := removeAll flag_m leadingBlank statement in
      removeAll flag_m trailingBlank statement
  | _, _ => trim rawProofContent
  end.

Record ProofInfo : Type := mkProofInfo {
  pi_proof : option string;
  pi_rawProofContent : option string;
  pi_proofStartLine : option nat;
  pi_proofEndLine : option nat
}.

Definition noProof : ProofInfo := mkProofInfo None None None None.

Definition findProofForTheorem (content : string) (theorem : ProofResult) : ProofInfo :=
  let len := String.length (rawContent theorem) in
  (* [indexOf] is -1 only for a non-empty needle *)
  let theoremEndIndex :=
    match indexOf content (rawContent theorem) with
    | Some i => i + len
    | None => len - 1
    end in
  let remainingContent := substringFrom content theoremEndIndex in
  match search flag_i proofBegin remainingContent with
  | None => noProof
  | Some proofBeginMatch =>
      let proofStartIndex := theoremEndIndex + Regex.index proofBeginMatch in
      let proofStartLine := getLineNumber content proofStartIndex in
      let proofContent := substringFrom content proofStartIndex in
      match search flag_i proofEnd proofContent with
      | None => noProof
      | Some proofEndMatch =>
          let proofEndIndex :=
            proofStartIndex + Regex.index proofEndMatch
            + String.length (whole proofEndMatch) in
          let proofEndLine := getLineNumber content proofEndIndex in
          let rawProofContent := substring content proofStartIndex proofEndIndex in
          mkProofInfo (Some (extractProofStatement rawProofContent))
                      (Some rawProofContent) (Some proofStartLine) (Some proofEndLine)
      end
  end.

(** ** [findProof] *)

Definition withProof (t : ProofResult) (p : ProofInfo) : ProofResult :=
  {| type := type t; name := name t; label := label t;
     statement := statement t;
     proof := pi_proof p;
     filePath := filePath t;
     lineNumber := lineNumber t; endLineNumber := endLineNumber t;
     proofStartLine := pi_proofStartLine p;
     proofEndLine := pi_proofEndLine p;
     rawContent := rawContent t;
     rawProofContent := pi_rawProofContent p;
     hasProof := truthy_opt (pi_proof p) |}.

Definition notFoundMessage (identifier : string) : string :=
  ("No theorem found matching " ++ String (ascii_of_nat 34) identifier
     ++ String (ascii_of_nat 34) EmptyString)%string.

Definition findProof (content filePath : string) (params : GetProofParams)
           (signal : nat -> bool) : res GetProofResult :=
  let theoremTypes :=
    match theorem_types params with
    | Some ts => ts
    | None => defaultTheoremTypes
    end in
  ts <- extractAllTheorems content filePath theoremTypes signal ;;
  let fuzzyMatch :=
    match fuzzy_match params with
    | Some false => false
    | _ => true
    end in
  match findBestMatch ts (theorem_identifier params) fuzzyMatch with
  | None =>
      Ok {| result := None; found := false;
            error := Some (notFoundMessage (theorem_identifier params));
            potentialMatches := firstn 5 ts |}
  | Some bestMatch =>
      Ok {| result := Some (withProof bestMatch (findProofForTheorem content bestMatch));
            found := true; error := None; potentialMatches := [] |}
  end.

End GetProofTool.

(* ================================================================== *)
(** * TheoremExtractorTool *)
(* ================================================================== *)

Module TheoremExtractorTool.
Import JsString Regex Dict Scanner.

Record ExtractedTheorem : Type := mkTheorem {
  type : string;
  name : option string;
  label : option string;
  statement : string;
  filePath : string;
  lineNumber : nat;
  endLineNumber : nat;
  rawContent : string;
  references : list string;
  symbols : list string
}.

Record TheoremExtractorParams : Type := mkParams {
  theorem_types : option (list string);
  extract_symbols : option bool;
  extract_references : option bool
}.

Definition default_params : TheoremExtractorParams := mkParams None None None.

Definition not_false (p : option bool) : bool :=
  match p with
  | Some false => false
  | _ => true
  end.

Definition defaultTheoremTypes : list string :=
  [ "theorem"; "lemma"; "corollary"; "proposition"; "definition";
    "example"; "remark"; "proof"; "conjecture"; "axiom" ].

Definition theoremTypesOf (params : TheoremExtractorParams) : list string :=
  match theorem_types params with
  | Some ts => ts
  | None => defaultTheoremTypes
  end.

Definition abortMessage : string := "Theorem extraction was aborted".

Definition makeTheorem (content filePath : string) (params : TheoremExtractorParams)
           (theorem : open_entry) (m : rmatch) : ExtractedTheorem :=
  let rawContent := rawContentOf content theorem m in
  {| type := o_type theorem;
     name := o_name theorem;
     label := o_label theorem;
     statement := extractStatement rawContent;
     filePath := filePath;
     lineNumber := o_startLine theorem;
     endLineNumber := getLineNumber content (Regex.index m);
     rawContent := rawContent;
     references := if not_false (extract_references params)
                   then extractReferences rawContent else [];
     symbols := if not_false (extract_symbols params)
                then extractSymbols rawContent else [] |}.

Definition closeStep (content filePath : string) (params : TheoremExtractorParams)
           (theoremStack : list open_entry)
           (st : nat * list ExtractedTheorem) (m : rmatch) : nat * list ExtractedTheorem :=
  match findOpen theoremStack (fst st) (group_or_empty 1 m) with
  | Some (i, theorem) => (S i, snd st ++ [makeTheorem content filePath params theorem m])
  | None => st
  end.

Fixpoint secondPass (signal : nat -> bool) (content filePath : string)
         (params : TheoremExtractorParams) (theoremStack : list open_entry)
         (ms : list rmatch) (poll : nat)
         (st : nat * list ExtractedTheorem) : res (nat * list ExtractedTheorem) :=
  match ms with
  | [] => Ok st
  | m :: ms' =>
      if signal poll then Err abortMessage
      else secondPass signal content filePath params theoremStack ms' (S poll)
                      (closeStep content filePath params theoremStack st m)
  end.

Record Summary : Type := mkSummary {
  totalTheorems : nat;
  theoremsByType : dict nat;
  uniqueSymbols : list string;
  totalReferences : nat
}.

(** [d[k] = (d[k] || 0) + 1].  The keys are the types of the blocks, the
    lower-case forms of the kinds: for the kinds that satisfy
    [plainKinds] none of them is the name of an inherited member. *)
Definition countUp (d : dict nat) (k : string) : dict nat :=
  match get d k with
  | Some n => set d k (n + 1)
  | None => set d k 1
  end.

Definition generateSummary (ts : list ExtractedTheorem) : Summary :=
  {| totalTheorems := List.length ts;
     theoremsByType := fold_left (fun d t => countUp d (type t)) ts [];
     uniqueSymbols := sort (uniq (flat_map symbols ts));
     totalReferences := list_sum (map (fun t => List.length (references t)) ts) |}.

Record TheoremExtractionResult : Type := mkResult {
  r_theorems : list ExtractedTheorem;
  r_summary : Summary
}.

Definition extractTheorems (content filePath : string) (params : TheoremExtractorParams)
           (signal : nat -> bool) : res TheoremExtractionResult :=
  let theoremTypes := theoremTypesOf params in
  sp <- firstPass abortMessage signal content
                  (execAll flag_i (beginPattern theoremTypes) content) 0 [] ;;
  st <- secondPass signal content filePath params (fst sp)
                   (execAll flag_i endPattern content) (snd sp) (0, []) ;;
  Ok (mkResult (snd st) (generateSummary (snd st))).

End TheoremExtractorTool.


(* ================================================================== *)
(** * Notions used to state the properties *)
(* ================================================================== *)

Module Spec.
Import JsString Regex Scanner.

(** ** Delimiters of a document *)

(** The opening delimiters of the recognized kinds, as the first pass
    collects them, and all the closing delimiters, in document order. *)
Definition opens (theoremTypes : list string) (content : string) : list open_entry :=
  map (open_of_match content) (execAll flag_i (beginPattern theoremTypes) content).

Definition closes (content : string) : list rmatch :=
  execAll flag_i endPattern content.

Definition closeKind (m : rmatch) : string := toLowerCase (group_or_empty 1 m).

(** The offset just after a closing delimiter. *)
Definition closeEnd (m : rmatch) : nat := Regex.index m + String.length (whole m).

(** A closing delimiter counts when its kind is the kind of some opening
    delimiter of the document; the others ([\end{document}],
    [\end{equation}], ...) close nothing. *)
Definition closesSome (os : list open_entry) (m : rmatch) : bool :=
  existsb (fun o => String.eqb (o_type o) (closeKind m)) os.

Definition relevantCloses (theoremTypes : list string) (content : string) : list rmatch :=
  filter (closesSome (opens theoremTypes content)) (closes content).

(** Opening and closing delimiters alternate from the offset [from] on:
    each opening delimiter is followed by a closing delimiter of its kind
    before the next opening delimiter. *)
Fixpoint alternate (os : list open_entry) (cs : list rmatch) (from : nat) : bool :=
  match os, cs with
  | [], [] => true
  | o :: os', c :: cs' =>
      (from <=? o_startIndex o)
      && String.eqb (o_type o) (closeKind c)
      && (o_startIndex o <? Regex.index c)
      && alternate os' cs' (closeEnd c)
  | _, _ => false
  end.

(** The document consists of [n] well-formed blocks that neither overlap
    nor nest. *)
Definition wellFormed (theoremTypes : list string) (content : string) (n : nat) : Prop :=
  List.length (opens theoremTypes content) = n
  /\ alternate (opens theoremTypes content) (relevantCloses theoremTypes content) 0 = true.

(** The pairs the second pass forms: each closing delimiter takes the
    first entry of its kind at or after the cursor. *)
Fixpoint matchCloses (theoremStack : list open_entry) (cur : nat) (ms : list rmatch)
  : list (open_entry * rmatch) :=
  match ms with
  | [] => []
  | m :: ms' =>
      match findOpen theoremStack cur (group_or_empty 1 m) with
      | Some (i, o) => (o, m) :: matchCloses theoremStack (S i) ms'
      | None => matchCloses theoremStack cur ms'
      end
  end.

(** The numbers [k], [k+1], ... paired with the elements of a list. *)
Definition numbered {A : Type} (k : nat) (l : list A) : list (nat * A) :=
  combine (seq k (List.length l)) l.

(** The number of polls a scan makes when it is not cancelled: one per
    delimiter match. *)
Definition delimiterMatches (theoremTypes : list string) (content : string) : nat :=
  List.length (execAll flag_i (beginPattern theoremTypes) content)
  + List.length (closes content).

(** The signal is seen aborted by one of the first [n] polls. *)
Definition abortedWithin (signal : nat -> bool) (n : nat) : bool :=
  existsb signal (seq 0 n).

(** ** The blocks of a scan that is not cancelled *)

(** The blocks [indexTheorems] builds before [buildIndex] runs: one per
    pair of the second pass, numbered from 0 by [theoremCounter]. *)
Definition indexedBlock (content filePath : string)
           (params : TheoremIndexerTool.TheoremIndexerParams)
           (x : nat * (open_entry * rmatch)) : TheoremIndexerTool.IndexedTheorem :=
  TheoremIndexerTool.makeTheorem content filePath params (fst (snd x)) (snd (snd x)) (fst x).

Definition indexedBlocks (content filePath : string)
           (params : TheoremIndexerTool.TheoremIndexerParams)
  : list TheoremIndexerTool.IndexedTheorem :=
  let theoremTypes := TheoremIndexerTool.theoremTypesOf params in
  map (indexedBlock content filePath params)
      (numbered 0 (matchCloses (opens theoremTypes content) 0 (closes content))).

(** The blocks of [extractTheorems] and of [extractAllTheorems]. *)
Definition extractedBlock (content filePath : string)
           (params : TheoremExtractorTool.TheoremExtractorParams)
           (x : open_entry * rmatch) : TheoremExtractorTool.ExtractedTheorem :=
  TheoremExtractorTool.makeTheorem content filePath params (fst x) (snd x).

Definition extractedBlocks (content filePath : string)
           (params : TheoremExtractorTool.TheoremExtractorParams)
  : list TheoremExtractorTool.ExtractedTheorem :=
  let theoremTypes := TheoremExtractorTool.theoremTypesOf params in
  map (extractedBlock content filePath params)
      (matchCloses (opens theoremTypes content) 0 (closes content)).

Definition proofBlock (content filePath : string) (x : open_entry * rmatch)
  : GetProofTool.ProofResult :=
  GetProofTool.makeTheorem content filePath (fst x) (snd x).

Definition proofBlocks (content filePath : string) (theoremTypes : list string)
  : list GetProofTool.ProofResult :=
  map (proofBlock content filePath)
      (matchCloses (opens theoremTypes content) 0 (closes content)).

(** ** The scoring rules, in the words of the specification *)

(** The field is present, is not empty, and is the query once it is put
    in lower case. *)
Definition equalsQuery (field : option string) (query : string) : bool :=
  match field with
  | Some s => negb (String.eqb s EmptyString) && String.eqb (toLowerCase s) query
  | None => false
  end.

(** The field is present, is not empty, and contains the query once it is
    put in lower case. *)
Definition containsQuery (field : option string) (query : string) : bool :=
  match field with
  | Some s => negb (String.eqb s EmptyString) && includes (toLowerCase s) query
  | None => false
  end.

(** The scores of the rules that do not read the statement, for those
    that apply to the candidate: name equality 100, label containment 80,
    name containment 70, kind containment 40. *)
Definition ruleScores (query : string) (t : GetProofTool.ProofResult) : list nat :=
  (if equalsQuery (GetProofTool.name t) query then [100] else [])
  ++ (if containsQuery (GetProofTool.label t) query then [80] else [])
  ++ (if containsQuery (GetProofTool.name t) query then [70] else [])
  ++ (if includes (toLowerCase (GetProofTool.type t)) query then [40] else []).

(** The greatest of them, 0 when no rule applies. *)
Definition fixedScore (query : string) (t : GetProofTool.ProofResult) : Q :=
  GetProofTool.num (list_max (ruleScores query t)).

(** ** References in text order *)

(** [\ref{...}] or [\eqref{...}], whichever comes. *)
Definition anyRefPattern : regex :=
  Seqs [ Chr "\"; Opt (Lit "eq"); Lit "ref{"; Grp 1 (Plus (NotChr "}")); Chr "}" ].

(** The distinct arguments of the two commands, ordered by the first
    occurrence of each argument in the text. *)
Definition referencesInTextOrder (content : string) : list string :=
  uniq (map (group_or_empty 1) (execAll no_flags anyRefPattern content)).

End Spec.

(* ================================================================== *)
(** * Lists, strings and dictionaries *)
(* ================================================================== *)

(* ================================================================== *)
(** * Relations between the states of [buildIndex] *)
(* ================================================================== *)

Module Invariants.
Import JsString Dict TheoremIndexerTool.

(** [t'] is the object [t] after some pushes on its two dependency
    lists. *)
Record grows (t t' : IndexedTheorem) : Prop := Grows {
  g_id : id t' = id t;
  g_type : type t' = type t;
  g_name : name t' = name t;
  g_label : label t' = label t;
  g_statement : statement t' = statement t;
  g_filePath : filePath t' = filePath t;
  g_lineNumber : lineNumber t' = lineNumber t;
  g_endLineNumber : endLineNumber t' = endLineNumber t;
  g_rawContent : rawContent t' = rawContent t;
  g_references : references t' = references t;
  g_symbols : symbols t' = symbols t;
  g_index : index t' = index t;
  g_dependencies : exists more, dependencies t' = dependencies t ++ more;
  g_dependents : exists more, dependents t' = dependents t ++ more
}.

(** Every list of [d] is still in [d'], possibly longer. *)
Definition dictGrows (d d' : dict (list string)) : Prop :=
  forall k l, get d k = Some l -> exists more, get d' k = Some (l ++ more).

(** The state [st'] comes from [st] by pushes only. *)
Record extends (st st' : TheoremIndex * store) : Prop := Extends {
  e_labelToId : labelToId (fst st') = labelToId (fst st);
  e_theorems : theorems (fst st') = theorems (fst st);
  e_typeIndex : typeIndex (fst st') = typeIndex (fst st);
  e_symbolIndex : symbolIndex (fst st') = symbolIndex (fst st);
  e_graph : dictGrows (dependencyGraph (fst st)) (dependencyGraph (fst st'));
  e_reverse : dictGrows (reverseDependencyGraph (fst st)) (reverseDependencyGraph (fst st'));
  e_store : Forall2 grows (snd st) (snd st')
}.

(** The entries the pushes of the second loop rely on. *)
Definition keysReady (all : list IndexedTheorem) (st : TheoremIndex * store) : Prop :=
  (forall t, In t all -> get (dependencyGraph (fst st)) (id t) <> None)
  /\ (forall r rid, get (labelToId (fst st)) r = Some rid ->
                    get (reverseDependencyGraph (fst st)) rid <> None).

(** The reference [r] of a block of [all] with identifier [a] resolves to
    the identifier [b] of another block. *)
Definition refersTo (all : list IndexedTheorem) (labels : dict string) (a b : string) : Prop :=
  exists A r, In A all /\ id A = a /\ In r (references A) /\ resolve labels a r = Some b.

(** Every edge of both graphs comes from such a reference. *)
Definition edgesJustified (all : list IndexedTheorem) (idx : TheoremIndex) : Prop :=
  (forall a l b, get (dependencyGraph idx) a = Some l -> In b l ->
                 refersTo all (labelToId idx) a b)
  /\ (forall b l a, get (reverseDependencyGraph idx) b = Some l -> In a l ->
                    refersTo all (labelToId idx) a b).

(** [q] is the last position of [ts] at which [p] holds. *)
Definition lastAt (p : IndexedTheorem -> bool) (ts : list IndexedTheorem) (q : nat) : Prop :=
  (exists t, nth_error ts q = Some t /\ p t = true)
  /\ forall q' t', q < q' -> nth_error ts q' = Some t' -> p t' = false.

(** The test [if (theorem.label)] together with the label being [l]. *)
Definition labelled (l : string) (t : IndexedTheorem) : bool :=
  match label t with
  | Some l' => truthy l' && String.eqb l' l
  | None => false
  end.

(** The state after the body of the inner loop has run for a reference
    that resolves to [rid]. *)
Definition linked (pos : nat) (tid rid : string) (l l' : list string)
           (idx : TheoremIndex) (objs : store) : TheoremIndex * store :=
  ({| labelToId := labelToId idx; theorems := theorems idx;
      typeIndex := typeIndex idx; symbolIndex := symbolIndex idx;
      dependencyGraph := set (dependencyGraph idx) tid (l ++ [rid]);
      reverseDependencyGraph := set (reverseDependencyGraph idx) rid (l' ++ [tid]) |},
   match get (theorems idx) rid with
   | Some q => update_at q (pushDependent tid) (update_at pos (pushDependency rid) objs)
   | None => update_at pos (pushDependency rid) objs
   end).

(** The edge from the block at position [pos], of identifier [tid], to
    the identifier [rid] is in both graphs and in both blocks. *)
Definition recorded (tid rid : string) (pos : nat) (st : TheoremIndex * store) : Prop :=
  (exists l, get (dependencyGraph (fst st)) tid = Some l /\ In rid l)
  /\ (exists l, get (reverseDependencyGraph (fst st)) rid = Some l /\ In tid l)
  /\ (exists t, nth_error (snd st) pos = Some t /\ In rid (dependencies t))
  /\ (forall q, get (theorems (fst st)) rid = Some q ->
                exists t, nth_error (snd st) q = Some t /\ In tid (dependents t)).

(** The positions held by [index.theorems] are positions of the store,
    which has [n] objects. *)
Definition storeReady (n : nat) (st : TheoremIndex * store) : Prop :=
  List.length (snd st) = n
  /\ forall k q, get (theorems (fst st)) k = Some q -> q < n.

(** The number of occurrences in [universe] of the identifiers that are
    not yet visited: the measure that bounds the depth of [dfs]. *)
Definition unvisited (universe seen : list string) : nat :=
  List.length (filter (fun x => negb (mem x seen)) universe).

(** The positions held by [index.theorems] are those of blocks with the
    identifier of the entry. *)
Definition theoremsSound (all : list IndexedTheorem) (idx : TheoremIndex) : Prop :=
  forall k q, get (theorems idx) k = Some q ->
              exists t, nth_error all q = Some t /\ id t = k.

(** Every element of the two dependency lists of an object was there
    before [buildIndex] or comes from a reference that resolves to another
    block: a dependency from a reference of the block itself, a dependent
    from a reference to the identifier of the block. *)
Definition listsJustified (all : list IndexedTheorem) (st : TheoremIndex * store) : Prop :=
  forall p t0 t,
    nth_error all p = Some t0 -> nth_error (snd st) p = Some t ->
    (forall d, In d (dependencies t) ->
               In d (dependencies t0)
               \/ exists r, In r (references t0)
                            /\ resolve (labelToId (fst st)) (id t0) r = Some d)
    /\ (forall x, In x (dependents t) ->
                  In x (dependents t0) \/ refersTo all (labelToId (fst st)) x (id t0)).

End Invariants.

(* ================================================================== *)
(** * Example documents *)
(* ================================================================== *)

Module Examples.

(** A document in the style of the demonstration file of the repository:
    two blocks, an equation inside the first one. *)
Definition demoDocument : string :=
  "\begin{document}
\begin{theorem}[Pythagorean Theorem]
\label{thm:pythagoras}
In a right triangle:
\begin{equation}
c^2 = a^2 + b^2
\end{equation}
\end{theorem}

\begin{lemma}
\label{lem:quadratic}
For $ax^2 + bx + c = 0$ with $a \neq 0$, see Theorem \ref{thm:pythagoras}.
\end{lemma}
\end{document}
".

(** Two blocks that carry the same label in the brace group of their
    opening delimiter. *)
Definition duplicateLabelDocument : string :=
  "\begin{theorem}{dup}First.\end{theorem}
\begin{lemma}{dup}Second.\end{lemma}".

(** Three labelled blocks: the first refers to the second, to itself and
    to an unknown label; the third refers to the first. *)
Definition referenceDocument : string :=
  "\begin{theorem}{a} By \ref{b}, \ref{a} and \ref{nowhere}.\end{theorem}
\begin{lemma}{b} Plain.\end{lemma}
\begin{corollary}{c} From \eqref{a}.\end{corollary}".

(** A labelled block that refers to [constructor], a name every object
    inherits and the label of no block. *)
Definition inheritedReferenceDocument : string :=
  "\begin{theorem}{thm:a} See \ref{constructor}.\end{theorem}".

(** A block labelled by a labelling command in its body. *)
Definition bodyLabelDocument : string :=
  "\begin{theorem}\label{thm:a} Statement.\end{theorem}".

(** Eight unlabelled blocks. *)
Definition eightLemmas : string :=
  "\begin{lemma}one\end{lemma}\begin{lemma}two\end{lemma}\begin{lemma}three\end{lemma}\begin{lemma}four\end{lemma}\begin{lemma}five\end{lemma}\begin{lemma}six\end{lemma}\begin{lemma}seven\end{lemma}\begin{lemma}eight\end{lemma}".

(** The document of the test suite of the proof lookup tool. *)
Definition lookupDocument : string :=
  "
\documentclass{article}
\begin{document}

\begin{theorem}[Fundamental Theorem]\label{thm:fundamental}
Every continuous function on a closed interval attains its maximum and minimum.
\end{theorem}

\begin{proof}
Let $f: [a,b] \to \mathbb{R}$ be continuous. Since $[a,b]$ is compact and $f$ is continuous,
$f([a,b])$ is compact in $\mathbb{R}$. Therefore, $f([a,b])$ is closed and bounded,
which means it contains its supremum and infimum.
\end{proof}

\begin{lemma}[Helper Lemma]\label{lem:helper}
This is a helper lemma without a proof.
\end{lemma}

\begin{definition}
A function is continuous if...
\end{definition}

\end{document}
    ".

End Examples.

(* ================================================================== *)
(** * LatexCompilerTool: the classification of the compiler output *)
(* ================================================================== *)

Module LatexCompilerTool.
Import JsString.

(** [s.split('\n')]: the pieces between the line feeds, empty pieces
    included; [cur] is the piece being read. *)
Fixpoint split_lines_aux (s : string) (cur : string) : list string :=
  match s with
  | EmptyString => [cur]
  | String c s' =>
      if Ascii.eqb c (ascii_of_nat 10)
      then cur :: split_lines_aux s' EmptyString
      else split_lines_aux s' (cur ++ String c EmptyString)%string
  end.

Definition split_lines (s : string) : list string := split_lines_aux s EmptyString.

(** The two tests of the loop body. *)
Definition isWarningLine (line : string) : bool :=
  includes line "Warning:" || includes line "warning:".

Definition isErrorLine (line : string) : bool :=
  includes line "Error:" || includes line "error:" || includes line "!".

(** The loop over the lines; the two arrays are the ones of the caller,
    which the function extends. *)
Fixpoint classifyLines (lines : list string) (warnings errors : list string)
  : list string * list string :=
  match lines with
  | [] => (warnings, errors)
  | line :: lines' =>
      if isWarningLine line
      then classifyLines lines' (warnings ++ [trim line]) errors
      else if isErrorLine line
           then classifyLines lines' warnings (errors ++ [trim line])
           else classifyLines lines' warnings errors
  end.

Definition extractWarningsAndErrors (output : string) (warnings errors : list string)
  : list string * list string :=
  classifyLines (split_lines output) warnings errors.

(** [getOutputExtension] *)
Definition getOutputExtension (format : string) : string :=
  if String.eqb format "pdf" then "pdf"
  else if String.eqb format "dvi" then "dvi"
  else if String.eqb format "ps" then "ps"
  else "pdf".

End LatexCompilerTool.

(* ================================================================== *)
(** * Further notions used to state properties *)
(* ================================================================== *)

Module Notions.
Import JsString Regex Dict Scanner Spec.

(** [l1] is [l2] with some elements left out. *)
Inductive subseq {A : Type} : list A -> list A -> Prop :=
| subseq_nil : forall l, subseq [] l
| subseq_skip : forall x l1 l2, subseq l1 l2 -> subseq l1 (x :: l2)
| subseq_take : forall x l1 l2, subseq l1 l2 -> subseq (x :: l1) (x :: l2).

(** The pairs of opening and closing delimiters of a document, as the
    second pass forms them. *)
Definition pairsOf (theoremTypes : list string) (content : string)
  : list (open_entry * rmatch) :=
  matchCloses (opens theoremTypes content) 0 (closes content).

(** What a block is made of in the three tools: kind, name, statement,
    first and last line, raw text. *)
Definition coreOfIndexed (t : TheoremIndexerTool.IndexedTheorem)
  : string * option string * string * nat * nat * string :=
  (TheoremIndexerTool.type t, TheoremIndexerTool.name t, TheoremIndexerTool.statement t,
   TheoremIndexerTool.lineNumber t, TheoremIndexerTool.endLineNumber t,
   TheoremIndexerTool.rawContent t).

Definition coreOfExtracted (t : TheoremExtractorTool.ExtractedTheorem)
  : string * option string * string * nat * nat * string :=
  (TheoremExtractorTool.type t, TheoremExtractorTool.name t, TheoremExtractorTool.statement t,
   TheoremExtractorTool.lineNumber t, TheoremExtractorTool.endLineNumber t,
   TheoremExtractorTool.rawContent t).

Definition coreOfProof (t : GetProofTool.ProofResult)
  : string * option string * string * nat * nat * string :=
  (GetProofTool.type t, GetProofTool.name t, GetProofTool.statement t,
   GetProofTool.lineNumber t, GetProofTool.endLineNumber t,
   GetProofTool.rawContent t).

(** The number of occurrences of a string in a list. *)
Definition occurrences (x : string) (l : list string) : nat :=
  count_occ string_dec l x.

(** The identifiers a block of identifier [a] depends on: those its
    references resolve to, in the order of the references. *)
Definition resolved (labels : dict string) (a : string) (refs : list string) : list string :=
  flat_map (fun r => match TheoremIndexerTool.resolve labels a r with
                     | Some b => [b]
                     | None => []
                     end) refs.

(** [path] follows edges of [g]: each element is a successor of the one
    before it. *)
Fixpoint chain (g : dict (list string)) (path : list string) : Prop :=
  match path with
  | [] => True
  | x :: rest =>
      match rest with
      | [] => True
      | y :: _ => In y (TheoremIndexerTool.successors g x) /\ chain g rest
      end
  end.

(** A cycle of [g] as the detector reports it: a walk of at least one
    edge that ends where it starts and visits no other identifier
    twice. *)
Definition isCycle (g : dict (list string)) (c : list string) : Prop :=
  exists first inner,
    c = first :: inner ++ [first]
    /\ chain g c
    /\ NoDup (first :: inner).

(** There is a walk of at least one edge from [x] to [y]. *)
Inductive reaches (g : dict (list string)) : string -> string -> Prop :=
| reaches_edge : forall x y, In y (TheoremIndexerTool.successors g x) -> reaches g x y
| reaches_step : forall x y z,
    In y (TheoremIndexerTool.successors g x) -> reaches g y z -> reaches g x z.

(** The value of a string of decimal digits, read from the left after the
    value [acc]. *)
Fixpoint decimal_value (s : string) (acc : nat) : nat :=
  match s with
  | EmptyString => acc
  | String c s' => decimal_value s' (10 * acc + (code c - 48))
  end.

End Notions.

(* ================================================================== *)
(** * The edges of the second loop of [buildIndex] *)
(* ================================================================== *)

Module Linking.
Import JsString Dict TheoremIndexerTool Invariants Notions.

(** One turn of the inner loop that passes the test: the position and the
    identifier of the referring block, and the identifier referred to. *)
Record edge : Type := Edge {
  e_pos : nat;
  e_from : string;
  e_to : string
}.

Definition edgesOfBlock (labels : dict string) (pos : nat) (t : IndexedTheorem) : list edge :=
  map (Edge pos (id t)) (resolved labels (id t) (references t)).

(** The turns that pass the test, in the order of the two nested loops,
    for the blocks [ts] at the positions from [pos] on. *)
Fixpoint edgesFrom (labels : dict string) (pos : nat) (ts : list IndexedTheorem) : list edge :=
  match ts with
  | [] => []
  | t :: ts' => edgesOfBlock labels pos t ++ edgesFrom labels (S pos) ts'
  end.

Definition outOf (a : string) (E : list edge) : list string :=
  map e_to (filter (fun e => String.eqb (e_from e) a) E).

Definition inTo (b : string) (E : list edge) : list string :=
  map e_from (filter (fun e => String.eqb (e_to e) b) E).

Definition depsAt (p : nat) (E : list edge) : list string :=
  map e_to (filter (fun e => e_pos e =? p) E).

(** [index.theorems[k]] is the object at position [p]. *)
Definition holds (th : dict nat) (k : string) (p : nat) : bool :=
  match get th k with
  | Some q => q =? p
  | None => false
  end.

Definition dependentsAt (th : dict nat) (p : nat) (E : list edge) : list string :=
  map e_from (filter (fun e => holds th (e_to e) p) E).

(** The turns of the second loop of [buildIndex] on [ts]: none when the dependencies are not
    asked for. *)
Definition turns (ts : list IndexedTheorem) (buildDependencies : bool) : list edge :=
  if buildDependencies
  then edgesFrom (labelToId (basicIndicesOwn emptyIndex 0 ts)) 0 ts
  else [].

(** The state [st] is the state [st0] after the pushes of the turns
    [E]. *)
Record linkedBy (E : list edge) (st0 st : TheoremIndex * store) : Prop := LinkedBy {
  lb_labelToId : labelToId (fst st) = labelToId (fst st0);
  lb_theorems : theorems (fst st) = theorems (fst st0);
  lb_typeIndex : typeIndex (fst st) = typeIndex (fst st0);
  lb_symbolIndex : symbolIndex (fst st) = symbolIndex (fst st0);
  lb_keys : keys (dependencyGraph (fst st)) = keys (dependencyGraph (fst st0));
  lb_rkeys : keys (reverseDependencyGraph (fst st)) = keys (reverseDependencyGraph (fst st0));
  lb_graph : forall a,
      get (dependencyGraph (fst st)) a
      = option_map (fun l => l ++ outOf a E) (get (dependencyGraph (fst st0)) a);
  lb_reverse : forall b,
      get (reverseDependencyGraph (fst st)) b
      = option_map (fun l => l ++ inTo b E) (get (reverseDependencyGraph (fst st0)) b);
  lb_length : List.length (snd st) = List.length (snd st0);
  lb_store : forall p t0,
      nth_error (snd st0) p = Some t0 ->
      exists t, nth_error (snd st) p = Some t
                /\ grows t0 t
                /\ dependencies t = dependencies t0 ++ depsAt p E
                /\ dependents t = dependents t0 ++ dependentsAt (theorems (fst st0)) p E
}.

(** [Object.keys] after the assignment of a property [k]. *)
Definition addKey (ks : list string) (k : string) : list string :=
  if mem k ks then ks else ks ++ [k].

(** What [if (!d[k]) d[k] = []; d[k].push(...)] makes of the entry of
    [k0] when it runs for the keys [ks] and pushes [v] each time. *)
Definition extend (o : option (list string)) (l : list string) : option (list string) :=
  match l with
  | [] => o
  | _ => Some (match o with
               | Some l0 => l0 ++ l
               | None => l
               end)
  end.

(** The identifiers of the blocks that have [s] among the strings
    [key] gives, once per occurrence, in the order of the blocks. *)
Definition grouped (key : IndexedTheorem -> list string) (s : string)
           (ts : list IndexedTheorem) : list string :=
  flat_map (fun t => map (fun _ => id t) (filter (String.eqb s) (key t))) ts.

(** An entry of [typeIndex] or [symbolIndex]: absent when no block
    contributes. *)
Definition entry (l : list string) : option (list string) :=
  match l with
  | [] => None
  | _ => Some l
  end.

(** An entry of a dictionary of counters: absent when nothing was
    counted. *)
Definition tally (n : nat) : option nat :=
  if n =? 0 then None else Some n.

(** The number of edges of a graph, every row counted with its
    multiplicities. *)
Definition edgeCount (g : dict (list string)) : nat :=
  list_sum (map (fun row => List.length row) (values g)).

(** The string consists of decimal digits only. *)
Fixpoint all_digits (s : string) : bool :=
  match s with
  | EmptyString => true
  | String c s' => (48 <=? code c) && (code c <=? 57) && all_digits s'
  end.

(** Each element is strictly below the next one, in the order of the
    code units. *)
Fixpoint ascending (l : list string) : bool :=
  match l with
  | [] => true
  | x :: l' =>
      match l' with
      | [] => true
      | y :: _ => String.ltb x y && ascending l'
      end
  end.

End Linking.

(* ================================================================== *)
(** * States of the depth-first search *)
(* ================================================================== *)

Module Search.
Import JsString Dict TheoremIndexerTool Notions.

(** The search of [u] has returned: [u] is visited and no longer on the
    recursion stack. *)
Definition finished (st : dfs_state) (u : string) : Prop :=
  In u (visited st) /\ ~ In u (recursionStack st).

(** What holds of the shared state between two calls of [dfs]. *)
Record sane (g : dict (list string)) (st : dfs_state) : Prop := Sane {
  s_nodup : NoDup (path st);
  s_stack : forall x, In x (recursionStack st) <-> In x (path st);
  s_cycles : Forall (isCycle g) (cycles st);
  s_closed : cycles st = [] ->
             forall u v, finished st u -> In v (successors g u) -> finished st v;
  s_acyclic : cycles st = [] -> forall u, finished st u -> ~ reaches g u u
}.

(** What a call of [dfs] on [node] makes of the state [st]. *)
Record after (node : string) (st st' : dfs_state) : Prop := After {
  a_path : path st' = path st;
  a_stack : recursionStack st' = recursionStack st;
  a_visited : incl (visited st) (visited st');
  a_cycles : exists more, cycles st' = cycles st ++ more;
  a_done : cycles st' = [] -> finished st' node
}.

End Search.

(* ================================================================== *)
(** * Texts and matcher states *)
(* ================================================================== *)

Module Matching.
Import JsString Regex.

(** The text [s] has the text [w] at the offset [i]. *)
Definition occursAt (s : string) (i : nat) (w : string) : Prop :=
  exists pre post, s = (pre ++ w ++ post)%string /\ String.length pre = i.

(** The state [st'] is the state [st] after the text [w] has been
    consumed, and the captures are unchanged. *)
Definition consumes (w : string) (st st' : mstate) : Prop :=
  rest st = (w ++ rest st')%string /\ caps st' = caps st.

End Matching.

Unset Implicit Arguments.

Module Facts.
Import JsString Dict.

Lemma startsWith_refl (s : string) : startsWith s s = true.
Proof.
  induction s as [|c s IH]; simpl; [reflexivity|].
  now rewrite Ascii.eqb_refl, IH.
Qed.

Lemma includes_refl (s : string) : includes s s = true.
Proof.
  destruct s; simpl; [reflexivity|].
  now rewrite Ascii.eqb_refl, startsWith_refl.
Qed.

Lemma mem_In (x : string) (xs : list string) : mem x xs = true <-> In x xs.
Proof.
  unfold mem. rewrite existsb_exists. split.
  - intros (y & Hy & E). apply String.eqb_eq in E. now subst.
  - intros H. exists x. split; [assumption|apply String.eqb_refl].
Qed.

Lemma mem_false (x : string) (xs : list string) : mem x xs = false <-> ~ In x xs.
Proof.
  rewrite <- mem_In. destruct (mem x xs); split; intros; congruence.
Qed.

Section DictFacts.
Variable V : Type.

Lemma get_set_eq (d : dict V) (k : string) (v : V) : get (set d k v) k = Some v.
Proof.
  induction d as [|[k' v'] d IH]; simpl.
  - now rewrite String.eqb_refl.
  - destruct (String.eqb k' k) eqn:E; simpl; rewrite E; [reflexivity|exact IH].
Qed.

Lemma get_set_neq (d : dict V) (k k0 : string) (v : V) :
  k <> k0 -> get (set d k v) k0 = get d k0.
Proof.
  intros N. induction d as [|[k' v'] d IH]; simpl.
  - destruct (String.eqb k k0) eqn:E; [apply String.eqb_eq in E; contradiction|reflexivity].
  - destruct (String.eqb k' k) eqn:E; simpl.
    + apply String.eqb_eq in E. subst k'.
      destruct (String.eqb k k0) eqn:E'; [apply String.eqb_eq in E'; contradiction|reflexivity].
    + now rewrite IH.
Qed.

Lemma get_set (d : dict V) (k k0 : string) (v : V) :
  get (set d k v) k0 = if String.eqb k k0 then Some v else get d k0.
Proof.
  destruct (String.eqb k k0) eqn:E.
  - apply String.eqb_eq in E. subst. apply get_set_eq.
  - apply String.eqb_neq in E. now apply get_set_neq.
Qed.

Lemma get_Some_In (d : dict V) (k : string) (v : V) :
  get d k = Some v -> In (k, v) d.
Proof.
  induction d as [|[k' v'] d IH]; simpl; [discriminate|].
  destruct (String.eqb k' k) eqn:E.
  - apply String.eqb_eq in E. intros [= ->]. subst. now left.
  - intros H. right. now apply IH.
Qed.

End DictFacts.

Lemma nth_error_numbered {A : Type} (k : nat) (l : list A) (i : nat) (x : A) :
  nth_error l i = Some x -> nth_error (Spec.numbered k l) i = Some (k + i, x).
Proof.
  unfold Spec.numbered. revert k i.
  induction l as [|y l IH]; intros k [|i]; simpl; try discriminate.
  - intros [= ->]. now rewrite Nat.add_0_r.
  - intros H. rewrite (IH (S k) i H). f_equal. f_equal. lia.
Qed.

Lemma length_numbered {A : Type} (k : nat) (l : list A) :
  List.length (Spec.numbered k l) = List.length l.
Proof.
  unfold Spec.numbered. rewrite length_combine, length_seq. lia.
Qed.

End Facts.

(* ================================================================== *)
(** * The two passes *)
(* ================================================================== *)

Module ScanFacts.
Import JsString Regex Scanner Spec.

Lemma abortedWithin_split (signal : nat -> bool) (a b : nat) :
  abortedWithin signal (a + b) = existsb signal (seq 0 a) || existsb signal (seq a b).
Proof.
  unfold abortedWithin. now rewrite seq_app, existsb_app.
Qed.

(** The first pass either raises at the first poll that sees the signal
    aborted or pushes one entry per match. *)
Lemma firstPass_run (msg : string) (signal : nat -> bool) (content : string) :
  forall ms poll stack,
    firstPass msg signal content ms poll stack =
    if existsb signal (seq poll (List.length ms)) then Err msg
    else Ok (stack ++ map (open_of_match content) ms, poll + List.length ms).
Proof.
  induction ms as [|m ms IH]; intros poll stack; simpl.
  - now rewrite app_nil_r, Nat.add_0_r.
  - destruct (signal poll); simpl; [reflexivity|].
    rewrite IH, <- app_assoc. simpl.
    destruct (existsb signal (seq (S poll) (List.length ms))); [reflexivity|].
    do 2 f_equal. lia.
Qed.

Lemma findOpen_from_none (ty : string) :
  forall entries i,
    existsb (fun o => String.eqb (o_type o) ty) entries = false ->
    findOpen_from ty i entries = None.
Proof.
  induction entries as [|e entries IH]; intros i H; simpl in *; [reflexivity|].
  apply orb_false_iff in H. destruct H as [H1 H2].
  rewrite H1. now apply IH.
Qed.

Lemma skipn_app_length {A : Type} (pre l : list A) :
  skipn (List.length pre) (pre ++ l) = l.
Proof. induction pre; simpl; auto. Qed.

(** A closing delimiter whose kind is opened nowhere finds no entry. *)
Lemma findOpen_irrelevant (pre os : list open_entry) (m : rmatch) :
  closesSome (pre ++ os) m = false ->
  findOpen (pre ++ os) (List.length pre) (group_or_empty 1 m) = None.
Proof.
  unfold closesSome, findOpen, closeKind. intros H.
  rewrite skipn_app_length. apply findOpen_from_none.
  rewrite existsb_app in H. now apply orb_false_iff in H.
Qed.

(** A closing delimiter of the kind of the entry under the cursor takes
    that entry. *)
Lemma findOpen_head (pre : list open_entry) (o : open_entry) (os : list open_entry) (m : rmatch) :
  o_type o = closeKind m ->
  findOpen (pre ++ o :: os) (List.length pre) (group_or_empty 1 m) = Some (List.length pre, o).
Proof.
  unfold findOpen, closeKind. intros H.
  rewrite skipn_app_length. simpl. now rewrite H, String.eqb_refl.
Qed.

(** The kinds of the entries and of the closing delimiters agree pairwise
    when they alternate. *)
Lemma alternate_kinds :
  forall os cs from,
    alternate os cs from = true ->
    Forall2 (fun o c => o_type o = closeKind c) os cs.
Proof.
  induction os as [|o os IH]; intros [|c cs] from H; simpl in H; try discriminate.
  - constructor.
  - repeat (apply andb_prop in H; destruct H as [H ?]).
    constructor; [now apply String.eqb_eq|eauto].
Qed.

(** On entries and closing delimiters whose kinds agree pairwise, the
    second pass pairs the i-th entry with the i-th counted closing
    delimiter. *)
Lemma matchCloses_paired :
  forall ms pre os,
    Forall2 (fun o c => o_type o = closeKind c) os (filter (closesSome (pre ++ os)) ms) ->
    matchCloses (pre ++ os) (List.length pre) ms
    = combine os (filter (closesSome (pre ++ os)) ms).
Proof.
  induction ms as [|m ms IH]; intros pre os H; simpl in *.
  - now destruct os.
  - destruct (closesSome (pre ++ os) m) eqn:E.
    + inversion H as [|o c os' cs' Hk Hrest Eo Ec]. subst.
      rewrite findOpen_head by assumption. simpl. f_equal.
      replace (pre ++ o :: os') with ((pre ++ [o]) ++ os') in * by now rewrite <- app_assoc.
      replace (S (List.length pre)) with (List.length (pre ++ [o]))
        by (rewrite length_app; simpl; lia).
      now apply IH.
    + rewrite findOpen_irrelevant by assumption. now apply IH.
Qed.

Lemma matchCloses_wellFormed (theoremTypes : list string) (content : string) (n : nat) :
  wellFormed theoremTypes content n ->
  matchCloses (opens theoremTypes content) 0 (closes content)
  = combine (opens theoremTypes content) (relevantCloses theoremTypes content).
Proof.
  intros [_ H]. apply alternate_kinds in H.
  exact (matchCloses_paired (closes content) [] (opens theoremTypes content) H).
Qed.

Lemma alternate_length :
  forall os cs from, alternate os cs from = true -> List.length cs = List.length os.
Proof.
  induction os as [|o os IH]; intros [|c cs] from H; simpl in H; try discriminate.
  - reflexivity.
  - repeat (apply andb_prop in H; destruct H as [H ?]). simpl. f_equal. eauto.
Qed.

(** Alternating delimiters are in document order: a closing delimiter
    starts after its opening delimiter, and everything that follows starts
    at or after its end. *)
Lemma alternate_after :
  forall os cs from j o c,
    alternate os cs from = true ->
    nth_error os j = Some o -> nth_error cs j = Some c ->
    from <= o_startIndex o /\ o_startIndex o < Regex.index c.
Proof.
  induction os as [|o0 os IH]; intros [|c0 cs] from j o c H Ho Hc;
    simpl in H; try discriminate; try (destruct j; discriminate).
  repeat (apply andb_prop in H; destruct H as [H ?]).
  destruct j as [|j]; simpl in *.
  - injection Ho as <-. injection Hc as <-.
    apply Nat.leb_le in H. apply Nat.ltb_lt in H1. lia.
  - destruct (IH cs _ j o c H0 Ho Hc) as [Ha Hb].
    apply Nat.leb_le in H. apply Nat.ltb_lt in H1. unfold closeEnd in Ha. lia.
Qed.

Lemma alternate_increasing :
  forall os cs from i j ci cj,
    alternate os cs from = true ->
    i < j ->
    nth_error cs i = Some ci -> nth_error cs j = Some cj ->
    closeEnd ci <= Regex.index cj.
Proof.
  induction os as [|o0 os IH]; intros [|c0 cs] from i j ci cj H Hij Hi Hj;
    simpl in H; try discriminate; try (destruct i; discriminate).
  repeat (apply andb_prop in H; destruct H as [H ?]).
  destruct j as [|j]; [lia|]. simpl in Hj.
  destruct i as [|i]; simpl in Hi.
  - injection Hi as <-.
    assert (Hlen : List.length cs = List.length os) by eauto using alternate_length.
    assert (Hj' : j < List.length os).
    { rewrite <- Hlen. apply nth_error_Some. congruence. }
    destruct (nth_error os j) as [oj|] eqn:Eo; [|apply nth_error_None in Eo; lia].
    destruct (alternate_after _ _ _ j _ _ H0 Eo Hj). lia.
  - apply (IH cs _ i j ci cj H0); [lia|assumption|assumption].
Qed.

End ScanFacts.


(* ================================================================== *)
(** * The first loop of [buildIndex] *)
(* ================================================================== *)

Module BasicIndexFacts.
Import JsString Dict TheoremIndexerTool Invariants Facts.

Lemma basicIndices_snoc :
  forall ts idx pos t,
    basicIndicesOwn idx pos (ts ++ [t])
    = addBasicOwn (basicIndicesOwn idx pos ts) (pos + List.length ts) t.
Proof.
  induction ts as [|t0 ts IH]; intros idx pos t; simpl.
  - now rewrite Nat.add_0_r.
  - rewrite IH. f_equal. lia.
Qed.

(** Both graphs have the empty list at the identifier of every block and
    nothing else. *)
Lemma graph_initial (ts : list IndexedTheorem) (a : string) :
  get (dependencyGraph (basicIndicesOwn emptyIndex 0 ts)) a
  = if existsb (fun t => String.eqb (id t) a) ts then Some [] else None.
Proof.
  induction ts as [|t ts IH] using rev_ind; [reflexivity|].
  rewrite basicIndices_snoc, existsb_app. simpl.
  rewrite get_set, IH, orb_false_r.
  destruct (String.eqb (id t) a); [now rewrite orb_true_r|now rewrite orb_false_r].
Qed.

Lemma reverse_initial (ts : list IndexedTheorem) (a : string) :
  get (reverseDependencyGraph (basicIndicesOwn emptyIndex 0 ts)) a
  = if existsb (fun t => String.eqb (id t) a) ts then Some [] else None.
Proof.
  induction ts as [|t ts IH] using rev_ind; [reflexivity|].
  rewrite basicIndices_snoc, existsb_app. simpl.
  rewrite get_set, IH, orb_false_r.
  destruct (String.eqb (id t) a); [now rewrite orb_true_r|now rewrite orb_false_r].
Qed.

Lemma existsb_id (ts : list IndexedTheorem) (t : IndexedTheorem) :
  In t ts -> existsb (fun t' => String.eqb (id t') (id t)) ts = true.
Proof.
  intros H. apply existsb_exists. exists t. split; [assumption|apply String.eqb_refl].
Qed.

Lemma lastAt_snoc_true (p : IndexedTheorem -> bool) ts t :
  p t = true -> lastAt p (ts ++ [t]) (List.length ts).
Proof.
  intros H. split.
  - exists t. split; [|assumption].
    rewrite nth_error_app2 by lia. now rewrite Nat.sub_diag.
  - intros q' t' Hq Hn.
    assert (q' < List.length (ts ++ [t])) by (apply nth_error_Some; congruence).
    rewrite length_app in *. simpl in *. lia.
Qed.

Lemma lastAt_snoc_false (p : IndexedTheorem -> bool) ts t q :
  p t = false -> lastAt p ts q -> lastAt p (ts ++ [t]) q.
Proof.
  intros H [(t0 & Hn & Hp) Hlast]. split.
  - exists t0. split; [|assumption]. rewrite nth_error_app1; [assumption|].
    apply nth_error_Some. congruence.
  - intros q' t' Hq Hn'.
    destruct (Nat.lt_ge_cases q' (List.length ts)) as [Hlt|Hge].
    + rewrite nth_error_app1 in Hn' by assumption. eauto.
    + rewrite nth_error_app2 in Hn' by assumption.
      destruct (q' - List.length ts) as [|k]; simpl in Hn'.
      * now injection Hn' as <-.
      * now destruct k.
Qed.

(** [index.theorems[k]] is the last block whose identifier is [k]. *)
Lemma theorems_initial (ts : list IndexedTheorem) (k : string) :
  match get (theorems (basicIndicesOwn emptyIndex 0 ts)) k with
  | Some q => lastAt (fun t => String.eqb (id t) k) ts q
  | None => forall t, In t ts -> id t <> k
  end.
Proof.
  induction ts as [|t ts IH] using rev_ind; [simpl; tauto|].
  rewrite basicIndices_snoc. simpl. rewrite get_set.
  destruct (String.eqb (id t) k) eqn:E.
  - now apply lastAt_snoc_true.
  - destruct (get (theorems (basicIndicesOwn emptyIndex 0 ts)) k) as [q|].
    + now apply lastAt_snoc_false.
    + intros t' Hin. apply in_app_or in Hin. destruct Hin as [Hin|[<-|[]]].
      * now apply IH.
      * now apply String.eqb_neq.
Qed.

(** [index.labelToId[l]] is the identifier of the last block labelled
    [l]. *)
Lemma labelToId_initial (ts : list IndexedTheorem) (l : string) :
  match get (labelToId (basicIndicesOwn emptyIndex 0 ts)) l with
  | Some i => exists q t, lastAt (labelled l) ts q /\ nth_error ts q = Some t /\ id t = i
  | None => forall t, In t ts -> labelled l t = false
  end.
Proof.
  induction ts as [|t ts IH] using rev_ind; [simpl; tauto|].
  rewrite basicIndices_snoc. simpl.
  assert (Hkeep : labelled l t = false ->
          match get (labelToId (basicIndicesOwn emptyIndex 0 ts)) l with
          | Some i => exists q t0, lastAt (labelled l) (ts ++ [t]) q
                                   /\ nth_error (ts ++ [t]) q = Some t0 /\ id t0 = i
          | None => forall t0, In t0 (ts ++ [t]) -> labelled l t0 = false
          end).
  { intros Hl. destruct (get (labelToId (basicIndicesOwn emptyIndex 0 ts)) l) as [i|].
    - destruct IH as (q & t0 & Hlast & Hn & Hi). exists q, t0.
      split; [now apply lastAt_snoc_false|]. split; [|assumption].
      rewrite nth_error_app1; [assumption|]. apply nth_error_Some. congruence.
    - intros t0 Hin. apply in_app_or in Hin. destruct Hin as [Hin|[<-|[]]]; auto. }
  unfold labelled in Hkeep |- *.
  destruct (label t) as [l'|] eqn:El; [|now apply Hkeep].
  destruct (truthy l') eqn:Et; [|now apply Hkeep].
  rewrite get_set. destruct (String.eqb l' l) eqn:E; [|now apply Hkeep].
  exists (List.length ts), t. split; [|split].
  - apply lastAt_snoc_true. unfold labelled. now rewrite El, Et, E.
  - rewrite nth_error_app2 by lia. now rewrite Nat.sub_diag.
  - reflexivity.
Qed.

(** A value of [index.labelToId] is the identifier of a block. *)
Lemma labelToId_values (ts : list IndexedTheorem) (l i : string) :
  get (labelToId (basicIndicesOwn emptyIndex 0 ts)) l = Some i ->
  exists t, In t ts /\ id t = i.
Proof.
  intros H. pose proof (labelToId_initial ts l) as L. rewrite H in L.
  destruct L as (q & t & _ & Hn & Hi). exists t. split; [|assumption].
  eapply nth_error_In; eassumption.
Qed.

End BasicIndexFacts.

(* ================================================================== *)
(** * The second loop of [buildIndex] *)
(* ================================================================== *)

Module LinkFacts.
Import JsString Dict TheoremIndexerTool Invariants Facts BasicIndexFacts.

Lemma grows_refl (t : IndexedTheorem) : grows t t.
Proof. constructor; try reflexivity; exists []; now rewrite app_nil_r. Qed.

Lemma grows_trans (t1 t2 t3 : IndexedTheorem) : grows t1 t2 -> grows t2 t3 -> grows t1 t3.
Proof.
  intros [] []. constructor; try congruence.
  - destruct g_dependencies0 as [m1 E1], g_dependencies1 as [m2 E2].
    exists (m1 ++ m2). now rewrite E2, E1, app_assoc.
  - destruct g_dependents0 as [m1 E1], g_dependents1 as [m2 E2].
    exists (m1 ++ m2). now rewrite E2, E1, app_assoc.
Qed.

Lemma grows_pushDependency (d : string) (t : IndexedTheorem) : grows t (pushDependency d t).
Proof. constructor; try reflexivity; simpl; [now exists [d]|exists []; now rewrite app_nil_r]. Qed.

Lemma grows_pushDependent (d : string) (t : IndexedTheorem) : grows t (pushDependent d t).
Proof. constructor; try reflexivity; simpl; [exists []; now rewrite app_nil_r|now exists [d]]. Qed.

Lemma Forall2_grows_refl (objs : store) : Forall2 grows objs objs.
Proof. induction objs; constructor; auto using grows_refl. Qed.

Lemma Forall2_grows_trans (o1 o2 o3 : store) :
  Forall2 grows o1 o2 -> Forall2 grows o2 o3 -> Forall2 grows o1 o3.
Proof.
  intros H. revert o3. induction H; intros o3 H3; inversion H3; subst; constructor.
  - eauto using grows_trans.
  - auto.
Qed.

Lemma Forall2_grows_update (f : IndexedTheorem -> IndexedTheorem) :
  (forall t, grows t (f t)) ->
  forall objs q, Forall2 grows objs (update_at q f objs).
Proof.
  intros Hf. induction objs as [|t objs IH]; intros q; simpl; [constructor|].
  destruct q; constructor; auto using grows_refl, Forall2_grows_refl.
Qed.

Lemma nth_error_update_at (f : IndexedTheorem -> IndexedTheorem) :
  forall objs q t, nth_error objs q = Some t -> nth_error (update_at q f objs) q = Some (f t).
Proof.
  induction objs as [|t0 objs IH]; intros [|q] t H; simpl in *; try discriminate.
  - now injection H as <-.
  - auto.
Qed.

Lemma dictGrows_refl (d : dict (list string)) : dictGrows d d.
Proof. intros k l H. exists []. now rewrite app_nil_r. Qed.

Lemma dictGrows_trans (d1 d2 d3 : dict (list string)) :
  dictGrows d1 d2 -> dictGrows d2 d3 -> dictGrows d1 d3.
Proof.
  intros H12 H23 k l H. destruct (H12 k l H) as [m1 H1].
  destruct (H23 k _ H1) as [m2 H2]. exists (m1 ++ m2). now rewrite app_assoc.
Qed.

Lemma dictGrows_push (d : dict (list string)) (k v : string) (l : list string) :
  get d k = Some l -> dictGrows d (set d k (l ++ [v])).
Proof.
  intros H k0 l0 H0. rewrite get_set. destruct (String.eqb k k0) eqn:E.
  - apply String.eqb_eq in E. subst k0. rewrite H in H0. injection H0 as <-. now exists [v].
  - exists []. now rewrite app_nil_r.
Qed.

Lemma extends_refl (st : TheoremIndex * store) : extends st st.
Proof.
  constructor; auto using dictGrows_refl, Forall2_grows_refl.
Qed.

Create HintDb index discriminated.

#[export] Hint Resolve grows_refl grows_pushDependency grows_pushDependent
  Forall2_grows_refl Forall2_grows_update dictGrows_refl dictGrows_push
  extends_refl : index.

Lemma extends_trans (s1 s2 s3 : TheoremIndex * store) :
  extends s1 s2 -> extends s2 s3 -> extends s1 s3.
Proof.
  intros [] []. constructor; try congruence;
    eauto using dictGrows_trans, Forall2_grows_trans.
Qed.

Lemma keysReady_extends (all : list IndexedTheorem) (st st' : TheoremIndex * store) :
  keysReady all st -> extends st st' -> keysReady all st'.
Proof.
  intros [Hg Hr] E. split.
  - intros t Hin. specialize (Hg t Hin).
    destruct (get (dependencyGraph (fst st)) (id t)) as [l|] eqn:El; [|congruence].
    destruct (e_graph E _ El) as [m Hm]. congruence.
  - intros r rid H. rewrite (e_labelToId E) in H. specialize (Hr r rid H).
    destruct (get (reverseDependencyGraph (fst st)) rid) as [l|] eqn:El; [|congruence].
    destruct (e_reverse E _ El) as [m Hm]. congruence.
Qed.

Lemma addReference_resolved pos tid idx objs r rid l l' :
  resolve (labelToId idx) tid r = Some rid ->
  get (dependencyGraph idx) tid = Some l ->
  get (reverseDependencyGraph idx) rid = Some l' ->
  addReferenceOwn pos tid (idx, objs) r = Ok (linked pos tid rid l l' idx objs).
Proof.
  intros Hr Hl Hl'. unfold addReferenceOwn, pushOwn, linked. now rewrite Hr, Hl, Hl'.
Qed.

Lemma addReference_unresolved pos tid st r :
  resolve (labelToId (fst st)) tid r = None ->
  addReferenceOwn pos tid st r = Ok st.
Proof.
  destruct st as [idx objs]. simpl. intros Hr. unfold addReferenceOwn. now rewrite Hr.
Qed.

Lemma extends_linked pos tid idx objs rid l l' :
  get (dependencyGraph idx) tid = Some l ->
  get (reverseDependencyGraph idx) rid = Some l' ->
  extends (idx, objs) (linked pos tid rid l l' idx objs).
Proof.
  intros Hl Hl'. constructor; simpl; try reflexivity; auto with index.
  destruct (get (theorems idx) rid); [|auto with index].
  apply Forall2_grows_trans with (o2 := update_at pos (pushDependency rid) objs);
    auto with index.
Qed.

Lemma resolve_Some labels tid r rid :
  resolve labels tid r = Some rid ->
  get labels r = Some rid /\ truthy rid = true /\ rid <> tid.
Proof.
  unfold resolve. destruct (get labels r) as [x|]; [|discriminate].
  destruct (truthy x) eqn:Et; simpl; [|discriminate].
  destruct (String.eqb x tid) eqn:E; simpl; [discriminate|].
  intros [= <-]. apply String.eqb_neq in E. auto.
Qed.

(** One reference on own properties: no exception, and only pushes. *)
Lemma addReference_ok all pos t st r :
  keysReady all st -> In t all ->
  exists st', addReferenceOwn pos (id t) st r = Ok st' /\ extends st st'.
Proof.
  intros [Hg Hr] Hin. destruct st as [idx objs]. simpl in Hg, Hr.
  destruct (resolve (labelToId idx) (id t) r) as [rid|] eqn:E.
  - specialize (Hg t Hin).
    destruct (get (dependencyGraph idx) (id t)) as [l|] eqn:El; [|congruence].
    destruct (resolve_Some _ _ _ _ E) as (Hget & _ & _).
    specialize (Hr r rid Hget).
    destruct (get (reverseDependencyGraph idx) rid) as [l'|] eqn:El'; [|congruence].
    exists (linked pos (id t) rid l l' idx objs).
    split; [now apply addReference_resolved|now apply extends_linked].
  - exists (idx, objs). split; [now apply addReference_unresolved|apply extends_refl].
Qed.

Lemma addReferences_ok all pos t :
  In t all ->
  forall refs st,
    keysReady all st ->
    exists st', addReferencesOwn pos (id t) refs st = Ok st' /\ extends st st'.
Proof.
  intros Hin. induction refs as [|r refs IH]; intros st K; simpl.
  - exists st. split; [reflexivity|apply extends_refl].
  - destruct (addReference_ok all pos t st r K Hin) as (st1 & E1 & X1).
    rewrite E1. simpl.
    destruct (IH st1 (keysReady_extends _ _ _ K X1)) as (st2 & E2 & X2).
    exists st2. split; [assumption|eauto using extends_trans].
Qed.

Lemma linkTheorems_ok all :
  forall ts pos st,
    incl ts all -> keysReady all st ->
    exists st', linkTheoremsOwn pos ts st = Ok st' /\ extends st st'.
Proof.
  induction ts as [|t ts IH]; intros pos st Hincl K; simpl.
  - exists st. split; [reflexivity|apply extends_refl].
  - assert (Hin : In t all) by (apply Hincl; now left).
    destruct (addReferences_ok all pos t Hin (references t) st K) as (st1 & E1 & X1).
    rewrite E1. simpl.
    destruct (IH (S pos) st1) as (st2 & E2 & X2).
    + intros x Hx. apply Hincl. now right.
    + eauto using keysReady_extends.
    + exists st2. split; [assumption|eauto using extends_trans].
Qed.

Lemma keysReady_initial (ts : list IndexedTheorem) :
  keysReady ts (basicIndicesOwn emptyIndex 0 ts, ts).
Proof.
  split; simpl.
  - intros t Hin. rewrite graph_initial, existsb_id by assumption. discriminate.
  - intros r rid H. destruct (labelToId_values ts r rid H) as (t & Hin & <-).
    rewrite reverse_initial, existsb_id by assumption. discriminate.
Qed.

(** The run on own properties raises no exception, whatever the blocks,
    and leaves everything but the dependency lists of the blocks as the
    first loop made it. *)
Lemma buildIndex_ok (ts : list IndexedTheorem) (buildDependencies : bool) :
  exists st, buildIndexOwn ts buildDependencies = Ok st
             /\ extends (basicIndicesOwn emptyIndex 0 ts, ts) st.
Proof.
  unfold buildIndexOwn. destruct buildDependencies.
  - apply (linkTheorems_ok ts ts 0); [apply incl_refl|apply keysReady_initial].
  - eexists. split; [reflexivity|apply extends_refl].
Qed.

(** ** The edges the second loop records *)

Lemma storeReady_extends n (st st' : TheoremIndex * store) :
  storeReady n st -> extends st st' -> storeReady n st'.
Proof.
  intros [Hl Hq] E. split.
  - rewrite <- (Forall2_length (e_store E)). exact Hl.
  - intros k q. rewrite (e_theorems E). apply Hq.
Qed.

Lemma storeReady_initial (ts : list IndexedTheorem) :
  storeReady (List.length ts) (basicIndicesOwn emptyIndex 0 ts, ts).
Proof.
  split; [reflexivity|]. simpl. intros k q H.
  pose proof (theorems_initial ts k) as L. rewrite H in L.
  destruct L as [(t & Hn & _) _]. apply nth_error_Some. congruence.
Qed.

Lemma Forall2_grows_nth (objs objs' : store) q t :
  Forall2 grows objs objs' -> nth_error objs q = Some t ->
  exists t', nth_error objs' q = Some t' /\ grows t t'.
Proof.
  intros H. revert q t.
  induction H as [|a b l l' Hab H IH]; intros [|q] t Hn; simpl in *; try discriminate.
  - injection Hn as <-. eauto.
  - eauto.
Qed.

Lemma recorded_extends tid rid pos st st' :
  recorded tid rid pos st -> extends st st' -> recorded tid rid pos st'.
Proof.
  intros ((l & Hl & Il) & (l' & Hl' & Il') & (t & Ht & It) & Hd) E.
  repeat split.
  - destruct (e_graph E _ Hl) as [m Hm]. exists (l ++ m). split; [assumption|].
    apply in_or_app. now left.
  - destruct (e_reverse E _ Hl') as [m Hm]. exists (l' ++ m). split; [assumption|].
    apply in_or_app. now left.
  - destruct (Forall2_grows_nth _ _ _ _ (e_store E) Ht) as (t' & Ht' & G).
    exists t'. split; [assumption|]. destruct (g_dependencies G) as [m ->].
    apply in_or_app. now left.
  - intros q Hq. rewrite (e_theorems E) in Hq.
    destruct (Hd q Hq) as (t0 & Ht0 & It0).
    destruct (Forall2_grows_nth _ _ _ _ (e_store E) Ht0) as (t' & Ht' & G).
    exists t'. split; [assumption|]. destruct (g_dependents G) as [m ->].
    apply in_or_app. now left.
Qed.

Lemma length_update_at f : forall objs q, List.length (update_at q f objs) = List.length objs.
Proof.
  induction objs as [|t objs IH]; intros [|q]; simpl; auto.
Qed.

Lemma recorded_linked pos tid rid l l' idx objs :
  storeReady (List.length objs) (idx, objs) ->
  pos < List.length objs ->
  get (dependencyGraph idx) tid = Some l ->
  get (reverseDependencyGraph idx) rid = Some l' ->
  recorded tid rid pos (linked pos tid rid l l' idx objs).
Proof.
  intros [_ Hq] Hpos Hl Hl'. simpl in Hq.
  destruct (nth_error objs pos) as [t|] eqn:Et; [|apply nth_error_None in Et; lia].
  pose proof (nth_error_update_at (pushDependency rid) _ _ _ Et) as E1.
  unfold recorded, linked. simpl. repeat split.
  - exists (l ++ [rid]). split; [apply get_set_eq|apply in_or_app; right; now left].
  - exists (l' ++ [tid]). split; [apply get_set_eq|apply in_or_app; right; now left].
  - destruct (get (theorems idx) rid) as [q|].
    + destruct (Forall2_grows_nth _ (update_at q (pushDependent tid)
                                       (update_at pos (pushDependency rid) objs)) _ _
                  (Forall2_grows_update _ (grows_pushDependent tid) _ q) E1)
        as (t' & Ht' & G).
      exists t'. split; [assumption|]. destruct (g_dependencies G) as [m ->].
      simpl. apply in_or_app. left. apply in_or_app. right. now left.
    + eexists. split; [exact E1|]. simpl. apply in_or_app. right. now left.
  - intros q Eq. rewrite Eq. specialize (Hq rid q Eq).
    destruct (nth_error (update_at pos (pushDependency rid) objs) q) as [t1|] eqn:E2.
    + eexists. split; [apply nth_error_update_at; exact E2|].
      simpl. apply in_or_app. right. now left.
    + apply nth_error_None in E2. rewrite length_update_at in E2. lia.
Qed.

Lemma addReferences_records all pos t :
  In t all ->
  forall refs st st',
    keysReady all st -> storeReady (List.length (snd st)) st ->
    pos < List.length (snd st) ->
    addReferencesOwn pos (id t) refs st = Ok st' ->
    forall r rid,
      In r refs -> resolve (labelToId (fst st)) (id t) r = Some rid ->
      recorded (id t) rid pos st'.
Proof.
  intros Hin. induction refs as [|r0 refs IH]; intros st st' K R Hpos E r rid Hr Hres;
    [destruct Hr|].
  simpl in E.
  destruct (addReference_ok all pos t st r0 K Hin) as (st1 & E1 & X1).
  rewrite E1 in E. simpl in E.
  assert (K1 : keysReady all st1) by eauto using keysReady_extends.
  assert (L1 : List.length (snd st1) = List.length (snd st))
    by (symmetry; exact (Forall2_length (e_store X1))).
  assert (R1 : storeReady (List.length (snd st1)) st1)
    by (rewrite L1; eauto using storeReady_extends).
  destruct (addReferences_ok all pos t Hin refs st1 K1) as (st2 & E2 & X2).
  assert (st2 = st') by congruence. subst st2.
  destruct Hr as [<-|Hr].
  - apply recorded_extends with (st := st1); [|assumption].
    destruct st as [idx objs].
    destruct K as [Kg Kr]. simpl in Kg, Kr, Hres, Hpos, R.
    specialize (Kg t Hin).
    destruct (get (dependencyGraph idx) (id t)) as [l|] eqn:El; [|congruence].
    destruct (resolve_Some _ _ _ _ Hres) as (Hget & _ & _).
    specialize (Kr r0 rid Hget).
    destruct (get (reverseDependencyGraph idx) rid) as [l'|] eqn:El'; [|congruence].
    rewrite (addReference_resolved pos (id t) idx objs r0 rid l l' Hres El El') in E1.
    injection E1 as <-. now apply recorded_linked.
  - apply (IH st1 st' K1 R1) with (r := r); try assumption; [lia|].
    now rewrite (e_labelToId X1).
Qed.

Lemma linkTheorems_records all :
  forall ts pos st st',
    incl ts all -> keysReady all st -> storeReady (List.length (snd st)) st ->
    pos + List.length ts <= List.length (snd st) ->
    linkTheoremsOwn pos ts st = Ok st' ->
    forall j A r rid,
      nth_error ts j = Some A -> In r (references A) ->
      resolve (labelToId (fst st)) (id A) r = Some rid ->
      recorded (id A) rid (pos + j) st'.
Proof.
  induction ts as [|t ts IH]; intros pos st st' Hincl K R Hlen E j A r rid Hn Hr Hres;
    [destruct j; discriminate|].
  simpl in E, Hlen.
  assert (Hin : In t all) by (apply Hincl; now left).
  assert (Hincl' : incl ts all) by (intros x Hx; apply Hincl; now right).
  destruct (addReferences_ok all pos t Hin (references t) st K) as (st1 & E1 & X1).
  rewrite E1 in E. simpl in E.
  assert (K1 : keysReady all st1) by eauto using keysReady_extends.
  assert (L1 : List.length (snd st1) = List.length (snd st))
    by (symmetry; exact (Forall2_length (e_store X1))).
  assert (R1 : storeReady (List.length (snd st1)) st1)
    by (rewrite L1; eauto using storeReady_extends).
  destruct (linkTheorems_ok all ts (S pos) st1 Hincl' K1) as (st2 & E2 & X2).
  assert (st2 = st') by congruence. subst st2.
  destruct j as [|j]; simpl in Hn.
  - injection Hn as <-. rewrite Nat.add_0_r.
    apply recorded_extends with (st := st1); [|assumption].
    apply (addReferences_records all pos t Hin (references t) st st1 K R) with (r := r);
      try assumption.
    lia.
  - replace (pos + S j) with (S pos + j) by lia.
    apply (IH (S pos) st1 st' Hincl' K1 R1) with (r := r); try assumption; [lia|].
    now rewrite (e_labelToId X1).
Qed.

(** ** Every edge comes from a reference that resolves to another block *)

Lemma edgesJustified_linked all pos A r rid l l' idx objs :
  edgesJustified all idx ->
  In A all -> In r (references A) ->
  resolve (labelToId idx) (id A) r = Some rid ->
  get (dependencyGraph idx) (id A) = Some l ->
  get (reverseDependencyGraph idx) rid = Some l' ->
  edgesJustified all (fst (linked pos (id A) rid l l' idx objs)).
Proof.
  intros [Jg Jr] Hin Hr Hres Hl Hl'.
  assert (New : refersTo all (labelToId idx) (id A) rid) by (exists A, r; auto).
  split; simpl.
  - intros a l0 b. rewrite get_set. destruct (String.eqb (id A) a) eqn:E.
    + apply String.eqb_eq in E. subst a. intros [= <-] Hb.
      apply in_app_or in Hb. destruct Hb as [Hb|[<-|[]]]; eauto.
    + eauto.
  - intros b l0 a. rewrite get_set. destruct (String.eqb rid b) eqn:E.
    + apply String.eqb_eq in E. subst b. intros [= <-] Ha.
      apply in_app_or in Ha. destruct Ha as [Ha|[<-|[]]]; eauto.
    + eauto.
Qed.

Lemma addReferences_justified all pos A :
  In A all ->
  forall refs st st',
    incl refs (references A) ->
    keysReady all st -> edgesJustified all (fst st) ->
    addReferencesOwn pos (id A) refs st = Ok st' ->
    edgesJustified all (fst st').
Proof.
  intros Hin. induction refs as [|r refs IH]; intros st st' Hincl K J E; simpl in E.
  - now injection E as <-.
  - destruct (addReference_ok all pos A st r K Hin) as (st1 & E1 & X1).
    rewrite E1 in E. simpl in E.
    apply (IH st1 st'); try assumption.
    + intros x Hx. apply Hincl. now right.
    + eauto using keysReady_extends.
    + destruct st as [idx objs].
      destruct (resolve (labelToId idx) (id A) r) as [rid|] eqn:Hres.
      * destruct K as [Kg Kr]. simpl in Kg, Kr, J.
        specialize (Kg A Hin).
        destruct (get (dependencyGraph idx) (id A)) as [l|] eqn:El; [|congruence].
        destruct (resolve_Some _ _ _ _ Hres) as (Hget & _ & _).
        specialize (Kr r rid Hget).
        destruct (get (reverseDependencyGraph idx) rid) as [l'|] eqn:El'; [|congruence].
        rewrite (addReference_resolved pos (id A) idx objs r rid l l' Hres El El') in E1.
        injection E1 as <-.
        apply edgesJustified_linked with (r := r); try assumption.
        apply Hincl. now left.
      * rewrite addReference_unresolved in E1 by exact Hres.
        now injection E1 as <-.
Qed.

Lemma linkTheorems_justified all :
  forall ts pos st st',
    incl ts all -> keysReady all st -> edgesJustified all (fst st) ->
    linkTheoremsOwn pos ts st = Ok st' ->
    edgesJustified all (fst st').
Proof.
  induction ts as [|t ts IH]; intros pos st st' Hincl K J E; simpl in E.
  - now injection E as <-.
  - assert (Hin : In t all) by (apply Hincl; now left).
    destruct (addReferences_ok all pos t Hin (references t) st K) as (st1 & E1 & X1).
    rewrite E1 in E. simpl in E.
    apply (IH (S pos) st1 st'); try assumption.
    + intros x Hx. apply Hincl. now right.
    + eauto using keysReady_extends.
    + apply (addReferences_justified all pos t Hin (references t) st st1);
        auto using incl_refl.
Qed.

Lemma edgesJustified_initial (ts : list IndexedTheorem) :
  edgesJustified ts (basicIndicesOwn emptyIndex 0 ts).
Proof.
  split.
  - intros a l b H. rewrite graph_initial in H.
    destruct (existsb _ ts); [injection H as <-; intros []|discriminate].
  - intros b l a H. rewrite reverse_initial in H.
    destruct (existsb _ ts); [injection H as <-; intros []|discriminate].
Qed.

(** ** Every element of the dependency lists comes from a reference *)

Lemma nth_error_update_at_inv (f : IndexedTheorem -> IndexedTheorem) :
  forall objs q p t,
    nth_error (update_at q f objs) p = Some t ->
    (p = q /\ exists t1, nth_error objs p = Some t1 /\ t = f t1)
    \/ (p <> q /\ nth_error objs p = Some t).
Proof.
  induction objs as [|t0 objs IH]; intros q p t H; [destruct p; discriminate|].
  destruct q as [|q], p as [|p]; simpl in H.
  - injection H as <-. left. split; [reflexivity|]. exists t0. split; reflexivity.
  - right. split; [lia|assumption].
  - right. split; [lia|assumption].
  - destruct (IH q p t H) as [(-> & t1 & H1 & ->)|(N & H1)].
    + left. split; [reflexivity|]. exists t1. split; [assumption|reflexivity].
    + right. split; [lia|assumption].
Qed.

Lemma theoremsSound_initial (ts : list IndexedTheorem) :
  theoremsSound ts (basicIndicesOwn emptyIndex 0 ts).
Proof.
  intros k q H. pose proof (theorems_initial ts k) as L. rewrite H in L.
  destruct L as [(t & Hn & Hi) _]. apply String.eqb_eq in Hi. eauto.
Qed.

Lemma listsJustified_initial (ts : list IndexedTheorem) :
  listsJustified ts (basicIndicesOwn emptyIndex 0 ts, ts).
Proof.
  intros p t0 t H0 H. simpl in H. assert (t = t0) by congruence. subst. auto.
Qed.

Lemma listsJustified_linked all pos A r rid l l' idx objs :
  listsJustified all (idx, objs) -> theoremsSound all idx ->
  nth_error all pos = Some A -> In r (references A) ->
  resolve (labelToId idx) (id A) r = Some rid ->
  listsJustified all (linked pos (id A) rid l l' idx objs).
Proof.
  intros J TS HA Hr Hres.
  assert (J1 : listsJustified all (idx, update_at pos (pushDependency rid) objs)).
  { intros p t0 t H0 H. simpl in H |- *.
    destruct (nth_error_update_at_inv _ _ _ _ _ H) as [(-> & t1 & H1 & ->)|(N & H1)].
    - destruct (J pos t0 t1 H0 H1) as [Jd Jt]. simpl in Jd, Jt. split; [|exact Jt].
      simpl. intros d Hd. apply in_app_or in Hd. destruct Hd as [Hd|[<-|[]]]; [auto|].
      right. assert (t0 = A) by congruence. subst t0. eauto.
    - exact (J p t0 t H0 H1). }
  unfold linked. destruct (get (theorems idx) rid) as [q|] eqn:Eq; [|exact J1].
  destruct (TS rid q Eq) as (tq & Hq & Hiq).
  intros p t0 t H0 H. simpl in H |- *.
  destruct (nth_error_update_at_inv _ _ _ _ _ H) as [(-> & t1 & H1 & ->)|(N & H1)].
  - destruct (J1 q t0 t1 H0 H1) as [Jd Jt]. simpl in Jd, Jt. split; [exact Jd|].
    simpl. intros x Hx. apply in_app_or in Hx. destruct Hx as [Hx|[<-|[]]]; [auto|].
    right. assert (t0 = tq) by congruence. subst t0. rewrite Hiq.
    exists A, r. repeat split; try assumption. eapply nth_error_In; eassumption.
  - exact (J1 p t0 t H0 H1).
Qed.

Lemma addReferences_lists all pos A :
  nth_error all pos = Some A ->
  forall refs st st',
    incl refs (references A) ->
    keysReady all st -> theoremsSound all (fst st) -> listsJustified all st ->
    addReferencesOwn pos (id A) refs st = Ok st' ->
    listsJustified all st'.
Proof.
  intros HA. assert (Hin : In A all) by (eapply nth_error_In; eassumption).
  induction refs as [|r refs IH]; intros st st' Hincl K TS J E; simpl in E.
  - now injection E as <-.
  - destruct (addReference_ok all pos A st r K Hin) as (st1 & E1 & X1).
    rewrite E1 in E. simpl in E.
    apply (IH st1 st'); try assumption.
    + intros x Hx. apply Hincl. now right.
    + eauto using keysReady_extends.
    + intros k q. rewrite (e_theorems X1). apply TS.
    + destruct st as [idx objs].
      destruct (resolve (labelToId idx) (id A) r) as [rid|] eqn:Hres.
      * destruct K as [Kg Kr]. simpl in Kg, Kr, J, TS.
        specialize (Kg A Hin).
        destruct (get (dependencyGraph idx) (id A)) as [l|] eqn:El; [|congruence].
        destruct (resolve_Some _ _ _ _ Hres) as (Hget & _ & _).
        specialize (Kr r rid Hget).
        destruct (get (reverseDependencyGraph idx) rid) as [l'|] eqn:El'; [|congruence].
        rewrite (addReference_resolved pos (id A) idx objs r rid l l' Hres El El') in E1.
        injection E1 as <-.
        apply listsJustified_linked with (r := r); try assumption.
        apply Hincl. now left.
      * rewrite addReference_unresolved in E1 by exact Hres.
        now injection E1 as <-.
Qed.

Lemma linkTheorems_lists all :
  forall ts pos st st',
    (forall j A, nth_error ts j = Some A -> nth_error all (pos + j) = Some A) ->
    keysReady all st -> theoremsSound all (fst st) -> listsJustified all st ->
    linkTheoremsOwn pos ts st = Ok st' ->
    listsJustified all st'.
Proof.
  induction ts as [|t ts IH]; intros pos st st' Hpos K TS J E; simpl in E.
  - now injection E as <-.
  - assert (HA : nth_error all pos = Some t).
    { rewrite <- (Nat.add_0_r pos). now apply Hpos. }
    assert (Hin : In t all) by (eapply nth_error_In; eassumption).
    destruct (addReferences_ok all pos t Hin (references t) st K) as (st1 & E1 & X1).
    rewrite E1 in E. simpl in E.
    apply (IH (S pos) st1 st'); try assumption.
    + intros j A Hj. replace (S pos + j) with (pos + S j) by lia. now apply Hpos.
    + eauto using keysReady_extends.
    + intros k q. rewrite (e_theorems X1). apply TS.
    + apply (addReferences_lists all pos t HA (references t) st st1);
        auto using incl_refl.
Qed.

End LinkFacts.


(* ================================================================== *)
(** * The scans of the three tools *)
(* ================================================================== *)

Module IndexerScan.
Import JsString Regex Scanner Spec TheoremIndexerTool Facts ScanFacts.

Lemma secondPass_run (signal : nat -> bool) content filePath params stack :
  forall ms poll st,
    secondPass signal content filePath params stack ms poll st =
    if existsb signal (seq poll (List.length ms)) then Err abortMessage
    else Ok (fold_left (closeStep content filePath params stack) ms st).
Proof.
  induction ms as [|m ms IH]; intros poll st; simpl; [reflexivity|].
  destruct (signal poll); simpl; [reflexivity|apply IH].
Qed.

Lemma found_fold content filePath params stack :
  forall ms st,
    found (fold_left (closeStep content filePath params stack) ms st)
    = found st ++ map (indexedBlock content filePath params)
                      (numbered (theoremCounter st)
                                (matchCloses stack (currentTheorem st) ms)).
Proof.
  induction ms as [|m ms IH]; intros st; simpl.
  - now rewrite app_nil_r.
  - unfold closeStep at 2.
    destruct (findOpen stack (currentTheorem st) (group_or_empty 1 m)) as [[i o]|].
    + rewrite IH. simpl. rewrite <- app_assoc. reflexivity.
    + apply IH.
Qed.

(** The two passes: the cancellation error when a poll sees the signal
    aborted, all the blocks otherwise. *)
Lemma scanTheorems_run content filePath params signal :
  scanTheorems content filePath params signal =
  if abortedWithin signal (delimiterMatches (theoremTypesOf params) content)
  then Err abortMessage
  else Ok (indexedBlocks content filePath params).
Proof.
  unfold scanTheorems, delimiterMatches. rewrite abortedWithin_split, firstPass_run.
  destruct (existsb signal (seq 0 _)); simpl; [reflexivity|].
  rewrite secondPass_run. fold (closes content).
  destruct (existsb signal (seq _ (List.length (closes content)))); simpl; [reflexivity|].
  now rewrite found_fold.
Qed.

End IndexerScan.

Module ExtractorScan.
Import JsString Regex Scanner Spec TheoremExtractorTool Facts ScanFacts.

Lemma secondPass_run' (signal : nat -> bool) content filePath params stack :
  forall ms poll st,
    secondPass signal content filePath params stack ms poll st =
    if existsb signal (seq poll (List.length ms)) then Err abortMessage
    else Ok (fold_left (closeStep content filePath params stack) ms st).
Proof.
  induction ms as [|m ms IH]; intros poll st; simpl; [reflexivity|].
  destruct (signal poll); simpl; [reflexivity|apply IH].
Qed.

Lemma found_fold' content filePath params stack :
  forall ms st,
    snd (fold_left (closeStep content filePath params stack) ms st)
    = snd st ++ map (extractedBlock content filePath params)
                    (matchCloses stack (fst st) ms).
Proof.
  induction ms as [|m ms IH]; intros st; simpl.
  - now rewrite app_nil_r.
  - unfold closeStep at 2.
    destruct (findOpen stack (fst st) (group_or_empty 1 m)) as [[i o]|].
    + rewrite IH. simpl. rewrite <- app_assoc. reflexivity.
    + apply IH.
Qed.

Lemma extractTheorems_run content filePath params signal :
  extractTheorems content filePath params signal =
  if abortedWithin signal (delimiterMatches (theoremTypesOf params) content)
  then Err abortMessage
  else Ok (mkResult (extractedBlocks content filePath params)
                    (generateSummary (extractedBlocks content filePath params))).
Proof.
  unfold extractTheorems, delimiterMatches. rewrite abortedWithin_split, firstPass_run.
  destruct (existsb signal (seq 0 _)); simpl; [reflexivity|].
  rewrite secondPass_run'. fold (closes content).
  destruct (existsb signal (seq _ (List.length (closes content)))); simpl; [reflexivity|].
  now rewrite found_fold'.
Qed.

End ExtractorScan.

Module ProofScan.
Import JsString Regex Scanner Spec GetProofTool Facts ScanFacts.

Lemma secondPass_run'' (signal : nat -> bool) content filePath stack :
  forall ms poll st,
    secondPass signal content filePath stack ms poll st =
    if existsb signal (seq poll (List.length ms)) then Err abortMessage
    else Ok (fold_left (closeStep content filePath stack) ms st).
Proof.
  induction ms as [|m ms IH]; intros poll st; simpl; [reflexivity|].
  destruct (signal poll); simpl; [reflexivity|apply IH].
Qed.

Lemma found_fold'' content filePath stack :
  forall ms st,
    snd (fold_left (closeStep content filePath stack) ms st)
    = snd st ++ map (proofBlock content filePath) (matchCloses stack (fst st) ms).
Proof.
  induction ms as [|m ms IH]; intros st; simpl.
  - now rewrite app_nil_r.
  - unfold closeStep at 2.
    destruct (findOpen stack (fst st) (group_or_empty 1 m)) as [[i o]|].
    + rewrite IH. simpl. rewrite <- app_assoc. reflexivity.
    + apply IH.
Qed.

Lemma extractAllTheorems_run content filePath theoremTypes signal :
  extractAllTheorems content filePath theoremTypes signal =
  if abortedWithin signal (delimiterMatches theoremTypes content)
  then Err abortMessage
  else Ok (proofBlocks content filePath theoremTypes).
Proof.
  unfold extractAllTheorems, delimiterMatches. rewrite abortedWithin_split, firstPass_run.
  destruct (existsb signal (seq 0 _)); simpl; [reflexivity|].
  rewrite secondPass_run''. fold (closes content).
  destruct (existsb signal (seq _ (List.length (closes content)))); simpl; [reflexivity|].
  now rewrite found_fold''.
Qed.

End ProofScan.

(* ================================================================== *)
(** * [buildIndex] on blocks without inherited names *)
(* ================================================================== *)

Module PlainFacts.
Import JsString Scanner Dict Spec Examples TheoremIndexerTool Invariants.
Import Facts BasicIndexFacts LinkFacts.

Lemma read_plain {V : Type} (d : dict V) (k : string) :
  inherited k = false ->
  read d k = match get d k with
             | Some v => Own v
             | None => Undefined
             end.
Proof. intros H. unfold read. now rewrite H. Qed.

Lemma pushInit_plain (e : string) (d : dict (list string)) (k v : string) :
  inherited k = false -> pushInit e d k v = Ok (pushInitOwn d k v).
Proof.
  intros H. unfold pushInit, pushInitOwn. rewrite (read_plain _ _ H).
  now destruct (get d k).
Qed.

Lemma push_plain (e : string) (d : dict (list string)) (k v : string) :
  inherited k = false -> push e d k v = pushOwn d k v.
Proof.
  intros H. unfold push, pushOwn. rewrite (read_plain _ _ H).
  now destruct (get d k).
Qed.

Lemma pushSymbols_plain (tid : string) :
  forall syms d,
    forallb (fun symbol => negb (inherited symbol)) syms = true ->
    pushSymbols tid syms d
    = Ok (fold_left (fun d symbol => pushInitOwn d symbol tid) syms d).
Proof.
  induction syms as [|s syms IH]; intros d H; simpl in *; [reflexivity|].
  apply andb_prop in H. destruct H as [H1 H2]. apply negb_true_iff in H1.
  rewrite (pushInit_plain _ _ _ _ H1). simpl. now apply IH.
Qed.

(** What [plainBlock] says of the keys the two loops use. *)
Lemma plainBlock_keys (t : IndexedTheorem) :
  plainBlock t = true ->
  inherited (id t) = false
  /\ inherited (type t) = false
  /\ forallb (fun reference => negb (inherited reference)) (references t) = true
  /\ forallb (fun symbol => negb (inherited symbol)) (symbols t) = true.
Proof.
  unfold plainBlock. intros H.
  apply andb_prop in H. destruct H as [H Hs].
  apply andb_prop in H. destruct H as [H Hr].
  apply andb_prop in H. destruct H as [H _].
  apply andb_prop in H. destruct H as [Hi Ht].
  apply negb_true_iff in Hi. apply negb_true_iff in Ht. auto.
Qed.

Lemma plainBlocks_In (ts : list IndexedTheorem) (t : IndexedTheorem) :
  plainBlocks ts = true -> In t ts -> plainBlock t = true.
Proof.
  unfold plainBlocks. intros H Hin. rewrite forallb_forall in H. auto.
Qed.

Lemma addBasic_plain (idx : TheoremIndex) (pos : nat) (t : IndexedTheorem) :
  plainBlock t = true -> addBasic idx pos t = Ok (addBasicOwn idx pos t).
Proof.
  intros H. destruct (plainBlock_keys t H) as (_ & Ht & _ & Hs).
  unfold addBasic, addBasicOwn.
  rewrite (pushInit_plain _ _ _ _ Ht). simpl.
  rewrite (pushSymbols_plain _ _ _ Hs). reflexivity.
Qed.

Lemma basicIndices_plain :
  forall ts idx pos,
    plainBlocks ts = true ->
    basicIndices idx pos ts = Ok (basicIndicesOwn idx pos ts).
Proof.
  induction ts as [|t ts IH]; intros idx pos H; simpl in *; [reflexivity|].
  apply andb_prop in H. destruct H as [H1 H2].
  rewrite (addBasic_plain _ _ _ H1). simpl. now apply IH.
Qed.

(** One reference: when neither the identifier, nor the reference, nor
    what the label map holds for it is an inherited name, every read finds
    an own property or nothing. *)
Lemma addReference_plain (pos : nat) (tid : string) (st : TheoremIndex * store) (r : string) :
  inherited tid = false -> inherited r = false ->
  (forall rid, get (labelToId (fst st)) r = Some rid -> inherited rid = false) ->
  addReference pos tid st r = addReferenceOwn pos tid st r.
Proof.
  intros Ht Hr Hl. destruct st as [idx objs]. simpl in Hl.
  unfold addReference, addReferenceOwn, resolve. simpl fst.
  rewrite (read_plain _ _ Hr).
  destruct (get (labelToId idx) r) as [rid|] eqn:E; [|reflexivity].
  destruct (truthy rid && negb (String.eqb rid tid)); [|reflexivity].
  unfold link.
  rewrite (push_plain _ _ _ _ Ht), (push_plain _ _ _ _ (Hl rid eq_refl)).
  destruct (pushOwn (dependencyGraph idx) tid rid); simpl; [|reflexivity].
  destruct (pushOwn (reverseDependencyGraph idx) rid tid); simpl; [|reflexivity].
  rewrite (read_plain _ _ (Hl rid eq_refl)).
  now destruct (get (theorems idx) rid).
Qed.

Lemma addReferenceOwn_labels (pos : nat) (tid : string) (st st' : TheoremIndex * store)
      (r : string) :
  addReferenceOwn pos tid st r = Ok st' -> labelToId (fst st') = labelToId (fst st).
Proof.
  destruct st as [idx objs]. unfold addReferenceOwn.
  destruct (resolve (labelToId idx) tid r) as [rid|]; [|now intros [= <-]].
  destruct (pushOwn (dependencyGraph idx) tid rid); simpl; [|discriminate].
  destruct (pushOwn (reverseDependencyGraph idx) rid tid); simpl; [|discriminate].
  now intros [= <-].
Qed.

Lemma addReferencesOwn_labels (pos : nat) (tid : string) :
  forall refs st st',
    addReferencesOwn pos tid refs st = Ok st' -> labelToId (fst st') = labelToId (fst st).
Proof.
  induction refs as [|r refs IH]; intros st st' E; simpl in E.
  - now injection E as <-.
  - destruct (addReferenceOwn pos tid st r) as [st1|] eqn:E1; simpl in E; [|discriminate].
    rewrite (IH _ _ E). eapply addReferenceOwn_labels; eassumption.
Qed.

Lemma addReferences_plain (pos : nat) (tid : string) :
  forall refs st,
    inherited tid = false ->
    forallb (fun reference => negb (inherited reference)) refs = true ->
    (forall r rid, get (labelToId (fst st)) r = Some rid -> inherited rid = false) ->
    addReferences pos tid refs st = addReferencesOwn pos tid refs st.
Proof.
  induction refs as [|r refs IH]; intros st Ht Hr Hl; simpl in *; [reflexivity|].
  apply andb_prop in Hr. destruct Hr as [Hr1 Hr2]. apply negb_true_iff in Hr1.
  rewrite (addReference_plain _ _ _ _ Ht Hr1 (Hl r)).
  destruct (addReferenceOwn pos tid st r) as [st1|] eqn:E; simpl; [|reflexivity].
  apply IH; try assumption.
  intros r' rid. rewrite (addReferenceOwn_labels _ _ _ _ _ E). apply Hl.
Qed.

Lemma linkTheorems_plain :
  forall ts pos st,
    plainBlocks ts = true ->
    (forall r rid, get (labelToId (fst st)) r = Some rid -> inherited rid = false) ->
    linkTheorems pos ts st = linkTheoremsOwn pos ts st.
Proof.
  induction ts as [|t ts IH]; intros pos st H Hl; simpl in *; [reflexivity|].
  apply andb_prop in H. destruct H as [H1 H2].
  destruct (plainBlock_keys t H1) as (Hi & _ & Hr & _).
  rewrite (addReferences_plain _ _ _ _ Hi Hr Hl).
  destruct (addReferencesOwn pos (id t) (references t) st) as [st1|] eqn:E; simpl;
    [|reflexivity].
  apply IH; [assumption|].
  intros r rid. rewrite (addReferencesOwn_labels _ _ _ _ _ E). apply Hl.
Qed.

(** On blocks without inherited names [buildIndex] is its run on own
    properties. *)
Lemma buildIndex_plain (ts : list IndexedTheorem) (buildDependencies : bool) :
  plainBlocks ts = true ->
  buildIndex ts buildDependencies = buildIndexOwn ts buildDependencies.
Proof.
  intros H. unfold buildIndex, buildIndexOwn.
  rewrite (basicIndices_plain _ _ _ H). simpl.
  destruct buildDependencies; [|reflexivity].
  apply linkTheorems_plain; [assumption|]. simpl.
  intros r rid Hg. destruct (labelToId_values ts r rid Hg) as (t & Hin & <-).
  now destruct (plainBlock_keys t (plainBlocks_In _ _ H Hin)).
Qed.

(** A scan of the indexer that is cancelled raises; one that is not runs
    [buildIndex] on all the blocks of the text. *)
Lemma indexTheorems_scan content filePath params signal :
  indexTheorems content filePath params signal =
  if abortedWithin signal (delimiterMatches (theoremTypesOf params) content)
  then Err abortMessage
  else
    built <- buildIndex (indexedBlocks content filePath params)
                        (not_false (build_dependencies params)) ;;
    Ok (mkResult (fst built) (snd built)
                 (generateIndexingSummary (snd built) (fst built))).
Proof.
  unfold indexTheorems. rewrite IndexerScan.scanTheorems_run.
  now destruct (abortedWithin signal _).
Qed.

(** On a text whose blocks have no inherited names the indexer is its run
    on own properties. *)
Lemma indexTheorems_plain content filePath params signal :
  plainBlocks (indexedBlocks content filePath params) = true ->
  indexTheorems content filePath params signal
  = indexTheoremsOwn content filePath params signal.
Proof.
  intros H. rewrite indexTheorems_scan. unfold indexTheoremsOwn.
  rewrite IndexerScan.scanTheorems_run.
  destruct (abortedWithin signal _); [reflexivity|].
  simpl. now rewrite (buildIndex_plain _ _ H).
Qed.

(** The kinds each tool recognizes by default are words of letters. *)
Lemma indexerKinds_plain : plainKinds TheoremIndexerTool.defaultTheoremTypes = true.
Proof. vm_compute. reflexivity. Qed.

Lemma extractorKinds_plain : plainKinds TheoremExtractorTool.defaultTheoremTypes = true.
Proof. vm_compute. reflexivity. Qed.

Lemma lookupKinds_plain : plainKinds GetProofTool.defaultTheoremTypes = true.
Proof. vm_compute. reflexivity. Qed.

(** The blocks of the example documents have no inherited names. *)
Lemma demoDocument_plain :
  plainBlocks (indexedBlocks demoDocument "demo.tex" default_params) = true.
Proof. vm_compute. reflexivity. Qed.

Lemma referenceDocument_plain :
  plainBlocks (indexedBlocks referenceDocument "refs.tex" default_params) = true.
Proof. vm_compute. reflexivity. Qed.

End PlainFacts.

(* ================================================================== *)
(** * Properties of the scans *)
(* ================================================================== *)

Module ScanTheorems.
Import JsString Regex Scanner Spec Invariants Examples Facts ScanFacts LinkFacts.

Lemma abortedWithin_never (n : nat) : abortedWithin (fun _ => false) n = false.
Proof.
  unfold abortedWithin. induction (seq 0 n); simpl; auto.
Qed.

Lemma nth_error_pair {A B : Type} :
  forall (l1 : list A) (l2 : list B) i a b,
    nth_error l1 i = Some a -> nth_error l2 i = Some b ->
    nth_error (combine l1 l2) i = Some (a, b).
Proof.
  induction l1 as [|x l1 IH]; intros [|y l2] [|i] a b H1 H2; simpl in *; try discriminate.
  - now injection H1 as <-; injection H2 as <-.
  - auto.
Qed.

Lemma Forall2_nth_error {A B : Type} (R : A -> B -> Prop) :
  forall l l' i x,
    Forall2 R l l' -> nth_error l i = Some x ->
    exists y, nth_error l' i = Some y /\ R x y.
Proof.
  intros l l' i x H. revert i x.
  induction H as [|a b l l' Hab H IH]; intros [|i] x Hn; simpl in *; try discriminate.
  - injection Hn as <-. eauto.
  - eauto.
Qed.

Lemma nth_error_lt {A : Type} (l : list A) (i : nat) :
  i < List.length l -> exists x, nth_error l i = Some x.
Proof.
  intros H. destruct (nth_error l i) eqn:E; [eauto|].
  apply nth_error_None in E. lia.
Qed.

(** Without cancellation the run of the indexer on own properties
    returns a result for every document: the blocks of the scan with their
    dependency lists filled, and their index. *)
Lemma indexTheorems_complete content filePath params :
  exists r,
    TheoremIndexerTool.indexTheoremsOwn content filePath params (fun _ => false) = Ok r
    /\ extends (TheoremIndexerTool.basicIndicesOwn TheoremIndexerTool.emptyIndex 0
                  (indexedBlocks content filePath params),
                indexedBlocks content filePath params)
               (TheoremIndexerTool.r_index r, TheoremIndexerTool.r_theorems r).
Proof.
  unfold TheoremIndexerTool.indexTheoremsOwn.
  rewrite IndexerScan.scanTheorems_run, abortedWithin_never. simpl.
  destruct (buildIndex_ok (indexedBlocks content filePath params)
              (TheoremIndexerTool.not_false (TheoremIndexerTool.build_dependencies params)))
    as ([idx objs] & E & X).
  rewrite E. simpl. eexists. split; [reflexivity|exact X].
Qed.

Section WellFormed.
Variables (content : string) (theoremTypes : list string) (n : nat).
Hypothesis WF : wellFormed theoremTypes content n.

Lemma relevantCloses_length : List.length (relevantCloses theoremTypes content) = n.
Proof. destruct WF as [<- H]. eauto using alternate_length. Qed.

Lemma pairs_nth (i : nat) :
  i < n ->
  exists o c,
    nth_error (opens theoremTypes content) i = Some o
    /\ nth_error (relevantCloses theoremTypes content) i = Some c
    /\ nth_error (matchCloses (opens theoremTypes content) 0 (closes content)) i = Some (o, c)
    /\ o_type o = closeKind c.
Proof.
  intros Hi. pose proof relevantCloses_length as Hc.
  destruct WF as [Ho Ha].
  destruct (nth_error_lt (opens theoremTypes content) i) as [o Eo]; [lia|].
  destruct (nth_error_lt (relevantCloses theoremTypes content) i) as [c Ec]; [lia|].
  exists o, c. repeat split; try assumption.
  - rewrite (matchCloses_wellFormed _ _ _ WF). now apply nth_error_pair.
  - apply alternate_kinds in Ha.
    destruct (Forall2_nth_error _ _ _ _ _ Ha Eo) as (c' & Ec' & K). congruence.
Qed.

Lemma pairs_length :
  List.length (matchCloses (opens theoremTypes content) 0 (closes content)) = n.
Proof.
  rewrite (matchCloses_wellFormed _ _ _ WF), length_combine, relevantCloses_length.
  destruct WF as [-> _]. lia.
Qed.

Lemma closes_in_order (i j : nat) (ci cj : rmatch) :
  i < j ->
  nth_error (relevantCloses theoremTypes content) i = Some ci ->
  nth_error (relevantCloses theoremTypes content) j = Some cj ->
  closeEnd ci <= Regex.index cj.
Proof.
  destruct WF as [_ Ha]. eauto using alternate_increasing.
Qed.

End WellFormed.



(** The store of [buildIndex] only grows: whenever a call returns, the
    objects it returns are the blocks it was given, with longer dependency
    lists. *)
Lemma link_grows pos tid rid (st st' : TheoremIndexerTool.TheoremIndex * TheoremIndexerTool.store) :
  TheoremIndexerTool.link pos tid rid st = Ok st' -> Forall2 grows (snd st) (snd st').
Proof.
  destruct st as [idx objs]. unfold TheoremIndexerTool.link.
  destruct (TheoremIndexerTool.push _ (TheoremIndexerTool.dependencyGraph idx) tid rid);
    simpl; [|discriminate].
  destruct (TheoremIndexerTool.push _ (TheoremIndexerTool.reverseDependencyGraph idx) rid tid);
    simpl; [|discriminate].
  destruct (Dict.read (TheoremIndexerTool.theorems idx) rid); simpl;
    try discriminate; intros [= <-]; simpl; auto with index.
  apply Forall2_grows_trans
    with (o2 := TheoremIndexerTool.update_at pos (TheoremIndexerTool.pushDependency rid) objs);
    auto with index.
Qed.

Lemma addReference_grows pos tid r (st st' : TheoremIndexerTool.TheoremIndex * TheoremIndexerTool.store) :
  TheoremIndexerTool.addReference pos tid st r = Ok st' -> Forall2 grows (snd st) (snd st').
Proof.
  unfold TheoremIndexerTool.addReference.
  destruct (Dict.read _ r) as [rid| |].
  - destruct (truthy rid && negb (String.eqb rid tid)); [apply link_grows|].
    intros [= <-]. apply Forall2_grows_refl.
  - apply link_grows.
  - intros [= <-]. apply Forall2_grows_refl.
Qed.

Lemma addReferences_grows pos tid :
  forall refs (st st' : TheoremIndexerTool.TheoremIndex * TheoremIndexerTool.store),
    TheoremIndexerTool.addReferences pos tid refs st = Ok st' ->
    Forall2 grows (snd st) (snd st').
Proof.
  induction refs as [|r refs IH]; intros st st' E; simpl in E.
  - injection E as <-. apply Forall2_grows_refl.
  - destruct (TheoremIndexerTool.addReference pos tid st r) as [st1|] eqn:E1;
      simpl in E; [|discriminate].
    eapply Forall2_grows_trans; [eapply addReference_grows; eassumption|eauto].
Qed.

Lemma linkTheorems_grows :
  forall ts pos (st st' : TheoremIndexerTool.TheoremIndex * TheoremIndexerTool.store),
    TheoremIndexerTool.linkTheorems pos ts st = Ok st' ->
    Forall2 grows (snd st) (snd st').
Proof.
  induction ts as [|t ts IH]; intros pos st st' E; simpl in E.
  - injection E as <-. apply Forall2_grows_refl.
  - destruct (TheoremIndexerTool.addReferences pos _ _ st) as [st1|] eqn:E1;
      simpl in E; [|discriminate].
    eapply Forall2_grows_trans; [eapply addReferences_grows; eassumption|eauto].
Qed.

Lemma buildIndex_grows ts buildDependencies st :
  TheoremIndexerTool.buildIndex ts buildDependencies = Ok st -> Forall2 grows ts (snd st).
Proof.
  unfold TheoremIndexerTool.buildIndex.
  destruct (TheoremIndexerTool.basicIndices _ 0 ts) as [idx|]; simpl; [|discriminate].
  destruct buildDependencies.
  - intros E. exact (linkTheorems_grows _ _ _ _ E).
  - intros [= <-]. apply Forall2_grows_refl.
Qed.

(** C5. The scan polls the signal once per delimiter match, the opening
    delimiters of the recognized kinds first, then the closing delimiters
    (the kinds being words of letters and digits).  As soon as a poll sees
    the signal aborted the cancellation error is raised; when no poll does,
    the call is the call that is not cancelled.  A result that is returned
    is never built from a part of the blocks: no poll saw the signal
    aborted and the objects returned are all the blocks of the text.  With
    a signal aborted from the start the error is raised at the first
    delimiter match. *)
Theorem C5_cancellation (content filePath : string)
        (params : TheoremIndexerTool.TheoremIndexerParams) (signal : nat -> bool) :
  plainKinds (TheoremIndexerTool.theoremTypesOf params) = true ->
  let polls := delimiterMatches (TheoremIndexerTool.theoremTypesOf params) content in
  TheoremIndexerTool.indexTheorems content filePath params signal
  = (if abortedWithin signal polls
     then Err TheoremIndexerTool.abortMessage
     else TheoremIndexerTool.indexTheorems content filePath params (fun _ => false))
  /\ (forall r,
        TheoremIndexerTool.indexTheorems content filePath params signal = Ok r ->
        abortedWithin signal polls = false
        /\ Forall2 grows (indexedBlocks content filePath params)
                   (TheoremIndexerTool.r_theorems r))
  /\ (0 < polls ->
      TheoremIndexerTool.indexTheorems content filePath params (fun _ => true)
      = Err TheoremIndexerTool.abortMessage).
Proof.
  intros _ polls. split; [|split].
  - rewrite !PlainFacts.indexTheorems_scan, abortedWithin_never.
    fold polls. now destruct (abortedWithin signal polls).
  - intros r. rewrite PlainFacts.indexTheorems_scan. fold polls.
    destruct (abortedWithin signal polls); [discriminate|].
    destruct (TheoremIndexerTool.buildIndex _ _) as [built|] eqn:B; simpl; [|discriminate].
    intros [= <-]. split; [reflexivity|]. simpl.
    exact (buildIndex_grows _ _ _ B).
  - intros Hp. rewrite PlainFacts.indexTheorems_scan. fold polls.
    destruct polls; [lia|reflexivity].
Qed.

Lemma C5_cancellation_witness :
  plainKinds TheoremIndexerTool.defaultTheoremTypes = true
  /\ delimiterMatches TheoremIndexerTool.defaultTheoremTypes demoDocument = 6
  /\ TheoremIndexerTool.indexTheorems demoDocument "demo.tex"
       TheoremIndexerTool.default_params (fun poll => poll =? 5)
     = Err TheoremIndexerTool.abortMessage.
Proof.
  assert (K : plainKinds TheoremIndexerTool.defaultTheoremTypes = true)
    by (vm_compute; reflexivity).
  assert (P : delimiterMatches TheoremIndexerTool.defaultTheoremTypes demoDocument = 6)
    by (vm_compute; reflexivity).
  split; [exact K|]. split; [exact P|].
  pose proof (C5_cancellation demoDocument "demo.tex" TheoremIndexerTool.default_params
                (fun poll => poll =? 5) K) as H.
  cbv zeta in H. destruct H as (H & _).
  change (TheoremIndexerTool.theoremTypesOf TheoremIndexerTool.default_params)
    with TheoremIndexerTool.defaultTheoremTypes in H.
  rewrite P in H. exact H.
Defined.

End ScanTheorems.

(* ================================================================== *)
(** * Properties of the index *)
(* ================================================================== *)

Module IndexTheorems.
Import JsString Regex Dict Scanner Spec Invariants Examples TheoremIndexerTool.
Import Facts BasicIndexFacts LinkFacts ScanTheorems.

(** The identifier of a block is never the empty string, and it is the
    label when the label is truthy. *)
Lemma generateTheoremId_truthy (ty : string) (l : option string) (k : nat) :
  truthy (generateTheoremId ty l k) = true.
Proof.
  unfold generateTheoremId. destruct l as [l|]; [destruct (truthy l) eqn:E|];
    auto; destruct ty; reflexivity.
Qed.

Lemma generateTheoremId_label (ty l : string) (k : nat) :
  truthy l = true -> generateTheoremId ty (Some l) k = l.
Proof. intros H. unfold generateTheoremId. now rewrite H. Qed.

Lemma indexedBlocks_id_truthy content filePath params :
  Forall (fun t => truthy (id t) = true) (indexedBlocks content filePath params).
Proof.
  apply Forall_forall. intros t Hin. unfold indexedBlocks in Hin.
  apply in_map_iff in Hin. destruct Hin as (x & <- & _).
  apply generateTheoremId_truthy.
Qed.

Lemma indexedBlocks_id_label content filePath params t l :
  In t (indexedBlocks content filePath params) ->
  label t = Some l -> truthy l = true -> id t = l.
Proof.
  intros Hin Hl Ht. unfold indexedBlocks in Hin.
  apply in_map_iff in Hin. destruct Hin as (x & <- & _).
  simpl in *. rewrite Hl. now apply generateTheoremId_label.
Qed.

Lemma Forall2_nth_error_r {A B : Type} (R : A -> B -> Prop) :
  forall l l' i y,
    Forall2 R l l' -> nth_error l' i = Some y ->
    exists x, nth_error l i = Some x /\ R x y.
Proof.
  intros l l' i y H. revert i y.
  induction H as [|a b l l' Hab H IH]; intros [|i] y Hn; simpl in *; try discriminate.
  - injection Hn as <-. eauto.
  - eauto.
Qed.

(** C2 fails on the code.  The reference [constructor] of the block does
    not resolve through the label map, whose only label is [thm:a]; but
    the read [index.labelToId[reference]] finds the member every object
    inherits under that name.  The member passes the test, it is pushed on
    the row of the block in the forward graph, and the reverse graph has
    no row for it: [buildIndex] raises a [TypeError], and so does the
    indexer, where the claim promises no edge and no error.  Without
    dependency building the same blocks are indexed. *)
Theorem C2_inherited_reference_raises :
  (exists t,
      indexedBlocks inheritedReferenceDocument "inherited.tex" default_params = [t]
      /\ id t = "thm:a" /\ label t = Some "thm:a" /\ references t = ["constructor"]
      /\ (exists idx,
            basicIndices emptyIndex 0 [t] = Ok idx
            /\ labelToId idx = [("thm:a", "thm:a")]
            /\ get (labelToId idx) "constructor" = None)
      /\ buildIndex [t] true = Err type_error
      /\ exists st, buildIndex [t] false = Ok st)
  /\ indexTheorems inheritedReferenceDocument "inherited.tex" default_params (fun _ => false)
     = Err type_error.
Proof.
  split.
  - eexists. split; [vm_compute; reflexivity|].
    split; [reflexivity|]. split; [reflexivity|]. split; [reflexivity|].
    split; [|split].
    + eexists. split; [vm_compute; reflexivity|]. split; reflexivity.
    + vm_compute. reflexivity.
    + eexists. vm_compute. reflexivity.
  - vm_compute. reflexivity.
Qed.

(** Where no key is an inherited name the claim holds.  [buildIndex] with
    dependency building, on blocks without inherited names whose
    identifiers are not empty (as those of every scan are): no exception;
    for every reference [r] of a block [A] that the label map sends to an
    identifier [rid] other than that of [A], [rid] is in the forward graph
    under [A], [A] is in the reverse graph under [rid], [rid] is in the
    dependencies of [A] and [A] is in the dependents of the block stored
    under [rid]; and the graphs hold no other edge. *)
Lemma resolved_references_recorded (ts : list IndexedTheorem) :
  plainBlocks ts = true ->
  Forall (fun t => truthy (id t) = true) ts ->
  exists idx objs,
    buildIndex ts true = Ok (idx, objs)
    /\ Forall2 grows ts objs
    /\ (forall p A r rid,
          nth_error ts p = Some A -> In r (references A) ->
          get (labelToId idx) r = Some rid -> rid <> id A ->
          (exists l, get (dependencyGraph idx) (id A) = Some l /\ In rid l)
          /\ (exists l, get (reverseDependencyGraph idx) rid = Some l /\ In (id A) l)
          /\ (exists A', nth_error objs p = Some A' /\ In rid (dependencies A'))
          /\ (exists q B, get (theorems idx) rid = Some q
                          /\ nth_error objs q = Some B /\ id B = rid
                          /\ In (id A) (dependents B)))
    /\ (forall a b l,
          get (dependencyGraph idx) a = Some l -> In b l ->
          b <> a /\ exists A r, In A ts /\ id A = a /\ In r (references A)
                                /\ get (labelToId idx) r = Some b)
    /\ (forall a b l,
          get (reverseDependencyGraph idx) b = Some l -> In a l ->
          b <> a /\ exists A r, In A ts /\ id A = a /\ In r (references A)
                                /\ get (labelToId idx) r = Some b).
Proof.
  intros Hplain Hid. rewrite (PlainFacts.buildIndex_plain ts true Hplain).
  destruct (buildIndex_ok ts true) as ([idx objs] & E & X).
  exists idx, objs. split; [exact E|]. split; [exact (e_store X)|].
  pose proof (e_labelToId X) as HL. pose proof (e_theorems X) as HT. simpl in HL, HT.
  unfold buildIndexOwn in E.
  split; [|split].
  - intros p A r rid Hn Hr Hget Hne. rewrite HL in Hget.
    destruct (labelToId_values ts r rid Hget) as (t0 & Hin0 & Hid0).
    assert (Htr : truthy rid = true).
    { rewrite Forall_forall in Hid. rewrite <- Hid0. now apply Hid. }
    assert (Hres : resolve (labelToId (basicIndicesOwn emptyIndex 0 ts)) (id A) r = Some rid).
    { unfold resolve. rewrite Hget, Htr.
      destruct (String.eqb rid (id A)) eqn:Eq; [apply String.eqb_eq in Eq; contradiction|].
      reflexivity. }
    pose proof (linkTheorems_records ts ts 0 _ _ (incl_refl ts) (keysReady_initial ts)
                  (storeReady_initial ts) (Nat.le_refl _) E p A r rid Hn Hr Hres)
      as (Rg & Rr & Rd & Rt).
    simpl in Rg, Rr, Rd, Rt. repeat split; try assumption.
    pose proof (theorems_initial ts rid) as L.
    destruct (get (theorems (basicIndicesOwn emptyIndex 0 ts)) rid) as [q|] eqn:Eq.
    + destruct L as [(t1 & Hn1 & Hi1) _]. apply String.eqb_eq in Hi1.
      destruct (Rt q) as (B & HB & IB); [now rewrite HT|].
      destruct (Forall2_nth_error _ _ _ _ _ (e_store X) Hn1) as (B' & HB' & G).
      simpl in HB'. assert (B' = B) by congruence. subst B'.
      exists q, B. rewrite HT. repeat split; try assumption.
      now rewrite (g_id G).
    + exfalso. now apply (L t0 Hin0).
  - intros a b l Hl Hb.
    destruct (linkTheorems_justified ts ts 0 _ _ (incl_refl ts) (keysReady_initial ts)
                (edgesJustified_initial ts) E) as [Jg _].
    destruct (Jg a l b Hl Hb) as (A & r & HA & HiA & Hr & Hres).
    destruct (resolve_Some _ _ _ _ Hres) as (Hget & _ & Hne).
    split; [assumption|]. exists A, r. simpl in Hget. now rewrite HL in Hget |- *.
  - intros a b l Hl Ha.
    destruct (linkTheorems_justified ts ts 0 _ _ (incl_refl ts) (keysReady_initial ts)
                (edgesJustified_initial ts) E) as [_ Jr].
    destruct (Jr b l a Hl Ha) as (A & r & HA & HiA & Hr & Hres).
    destruct (resolve_Some _ _ _ _ Hres) as (Hget & _ & Hne).
    split; [assumption|]. exists A, r. simpl in Hget. now rewrite HL in Hget |- *.
Qed.

(** C6 fails on the code.  Of two blocks labelled [dup] the earlier one is
    not kept under [theorem_1]: [generateTheoremId] returns the label as
    the identifier, so both blocks have the identifier [dup], which the
    interface declares unique, and the identifier map has the single entry
    [dup], the later block.  The earlier block is in the result array and
    nowhere in the identifier map. *)
Theorem C6_duplicate_label_loses_block :
  exists r,
    indexTheorems duplicateLabelDocument "dup.tex" default_params (fun _ => false) = Ok r
    /\ map label (r_theorems r) = [Some "dup"; Some "dup"]
    /\ map id (r_theorems r) = ["dup"; "dup"]
    /\ map type (r_theorems r) = ["theorem"; "lemma"]
    /\ map index (r_theorems r) = [1; 2]
    /\ labelToId (r_index r) = [("dup", "dup")]
    /\ theorems (r_index r) = [("dup", 1)]
    /\ get (theorems (r_index r)) "theorem_1" = None
    /\ typeIndex (r_index r) = [("theorem", ["dup"]); ("lemma", ["dup"])].
Proof.
  eexists. split; [vm_compute; reflexivity|]. vm_compute. repeat split; reflexivity.
Qed.

End IndexTheorems.

(* ================================================================== *)
(** * Properties of the content extractors *)
(* ================================================================== *)

Module ExtractorTheorems.
Import JsString Regex Scanner Spec Examples Facts ScanTheorems.

(** ** Sets that keep the order of insertion *)

Lemma uniq_from_ext (s1 s2 : list string) :
  (forall x, mem x s1 = mem x s2) ->
  forall xs, uniq_from s1 xs = uniq_from s2 xs.
Proof.
  intros H xs. revert s1 s2 H.
  induction xs as [|x xs IH]; intros s1 s2 H; simpl; [reflexivity|].
  rewrite <- (H x). destruct (mem x s1); [now apply IH|].
  f_equal. apply IH. intros y. simpl. now rewrite H.
Qed.

Lemma mem_app (x : string) (a b : list string) : mem x (a ++ b) = mem x a || mem x b.
Proof. unfold mem. apply existsb_app. Qed.

Lemma uniq_from_In (xs seen : list string) (x : string) :
  In x (uniq_from seen xs) <-> In x xs /\ ~ In x seen.
Proof.
  revert seen. induction xs as [|y xs IH]; intros seen; simpl; [tauto|].
  destruct (mem y seen) eqn:E.
  - rewrite IH. apply mem_In in E. split; [tauto|].
    intros [[<-|H] N]; [contradiction|tauto].
  - apply mem_false in E. simpl. rewrite IH. simpl. split.
    + intros [<-|[H N]]; [tauto|tauto].
    + intros [[<-|H] N]; [tauto|].
      destruct (String.eqb_spec y x) as [->|D]; [tauto|]. right. tauto.
Qed.

Lemma uniq_from_NoDup (xs seen : list string) : NoDup (uniq_from seen xs).
Proof.
  revert seen. induction xs as [|y xs IH]; intros seen; simpl; [constructor|].
  destruct (mem y seen); [apply IH|]. constructor; [|apply IH].
  rewrite uniq_from_In. simpl. tauto.
Qed.

Lemma uniq_from_app (a b seen : list string) :
  uniq_from seen (a ++ b) = uniq_from seen a ++ uniq_from (a ++ seen) b.
Proof.
  revert seen. induction a as [|x a IH]; intros seen; simpl; [reflexivity|].
  destruct (mem x seen) eqn:E.
  - rewrite IH. f_equal. apply uniq_from_ext. intros y. simpl.
    rewrite !mem_app. destruct (String.eqb_spec y x) as [->|D]; [|reflexivity].
    now rewrite E, orb_true_r.
  - simpl. f_equal. rewrite IH. f_equal. apply uniq_from_ext. intros y.
    rewrite !mem_app. simpl. rewrite mem_app.
    destruct (String.eqb y x), (mem y a), (mem y seen); reflexivity.
Qed.

Lemma uniq_from_filter (b s1 s2 : list string) :
  uniq_from (s1 ++ s2) b = filter (fun x => negb (mem x s2)) (uniq_from s1 b).
Proof.
  revert s1. induction b as [|x b IH]; intros s1; simpl; [reflexivity|].
  rewrite mem_app. destruct (mem x s1) eqn:E1; simpl; [apply IH|].
  destruct (mem x s2) eqn:E2; simpl.
  - rewrite <- (IH (x :: s1)). apply uniq_from_ext. intros y. simpl.
    rewrite !mem_app. destruct (String.eqb_spec y x) as [->|D]; [|reflexivity].
    now rewrite E2, orb_true_r.
  - f_equal. apply (IH (x :: s1)).
Qed.

(** C8, as the claim states it, fails: an equation reference that comes
    first in the text is listed after a general reference that comes
    later. *)
Lemma C8_counterexample_eqref_first :
  extractReferences "\eqref{a} then \ref{b}" = ["b"; "a"]
  /\ referencesInTextOrder "\eqref{a} then \ref{b}" = ["a"; "b"].
Proof. split; vm_compute; reflexivity. Qed.

(** C8, amended. The reference extractor returns the arguments of the two
    cross-reference commands without repetition: first the arguments of
    the general references, in the order of their first occurrence, then
    those arguments of the equation references that no general reference
    has, in the order of their first occurrence among the equation
    references. *)
Theorem C8_references_by_command (content : string) :
  NoDup (extractReferences content)
  /\ (forall x, In x (extractReferences content)
                <-> In x (refArguments content) \/ In x (eqrefArguments content))
  /\ extractReferences content
     = uniq (refArguments content)
       ++ filter (fun x => negb (mem x (refArguments content)))
                 (uniq (eqrefArguments content)).
Proof.
  unfold extractReferences, uniq. split; [apply uniq_from_NoDup|]. split.
  - intros x. rewrite uniq_from_In, in_app_iff. simpl. tauto.
  - rewrite uniq_from_app, app_nil_r. f_equal.
    exact (uniq_from_filter (eqrefArguments content) [] (refArguments content)).
Qed.


(** C9, as the claim states it, fails: the result is not the two bare
    names only. *)
Lemma C9_counterexample_backslash_tokens :
  extractSymbols "$\alpha + \beta$" <> ["alpha"; "beta"].
Proof. vm_compute. discriminate. Qed.

(** C9, amended. On the input [$\alpha + \beta$] symbol extraction yields
    four tokens: the bare-command pattern contributes the names [alpha] and
    [beta] without backslash, the inline-math pattern contributes the
    commands [\alpha] and [\beta] with their backslash, the three other
    patterns contribute nothing; the union is deduplicated once and sorted
    by code unit, the backslash before the letters. *)
Theorem C9_symbols_of_inline_math :
  extractSymbols "$\alpha + \beta$" = ["\alpha"; "\beta"; "alpha"; "beta"]
  /\ map (fun p => flat_map symbolsOfMatch (execAll (fst p) (snd p) "$\alpha + \beta$"))
         symbolPatterns
     = [ ["alpha"; "beta"]; ["\alpha"; "\beta"]; []; []; [] ].
Proof. split; vm_compute; reflexivity. Qed.

(** ** Labels declared in the body of a block *)

(** In the proof lookup tool a block whose opening delimiter carries no
    truthy label takes the argument of the first labelling command of its
    raw text; the label of the opening delimiter, when truthy, wins. *)
Lemma getProof_label_from_body content filePath theoremTypes t :
  In t (proofBlocks content filePath theoremTypes) ->
  exists o m,
    t = GetProofTool.makeTheorem content filePath o m
    /\ (truthy_opt (o_label o) = true -> GetProofTool.label t = o_label o)
    /\ (truthy_opt (o_label o) = false ->
        forall lm,
          search no_flags GetProofTool.labelPattern (GetProofTool.rawContent t) = Some lm ->
          GetProofTool.label t = group 1 lm).
Proof.
  intros Hin. unfold proofBlocks in Hin. apply in_map_iff in Hin.
  destruct Hin as ([o m] & <- & _). exists o, m. split; [reflexivity|].
  unfold proofBlock. simpl. unfold GetProofTool.labelOf. split.
  - intros H. now rewrite H.
  - intros H lm Hs. now rewrite H, Hs.
Qed.

(** C7 fails on the code of two of the three tools.  On a block whose
    label is declared by a labelling command in its body, the indexer and
    the extractor leave the label undefined (the indexer names the block
    [theorem_1] and records nothing in the label map), while the proof
    lookup tool finds the label. *)
Theorem C7_body_label_only_in_proof_lookup :
  (exists r,
      TheoremIndexerTool.indexTheorems bodyLabelDocument "body.tex"
        TheoremIndexerTool.default_params (fun _ => false) = Ok r
      /\ map TheoremIndexerTool.label (TheoremIndexerTool.r_theorems r) = [None]
      /\ map TheoremIndexerTool.id (TheoremIndexerTool.r_theorems r) = ["theorem_1"]
      /\ TheoremIndexerTool.labelToId (TheoremIndexerTool.r_index r) = [])
  /\ (exists r,
        TheoremExtractorTool.extractTheorems bodyLabelDocument "body.tex"
          TheoremExtractorTool.default_params (fun _ => false) = Ok r
        /\ map TheoremExtractorTool.label (TheoremExtractorTool.r_theorems r) = [None])
  /\ (exists ts,
        GetProofTool.extractAllTheorems bodyLabelDocument "body.tex"
          GetProofTool.defaultTheoremTypes (fun _ => false) = Ok ts
        /\ map GetProofTool.label ts = [Some "thm:a"]).
Proof.
  split; [|split]; (eexists; split; [vm_compute; reflexivity|]);
    vm_compute; repeat split; reflexivity.
Qed.

End ExtractorTheorems.


(* ================================================================== *)
(** * Properties of the best-match search *)
(* ================================================================== *)

Module MatchTheorems.
Import JsString Regex Scanner Spec Examples GetProofTool Facts ScanTheorems.

Lemma gt_spec (x y : Q) : gt x y = true <-> (y < x)%Q.
Proof.
  unfold gt. rewrite negb_true_iff. split.
  - intros H. apply Qnot_le_lt. intros L. apply Qle_bool_iff in L. congruence.
  - intros H. destruct (Qle_bool x y) eqn:E; [|reflexivity].
    apply Qle_bool_iff in E. exfalso. exact (Qlt_not_le _ _ H E).
Qed.

Lemma le_max_left (x a b : Q) : (x <= a)%Q -> (x <= Qmax a b)%Q.
Proof. intros H. eapply Qle_trans; [exact H|apply Q.le_max_l]. Qed.

Lemma le_max_right (a b : Q) : (b <= Qmax a b)%Q.
Proof. apply Q.le_max_r. Qed.

(** An exact label is also a label that contains the query. *)
Lemma labelIs_labelHas (query : string) (t : ProofResult) :
  labelIs query t = true -> labelHas query t = true.
Proof.
  unfold labelIs, labelHas, opt_test. destruct (label t) as [l|]; [|discriminate].
  intros H. apply andb_prop in H. destruct H as [Ht He].
  apply String.eqb_eq in He. subst query. now rewrite Ht, includes_refl.
Qed.

Lemma scoreOf_labelHas (query : string) (fuzzyMatch : bool) (t : ProofResult) :
  labelHas query t = true -> (num 80 <= scoreOf query fuzzyMatch t)%Q.
Proof.
  intros H. unfold scoreOf. rewrite H.
  destruct (nameIs query t), (nameHas query t), fuzzyMatch,
    (0 <? wordMatches query t), (typeHas query t);
    repeat first [apply le_max_right | apply le_max_left].
Qed.

Lemma bestLoop_sound (query : string) (fuzzyMatch : bool) (all : list ProofResult) :
  forall ts bestMatch bestScore t,
    incl ts all ->
    (forall b, bestMatch = Some b ->
               In b all /\ scoreOf query fuzzyMatch b = bestScore) ->
    bestLoop query fuzzyMatch ts bestMatch bestScore = Some t ->
    In t all /\ (num 30 < scoreOf query fuzzyMatch t)%Q.
Proof.
  induction ts as [|t0 ts IH]; intros bestMatch bestScore t Hincl Hb E; simpl in E.
  - destruct (gt bestScore (num 30)) eqn:G; [|discriminate].
    destruct (Hb t E) as [Hin Hs]. split; [assumption|].
    rewrite Hs. now apply gt_spec.
  - assert (Hin0 : In t0 all) by (apply Hincl; now left).
    assert (Hincl' : incl ts all) by (intros x Hx; apply Hincl; now right).
    destruct (labelIs query t0) eqn:L.
    + injection E as <-. split; [assumption|].
      eapply Qlt_le_trans; [|apply scoreOf_labelHas, labelIs_labelHas, L].
      reflexivity.
    + destruct (gt (scoreOf query fuzzyMatch t0) bestScore).
      * apply (IH _ _ t Hincl') in E; [assumption|].
        intros b [= <-]. auto.
      * now apply (IH _ _ t Hincl') in E.
Qed.

Lemma bestLoop_exact (query : string) (fuzzyMatch : bool) :
  forall ts bestMatch bestScore,
    existsb (labelIs query) ts = true ->
    bestLoop query fuzzyMatch ts bestMatch bestScore = find (labelIs query) ts.
Proof.
  induction ts as [|t0 ts IH]; intros bestMatch bestScore H; simpl in *; [discriminate|].
  destruct (labelIs query t0); [reflexivity|]. simpl in H.
  destruct (gt _ _); now apply IH.
Qed.

(** C4. The best-match search returns a block only if the score the
    rules give that block strictly exceeds 30 (a block returned by the
    exact label test has a score of at least 80 by the label containment
    rule).  The proof lookup, for kinds that are words of letters and
    digits, raises no exception when it is not cancelled: it reports the
    block found, or a not-found result whose suggestions are the first
    five candidates of the document, all of them when there are fewer. *)
Theorem C4_threshold_and_suggestions :
  (forall ts identifier fuzzyMatch t,
      findBestMatch ts identifier fuzzyMatch = Some t ->
      In t ts
      /\ (num 30 < scoreOf (trim (toLowerCase identifier)) fuzzyMatch t)%Q)
  /\ (forall content filePath params,
        let theoremTypes :=
          match theorem_types params with Some ts => ts | None => defaultTheoremTypes end in
        let fuzzyMatch :=
          match fuzzy_match params with Some false => false | _ => true end in
        let ts := proofBlocks content filePath theoremTypes in
        plainKinds theoremTypes = true ->
        extractAllTheorems content filePath theoremTypes (fun _ => false) = Ok ts
        /\ exists r,
             findProof content filePath params (fun _ => false) = Ok r
             /\ match findBestMatch ts (theorem_identifier params) fuzzyMatch with
                | Some t =>
                    found r = true
                    /\ result r = Some (withProof t (findProofForTheorem content t))
                    /\ potentialMatches r = []
                | None =>
                    found r = false /\ result r = None
                    /\ potentialMatches r = firstn 5 ts
                    /\ List.length (potentialMatches r) = Nat.min 5 (List.length ts)
                    /\ List.length (potentialMatches r) <= 5
                end).
Proof.
  split.
  - intros ts identifier fuzzyMatch t E. unfold findBestMatch in E.
    apply (bestLoop_sound _ _ ts) in E; [assumption|apply incl_refl|discriminate].
  - intros content filePath params theoremTypes fuzzyMatch ts _.
    assert (Hscan : extractAllTheorems content filePath theoremTypes (fun _ => false) = Ok ts).
    { rewrite ProofScan.extractAllTheorems_run. now rewrite abortedWithin_never. }
    split; [exact Hscan|].
    unfold findProof. fold theoremTypes. rewrite Hscan. cbn [bind]. fold fuzzyMatch.
    destruct (findBestMatch ts (theorem_identifier params) fuzzyMatch) as [t|].
    + eexists. split; [reflexivity|]. simpl. auto.
    + eexists. split; [reflexivity|]. cbn [found result potentialMatches].
      rewrite length_firstn. repeat split. lia.
Qed.


Lemma C4_threshold_and_suggestions_witness :
  (let ts := proofBlocks lookupDocument "lookup.tex" defaultTheoremTypes in
   exists t,
     findBestMatch ts "Helper Lemma" true = Some t
     /\ In t ts
     /\ (num 30 < scoreOf (trim (toLowerCase "Helper Lemma")) true t)%Q)
  /\ plainKinds defaultTheoremTypes = true
  /\ exists r,
       findProof eightLemmas "eight.tex" (mkParams "zzz" None None) (fun _ => false) = Ok r
       /\ found r = false
       /\ List.length (potentialMatches r) <= 5.
Proof.
  split; [|split].
  - intros ts. eexists.
    assert (E : findBestMatch ts "Helper Lemma" true = Some _)
      by (vm_compute; reflexivity).
    split; [exact E|].
    exact (proj1 C4_threshold_and_suggestions ts "Helper Lemma" true _ E).
  - vm_compute. reflexivity.
  - pose proof (proj2 C4_threshold_and_suggestions eightLemmas "eight.tex"
                  (mkParams "zzz" None None)) as H.
    cbv zeta in H. cbn [theorem_types fuzzy_match theorem_identifier] in H.
    assert (K : plainKinds defaultTheoremTypes = true) by (vm_compute; reflexivity).
    specialize (H K). destruct H as (_ & r & E & H).
    destruct (findBestMatch (proofBlocks eightLemmas "eight.tex" defaultTheoremTypes)
                "zzz" true) eqn:F; [vm_compute in F; discriminate F|].
    destruct H as (Hf & _ & _ & _ & Hl).
    exists r. split; [exact E|]. split; [exact Hf|exact Hl].
Defined.

(** Eight candidates and a query that matches none of them: five
    suggestions, the first five blocks. *)
Lemma not_found_five_of_eight :
  exists r,
    findProof eightLemmas "eight.tex" (mkParams "zzz" None None) (fun _ => false) = Ok r
    /\ found r = false
    /\ map statement (potentialMatches r) = ["one"; "two"; "three"; "four"; "five"].
Proof.
  eexists. split; [vm_compute; reflexivity|]. vm_compute. split; reflexivity.
Qed.

(** ** The fuzzy flag *)

Lemma max_swap (a b c : Q) : (Qmax (Qmax a b) c == Qmax (Qmax a c) b)%Q.
Proof.
  rewrite <- Q.max_assoc, (Q.max_comm b c), Q.max_assoc. reflexivity.
Qed.

Lemma wordScore_zero (query : string) (t : ProofResult) :
  (0 <? wordMatches query t) = false -> (wordScore query t == 0)%Q.
Proof.
  intros H. apply Nat.ltb_ge in H. unfold wordScore.
  replace (wordMatches query t) with 0 by lia.
  unfold Qdiv. now rewrite !Qmult_0_l.
Qed.

Lemma max_zero (a w : Q) : (0 <= a)%Q -> (w == 0)%Q -> (a == Qmax a w)%Q.
Proof.
  intros Ha Hw. symmetry. apply Q.max_l. now rewrite Hw.
Qed.

Lemma scoreOf_fuzzy (query : string) (t : ProofResult) :
  (scoreOf query true t == Qmax (scoreOf query false t) (wordScore query t))%Q.
Proof.
  unfold scoreOf.
  destruct (0 <? wordMatches query t) eqn:W.
  - destruct (nameIs query t), (labelHas query t), (nameHas query t), (typeHas query t);
      first [reflexivity | apply max_swap].
  - pose proof (wordScore_zero _ _ W) as Z.
    destruct (nameIs query t), (labelHas query t), (nameHas query t), (typeHas query t);
      (apply max_zero; [apply Qle_bool_iff; reflexivity|exact Z]).
Qed.

Lemma find_existsb (p : ProofResult -> bool) (ts : list ProofResult) :
  existsb p ts = true -> exists t, find p ts = Some t /\ p t = true /\ In t ts.
Proof.
  induction ts as [|t0 ts IH]; simpl; [discriminate|].
  destruct (p t0) eqn:E.
  - intros _. exists t0. auto.
  - simpl. intros H. destruct (IH H) as (t & F & P & I). exists t. auto.
Qed.

Lemma not_gt (x y : Q) : gt x y = false <-> (x <= y)%Q.
Proof.
  unfold gt. rewrite negb_false_iff. apply Qle_bool_iff.
Qed.

(** The loop of [findBestMatch] when no candidate passes the test of the
    exact label: it keeps the first candidate whose score is the greatest
    seen and greater than the initial score. *)
Lemma bestLoop_optimal (query : string) (fuzzyMatch : bool) :
  forall ts bestMatch bestScore,
    existsb (labelIs query) ts = false ->
    (bestMatch = None -> (bestScore <= num 30)%Q) ->
    match bestLoop query fuzzyMatch ts bestMatch bestScore with
    | Some t =>
        (num 30 < Qmax bestScore (scoreOf query fuzzyMatch t))%Q
        /\ (forall t', In t' ts ->
                       (scoreOf query fuzzyMatch t'
                        <= Qmax bestScore (scoreOf query fuzzyMatch t))%Q)
        /\ ((bestMatch = Some t
             /\ forall t', In t' ts -> (scoreOf query fuzzyMatch t' <= bestScore)%Q)
            \/ (exists pre post,
                   ts = pre ++ t :: post
                   /\ (bestScore < scoreOf query fuzzyMatch t)%Q
                   /\ forall t', In t' pre ->
                                 (scoreOf query fuzzyMatch t'
                                  < scoreOf query fuzzyMatch t)%Q))
    | None =>
        (bestScore <= num 30)%Q
        /\ forall t', In t' ts -> (scoreOf query fuzzyMatch t' <= num 30)%Q
    end.
Proof.
  induction ts as [|t0 ts IH]; intros bestMatch bestScore Hx Hn; simpl.
  - destruct (gt bestScore (num 30)) eqn:G.
    + destruct bestMatch as [b|].
      * split; [|split; [intros ? []|left; split; [reflexivity|intros ? []]]].
        apply gt_spec in G. eapply Qlt_le_trans; [exact G|apply Q.le_max_l].
      * apply gt_spec in G. exfalso.
        exact (Qlt_not_le _ _ G (Hn eq_refl)).
    + apply not_gt in G. split; [exact G|intros ? []].
  - simpl in Hx. apply orb_false_iff in Hx. destruct Hx as [L Hx]. rewrite L.
    set (s0 := scoreOf query fuzzyMatch t0).
    destruct (gt s0 bestScore) eqn:G.
    + apply gt_spec in G.
      specialize (IH (Some t0) s0 Hx (fun H => ltac:(discriminate))).
      destruct (bestLoop query fuzzyMatch ts (Some t0) s0) as [t|].
      * destruct IH as (I1 & I2 & I3).
        destruct I3 as [[[= <-] Hall]|(pre & post & -> & Hlt & Hpre)].
        -- fold s0 in I1, I2 |- *.
           assert (Ms : (Qmax bestScore s0 == s0)%Q) by (apply Q.max_r; now apply Qlt_le_weak).
           split; [rewrite Ms; rewrite Q.max_id in I1; exact I1|].
           split.
           ++ intros t' [<-|I]; fold s0; rewrite Ms; [apply Qle_refl|now apply Hall].
           ++ right. exists [], ts. split; [reflexivity|]. split; [exact G|intros ? []].
        -- assert (Ms : (Qmax s0 (scoreOf query fuzzyMatch t)
                         == scoreOf query fuzzyMatch t)%Q)
             by (apply Q.max_r; now apply Qlt_le_weak).
           assert (Mb : (Qmax bestScore (scoreOf query fuzzyMatch t)
                         == scoreOf query fuzzyMatch t)%Q).
           { apply Q.max_r. apply Qlt_le_weak. eapply Qlt_trans; eassumption. }
           rewrite Ms in I1. split; [rewrite Mb; exact I1|]. split.
           ++ intros t' [<-|I]; rewrite Mb.
              ** fold s0. now apply Qlt_le_weak.
              ** rewrite <- Ms. now apply I2.
           ++ right. exists (t0 :: pre), post. split; [reflexivity|].
              split; [eapply Qlt_trans; eassumption|].
              intros t' [<-|I]; [exact Hlt|now apply Hpre].
      * destruct IH as (I1 & I2). split.
        -- apply Qlt_le_weak. eapply Qlt_le_trans; eassumption.
        -- intros t' [<-|I]; [exact I1|now apply I2].
    + apply not_gt in G.
      specialize (IH bestMatch bestScore Hx Hn).
      destruct (bestLoop query fuzzyMatch ts bestMatch bestScore) as [t|].
      * destruct IH as (I1 & I2 & I3). split; [exact I1|]. split.
        -- intros t' [<-|I]; [|now apply I2].
           fold s0. eapply Qle_trans; [exact G|apply Q.le_max_l].
        -- destruct I3 as [[-> Hall]|(pre & post & -> & Hlt & Hpre)].
           ++ left. split; [reflexivity|]. intros t' [<-|I]; [exact G|now apply Hall].
           ++ right. exists (t0 :: pre), post. split; [reflexivity|].
              split; [exact Hlt|].
              intros t' [<-|I]; [|now apply Hpre].
              fold s0. eapply Qle_lt_trans; eassumption.
      * destruct IH as (I1 & I2). split; [exact I1|].
        intros t' [<-|I]; [|now apply I2].
        fold s0. eapply Qle_trans; eassumption.
Qed.

(** The tests of the code are the rules of the specification. *)
Lemma labelIs_equalsQuery (query : string) (t : ProofResult) :
  labelIs query t = equalsQuery (label t) query.
Proof. unfold labelIs, opt_test, equalsQuery, truthy. now destruct (label t). Qed.

(** With the flag off the score is the greatest score of the four rules
    that apply. *)
Lemma scoreOf_fixed (query : string) (t : ProofResult) :
  scoreOf query false t = fixedScore query t.
Proof.
  unfold scoreOf, fixedScore, ruleScores, nameIs, labelHas, nameHas, typeHas,
    opt_test, equalsQuery, containsQuery, truthy.
  destruct (name t) as [n|], (label t) as [l|]; simpl;
    repeat match goal with
           | |- context [negb ?b] => destruct b; simpl
           | |- context [String.eqb ?a ?b] => destruct (String.eqb a b); simpl
           | |- context [includes ?a ?b] => destruct (includes a b); simpl
           end; reflexivity.
Qed.

(** A rule that applies brings the score above the threshold. *)
Lemma fixedScore_applies (query : string) (t : ProofResult) :
  ruleScores query t <> [] -> (num 30 < fixedScore query t)%Q.
Proof.
  unfold fixedScore, ruleScores.
  destruct (equalsQuery (name t) query), (containsQuery (label t) query),
    (containsQuery (name t) query), (includes (toLowerCase (type t)) query);
    simpl; intros H; try reflexivity. now contradiction H.
Qed.

(** C10. Turning the fuzzy flag off removes the word overlap rule and
    nothing else.  Whatever the flag, when some candidate has a label equal
    to the query up to case, the search returns the first such candidate.
    With the flag off the four other rules apply: the score of a candidate
    is the greatest of 100 when its name is the query up to case, 80 when
    its label contains the query, 70 when its name contains the query and
    40 when its kind contains the query, whatever its statement; and a
    list with a candidate to which one of them applies is never answered
    by not-found.  With the flag on the score is the greater of that value
    and the word overlap score. *)
Theorem C10_fuzzy_flag_scope :
  (forall ts identifier fuzzyMatch t,
      let query := trim (toLowerCase identifier) in
      In t ts -> equalsQuery (label t) query = true ->
      exists t',
        findBestMatch ts identifier fuzzyMatch = Some t'
        /\ find (fun c => equalsQuery (label c) query) ts = Some t'
        /\ equalsQuery (label t') query = true /\ In t' ts)
  /\ (forall query t,
        scoreOf query false t = fixedScore query t
        /\ (equalsQuery (name t) query = true -> scoreOf query false t = num 100)
        /\ (containsQuery (label t) query = true -> (num 80 <= scoreOf query false t)%Q)
        /\ (containsQuery (name t) query = true -> (num 70 <= scoreOf query false t)%Q)
        /\ (includes (toLowerCase (type t)) query = true ->
            (num 40 <= scoreOf query false t)%Q)
        /\ (ruleScores query t = [] -> scoreOf query false t = num 0))
  /\ (forall query t t',
        type t' = type t -> name t' = name t -> label t' = label t ->
        scoreOf query false t' = scoreOf query false t)
  /\ (forall ts identifier t,
        let query := trim (toLowerCase identifier) in
        In t ts -> ruleScores query t <> [] ->
        exists t', findBestMatch ts identifier false = Some t' /\ In t' ts)
  /\ (forall query t,
        (scoreOf query true t == Qmax (scoreOf query false t) (wordScore query t))%Q).
Proof.
  split; [|split; [|split; [|split]]].
  - intros ts identifier fuzzyMatch t query Hin Hl.
    rewrite <- labelIs_equalsQuery in Hl.
    assert (Hex : existsb (labelIs query) ts = true)
      by (apply existsb_exists; eauto).
    destruct (find_existsb _ _ Hex) as (t' & F & P & I).
    exists t'. split; [|split; [|split]]; try assumption.
    unfold findBestMatch. fold query. now rewrite bestLoop_exact.
  - intros query t. split; [apply scoreOf_fixed|].
    rewrite scoreOf_fixed. unfold fixedScore, ruleScores.
    split; [|split; [|split; [|split]]]; intros H; try rewrite H;
      destruct (equalsQuery (name t) query), (containsQuery (label t) query),
        (containsQuery (name t) query), (includes (toLowerCase (type t)) query);
      simpl in *; try reflexivity; try discriminate; try (apply Qle_bool_iff; reflexivity).
  - intros query t t' Ht Hn Hl. rewrite !scoreOf_fixed.
    unfold fixedScore, ruleScores. now rewrite Ht, Hn, Hl.
  - intros ts identifier t query Hin Hr.
    pose proof (fixedScore_applies query t Hr) as Hs. rewrite <- scoreOf_fixed in Hs.
    unfold findBestMatch. fold query.
    destruct (existsb (labelIs query) ts) eqn:Hx.
    + destruct (find_existsb _ _ Hx) as (t' & F & P & I).
      exists t'. split; [|assumption]. now rewrite bestLoop_exact.
    + assert (H0 : (@None ProofResult = None -> (num 0 <= num 30)%Q))
        by (intros _; vm_compute; discriminate).
      pose proof (bestLoop_optimal query false ts None (num 0) Hx H0) as H.
      destruct (bestLoop query false ts None (num 0)) as [t'|].
      * exists t'. split; [reflexivity|].
        destruct H as (_ & _ & [[[=] _]|(pre & post & -> & _)]).
        apply in_or_app. right. now left.
      * destruct H as (_ & H). exfalso.
        exact (Qlt_not_le _ _ Hs (H t Hin)).
  - apply scoreOf_fuzzy.
Qed.

Lemma C10_fuzzy_flag_scope_witness :
  let ts := proofBlocks lookupDocument "lookup.tex" defaultTheoremTypes in
  exists t t',
    nth_error ts 1 = Some t
    /\ equalsQuery (label t) (trim (toLowerCase "LEM:Helper")) = true
    /\ findBestMatch ts "LEM:Helper" false = Some t'
    /\ name t' = Some "Helper Lemma".
Proof.
  intros ts.
  destruct (nth_error ts 1) as [t|] eqn:Et; [|vm_compute in Et; discriminate Et].
  assert (Hin : In t ts) by (eapply nth_error_In; exact Et).
  assert (Hl : equalsQuery (label t) (trim (toLowerCase "LEM:Helper")) = true).
  { vm_compute in Et. injection Et as <-. vm_compute. reflexivity. }
  destruct (proj1 C10_fuzzy_flag_scope ts "LEM:Helper" false t Hin Hl)
    as (t' & E & F & _).
  exists t, t'. split; [reflexivity|]. split; [exact Hl|]. split; [exact E|].
  vm_compute in F. injection F as <-. reflexivity.
Defined.

End MatchTheorems.


(* ================================================================== *)
(** * Properties of the cycle detector *)
(* ================================================================== *)

Module CycleTheorems.
Import JsString Dict Invariants TheoremIndexerTool Facts.

Lemma mem_head (x : string) (v : list string) : mem x (x :: v) = true.
Proof. unfold mem. simpl. now rewrite String.eqb_refl. Qed.

Lemma mem_tail (y x : string) (v : list string) : y <> x -> mem y (x :: v) = mem y v.
Proof.
  intros D. unfold mem. simpl.
  destruct (String.eqb_spec y x); [contradiction|reflexivity].
Qed.

Lemma unvisited_incl (universe v v' : list string) :
  incl v v' -> unvisited universe v' <= unvisited universe v.
Proof.
  intros H. unfold unvisited. induction universe as [|x u IH]; cbn [filter]; [simpl; lia|].
  destruct (mem x v) eqn:E.
  - apply mem_In in E. apply H in E. apply mem_In in E. now rewrite E.
  - destruct (mem x v'); cbn [negb length]; lia.
Qed.

Lemma unvisited_add (universe v : list string) (x : string) :
  In x universe -> ~ In x v -> unvisited universe (x :: v) < unvisited universe v.
Proof.
  intros Hin Hv. unfold unvisited.
  induction universe as [|y u IH]; [destruct Hin|].
  assert (Hle : List.length (filter (fun z => negb (mem z (x :: v))) u)
                <= List.length (filter (fun z => negb (mem z v)) u)).
  { apply (unvisited_incl u v (x :: v)). intros z Hz. now right. }
  cbn [filter]. destruct (String.eqb_spec y x) as [->|D].
  - rewrite mem_head. apply mem_false in Hv. rewrite Hv. cbn [negb length]. lia.
  - rewrite (mem_tail _ _ _ D). destruct Hin as [->|Hin]; [contradiction|].
    specialize (IH Hin). destruct (mem y v); cbn [negb length]; lia.
Qed.

Lemma unvisited_bound (universe v : list string) :
  unvisited universe v <= List.length universe.
Proof. unfold unvisited. apply filter_length_le. Qed.

Lemma successors_in_graph (g : dict (list string)) (node d : string) :
  In d (successors g node) -> In d (nodesOf g).
Proof.
  unfold successors, nodesOf. destruct (get g node) as [deps|] eqn:E; [|intros []].
  intros H. apply in_or_app. right. apply in_flat_map.
  exists (node, deps). split; [now apply get_Some_In|assumption].
Qed.

(** With more fuel than identifiers left to visit, [dfs] returns. *)
Lemma dfs_total (g : dict (list string)) :
  forall fuel node st,
    In node (nodesOf g) ->
    unvisited (nodesOf g) (visited st) < fuel ->
    exists st', dfs g fuel node st = Some st' /\ incl (visited st) (visited st').
Proof.
  induction fuel as [|fuel IH]; intros node st Hin Hm; [lia|]. simpl.
  destruct (mem node (recursionStack st)); [eexists; split; [reflexivity|apply incl_refl]|].
  destruct (mem node (visited st)) eqn:Ev; [eexists; split; [reflexivity|apply incl_refl]|].
  apply mem_false in Ev.
  pose proof (unvisited_add _ _ _ Hin Ev) as Hlt.
  set (st1 := DfsState (cycles st) (node :: visited st)
                       (node :: recursionStack st) (path st ++ [node])).
  assert (Hloop : forall deps s,
             (forall d, In d deps -> In d (nodesOf g)) ->
             incl (visited st1) (visited s) ->
             exists s', fold_left (fun acc dep => match acc with
                                                  | Some s0 => dfs g fuel dep s0
                                                  | None => None
                                                  end) deps (Some s) = Some s'
                        /\ incl (visited st1) (visited s')).
  { induction deps as [|d deps IHd]; intros s Hd Hs; simpl.
    - eauto.
    - destruct (IH d s) as (s1 & E1 & I1).
      + apply Hd. now left.
      + pose proof (unvisited_incl (nodesOf g) _ _ Hs). simpl in *. lia.
      + rewrite E1. apply IHd.
        * intros d' Hd'. apply Hd. now right.
        * eauto using incl_tran. }
  destruct (Hloop (successors g node) st1) as (st2 & E2 & I2).
  - intros d. apply successors_in_graph.
  - apply incl_refl.
  - rewrite E2. eexists. split; [reflexivity|]. simpl.
    intros x Hx. apply I2. now right.
Qed.

Lemma dfsAll_total (g : dict (list string)) :
  forall nodes st,
    incl nodes (nodesOf g) ->
    exists st', dfsAll g (S (List.length (nodesOf g))) nodes st = Some st'.
Proof.
  induction nodes as [|node nodes IH]; intros st Hincl; cbn [dfsAll]; [eauto|].
  assert (Hincl' : incl nodes (nodesOf g)) by (intros x Hx; apply Hincl; now right).
  destruct (mem node (visited st)); [now apply IH|].
  destruct (dfs_total g (S (List.length (nodesOf g))) node
              (DfsState (cycles st) (visited st) (recursionStack st) []))
    as (st' & E & _).
  - apply Hincl. now left.
  - pose proof (unvisited_bound (nodesOf g) (visited st)). simpl. lia.
  - rewrite E. now apply IH.
Qed.

(** The cycle detector returns a list of cycles for every graph: the
    bound on the depth of the search is never reached. *)
Lemma detectCyclicDependencies_total (g : dict (list string)) :
  detectCyclicDependencies_run g = Some (detectCyclicDependencies g).
Proof.
  unfold detectCyclicDependencies, detectCyclicDependencies_run.
  destruct (dfsAll_total g (keys g) (DfsState [] [] [] [])) as (st & E).
  - unfold nodesOf. intros x Hx. apply in_or_app. now left.
  - now rewrite E.
Qed.


(** ** The cycle of three blocks *)

Lemma dfs_step (g : dict (list string)) (fuel : nat) (node : string) (st : dfs_state) :
  dfs g (S fuel) node st =
  if mem node (recursionStack st) then
    Some (DfsState (cycles st ++ [slice_from node (path st) ++ [node]])
                   (visited st) (recursionStack st) (path st))
  else if mem node (visited st) then Some st
  else
    match fold_left
            (fun acc dep =>
               match acc with
               | Some s => dfs g fuel dep s
               | None => None
               end)
            (successors g node)
            (Some (DfsState (cycles st) (node :: visited st)
                            (node :: recursionStack st) (path st ++ [node]))) with
    | Some st2 =>
        Some (DfsState (cycles st2) (visited st2)
                       (delete node (recursionStack st2))
                       (removelast (path st2)))
    | None => None
    end.
Proof. reflexivity. Qed.

(** The six orders of three elements. *)
Lemma permutation_of_three {A : Type} (x y z : A) (l : list A) :
  Permutation l [x; y; z] ->
  l = [x; y; z] \/ l = [x; z; y] \/ l = [y; x; z]
  \/ l = [y; z; x] \/ l = [z; x; y] \/ l = [z; y; x].
Proof.
  intros P.
  destruct (Permutation_vs_cons_inv P) as (l1 & l2 & ->).
  apply Permutation_sym, Permutation_cons_app_inv, Permutation_length_2_inv in P.
  destruct l1 as [|u [|v [|w l1]]]; simpl in P |- *; destruct P as [P|P];
    repeat match goal with
           | H : _ :: _ = _ :: _ |- _ => injection H as ? ?
           | H : [] = _ :: _ |- _ => discriminate H
           | H : _ :: _ = [] |- _ => discriminate H
           end;
    subst; auto 7.
Qed.

(** Runs the detector on a graph whose identifiers are variables, given
    the equality tests between them. *)
Ltac run_detector :=
  unfold detectCyclicDependencies, detectCyclicDependencies_run, nodesOf, keys;
  repeat first
    [ progress cbn -[dfs]
    | progress unfold successors, mem, delete, slice_from
    | progress rewrite ?String.eqb_refl
    | match goal with
      | H : String.eqb _ _ = false |- _ => rewrite H
      end
    | rewrite dfs_step ].

(** C3. On the graph whose edges are exactly a -> b, b -> c and c -> a,
    whatever the order of its keys, the detector returns one cycle: the
    three identifiers in the order of the edges, from the first key of the
    graph on, with that key repeated at the end; that is [a, b, c, a] up
    to the choice of the start. *)
Theorem C3_three_cycle (a b c : string) (g : dict (list string)) :
  a <> b -> b <> c -> a <> c ->
  Permutation g [(a, [b]); (b, [c]); (c, [a])] ->
  exists first second third,
    detectCyclicDependencies g = [[first; second; third; first]]
    /\ hd_error (keys g) = Some first
    /\ In [first; second; third] [[a; b; c]; [b; c; a]; [c; a; b]].
Proof.
  intros Hab Hbc Hac P.
  assert (Eab : String.eqb a b = false) by now apply String.eqb_neq.
  assert (Eba : String.eqb b a = false) by (apply String.eqb_neq; congruence).
  assert (Ebc : String.eqb b c = false) by now apply String.eqb_neq.
  assert (Ecb : String.eqb c b = false) by (apply String.eqb_neq; congruence).
  assert (Eac : String.eqb a c = false) by now apply String.eqb_neq.
  assert (Eca : String.eqb c a = false) by (apply String.eqb_neq; congruence).
  destruct (permutation_of_three _ _ _ _ P) as [->|[->|[->|[->|[->| ->]]]]].
  - exists a, b, c. split; [run_detector; reflexivity|]. simpl. auto.
  - exists a, b, c. split; [run_detector; reflexivity|]. simpl. auto.
  - exists b, c, a. split; [run_detector; reflexivity|]. simpl. auto.
  - exists b, c, a. split; [run_detector; reflexivity|]. simpl. auto.
  - exists c, a, b. split; [run_detector; reflexivity|]. simpl. auto.
  - exists c, a, b. split; [run_detector; reflexivity|]. simpl. auto.
Qed.

Lemma C3_three_cycle_witness :
  exists first second third,
    detectCyclicDependencies [("b", ["c"]); ("a", ["b"]); ("c", ["a"])]
    = [[first; second; third; first]]
    /\ hd_error (keys [("b", ["c"]); ("a", ["b"]); ("c", ["a"])]) = Some first
    /\ In [first; second; third] [["a"; "b"; "c"]; ["b"; "c"; "a"]; ["c"; "a"; "b"]].
Proof.
  apply (C3_three_cycle "a" "b" "c").
  - discriminate.
  - discriminate.
  - discriminate.
  - apply perm_swap.
Defined.

End CycleTheorems.


(* ================================================================== *)
(** * Further properties of the scans *)
(* ================================================================== *)

Module ScanExtras.
Import JsString Regex Scanner Spec Invariants Examples Notions.
Import Facts ScanFacts LinkFacts ScanTheorems IndexTheorems.

Lemma subseq_app_skip {A : Type} (pre l1 l2 : list A) :
  subseq l1 l2 -> subseq l1 (pre ++ l2).
Proof. intros H. induction pre; simpl; [assumption|now constructor]. Qed.

Lemma subseq_length {A : Type} (l1 l2 : list A) :
  subseq l1 l2 -> List.length l1 <= List.length l2.
Proof. induction 1; simpl; lia. Qed.

(** What the inner loop finds: the first entry of the wanted kind at or
    after the cursor; the entries before it are of other kinds. *)
Lemma findOpen_from_found (ty : string) :
  forall entries i j o,
    findOpen_from ty i entries = Some (j, o) ->
    exists skipped rest,
      entries = skipped ++ o :: rest
      /\ j = i + List.length skipped
      /\ o_type o = ty
      /\ Forall (fun e => o_type e <> ty) skipped.
Proof.
  induction entries as [|e entries IH]; intros i j o H; simpl in H; [discriminate|].
  destruct (String.eqb_spec (o_type e) ty) as [E|N].
  - injection H as <- <-. exists [], entries. simpl. repeat split; auto; lia.
  - destruct (IH _ _ _ H) as (skipped & rest & -> & -> & Ht & Hs).
    exists (e :: skipped), rest. simpl. repeat split; auto; lia.
Qed.

Lemma findOpen_found (stack : list open_entry) (cur : nat) (kind : string) (j : nat)
      (o : open_entry) :
  findOpen stack cur kind = Some (j, o) ->
  exists skipped,
    skipn cur stack = skipped ++ o :: skipn (S j) stack
    /\ j = cur + List.length skipped
    /\ o_type o = toLowerCase kind
    /\ Forall (fun e => o_type e <> toLowerCase kind) skipped.
Proof.
  unfold findOpen. intros H.
  destruct (findOpen_from_found _ _ _ _ _ H) as (skipped & rest & E & -> & Ht & Hs).
  exists skipped. repeat split; auto.
  rewrite E. f_equal. f_equal.
  replace (S (cur + List.length skipped)) with (List.length (skipped ++ [o]) + cur)
    by (rewrite length_app; simpl; lia).
  rewrite <- skipn_skipn, E.
  replace (skipped ++ o :: rest) with ((skipped ++ [o]) ++ rest)
    by now rewrite <- app_assoc.
  now rewrite skipn_app, Nat.sub_diag, skipn_all.
Qed.

Lemma existsb_skipn {A : Type} (f : A -> bool) (n : nat) (l : list A) :
  existsb f l = false -> existsb f (skipn n l) = false.
Proof.
  intros H. rewrite <- (firstn_skipn n l), existsb_app in H.
  now apply orb_false_iff in H.
Qed.

(** A closing delimiter whose kind no opening delimiter has changes
    nothing, wherever the cursor is. *)
Lemma findOpen_unopened (stack : list open_entry) (cur : nat) (m : rmatch) :
  closesSome stack m = false ->
  findOpen stack cur (group_or_empty 1 m) = None.
Proof.
  unfold closesSome, findOpen, closeKind. intros H.
  apply findOpen_from_none. now apply existsb_skipn.
Qed.

Lemma matchCloses_relevant (stack : list open_entry) :
  forall ms cur,
    matchCloses stack cur ms = matchCloses stack cur (filter (closesSome stack) ms).
Proof.
  induction ms as [|m ms IH]; intros cur; simpl; [reflexivity|].
  destruct (closesSome stack m) eqn:E; simpl.
  - destruct (findOpen stack cur (group_or_empty 1 m)) as [[i o]|];
      [f_equal|]; apply IH.
  - rewrite findOpen_unopened by assumption. apply IH.
Qed.

Lemma matchCloses_shape (stack : list open_entry) :
  forall ms cur,
    subseq (map fst (matchCloses stack cur ms)) (skipn cur stack)
    /\ subseq (map snd (matchCloses stack cur ms)) ms
    /\ Forall (fun p => o_type (fst p) = closeKind (snd p)) (matchCloses stack cur ms).
Proof.
  induction ms as [|m ms IH]; intros cur; simpl.
  - repeat split; constructor.
  - destruct (findOpen stack cur (group_or_empty 1 m)) as [[j o]|] eqn:E.
    + destruct (findOpen_found _ _ _ _ _ E) as (skipped & Hs & _ & Ht & _).
      destruct (IH (S j)) as (I1 & I2 & I3). simpl. repeat split.
      * rewrite Hs. apply subseq_app_skip. now constructor.
      * now constructor.
      * constructor; assumption.
    + destruct (IH cur) as (I1 & I2 & I3). repeat split; auto. now constructor.
Qed.

Lemma pairsOf_relevant (theoremTypes : list string) (content : string) :
  pairsOf theoremTypes content
  = matchCloses (opens theoremTypes content) 0 (relevantCloses theoremTypes content).
Proof. apply matchCloses_relevant. Qed.

Lemma grows_core (t t' : TheoremIndexerTool.IndexedTheorem) :
  grows t t' -> coreOfIndexed t' = coreOfIndexed t.
Proof.
  intros G. unfold coreOfIndexed.
  now rewrite (g_type G), (g_name G), (g_statement G), (g_lineNumber G),
    (g_endLineNumber G), (g_rawContent G).
Qed.

Lemma Forall2_impl {A B : Type} (R R' : A -> B -> Prop) (l : list A) (l' : list B) :
  (forall a b, R a b -> R' a b) -> Forall2 R l l' -> Forall2 R' l l'.
Proof. intros H. induction 1; constructor; auto. Qed.

Lemma Forall2_map_left {A B C : Type} (f : A -> B) (R : B -> C -> Prop) (l : list A)
      (l' : list C) :
  Forall2 R (map f l) l' <-> Forall2 (fun a c => R (f a) c) l l'.
Proof.
  revert l'. induction l as [|a l IH]; intros l'; simpl; split; intros H;
    inversion H; subst; constructor; auto; now apply IH.
Qed.

Lemma nth_error_numbered_inv {A : Type} (k : nat) (l : list A) (i j : nat) (x : A) :
  nth_error (numbered k l) i = Some (j, x) -> j = k + i /\ nth_error l i = Some x.
Proof.
  intros H. destruct (nth_error l i) as [y|] eqn:E.
  - rewrite (nth_error_numbered k l i y E) in H. injection H as <- <-. auto.
  - apply nth_error_None in E. rewrite <- (length_numbered k) in E.
    apply nth_error_None in E. congruence.
Qed.

(** X1. For kinds that are words of letters and digits and a document,
    well formed or not, whose blocks have no inherited name among their
    keys: the blocks of the indexer are numbered 1, 2, 3, ... in the order
    of the result; a block whose opening delimiter carries a truthy label
    has that label as identifier, any other block has its kind, an
    underscore and its ordinal; and there are no more blocks than opening
    delimiters, nor than closing delimiters of an opened kind. *)
Theorem X1_ordinals_and_identifiers (content filePath : string)
        (params : TheoremIndexerTool.TheoremIndexerParams) :
  plainKinds (TheoremIndexerTool.theoremTypesOf params) = true ->
  TheoremIndexerTool.plainBlocks (indexedBlocks content filePath params) = true ->
  let types := TheoremIndexerTool.theoremTypesOf params in
  exists r,
    TheoremIndexerTool.indexTheorems content filePath params (fun _ => false) = Ok r
    /\ List.length (TheoremIndexerTool.r_theorems r) <= List.length (opens types content)
    /\ List.length (TheoremIndexerTool.r_theorems r)
       <= List.length (relevantCloses types content)
    /\ forall i t,
         nth_error (TheoremIndexerTool.r_theorems r) i = Some t ->
         TheoremIndexerTool.index t = i + 1
         /\ TheoremIndexerTool.id t
            = if truthy_opt (TheoremIndexerTool.label t)
              then match TheoremIndexerTool.label t with
                   | Some l => l
                   | None => EmptyString
                   end
              else (TheoremIndexerTool.type t ++ "_" ++ of_nat (i + 1))%string.
Proof.
  intros _ Hplain types.
  rewrite (PlainFacts.indexTheorems_plain _ _ _ _ Hplain).
  destruct (indexTheorems_complete content filePath params) as (r & E & X).
  pose proof (e_store X) as HS. simpl in HS.
  exists r. split; [exact E|].
  assert (Hlen : List.length (TheoremIndexerTool.r_theorems r)
                 = List.length (pairsOf types content)).
  { rewrite <- (Forall2_length HS). unfold indexedBlocks.
    now rewrite length_map, length_numbered. }
  destruct (matchCloses_shape (opens types content) (closes content) 0) as (S1 & _ & _).
  destruct (matchCloses_shape (opens types content) (relevantCloses types content) 0)
    as (_ & S2 & _).
  rewrite <- pairsOf_relevant in S2. fold (pairsOf types content) in S1.
  apply subseq_length in S1, S2. rewrite !length_map in S1, S2.
  simpl in S1. split; [lia|]. split; [lia|].
  intros i t Ht.
  destruct (Forall2_nth_error_r _ _ _ _ _ HS Ht) as (t0 & Ht0 & G).
  unfold indexedBlocks in Ht0.
  rewrite nth_error_map in Ht0.
  destruct (nth_error (numbered 0 _) i) as [[k p]|] eqn:Hp; simpl in Ht0;
    [injection Ht0 as <-|discriminate].
  apply nth_error_numbered_inv in Hp. destruct Hp as [-> Hp]. simpl in G. rewrite (g_index G), (g_id G), (g_label G), (g_type G).
  unfold indexedBlock. simpl. split; [lia|].
  unfold TheoremIndexerTool.generateTheoremId, truthy_opt.
  rewrite Nat.add_1_r.
  destruct (o_label (fst p)) as [l|]; [destruct (truthy l)|]; reflexivity.
Qed.

Lemma X1_ordinals_and_identifiers_witness :
  plainKinds (TheoremIndexerTool.theoremTypesOf TheoremIndexerTool.default_params) = true
  /\ TheoremIndexerTool.plainBlocks
       (indexedBlocks Examples.demoDocument "demo.tex" TheoremIndexerTool.default_params) = true
  /\ exists r t,
       TheoremIndexerTool.indexTheorems Examples.demoDocument "demo.tex"
         TheoremIndexerTool.default_params (fun _ => false) = Ok r
       /\ nth_error (TheoremIndexerTool.r_theorems r) 1 = Some t
       /\ TheoremIndexerTool.index t = 2
       /\ TheoremIndexerTool.id t = "lemma_2".
Proof.
  split; [exact PlainFacts.indexerKinds_plain|].
  split; [exact PlainFacts.demoDocument_plain|].
  pose proof (X1_ordinals_and_identifiers Examples.demoDocument "demo.tex"
                TheoremIndexerTool.default_params PlainFacts.indexerKinds_plain
                PlainFacts.demoDocument_plain) as H.
  cbv zeta in H. destruct H as (r & E & _ & _ & H).
  pose proof E as E'. vm_compute in E'. injection E' as <-.
  eexists. eexists. split; [exact E|]. split; [reflexivity|].
  exact (H 1 _ eq_refl).
Defined.

Lemma Forall2_numbered {A : Type} (l : list A) :
  forall k, Forall2 (fun x a => snd x = a) (numbered k l) l.
Proof.
  unfold numbered. induction l as [|a l IH]; intros k; simpl; constructor; auto.
Qed.

Lemma Forall2_map_right {A B C : Type} (f : C -> B) (R : A -> B -> Prop) (l : list A)
      (l' : list C) :
  Forall2 R l (map f l') <-> Forall2 (fun a c => R a (f c)) l l'.
Proof.
  revert l. induction l' as [|a l' IH]; intros l; simpl; split; intros H;
    inversion H; subst; constructor; auto; now apply IH.
Qed.

Lemma Forall2_flip {A B : Type} (R : A -> B -> Prop) (l : list A) (l' : list B) :
  Forall2 R l l' -> Forall2 (fun b a => R a b) l' l.
Proof. induction 1; constructor; auto. Qed.

Lemma Forall2_trans {A B C : Type} (R : A -> B -> Prop) (R' : B -> C -> Prop)
      (l1 : list A) (l2 : list B) (l3 : list C) :
  Forall2 R l1 l2 -> Forall2 R' l2 l3 ->
  Forall2 (fun a c => exists b, R a b /\ R' b c) l1 l3.
Proof.
  intros H. revert l3. induction H; intros l3 H'; inversion H'; subst;
    constructor; eauto.
Qed.

(** The blocks of the indexer stand in the relation [R] to the pairs of
    the second pass as soon as the block built from a pair does, whatever
    its ordinal, and [R] does not look at the dependency lists. *)
Lemma indexed_by_pairs (content filePath : string)
      (params : TheoremIndexerTool.TheoremIndexerParams)
      (R : open_entry * rmatch -> TheoremIndexerTool.IndexedTheorem -> Prop) :
  (forall k p t,
      grows (TheoremIndexerTool.makeTheorem content filePath params (fst p) (snd p) k) t ->
      R p t) ->
  exists r,
    TheoremIndexerTool.indexTheoremsOwn content filePath params (fun _ => false) = Ok r
    /\ Forall2 R (pairsOf (TheoremIndexerTool.theoremTypesOf params) content)
               (TheoremIndexerTool.r_theorems r).
Proof.
  intros HR.
  destruct (indexTheorems_complete content filePath params) as (r & E & X).
  pose proof (e_store X) as HS. simpl in HS.
  exists r. split; [exact E|].
  unfold indexedBlocks in HS.
  apply (proj1 (Forall2_map_left (indexedBlock content filePath params) grows _ _)) in HS.
  pose proof (Forall2_flip _ _ _
                (Forall2_numbered (pairsOf (TheoremIndexerTool.theoremTypesOf params) content) 0))
    as HN.
  pose proof (Forall2_trans _ _ _ _ _ HN HS) as HT.
  eapply Forall2_impl; [|exact HT].
  intros p t ([k p'] & Hp & G). simpl in Hp. subst p'.
  apply (HR k). exact G.
Qed.

(** X2. The pairing of the second pass, for kinds that are words of
    letters and digits and any document whose blocks have no inherited
    name among their keys: the blocks come in the order of their closing
    delimiters and in the order of their opening delimiters, no delimiter
    serves twice, a closing delimiter of a kind that is never opened is
    passed over, and every block has the kind of both its delimiters,
    starts at the line of its opening delimiter, ends at the line of its
    closing delimiter and has the text between the two as raw text. *)
Theorem X2_pairing (content filePath : string)
        (params : TheoremIndexerTool.TheoremIndexerParams) :
  plainKinds (TheoremIndexerTool.theoremTypesOf params) = true ->
  TheoremIndexerTool.plainBlocks (indexedBlocks content filePath params) = true ->
  let types := TheoremIndexerTool.theoremTypesOf params in
  let pairs := pairsOf types content in
  subseq (map fst pairs) (opens types content)
  /\ subseq (map snd pairs) (relevantCloses types content)
  /\ exists r,
       TheoremIndexerTool.indexTheorems content filePath params (fun _ => false) = Ok r
       /\ Forall2
            (fun p t =>
               TheoremIndexerTool.type t = o_type (fst p)
               /\ TheoremIndexerTool.type t = closeKind (snd p)
               /\ TheoremIndexerTool.name t = o_name (fst p)
               /\ TheoremIndexerTool.label t = o_label (fst p)
               /\ TheoremIndexerTool.lineNumber t = o_startLine (fst p)
               /\ TheoremIndexerTool.endLineNumber t
                  = getLineNumber content (Regex.index (snd p))
               /\ TheoremIndexerTool.rawContent t
                  = rawContentOf content (fst p) (snd p))
            pairs (TheoremIndexerTool.r_theorems r).
Proof.
  intros _ Hplain types pairs.
  rewrite (PlainFacts.indexTheorems_plain _ _ _ _ Hplain).
  destruct (matchCloses_shape (opens types content) (closes content) 0) as (S1 & _ & S3).
  destruct (matchCloses_shape (opens types content) (relevantCloses types content) 0)
    as (_ & S2 & _).
  rewrite <- pairsOf_relevant in S2.
  split; [exact S1|]. split; [exact S2|].
  destruct (indexed_by_pairs content filePath params
              (fun p t => o_type (fst p) = closeKind (snd p) ->
                 TheoremIndexerTool.type t = o_type (fst p)
                 /\ TheoremIndexerTool.type t = closeKind (snd p)
                 /\ TheoremIndexerTool.name t = o_name (fst p)
                 /\ TheoremIndexerTool.label t = o_label (fst p)
                 /\ TheoremIndexerTool.lineNumber t = o_startLine (fst p)
                 /\ TheoremIndexerTool.endLineNumber t
                    = getLineNumber content (Regex.index (snd p))
                 /\ TheoremIndexerTool.rawContent t
                    = rawContentOf content (fst p) (snd p))) as (r & E & F).
  { intros k p t G K.
    rewrite (g_type G), (g_name G), (g_label G), (g_lineNumber G),
      (g_endLineNumber G), (g_rawContent G). simpl. rewrite <- K. repeat split. }
  exists r. split; [exact E|].
  fold types in F. fold pairs in F. fold (pairsOf types content) in S3. fold pairs in S3.
  clear - F S3. induction F; constructor.
  - apply H. now inversion S3.
  - apply IHF. now inversion S3.
Qed.

Lemma X2_pairing_witness :
  plainKinds (TheoremIndexerTool.theoremTypesOf TheoremIndexerTool.default_params) = true
  /\ TheoremIndexerTool.plainBlocks
       (indexedBlocks Examples.demoDocument "demo.tex" TheoremIndexerTool.default_params) = true
  /\ exists r,
       TheoremIndexerTool.indexTheorems Examples.demoDocument "demo.tex"
         TheoremIndexerTool.default_params (fun _ => false) = Ok r
       /\ List.length (TheoremIndexerTool.r_theorems r)
          = List.length (pairsOf TheoremIndexerTool.defaultTheoremTypes Examples.demoDocument).
Proof.
  split; [exact PlainFacts.indexerKinds_plain|].
  split; [exact PlainFacts.demoDocument_plain|].
  pose proof (X2_pairing Examples.demoDocument "demo.tex"
                TheoremIndexerTool.default_params PlainFacts.indexerKinds_plain
                PlainFacts.demoDocument_plain) as H.
  cbv zeta in H. destruct H as (_ & _ & r & E & H).
  exists r. split; [exact E|]. symmetry. exact (Forall2_length H).
Defined.

Lemma countUp_by_type {A : Type} (countUp : Dict.dict nat -> string -> Dict.dict nat)
      (type : A -> string) (ts : list A) :
  forall d, fold_left (fun d t => countUp d (type t)) ts d
            = fold_left countUp (map type ts) d.
Proof. induction ts as [|t ts IH]; intros d; simpl; auto. Qed.

Lemma flat_map_by_map {A B C : Type} (f : A -> list C) (g : B -> list C)
      (l : list A) (l' : list B) :
  map f l = map g l' -> flat_map f l = flat_map g l'.
Proof. rewrite !flat_map_concat_map. now intros ->. Qed.

Lemma Forall2_maps {A B C : Type} (f : A -> C) (g : B -> C) (l : list A) (l' : list B) :
  Forall2 (fun a b => f a = g b) l l' -> map f l = map g l'.
Proof. induction 1; simpl; congruence. Qed.

(** X3. The indexer and the extractor, run with the same options, for
    kinds that are words of letters and digits, on the same document, one
    whose blocks have no inherited name among their keys (on the others
    the indexer raises and the extractor does not), find the same blocks:
    same kinds, names, labels, statements, lines, raw texts, references and
    symbols, in the same order; and the four figures the two summaries
    share are equal. *)
Theorem X3_indexer_and_extractor_agree (content filePath : string)
        (types : option (list string)) (es er bd : option bool) :
  plainKinds (TheoremIndexerTool.theoremTypesOf
                (TheoremIndexerTool.mkParams types es er bd)) = true ->
  TheoremIndexerTool.plainBlocks
    (indexedBlocks content filePath (TheoremIndexerTool.mkParams types es er bd)) = true ->
  exists ri re,
    TheoremIndexerTool.indexTheorems content filePath
      (TheoremIndexerTool.mkParams types es er bd) (fun _ => false) = Ok ri
    /\ TheoremExtractorTool.extractTheorems content filePath
         (TheoremExtractorTool.mkParams types es er) (fun _ => false) = Ok re
    /\ map coreOfIndexed (TheoremIndexerTool.r_theorems ri)
       = map coreOfExtracted (TheoremExtractorTool.r_theorems re)
    /\ map TheoremIndexerTool.label (TheoremIndexerTool.r_theorems ri)
       = map TheoremExtractorTool.label (TheoremExtractorTool.r_theorems re)
    /\ map TheoremIndexerTool.references (TheoremIndexerTool.r_theorems ri)
       = map TheoremExtractorTool.references (TheoremExtractorTool.r_theorems re)
    /\ map TheoremIndexerTool.symbols (TheoremIndexerTool.r_theorems ri)
       = map TheoremExtractorTool.symbols (TheoremExtractorTool.r_theorems re)
    /\ TheoremIndexerTool.totalTheorems (TheoremIndexerTool.r_summary ri)
       = TheoremExtractorTool.totalTheorems (TheoremExtractorTool.r_summary re)
    /\ TheoremIndexerTool.theoremsByType (TheoremIndexerTool.r_summary ri)
       = TheoremExtractorTool.theoremsByType (TheoremExtractorTool.r_summary re)
    /\ TheoremIndexerTool.uniqueSymbols (TheoremIndexerTool.r_summary ri)
       = TheoremExtractorTool.uniqueSymbols (TheoremExtractorTool.r_summary re)
    /\ TheoremIndexerTool.totalReferences (TheoremIndexerTool.r_summary ri)
       = TheoremExtractorTool.totalReferences (TheoremExtractorTool.r_summary re).
Proof.
  intros _ Hplain.
  rewrite (PlainFacts.indexTheorems_plain _ _ _ _ Hplain).
  set (ip := TheoremIndexerTool.mkParams types es er bd).
  set (ep := TheoremExtractorTool.mkParams types es er).
  destruct (indexed_by_pairs content filePath ip
              (fun p t =>
                 coreOfIndexed t = coreOfExtracted (extractedBlock content filePath ep p)
                 /\ TheoremIndexerTool.label t
                    = TheoremExtractorTool.label (extractedBlock content filePath ep p)
                 /\ TheoremIndexerTool.references t
                    = TheoremExtractorTool.references (extractedBlock content filePath ep p)
                 /\ TheoremIndexerTool.symbols t
                    = TheoremExtractorTool.symbols (extractedBlock content filePath ep p)))
    as (ri & Ei & F).
  { intros k p t G. rewrite (grows_core _ _ G), (g_label G), (g_references G), (g_symbols G).
    repeat split. }
  exists ri. eexists. split; [exact Ei|].
  rewrite ExtractorScan.extractTheorems_run, abortedWithin_never.
  split; [reflexivity|].
  assert (HT : TheoremIndexerTool.theoremTypesOf ip = TheoremExtractorTool.theoremTypesOf ep)
    by reflexivity.
  rewrite HT in F.
  assert (F' : Forall2
                 (fun t e =>
                    coreOfIndexed t = coreOfExtracted e
                    /\ TheoremIndexerTool.label t = TheoremExtractorTool.label e
                    /\ TheoremIndexerTool.references t = TheoremExtractorTool.references e
                    /\ TheoremIndexerTool.symbols t = TheoremExtractorTool.symbols e)
                 (TheoremIndexerTool.r_theorems ri) (extractedBlocks content filePath ep)).
  { unfold extractedBlocks. apply Forall2_map_right. apply Forall2_flip. exact F. }
  clear F. cbn [TheoremExtractorTool.r_theorems TheoremExtractorTool.r_summary].
  assert (Hc : map coreOfIndexed (TheoremIndexerTool.r_theorems ri)
               = map coreOfExtracted (extractedBlocks content filePath ep)).
  { apply Forall2_maps. eapply Forall2_impl; [|exact F']. now intros t e (H & _). }
  assert (Hl : map TheoremIndexerTool.label (TheoremIndexerTool.r_theorems ri)
               = map TheoremExtractorTool.label (extractedBlocks content filePath ep)).
  { apply Forall2_maps. eapply Forall2_impl; [|exact F']. now intros t e (_ & H & _). }
  assert (Hr : map TheoremIndexerTool.references (TheoremIndexerTool.r_theorems ri)
               = map TheoremExtractorTool.references (extractedBlocks content filePath ep)).
  { apply Forall2_maps. eapply Forall2_impl; [|exact F']. now intros t e (_ & _ & H & _). }
  assert (Hs : map TheoremIndexerTool.symbols (TheoremIndexerTool.r_theorems ri)
               = map TheoremExtractorTool.symbols (extractedBlocks content filePath ep)).
  { apply Forall2_maps. eapply Forall2_impl; [|exact F']. now intros t e (_ & _ & _ & H). }
  assert (Hty : map TheoremIndexerTool.type (TheoremIndexerTool.r_theorems ri)
                = map TheoremExtractorTool.type (extractedBlocks content filePath ep)).
  { apply Forall2_maps. eapply Forall2_impl; [|exact F'].
    intros t e (H & _). unfold coreOfIndexed, coreOfExtracted in H. congruence. }
  assert (Er : TheoremIndexerTool.r_summary ri
               = TheoremIndexerTool.generateIndexingSummary
                   (TheoremIndexerTool.r_theorems ri) (TheoremIndexerTool.r_index ri)).
  { revert Ei. unfold TheoremIndexerTool.indexTheoremsOwn.
    destruct (TheoremIndexerTool.scanTheorems _ _ _ _); simpl; [|discriminate].
    destruct (TheoremIndexerTool.buildIndexOwn _ _); simpl; [|discriminate].
    now intros [= <-]. }
  rewrite Er. clear Er.
  repeat split; try assumption.
  - apply (Forall2_length F').
  - simpl.
    rewrite (countUp_by_type TheoremIndexerTool.countUp TheoremIndexerTool.type),
      (countUp_by_type TheoremExtractorTool.countUp TheoremExtractorTool.type), Hty.
    reflexivity.
  - simpl. now rewrite (flat_map_by_map _ _ _ _ Hs).
  - simpl. f_equal.
    rewrite <- (map_map TheoremIndexerTool.references (@List.length string)),
      <- (map_map TheoremExtractorTool.references (@List.length string)), Hr.
    reflexivity.
Qed.

Lemma X3_indexer_and_extractor_agree_witness :
  plainKinds (TheoremIndexerTool.theoremTypesOf
                (TheoremIndexerTool.mkParams None None None None)) = true
  /\ TheoremIndexerTool.plainBlocks
       (indexedBlocks Examples.demoDocument "demo.tex"
          (TheoremIndexerTool.mkParams None None None None)) = true
  /\ exists ri re,
       TheoremIndexerTool.indexTheorems Examples.demoDocument "demo.tex"
         (TheoremIndexerTool.mkParams None None None None) (fun _ => false) = Ok ri
       /\ TheoremExtractorTool.extractTheorems Examples.demoDocument "demo.tex"
            (TheoremExtractorTool.mkParams None None None) (fun _ => false) = Ok re
       /\ map coreOfIndexed (TheoremIndexerTool.r_theorems ri)
          = map coreOfExtracted (TheoremExtractorTool.r_theorems re).
Proof.
  split; [exact PlainFacts.indexerKinds_plain|].
  split; [exact PlainFacts.demoDocument_plain|].
  destruct (X3_indexer_and_extractor_agree Examples.demoDocument "demo.tex" None None None None
              PlainFacts.indexerKinds_plain PlainFacts.demoDocument_plain)
    as (ri & re & Ei & Ee & H & _).
  exists ri, re. split; [exact Ei|]. split; [exact Ee|exact H].
Defined.

(** X4. The proof lookup scans like the extractor: for the same kinds,
    words of letters and digits, it finds the same blocks (kind, name,
    statement, lines and raw text, in the same order), none of them with a
    proof attached yet; and a label that the opening delimiter gives is the
    label in both. *)
Theorem X4_proof_scan_agrees_with_extractor (content filePath : string)
        (types : list string) (es er : option bool) :
  plainKinds types = true ->
  exists ps re,
    GetProofTool.extractAllTheorems content filePath types (fun _ => false) = Ok ps
    /\ TheoremExtractorTool.extractTheorems content filePath
         (TheoremExtractorTool.mkParams (Some types) es er) (fun _ => false) = Ok re
    /\ map coreOfProof ps = map coreOfExtracted (TheoremExtractorTool.r_theorems re)
    /\ Forall (fun p => GetProofTool.hasProof p = false /\ GetProofTool.proof p = None) ps
    /\ Forall2 (fun p e => truthy_opt (TheoremExtractorTool.label e) = true ->
                           GetProofTool.label p = TheoremExtractorTool.label e)
               ps (TheoremExtractorTool.r_theorems re).
Proof.
  intros _. do 2 eexists.
  rewrite ProofScan.extractAllTheorems_run, ExtractorScan.extractTheorems_run,
    !abortedWithin_never.
  split; [reflexivity|]. split; [reflexivity|].
  cbn [TheoremExtractorTool.r_theorems].
  unfold proofBlocks, extractedBlocks. cbn [TheoremExtractorTool.theoremTypesOf
    TheoremExtractorTool.theorem_types].
  generalize (matchCloses (opens types content) 0 (closes content)) as pairs.
  induction pairs as [|p pairs (I1 & I2 & I3)]; simpl.
  - repeat split; constructor.
  - repeat split.
    + f_equal. exact I1.
    + constructor; [split; reflexivity|exact I2].
    + constructor; [|exact I3].
      unfold proofBlock, extractedBlock. simpl. intros H.
      unfold GetProofTool.labelOf. now rewrite H.
Qed.

Lemma X4_proof_scan_agrees_with_extractor_witness :
  plainKinds GetProofTool.defaultTheoremTypes = true
  /\ exists ps re,
       GetProofTool.extractAllTheorems Examples.lookupDocument "lookup.tex"
         GetProofTool.defaultTheoremTypes (fun _ => false) = Ok ps
       /\ TheoremExtractorTool.extractTheorems Examples.lookupDocument "lookup.tex"
            (TheoremExtractorTool.mkParams (Some GetProofTool.defaultTheoremTypes) None None)
            (fun _ => false) = Ok re
       /\ map coreOfProof ps = map coreOfExtracted (TheoremExtractorTool.r_theorems re).
Proof.
  split; [exact PlainFacts.lookupKinds_plain|].
  destruct (X4_proof_scan_agrees_with_extractor Examples.lookupDocument "lookup.tex"
              GetProofTool.defaultTheoremTypes None None PlainFacts.lookupKinds_plain)
    as (ps & re & Ep & Ee & H & _).
  exists ps, re. split; [exact Ep|]. split; [exact Ee|exact H].
Defined.

Lemma findProof_run (content filePath : string) (params : GetProofTool.GetProofParams)
      (signal : nat -> bool) :
  let types := match GetProofTool.theorem_types params with
               | Some ts => ts
               | None => GetProofTool.defaultTheoremTypes
               end in
  GetProofTool.findProof content filePath params signal
  = if abortedWithin signal (delimiterMatches types content)
    then Err GetProofTool.abortMessage
    else GetProofTool.findProof content filePath params (fun _ => false).
Proof.
  intros types. unfold GetProofTool.findProof. fold types.
  rewrite !ProofScan.extractAllTheorems_run, abortedWithin_never.
  now destruct (abortedWithin signal _).
Qed.

(** X5. Cancellation of the extractor and of the proof lookup, for
    kinds that are words of letters and digits: each polls the signal once
    per delimiter match, raises its own cancellation error as soon as one
    poll sees the signal aborted and otherwise returns what the run without
    cancellation returns, which is always a result: neither tool raises any
    other error, and neither returns a result built from a part of the
    document. *)
Theorem X5_cancellation_of_extractor_and_lookup (content filePath : string)
        (eparams : TheoremExtractorTool.TheoremExtractorParams)
        (pparams : GetProofTool.GetProofParams) (signal : nat -> bool) :
  let ptypes := match GetProofTool.theorem_types pparams with
                | Some ts => ts
                | None => GetProofTool.defaultTheoremTypes
                end in
  plainKinds (TheoremExtractorTool.theoremTypesOf eparams) = true ->
  plainKinds ptypes = true ->
  (exists re,
      TheoremExtractorTool.extractTheorems content filePath eparams (fun _ => false) = Ok re
      /\ TheoremExtractorTool.extractTheorems content filePath eparams signal
         = if abortedWithin signal
                (delimiterMatches (TheoremExtractorTool.theoremTypesOf eparams) content)
           then Err TheoremExtractorTool.abortMessage
           else Ok re)
  /\ (exists rp,
        GetProofTool.findProof content filePath pparams (fun _ => false) = Ok rp
        /\ GetProofTool.findProof content filePath pparams signal
           = (if abortedWithin signal (delimiterMatches ptypes content)
              then Err GetProofTool.abortMessage
              else Ok rp)
        /\ GetProofTool.found rp
           = match GetProofTool.result rp with Some _ => true | None => false end).
Proof.
  intros ptypes _ _. split.
  - eexists. rewrite !ExtractorScan.extractTheorems_run, abortedWithin_never.
    split; reflexivity.
  - assert (E : exists rp,
               GetProofTool.findProof content filePath pparams (fun _ => false) = Ok rp
               /\ GetProofTool.found rp
                  = match GetProofTool.result rp with Some _ => true | None => false end).
    { unfold GetProofTool.findProof.
      rewrite ProofScan.extractAllTheorems_run, abortedWithin_never. cbn [bind].
      destruct (GetProofTool.findBestMatch _ _ _); eexists; split; reflexivity. }
    destruct E as (rp & E & F). exists rp. split; [exact E|]. split; [|exact F].
    rewrite findProof_run. fold ptypes. now rewrite E.
Qed.

Lemma X5_cancellation_of_extractor_and_lookup_witness :
  plainKinds (TheoremExtractorTool.theoremTypesOf TheoremExtractorTool.default_params) = true
  /\ plainKinds GetProofTool.defaultTheoremTypes = true
  /\ TheoremExtractorTool.extractTheorems Examples.demoDocument "demo.tex"
       TheoremExtractorTool.default_params (fun poll => poll =? 5)
     = Err TheoremExtractorTool.abortMessage.
Proof.
  split; [exact PlainFacts.extractorKinds_plain|].
  split; [exact PlainFacts.lookupKinds_plain|].
  pose proof (X5_cancellation_of_extractor_and_lookup Examples.demoDocument "demo.tex"
                TheoremExtractorTool.default_params
                (GetProofTool.mkParams "pythagoras" None None) (fun poll => poll =? 5)) as H.
  cbv zeta in H. cbn [GetProofTool.theorem_types] in H.
  specialize (H PlainFacts.extractorKinds_plain PlainFacts.lookupKinds_plain).
  destruct H as ((re & _ & H) & _).
  rewrite H.
  assert (P : delimiterMatches
                (TheoremExtractorTool.theoremTypesOf TheoremExtractorTool.default_params)
                Examples.demoDocument = 6) by (vm_compute; reflexivity).
  rewrite P. reflexivity.
Defined.

End ScanExtras.

(* ================================================================== *)
(** * Further properties of the index *)
(* ================================================================== *)

Module IndexExtras.
Import JsString Regex Dict Scanner Spec Invariants Examples Notions Linking.
Import TheoremIndexerTool.
Import Facts ScanFacts BasicIndexFacts LinkFacts ScanTheorems IndexTheorems.

Lemma keys_set_present {V : Type} (d : dict V) (k : string) (v v0 : V) :
  get d k = Some v0 -> keys (set d k v) = keys d.
Proof.
  unfold keys. induction d as [|[k' v'] d IH]; simpl; [discriminate|].
  destruct (String.eqb_spec k' k) as [->|N]; simpl; [reflexivity|].
  intros H. now rewrite IH.
Qed.

Lemma keys_set_absent {V : Type} (d : dict V) (k : string) (v : V) :
  get d k = None -> keys (set d k v) = keys d ++ [k].
Proof.
  unfold keys. induction d as [|[k' v'] d IH]; simpl; [reflexivity|].
  destruct (String.eqb_spec k' k) as [->|N]; simpl; [discriminate|].
  intros H. now rewrite IH.
Qed.

Lemma get_None_keys {V : Type} (d : dict V) (k : string) :
  get d k = None <-> ~ In k (keys d).
Proof.
  unfold keys. induction d as [|[k' v'] d IH]; simpl; [tauto|].
  destruct (String.eqb_spec k' k) as [->|N]; split; intros H.
  - discriminate.
  - exfalso. apply H. now left.
  - intros [E|I]; [contradiction|]. now apply IH in H.
  - apply IH. tauto.
Qed.

Lemma nth_error_update_at_other (f : IndexedTheorem -> IndexedTheorem) :
  forall objs q p, p <> q -> nth_error (update_at q f objs) p = nth_error objs p.
Proof.
  induction objs as [|t objs IH]; intros [|q] [|p] N; simpl; auto; try contradiction.
Qed.

Lemma outOf_snoc a E e :
  outOf a (E ++ [e]) = outOf a E ++ (if String.eqb (e_from e) a then [e_to e] else []).
Proof.
  unfold outOf. rewrite filter_app, map_app. simpl.
  now destruct (String.eqb (e_from e) a).
Qed.

Lemma inTo_snoc b E e :
  inTo b (E ++ [e]) = inTo b E ++ (if String.eqb (e_to e) b then [e_from e] else []).
Proof.
  unfold inTo. rewrite filter_app, map_app. simpl.
  now destruct (String.eqb (e_to e) b).
Qed.

Lemma depsAt_snoc p E e :
  depsAt p (E ++ [e]) = depsAt p E ++ (if e_pos e =? p then [e_to e] else []).
Proof.
  unfold depsAt. rewrite filter_app, map_app. simpl.
  now destruct (e_pos e =? p).
Qed.

Lemma dependentsAt_snoc th p E e :
  dependentsAt th p (E ++ [e])
  = dependentsAt th p E ++ (if holds th (e_to e) p then [e_from e] else []).
Proof.
  unfold dependentsAt. rewrite filter_app, map_app. simpl.
  now destruct (holds th (e_to e) p).
Qed.

Lemma linkedBy_refl (st : TheoremIndex * store) : linkedBy [] st st.
Proof.
  constructor; try reflexivity; unfold outOf, inTo, depsAt, dependentsAt.
  - intros a. destruct (get _ a); simpl; [now rewrite app_nil_r|reflexivity].
  - intros b. destruct (get _ b); simpl; [now rewrite app_nil_r|reflexivity].
  - intros p t0 H. exists t0. split; [exact H|]. split; [apply grows_refl|].
    simpl. now rewrite !app_nil_r.
Qed.

(** One turn of the inner loop that passes the test and raises nothing. *)
Lemma linkedBy_step E st0 idx objs pos tid r rid st' :
  linkedBy E st0 (idx, objs) ->
  resolve (labelToId idx) tid r = Some rid ->
  addReferenceOwn pos tid (idx, objs) r = Ok st' ->
  linkedBy (E ++ [Edge pos tid rid]) st0 st'.
Proof.
  intros L R H. unfold addReferenceOwn in H. rewrite R in H.
  unfold pushOwn in H.
  destruct (get (dependencyGraph idx) tid) as [l|] eqn:G; [|discriminate].
  cbn [bind] in H.
  destruct (get (reverseDependencyGraph idx) rid) as [l'|] eqn:G'; [|discriminate].
  cbn [bind] in H. injection H as <-.
  pose proof (lb_theorems L) as Hth. simpl in Hth.
  constructor; cbn [fst snd labelToId theorems typeIndex symbolIndex
                      dependencyGraph reverseDependencyGraph].
  - apply (lb_labelToId L).
  - exact Hth.
  - apply (lb_typeIndex L).
  - apply (lb_symbolIndex L).
  - rewrite (keys_set_present _ _ _ _ G). apply (lb_keys L).
  - rewrite (keys_set_present _ _ _ _ G'). apply (lb_rkeys L).
  - intros a. rewrite get_set, outOf_snoc. simpl.
    pose proof (lb_graph L a) as Ha. simpl in Ha.
    destruct (String.eqb_spec tid a) as [->|N].
    + rewrite G in Ha. destruct (get (dependencyGraph (fst st0)) a); simpl in *;
        [|discriminate]. injection Ha as ->. now rewrite app_assoc.
    + rewrite Ha. destruct (get (dependencyGraph (fst st0)) a); simpl;
        [now rewrite app_nil_r|reflexivity].
  - intros b. rewrite get_set, inTo_snoc. simpl.
    pose proof (lb_reverse L b) as Hb. simpl in Hb.
    destruct (String.eqb_spec rid b) as [->|N].
    + rewrite G' in Hb. destruct (get (reverseDependencyGraph (fst st0)) b); simpl in *;
        [|discriminate]. injection Hb as ->. now rewrite app_assoc.
    + rewrite Hb. destruct (get (reverseDependencyGraph (fst st0)) b); simpl;
        [now rewrite app_nil_r|reflexivity].
  - pose proof (lb_length L) as Hl. simpl in Hl.
    destruct (get (theorems idx) rid); rewrite ?length_update_at; exact Hl.
  - intros p t0 Hp.
    destruct (lb_store L p Hp) as (t & Ht & Gt & D1 & D2). simpl in Ht.
    rewrite depsAt_snoc, dependentsAt_snoc. simpl.
    unfold holds. rewrite Hth.
    assert (S1 : exists t1,
               nth_error (update_at pos (pushDependency rid) objs) p = Some t1
               /\ grows t0 t1
               /\ dependencies t1
                  = dependencies t0 ++ depsAt p E ++ (if pos =? p then [rid] else [])
               /\ dependents t1 = dependents t0 ++ dependentsAt (theorems (fst st0)) p E).
    { destruct (Nat.eqb_spec pos p) as [->|N].
      - exists (pushDependency rid t). split; [now apply nth_error_update_at|].
        split; [eapply grows_trans; [exact Gt|apply grows_pushDependency]|].
        simpl. rewrite D1, D2. split; [now rewrite app_assoc|reflexivity].
      - exists t. rewrite nth_error_update_at_other by congruence.
        rewrite app_nil_r. auto. }
    destruct S1 as (t1 & Ht1 & Gt1 & E1 & E2).
    destruct (get (theorems (fst st0)) rid) as [q|]; cbn beta iota.
    + destruct (Nat.eqb_spec q p) as [->|N].
      * exists (pushDependent tid t1). split; [now apply nth_error_update_at|].
        split; [eapply grows_trans; [exact Gt1|apply grows_pushDependent]|].
        simpl. rewrite E1, E2. split; [reflexivity|now rewrite app_assoc].
      * exists t1. rewrite nth_error_update_at_other by congruence.
        rewrite app_nil_r. auto.
    + exists t1. rewrite app_nil_r. auto.
Qed.

Lemma linkedBy_addReferences st0 pos tid :
  forall refs E st st',
    linkedBy E st0 st ->
    addReferencesOwn pos tid refs st = Ok st' ->
    linkedBy (E ++ map (Edge pos tid) (resolved (labelToId (fst st0)) tid refs)) st0 st'.
Proof.
  induction refs as [|r refs IH]; intros E st st' L H; simpl in H.
  - injection H as <-. simpl. now rewrite app_nil_r.
  - destruct (addReferenceOwn pos tid st r) as [st1|] eqn:A; [|discriminate].
    cbn [bind] in H. pose proof (lb_labelToId L) as HL.
    unfold resolved. cbn [flat_map]. fold (resolved (labelToId (fst st0)) tid refs).
    destruct (resolve (labelToId (fst st0)) tid r) as [rid|] eqn:R; rewrite <- HL in R.
    + destruct st as [idx objs].
      pose proof (linkedBy_step _ _ _ _ _ _ _ _ _ L R A) as L1.
      cbn [map app].
      replace (E ++ Edge pos tid rid :: map (Edge pos tid) (resolved (labelToId (fst st0)) tid refs))
        with ((E ++ [Edge pos tid rid])
                ++ map (Edge pos tid) (resolved (labelToId (fst st0)) tid refs))
        by now rewrite <- app_assoc.
      eapply IH; eassumption.
    + rewrite addReference_unresolved in A by assumption. injection A as <-.
      simpl. eapply IH; eassumption.
Qed.

Lemma linkedBy_linkTheorems st0 :
  forall ts pos E st st',
    linkedBy E st0 st ->
    linkTheoremsOwn pos ts st = Ok st' ->
    linkedBy (E ++ edgesFrom (labelToId (fst st0)) pos ts) st0 st'.
Proof.
  induction ts as [|t ts IH]; intros pos E st st' L H; simpl in H.
  - injection H as <-. simpl. now rewrite app_nil_r.
  - destruct (addReferencesOwn pos (id t) (references t) st) as [st1|] eqn:A; [|discriminate].
    cbn [bind] in H. simpl. rewrite app_assoc.
    eapply IH; [|exact H].
    eapply linkedBy_addReferences; eassumption.
Qed.

(** What the run on own properties returns, in terms of the turns of
    its second loop that pass the test. *)
Lemma linkedBy_buildIndex (ts : list IndexedTheorem) (buildDependencies : bool) :
  exists st,
    buildIndexOwn ts buildDependencies = Ok st
    /\ linkedBy (if buildDependencies
                 then edgesFrom (labelToId (basicIndicesOwn emptyIndex 0 ts)) 0 ts
                 else [])
                (basicIndicesOwn emptyIndex 0 ts, ts) st.
Proof.
  destruct (buildIndex_ok ts buildDependencies) as (st & E & _).
  exists st. split; [exact E|].
  unfold buildIndexOwn in E. destruct buildDependencies.
  - apply (linkedBy_linkTheorems _ _ _ [] _ _ (linkedBy_refl _) E).
  - injection E as <-. apply linkedBy_refl.
Qed.

(** ** The turns of the second loop, sorted by block and by identifier *)

Lemma depsAt_app p E1 E2 : depsAt p (E1 ++ E2) = depsAt p E1 ++ depsAt p E2.
Proof. unfold depsAt. now rewrite filter_app, map_app. Qed.

Lemma outOf_app a E1 E2 : outOf a (E1 ++ E2) = outOf a E1 ++ outOf a E2.
Proof. unfold outOf. now rewrite filter_app, map_app. Qed.

Lemma depsAt_block labels q t p :
  depsAt p (edgesOfBlock labels q t)
  = if q =? p then resolved labels (id t) (references t) else [].
Proof.
  unfold depsAt, edgesOfBlock.
  induction (resolved labels (id t) (references t)) as [|x l IH]; simpl.
  - now destruct (q =? p).
  - destruct (q =? p); simpl; [now f_equal|exact IH].
Qed.

Lemma outOf_block labels q t a :
  outOf a (edgesOfBlock labels q t)
  = if String.eqb (id t) a then resolved labels (id t) (references t) else [].
Proof.
  unfold outOf, edgesOfBlock.
  induction (resolved labels (id t) (references t)) as [|x l IH]; simpl.
  - now destruct (String.eqb (id t) a).
  - destruct (String.eqb (id t) a); simpl; [now f_equal|exact IH].
Qed.

Lemma depsAt_before labels :
  forall ts pos p, p < pos -> depsAt p (edgesFrom labels pos ts) = [].
Proof.
  induction ts as [|t ts IH]; intros pos p H; simpl; [reflexivity|].
  rewrite depsAt_app, depsAt_block, IH by lia.
  destruct (Nat.eqb_spec pos p); [lia|reflexivity].
Qed.

Lemma depsAt_edgesFrom labels :
  forall ts pos j t,
    nth_error ts j = Some t ->
    depsAt (pos + j) (edgesFrom labels pos ts) = resolved labels (id t) (references t).
Proof.
  induction ts as [|t0 ts IH]; intros pos [|j] t H; simpl in H; try discriminate.
  - injection H as ->. simpl. rewrite depsAt_app, depsAt_block, depsAt_before by lia.
    rewrite Nat.add_0_r, Nat.eqb_refl. apply app_nil_r.
  - simpl. rewrite depsAt_app, depsAt_block.
    destruct (Nat.eqb_spec pos (pos + S j)); [lia|]. simpl.
    replace (pos + S j) with (S pos + j) by lia. now apply IH.
Qed.

Lemma outOf_edgesFrom labels a :
  forall ts pos,
    outOf a (edgesFrom labels pos ts)
    = flat_map (fun t => resolved labels (id t) (references t))
               (filter (fun t => String.eqb (id t) a) ts).
Proof.
  induction ts as [|t ts IH]; intros pos; simpl; [reflexivity|].
  rewrite outOf_app, outOf_block, IH.
  destruct (String.eqb (id t) a); reflexivity.
Qed.

Lemma occurrences_app (x : string) (l l' : list string) :
  occurrences x (l ++ l') = occurrences x l + occurrences x l'.
Proof. apply count_occ_app. Qed.

Lemma transpose_edges (a b : string) :
  forall E, occurrences b (outOf a E) = occurrences a (inTo b E).
Proof.
  induction E as [|e E IH] using rev_ind; [reflexivity|].
  rewrite outOf_snoc, inTo_snoc, !occurrences_app, IH. f_equal.
  destruct (String.eqb_spec (e_from e) a) as [Ea|Na];
    destruct (String.eqb_spec (e_to e) b) as [Eb|Nb]; unfold occurrences; simpl.
  - rewrite Ea, Eb. now destruct (string_dec a a), (string_dec b b).
  - now destruct (string_dec (e_to e) b).
  - now destruct (string_dec (e_from e) a).
  - reflexivity.
Qed.

Lemma resolved_In labels a refs b :
  In b (resolved labels a refs) <-> exists r, In r refs /\ resolve labels a r = Some b.
Proof.
  unfold resolved. rewrite in_flat_map. split.
  - intros (r & Hr & Hb). exists r. split; [exact Hr|].
    destruct (resolve labels a r); simpl in Hb; [|contradiction].
    destruct Hb as [->|[]]. reflexivity.
  - intros (r & Hr & Hb). exists r. split; [exact Hr|]. rewrite Hb. now left.
Qed.

Lemma edgesFrom_In labels :
  forall ts pos e,
    In e (edgesFrom labels pos ts) ->
    exists j t r, nth_error ts j = Some t /\ e_pos e = pos + j /\ e_from e = id t
                  /\ In r (references t) /\ resolve labels (id t) r = Some (e_to e).
Proof.
  induction ts as [|t ts IH]; intros pos e H; simpl in H; [contradiction|].
  apply in_app_or in H. destruct H as [H|H].
  - unfold edgesOfBlock in H. apply in_map_iff in H. destruct H as (b & <- & Hb).
    apply resolved_In in Hb. destruct Hb as (r & Hr & Hb).
    exists 0, t, r. simpl. repeat split; auto.
  - destruct (IH _ _ H) as (j & t' & r & Hj & Hp & Hf & Hr & Hb).
    exists (S j), t', r. simpl. repeat split; auto. lia.
Qed.

(** The targets of the turns are identifiers of blocks. *)
Lemma edgesFrom_target (ts all : list IndexedTheorem) (pos : nat) (e : edge) :
  In e (edgesFrom (labelToId (basicIndicesOwn emptyIndex 0 all)) pos ts) ->
  existsb (fun t => String.eqb (id t) (e_to e)) all = true.
Proof.
  intros H. destruct (edgesFrom_In _ _ _ _ H) as (j & t & r & _ & _ & _ & _ & R).
  apply resolve_Some in R. destruct R as (R & _ & _).
  apply labelToId_values in R. destruct R as (t' & Ht' & E).
  apply existsb_exists. exists t'. split; [exact Ht'|]. now apply String.eqb_eq.
Qed.

Lemma edgesFrom_source labels (ts : list IndexedTheorem) (pos : nat) (e : edge) :
  In e (edgesFrom labels pos ts) ->
  existsb (fun t => String.eqb (id t) (e_from e)) ts = true.
Proof.
  intros H. destruct (edgesFrom_In _ _ _ _ H) as (j & t & r & Hj & _ & Hf & _ & _).
  apply existsb_exists. exists t. split; [eapply nth_error_In; eassumption|].
  now apply String.eqb_eq.
Qed.

Lemma turns_source ts bd e :
  In e (turns ts bd) -> existsb (fun t => String.eqb (id t) (e_from e)) ts = true.
Proof. unfold turns. destruct bd; [apply edgesFrom_source|contradiction]. Qed.

Lemma turns_target ts bd e :
  In e (turns ts bd) -> existsb (fun t => String.eqb (id t) (e_to e)) ts = true.
Proof. unfold turns. destruct bd; [apply edgesFrom_target|contradiction]. Qed.

Lemma turns_position ts bd e : In e (turns ts bd) -> e_pos e < List.length ts.
Proof.
  unfold turns. destruct bd; [|contradiction]. intros H.
  destruct (edgesFrom_In _ _ _ _ H) as (j & t & r & Hj & -> & _).
  simpl. apply nth_error_Some. congruence.
Qed.

Lemma buildIndex_graph ts bd idx objs a :
  linkedBy (turns ts bd) (basicIndicesOwn emptyIndex 0 ts, ts) (idx, objs) ->
  get (dependencyGraph idx) a
  = if existsb (fun t => String.eqb (id t) a) ts then Some (outOf a (turns ts bd)) else None.
Proof.
  intros L. pose proof (lb_graph L a) as H. simpl in H. rewrite H, graph_initial.
  now destruct (existsb _ ts).
Qed.

Lemma buildIndex_reverse ts bd idx objs b :
  linkedBy (turns ts bd) (basicIndicesOwn emptyIndex 0 ts, ts) (idx, objs) ->
  get (reverseDependencyGraph idx) b
  = if existsb (fun t => String.eqb (id t) b) ts then Some (inTo b (turns ts bd)) else None.
Proof.
  intros L. pose proof (lb_reverse L b) as H. simpl in H. rewrite H, reverse_initial.
  now destruct (existsb _ ts).
Qed.

Lemma outOf_In a E b : In b (outOf a E) <-> exists e, In e E /\ e_from e = a /\ e_to e = b.
Proof.
  unfold outOf. rewrite in_map_iff. split.
  - intros (e & Hb & He). apply filter_In in He. destruct He as (He & Hf).
    apply String.eqb_eq in Hf. eauto.
  - intros (e & He & Hf & Hb). exists e. split; [exact Hb|].
    apply filter_In. split; [exact He|]. now apply String.eqb_eq.
Qed.

Lemma inTo_In b E a : In a (inTo b E) <-> exists e, In e E /\ e_from e = a /\ e_to e = b.
Proof.
  unfold inTo. rewrite in_map_iff. split.
  - intros (e & Ha & He). apply filter_In in He. destruct He as (He & Hf).
    apply String.eqb_eq in Hf. eauto.
  - intros (e & He & Ha & Hf). exists e. split; [exact Ha|].
    apply filter_In. split; [exact He|]. now apply String.eqb_eq.
Qed.

Lemma nil_or_In {A : Type} (l : list A) : l = [] \/ exists x, In x l.
Proof. destruct l as [|x l]; [now left|right; exists x; now left]. Qed.

Lemma successors_graph ts bd idx objs a :
  linkedBy (turns ts bd) (basicIndicesOwn emptyIndex 0 ts, ts) (idx, objs) ->
  successors (dependencyGraph idx) a = outOf a (turns ts bd).
Proof.
  intros L. unfold successors. rewrite (buildIndex_graph _ _ _ _ a L).
  destruct (existsb _ ts) eqn:X; [reflexivity|].
  destruct (nil_or_In (outOf a (turns ts bd))) as [->|(b & Hb)]; [reflexivity|].
  apply outOf_In in Hb. destruct Hb as (e & He & <- & _).
  apply turns_source in He. congruence.
Qed.

Lemma successors_reverse ts bd idx objs b :
  linkedBy (turns ts bd) (basicIndicesOwn emptyIndex 0 ts, ts) (idx, objs) ->
  successors (reverseDependencyGraph idx) b = inTo b (turns ts bd).
Proof.
  intros L. unfold successors. rewrite (buildIndex_reverse _ _ _ _ b L).
  destruct (existsb _ ts) eqn:X; [reflexivity|].
  destruct (nil_or_In (inTo b (turns ts bd))) as [->|(a & Ha)]; [reflexivity|].
  apply inTo_In in Ha. destruct Ha as (e & He & _ & <-).
  apply turns_target in He. congruence.
Qed.

Lemma buildIndex_turns (ts : list IndexedTheorem) (bd : bool) :
  exists idx objs,
    buildIndexOwn ts bd = Ok (idx, objs)
    /\ linkedBy (turns ts bd) (basicIndicesOwn emptyIndex 0 ts, ts) (idx, objs).
Proof.
  destruct (linkedBy_buildIndex ts bd) as ([idx objs] & E & L). eauto.
Qed.

(** Only the object that [index.theorems] holds for an identifier gets
    the dependents of that identifier. *)
Lemma dependentsAt_holder (ts : list IndexedTheorem) (p : nat) (t0 : IndexedTheorem)
      (E : list edge) :
  nth_error ts p = Some t0 ->
  dependentsAt (theorems (basicIndicesOwn emptyIndex 0 ts)) p E
  = if holds (theorems (basicIndicesOwn emptyIndex 0 ts)) (id t0) p
    then inTo (id t0) E else [].
Proof.
  intros Hp. unfold dependentsAt, inTo.
  assert (F : forall e,
             holds (theorems (basicIndicesOwn emptyIndex 0 ts)) (e_to e) p
             = String.eqb (e_to e) (id t0)
               && holds (theorems (basicIndicesOwn emptyIndex 0 ts)) (id t0) p).
  { intros e. destruct (String.eqb_spec (e_to e) (id t0)) as [->|N]; [reflexivity|].
    simpl. unfold holds.
    destruct (get (theorems (basicIndicesOwn emptyIndex 0 ts)) (e_to e)) as [q|] eqn:G;
      [|reflexivity].
    destruct (Nat.eqb_spec q p) as [->|]; [|reflexivity].
    destruct (theoremsSound_initial ts _ _ G) as (t & Ht & Hid). congruence. }
  rewrite (filter_ext _ _ F).
  destruct (holds _ (id t0) p).
  - f_equal. apply filter_ext. intros e. now rewrite andb_true_r.
  - rewrite (filter_ext _ (fun _ => false)) by (intros e; apply andb_false_r).
    induction E; simpl; auto.
Qed.

(** X6. What [buildIndex] leaves in the lists of a block, when no block
    has an inherited name among its keys: its
    dependencies are extended by the identifiers its own references resolve
    to, in the order of the references and once for each resolving
    reference; its dependents are extended by the row of its identifier
    in the reverse graph when [index.theorems] holds this very object for
    the identifier, and by nothing otherwise (an earlier block that shares
    its identifier with a later one gets no dependent); nothing else of
    the block changes.  Without dependency building both lists are left
    as they are. *)
Theorem X6_lists_of_a_block (ts : list IndexedTheorem) (buildDependencies : bool) :
  plainBlocks ts = true ->
  exists idx objs,
    buildIndex ts buildDependencies = Ok (idx, objs)
    /\ List.length objs = List.length ts
    /\ forall p t0,
         nth_error ts p = Some t0 ->
         exists t,
           nth_error objs p = Some t
           /\ grows t0 t
           /\ dependencies t
              = dependencies t0
                ++ (if buildDependencies
                    then resolved (labelToId idx) (id t0) (references t0)
                    else [])
           /\ dependents t
              = dependents t0
                ++ (if holds (theorems idx) (id t0) p
                    then successors (reverseDependencyGraph idx) (id t0)
                    else []).
Proof.
  intros Hplain. rewrite (PlainFacts.buildIndex_plain _ _ Hplain).
  destruct (buildIndex_turns ts buildDependencies) as (idx & objs & E & L).
  exists idx, objs. split; [exact E|]. split; [apply (lb_length L)|].
  intros p t0 Hp.
  destruct (lb_store L p Hp) as (t & Ht & G & D1 & D2).
  exists t. split; [exact Ht|]. split; [exact G|].
  pose proof (lb_labelToId L) as Hl. pose proof (lb_theorems L) as Hth.
  simpl in Hl, Hth. rewrite D1, D2, Hl, Hth. simpl. split.
  - f_equal. unfold turns. destruct buildDependencies; [|reflexivity].
    apply (depsAt_edgesFrom _ ts 0 p t0 Hp).
  - f_equal. rewrite (dependentsAt_holder ts p t0 _ Hp).
    now rewrite (successors_reverse _ _ _ _ (id t0) L).
Qed.

Lemma X6_lists_of_a_block_witness :
  plainBlocks (indexedBlocks Examples.referenceDocument "refs.tex" default_params) = true
  /\ exists idx objs,
       buildIndex (indexedBlocks Examples.referenceDocument "refs.tex" default_params) true
       = Ok (idx, objs)
       /\ map dependencies objs = [["b"]; []; ["a"]]
       /\ map dependents objs = [["c"]; ["a"]; []].
Proof.
  split; [exact PlainFacts.referenceDocument_plain|].
  destruct (X6_lists_of_a_block (indexedBlocks Examples.referenceDocument "refs.tex" default_params)
              true PlainFacts.referenceDocument_plain) as (idx & objs & E & _).
  exists idx, objs. split; [exact E|].
  vm_compute in E. injection E as <- <-. split; reflexivity.
Defined.

(** X7. The two graphs [buildIndex] returns when no block has an
    inherited name among its keys.  The row of an identifier
    in the dependency graph is the concatenation, over the blocks with that
    identifier in document order, of what their references resolve to; an
    identifier of no block has no row.  The reverse graph is the transpose
    of the dependency graph, multiplicities included: an identifier [b]
    occurs in the row of [a] as often as [a] occurs in the reverse row of
    [b]. *)
Theorem X7_graph_rows_and_transpose (ts : list IndexedTheorem) :
  plainBlocks ts = true ->
  exists idx objs,
    buildIndex ts true = Ok (idx, objs)
    /\ (forall a,
          get (dependencyGraph idx) a
          = if existsb (fun t => String.eqb (id t) a) ts
            then Some (flat_map
                         (fun t => resolved (labelToId idx) (id t) (references t))
                         (filter (fun t => String.eqb (id t) a) ts))
            else None)
    /\ (forall a b,
          occurrences b (successors (dependencyGraph idx) a)
          = occurrences a (successors (reverseDependencyGraph idx) b)).
Proof.
  intros Hplain. rewrite (PlainFacts.buildIndex_plain _ _ Hplain).
  destruct (buildIndex_turns ts true) as (idx & objs & E & L).
  exists idx, objs. split; [exact E|]. split.
  - intros a. rewrite (buildIndex_graph _ _ _ _ a L).
    destruct (existsb _ ts); [|reflexivity]. f_equal.
    pose proof (lb_labelToId L) as Hl. simpl in Hl. rewrite Hl.
    unfold turns. apply outOf_edgesFrom.
  - intros a b.
    rewrite (successors_graph _ _ _ _ a L), (successors_reverse _ _ _ _ b L).
    apply transpose_edges.
Qed.

Lemma X7_graph_rows_and_transpose_witness :
  plainBlocks (indexedBlocks Examples.referenceDocument "refs.tex" default_params) = true
  /\ exists idx objs,
       buildIndex (indexedBlocks Examples.referenceDocument "refs.tex" default_params) true
       = Ok (idx, objs)
       /\ dependencyGraph idx = [("a", ["b"]); ("b", []); ("c", ["a"])]
       /\ reverseDependencyGraph idx = [("a", ["c"]); ("b", ["a"]); ("c", [])].
Proof.
  split; [exact PlainFacts.referenceDocument_plain|].
  destruct (X7_graph_rows_and_transpose
              (indexedBlocks Examples.referenceDocument "refs.tex" default_params)
              PlainFacts.referenceDocument_plain) as (idx & objs & E & _).
  exists idx, objs. split; [exact E|].
  vm_compute in E. injection E as <- <-. split; reflexivity.
Defined.

(** ** Keys *)

Lemma keys_set {V : Type} (d : dict V) (k : string) (v : V) :
  keys (set d k v) = addKey (keys d) k.
Proof.
  unfold addKey. destruct (get d k) as [v0|] eqn:G.
  - rewrite (keys_set_present _ _ _ _ G).
    assert (M : mem k (keys d) = true).
    { apply mem_In. destruct (in_dec string_dec k (keys d)) as [I|N]; [exact I|].
      apply get_None_keys in N. congruence. }
    now rewrite M.
  - rewrite (keys_set_absent _ _ _ G).
    assert (M : mem k (keys d) = false) by now apply mem_false, get_None_keys.
    now rewrite M.
Qed.

Lemma addKey_NoDup ks k : NoDup ks -> NoDup (addKey ks k).
Proof.
  unfold addKey. intros H. destruct (mem k ks) eqn:M; [exact H|].
  apply mem_false in M. apply NoDup_app; [exact H|repeat constructor; auto|].
  intros x Hx [<-|[]]. contradiction.
Qed.

Lemma addKey_In ks k x : In x (addKey ks k) <-> In x ks \/ x = k.
Proof.
  unfold addKey. destruct (mem k ks) eqn:M.
  - apply mem_In in M. split; [tauto|]. intros [H| ->]; assumption.
  - rewrite in_app_iff. simpl. split; intros [H|H]; auto.
    + destruct H as [<-|[]]. now right.
Qed.

Lemma addKeys_NoDup : forall l ks, NoDup ks -> NoDup (fold_left addKey l ks).
Proof. induction l as [|k l IH]; intros ks H; simpl; auto using addKey_NoDup. Qed.

Lemma addKeys_In x : forall l ks, In x (fold_left addKey l ks) <-> In x ks \/ In x l.
Proof.
  induction l as [|k l IH]; intros ks; simpl; [tauto|].
  rewrite IH, addKey_In. intuition.
Qed.

Lemma basicIndices_keys :
  forall ts idx pos,
    keys (theorems (basicIndicesOwn idx pos ts)) = fold_left addKey (map id ts) (keys (theorems idx))
    /\ keys (dependencyGraph (basicIndicesOwn idx pos ts))
       = fold_left addKey (map id ts) (keys (dependencyGraph idx))
    /\ keys (reverseDependencyGraph (basicIndicesOwn idx pos ts))
       = fold_left addKey (map id ts) (keys (reverseDependencyGraph idx)).
Proof.
  induction ts as [|t ts IH]; intros idx pos; simpl; [auto|].
  destruct (IH (addBasicOwn idx pos t) (S pos)) as (H1 & H2 & H3).
  rewrite H1, H2, H3. simpl. now rewrite !keys_set.
Qed.

(** X8. The keys of the index [buildIndex] returns when no block has an
    inherited name among its keys.  The three dictionaries that are keyed
    by identifier (the blocks, the dependency graph and the reverse graph)
    have the same keys in the same order: each identifier of a block, once.
    The graphs are closed: a row belongs to an identifier of a block, and
    so does each of its elements, which differs from the identifier of the
    row. *)
Theorem X8_keys_of_the_index (ts : list IndexedTheorem) (buildDependencies : bool) :
  plainBlocks ts = true ->
  exists idx objs,
    buildIndex ts buildDependencies = Ok (idx, objs)
    /\ NoDup (keys (theorems idx))
    /\ (forall k, In k (keys (theorems idx)) <-> In k (map id ts))
    /\ keys (dependencyGraph idx) = keys (theorems idx)
    /\ keys (reverseDependencyGraph idx) = keys (theorems idx)
    /\ (forall a b,
          In b (successors (dependencyGraph idx) a)
          \/ In a (successors (reverseDependencyGraph idx) b) ->
          In a (keys (theorems idx)) /\ In b (keys (theorems idx)) /\ a <> b).
Proof.
  intros Hplain. rewrite (PlainFacts.buildIndex_plain _ _ Hplain).
  destruct (buildIndex_turns ts buildDependencies) as (idx & objs & E & L).
  exists idx, objs. split; [exact E|].
  pose proof (lb_theorems L) as Hth. pose proof (lb_keys L) as Hk.
  pose proof (lb_rkeys L) as Hr. simpl in Hth, Hk, Hr.
  destruct (basicIndices_keys ts emptyIndex 0) as (K1 & K2 & K3). simpl in K1, K2, K3.
  rewrite Hth, Hk, Hr, K1, K2, K3.
  assert (M : forall k, In k (fold_left addKey (map id ts) []) <-> In k (map id ts)).
  { intros k. rewrite addKeys_In. simpl. tauto. }
  split; [apply addKeys_NoDup; constructor|]. split; [exact M|].
  split; [reflexivity|]. split; [reflexivity|].
  intros a b H.
  assert (X : exists e, In e (turns ts buildDependencies) /\ e_from e = a /\ e_to e = b).
  { destruct H as [H|H].
    - rewrite (successors_graph _ _ _ _ a L) in H. now apply outOf_In.
    - rewrite (successors_reverse _ _ _ _ b L) in H. now apply inTo_In. }
  destruct X as (e & He & <- & <-).
  pose proof (turns_source _ _ _ He) as S1. pose proof (turns_target _ _ _ He) as S2.
  apply existsb_exists in S1, S2.
  destruct S1 as (t1 & I1 & E1), S2 as (t2 & I2 & E2).
  apply String.eqb_eq in E1, E2.
  split; [apply M; rewrite <- E1; now apply in_map|].
  split; [apply M; rewrite <- E2; now apply in_map|].
  unfold turns in He. destruct buildDependencies; [|contradiction].
  destruct (edgesFrom_In _ _ _ _ He) as (j & t & r & _ & _ & Hf & _ & R).
  apply resolve_Some in R. destruct R as (_ & _ & N). congruence.
Qed.

Lemma X8_keys_of_the_index_witness :
  plainBlocks (indexedBlocks Examples.referenceDocument "refs.tex" default_params) = true
  /\ exists idx objs,
       buildIndex (indexedBlocks Examples.referenceDocument "refs.tex" default_params) true
       = Ok (idx, objs)
       /\ keys (theorems idx) = ["a"; "b"; "c"]
       /\ keys (dependencyGraph idx) = keys (theorems idx)
       /\ keys (reverseDependencyGraph idx) = keys (theorems idx).
Proof.
  split; [exact PlainFacts.referenceDocument_plain|].
  destruct (X8_keys_of_the_index (indexedBlocks Examples.referenceDocument "refs.tex" default_params)
              true PlainFacts.referenceDocument_plain)
    as (idx & objs & E & _ & _ & K1 & K2 & _).
  exists idx, objs. split; [exact E|]. split; [|split; [exact K1|exact K2]].
  vm_compute in E. injection E as <- <-. reflexivity.
Defined.

(** ** The type index and the symbol index *)

Lemma get_pushInit d k v k0 :
  get (pushInitOwn d k v) k0 = extend (get d k0) (if String.eqb k0 k then [v] else []).
Proof.
  unfold pushInitOwn.
  destruct (String.eqb_spec k0 k) as [->|N].
  - destruct (get d k) as [l|] eqn:G; rewrite get_set_eq; reflexivity.
  - destruct (get d k) as [l|]; rewrite get_set_neq by congruence; reflexivity.
Qed.

Lemma extend_extend o l1 l2 : extend (extend o l1) l2 = extend o (l1 ++ l2).
Proof.
  destruct l1 as [|x l1]; [reflexivity|]. destruct l2 as [|y l2].
  - now rewrite app_nil_r.
  - simpl. destruct o; simpl; now rewrite <- ?app_assoc.
Qed.

Lemma entry_app l1 l2 : entry (l1 ++ l2) = extend (entry l1) l2.
Proof.
  destruct l1 as [|x l1]; [now destruct l2|].
  destruct l2 as [|y l2]; simpl; [now rewrite app_nil_r|reflexivity].
Qed.

Lemma get_pushAll v k0 :
  forall ks d,
    get (fold_left (fun d k => pushInitOwn d k v) ks d) k0
    = extend (get d k0) (map (fun _ => v) (filter (String.eqb k0) ks)).
Proof.
  induction ks as [|k ks IH]; intros d; simpl; [reflexivity|].
  rewrite IH, get_pushInit, extend_extend.
  now destruct (String.eqb k0 k).
Qed.

Lemma grouped_snoc key s ts t :
  grouped key s (ts ++ [t])
  = grouped key s ts ++ map (fun _ => id t) (filter (String.eqb s) (key t)).
Proof. unfold grouped. rewrite flat_map_app. simpl. now rewrite app_nil_r. Qed.

Lemma basicIndices_groups (ts : list IndexedTheorem) (s : string) :
  get (typeIndex (basicIndicesOwn emptyIndex 0 ts)) s = entry (grouped (fun t => [type t]) s ts)
  /\ get (symbolIndex (basicIndicesOwn emptyIndex 0 ts)) s = entry (grouped symbols s ts).
Proof.
  induction ts as [|t ts (I1 & I2)] using rev_ind; [split; reflexivity|].
  rewrite basicIndices_snoc, !grouped_snoc, !entry_app. simpl. split.
  - rewrite get_pushInit, I1. now destruct (String.eqb s (type t)).
  - now rewrite get_pushAll, I2.
Qed.

(** X9. The type index and the symbol index [buildIndex] returns when
    no block has an inherited name among its keys: the
    entry of a kind lists the identifiers of the blocks of that kind, the
    entry of a symbol those of the blocks that use it, in document order;
    a kind or a symbol of no block has no entry.  The second loop does not
    touch them. *)
Theorem X9_type_and_symbol_index (ts : list IndexedTheorem) (buildDependencies : bool) :
  plainBlocks ts = true ->
  exists idx objs,
    buildIndex ts buildDependencies = Ok (idx, objs)
    /\ (forall kind,
          get (typeIndex idx) kind
          = entry (map id (filter (fun t => String.eqb kind (type t)) ts)))
    /\ (forall symbol,
          get (symbolIndex idx) symbol = entry (grouped symbols symbol ts))
    /\ (forall symbol i,
          In i (match get (symbolIndex idx) symbol with Some l => l | None => [] end)
          <-> exists t, In t ts /\ id t = i /\ In symbol (symbols t)).
Proof.
  intros Hplain. rewrite (PlainFacts.buildIndex_plain _ _ Hplain).
  destruct (buildIndex_turns ts buildDependencies) as (idx & objs & E & L).
  exists idx, objs. split; [exact E|].
  pose proof (lb_typeIndex L) as H1. pose proof (lb_symbolIndex L) as H2.
  simpl in H1, H2. rewrite H1, H2.
  assert (G : forall symbol, get (symbolIndex (basicIndicesOwn emptyIndex 0 ts)) symbol
                             = entry (grouped symbols symbol ts))
    by (intros; apply basicIndices_groups).
  split; [|split; [exact G|]].
  - intros kind. destruct (basicIndices_groups ts kind) as (-> & _). f_equal.
    clear. unfold grouped. induction ts as [|t ts IH]; [reflexivity|].
    simpl in *. rewrite IH.
    now destruct (String.eqb kind (type t)).
  - intros symbol i. rewrite G.
    assert (F : forall l, In i (match entry l with Some l0 => l0 | None => [] end) <-> In i l)
      by (intros [|x l]; simpl; tauto).
    rewrite F. unfold grouped. rewrite in_flat_map. split.
    + intros (t & Ht & Hi). apply in_map_iff in Hi. destruct Hi as (x & <- & Hx).
      apply filter_In in Hx. destruct Hx as (Hx & Ex). apply String.eqb_eq in Ex. subst x.
      eauto.
    + intros (t & Ht & <- & Hs). exists t. split; [exact Ht|].
      apply in_map_iff. exists symbol. split; [reflexivity|].
      apply filter_In. split; [exact Hs|apply String.eqb_refl].
Qed.

Lemma X9_type_and_symbol_index_witness :
  plainBlocks (indexedBlocks Examples.referenceDocument "refs.tex" default_params) = true
  /\ exists idx objs,
       buildIndex (indexedBlocks Examples.referenceDocument "refs.tex" default_params) true
       = Ok (idx, objs)
       /\ get (typeIndex idx) "lemma" = Some ["b"]
       /\ get (typeIndex idx) "axiom" = None.
Proof.
  split; [exact PlainFacts.referenceDocument_plain|].
  destruct (X9_type_and_symbol_index
              (indexedBlocks Examples.referenceDocument "refs.tex" default_params)
              true PlainFacts.referenceDocument_plain) as (idx & objs & E & H & _).
  exists idx, objs. split; [exact E|].
  rewrite (H "lemma"), (H "axiom"). split; vm_compute; reflexivity.
Defined.

(** ** Counting *)

Section Partition.
Variables (K E : Type) (eqb : K -> K -> bool) (f : E -> K).
Hypothesis eqb_eq : forall x y, eqb x y = true <-> x = y.

Lemma no_hit (x : K) (ks : list K) :
  ~ In x ks -> list_sum (map (fun k => if eqb x k then 1 else 0) ks) = 0.
Proof.
  induction ks as [|k ks IH]; intros N; simpl; [reflexivity|].
  destruct (eqb x k) eqn:X.
  - apply eqb_eq in X. exfalso. apply N. now left.
  - simpl. apply IH. intros I. apply N. now right.
Qed.

Lemma one_hit (x : K) (ks : list K) :
  NoDup ks -> In x ks -> list_sum (map (fun k => if eqb x k then 1 else 0) ks) = 1.
Proof.
  induction 1 as [|k ks Nk Hks IH]; intros I; [contradiction|]. simpl.
  destruct (eqb x k) eqn:X.
  - apply eqb_eq in X. subst k. now rewrite no_hit.
  - destruct I as [->|I]; [|now apply IH].
    assert (eqb x x = true) by now apply eqb_eq. congruence.
Qed.

Lemma list_sum_add {A : Type} (g h : A -> nat) (l : list A) :
  list_sum (map (fun a => g a + h a) l) = list_sum (map g l) + list_sum (map h l).
Proof. induction l as [|a l IH]; simpl; [reflexivity|]. rewrite IH. lia. Qed.

(** Sorting the elements of [es] by their key counts each of them
    once. *)
Lemma count_partition (ks : list K) (es : list E) :
  NoDup ks -> (forall e, In e es -> In (f e) ks) ->
  list_sum (map (fun k => List.length (filter (fun e => eqb (f e) k) es)) ks)
  = List.length es.
Proof.
  intros N. induction es as [|e es IH]; intros H.
  - clear. induction ks; simpl; auto.
  - rewrite (map_ext _ (fun k => (if eqb (f e) k then 1 else 0)
                                 + List.length (filter (fun e => eqb (f e) k) es))).
    + rewrite list_sum_add, one_hit, IH; auto.
      * intros e' I. apply H. now right.
      * apply H. now left.
    + intros k. simpl. now destruct (eqb (f e) k).
Qed.

End Partition.

Lemma list_sum_by_position {A : Type} (g : A -> nat) :
  forall (l : list A) (h : nat -> nat) (k : nat),
    (forall p x, nth_error l p = Some x -> g x = h (k + p)) ->
    list_sum (map g l) = list_sum (map h (seq k (List.length l))).
Proof.
  induction l as [|x l IH]; intros h k H; simpl; [reflexivity|].
  rewrite (H 0 x eq_refl), Nat.add_0_r. f_equal.
  apply IH. intros p y Hp. rewrite (H (S p) y Hp). f_equal. lia.
Qed.

Lemma values_by_key (d : dict (list string)) :
  NoDup (keys d) ->
  values d = map (successors d) (keys d).
Proof.
  unfold values, keys, successors.
  induction d as [|[k v] d IH]; intros N; simpl in N |- *; [reflexivity|].
  rewrite String.eqb_refl. f_equal. inversion N as [|? ? Nk Nd]; subst.
  rewrite IH by assumption. apply map_ext_in.
  intros k' I. simpl.
  destruct (String.eqb_spec k k') as [->|]; [|reflexivity].
  contradiction.
Qed.

Lemma length_resolved labels a refs :
  List.length (resolved labels a refs) <= List.length refs.
Proof.
  unfold resolved. induction refs as [|r refs IH]; simpl; [lia|].
  rewrite length_app. destruct (resolve labels a r); simpl; lia.
Qed.

Lemma list_sum_le {A B : Type} (g : A -> nat) (h : B -> nat) (l : list A) (l' : list B) :
  Forall2 (fun a b => g a <= h b) l l' -> list_sum (map g l) <= list_sum (map h l').
Proof. induction 1; simpl; lia. Qed.

Lemma Forall2_same {A : Type} (R : A -> A -> Prop) (l : list A) :
  (forall x, In x l -> R x x) -> Forall2 R l l.
Proof.
  induction l as [|x l IH]; intros H; constructor.
  - apply H. now left.
  - apply IH. intros y I. apply H. now right.
Qed.

Lemma get_countUp d k k0 :
  get (countUp d k) k0
  = if String.eqb k k0
    then Some (match get d k with Some n => n + 1 | None => 1 end)
    else get d k0.
Proof. unfold countUp. destruct (get d k); now rewrite get_set. Qed.

Lemma theoremsByType_counts (ts : list IndexedTheorem) (kind : string) :
  get (fold_left (fun d t => countUp d (type t)) ts []) kind
  = tally (List.length (filter (fun t => String.eqb (type t) kind) ts)).
Proof.
  induction ts as [|t ts IH] using rev_ind; [reflexivity|].
  rewrite fold_left_app, filter_app, length_app. simpl.
  rewrite get_countUp.
  destruct (String.eqb_spec (type t) kind) as [->|N]; simpl.
  - rewrite IH. unfold tally.
    destruct (List.length (filter _ ts)) as [|n]; simpl; [reflexivity|].
    replace (n + 1) with (S n) by lia. reflexivity.
  - rewrite IH. now rewrite Nat.add_0_r.
Qed.

Lemma indexedBlocks_fresh content filePath params t :
  In t (indexedBlocks content filePath params) ->
  dependencies t = [] /\ dependents t = [].
Proof.
  unfold indexedBlocks. intros H. apply in_map_iff in H.
  destruct H as (x & <- & _). split; reflexivity.
Qed.

Lemma indexTheorems_built content filePath params :
  exists r,
    indexTheoremsOwn content filePath params (fun _ => false) = Ok r
    /\ r_summary r = generateIndexingSummary (r_theorems r) (r_index r)
    /\ linkedBy (turns (indexedBlocks content filePath params)
                       (not_false (build_dependencies params)))
                (basicIndicesOwn emptyIndex 0 (indexedBlocks content filePath params),
                 indexedBlocks content filePath params)
                (r_index r, r_theorems r).
Proof.
  destruct (buildIndex_turns (indexedBlocks content filePath params)
              (not_false (build_dependencies params))) as (idx & objs & E & L).
  eexists. unfold indexTheoremsOwn.
  rewrite IndexerScan.scanTheorems_run, abortedWithin_never. cbn [bind].
  rewrite E. cbn [bind]. split; [reflexivity|]. split; [reflexivity|exact L].
Qed.

(** The objects of a list of blocks whose dependency lists are empty,
    after [buildIndex]. *)
Lemma fresh_objects ts bd idx objs :
  linkedBy (turns ts bd) (basicIndicesOwn emptyIndex 0 ts, ts) (idx, objs) ->
  (forall t, In t ts -> dependencies t = [] /\ dependents t = []) ->
  forall p t,
    nth_error objs p = Some t ->
    exists t0,
      nth_error ts p = Some t0 /\ grows t0 t
      /\ dependencies t = depsAt p (turns ts bd)
      /\ dependents t = dependentsAt (theorems (basicIndicesOwn emptyIndex 0 ts)) p (turns ts bd).
Proof.
  intros L F p t Hp.
  assert (Hlt : p < List.length ts).
  { pose proof (lb_length L) as Hl. simpl in Hl. rewrite <- Hl.
    apply nth_error_Some. congruence. }
  destruct (nth_error_lt _ _ Hlt) as (t0 & Ht0).
  destruct (lb_store L p Ht0) as (t' & Ht' & G & D1 & D2).
  simpl in Ht'. rewrite Hp in Ht'. injection Ht' as <-.
  destruct (F t0 (nth_error_In _ _ Ht0)) as (F1 & F2).
  rewrite F1 in D1. rewrite F2 in D2. simpl in D1, D2. eauto.
Qed.

Lemma total_dependencies_turns ts bd idx objs :
  linkedBy (turns ts bd) (basicIndicesOwn emptyIndex 0 ts, ts) (idx, objs) ->
  (forall t, In t ts -> dependencies t = [] /\ dependents t = []) ->
  list_sum (map (fun t => List.length (dependencies t)) objs) = List.length (turns ts bd).
Proof.
  intros L F.
  rewrite (list_sum_by_position _ _
             (fun p => List.length (filter (fun e => e_pos e =? p) (turns ts bd))) 0).
  - apply (count_partition _ _ Nat.eqb e_pos Nat.eqb_eq).
    + apply seq_NoDup.
    + intros e He. apply in_seq. pose proof (turns_position _ _ _ He) as Hp.
      pose proof (lb_length L) as Hl. simpl in Hl. lia.
  - intros p t Hp. destruct (fresh_objects _ _ _ _ L F p t Hp) as (t0 & _ & _ & -> & _).
    unfold depsAt. now rewrite length_map.
Qed.

Lemma edgeCount_turns ts bd idx objs :
  linkedBy (turns ts bd) (basicIndicesOwn emptyIndex 0 ts, ts) (idx, objs) ->
  edgeCount (dependencyGraph idx) = List.length (turns ts bd)
  /\ edgeCount (reverseDependencyGraph idx) = List.length (turns ts bd).
Proof.
  intros L.
  assert (N : forall k, In k (fold_left addKey (map id ts) []) <-> In k (map id ts)).
  { intros k. rewrite addKeys_In. simpl. tauto. }
  destruct (basicIndices_keys ts emptyIndex 0) as (_ & K2 & K3). simpl in K2, K3.
  pose proof (lb_keys L) as Hk. pose proof (lb_rkeys L) as Hr. simpl in Hk, Hr.
  rewrite K2 in Hk. rewrite K3 in Hr.
  assert (ND : NoDup (fold_left addKey (map id ts) [])) by (apply addKeys_NoDup; constructor).
  unfold edgeCount. split.
  - rewrite values_by_key, map_map, Hk by (rewrite Hk; exact ND).
    rewrite (map_ext _ (fun k => List.length
                                   (filter (fun e => String.eqb (e_from e) k) (turns ts bd)))).
    + apply (count_partition _ _ String.eqb e_from String.eqb_eq); [exact ND|].
      intros e He. apply N. apply turns_source in He.
      apply existsb_exists in He. destruct He as (t & It & Et).
      apply String.eqb_eq in Et. rewrite <- Et. now apply in_map.
    + intros k. rewrite (successors_graph _ _ _ _ k L). unfold outOf.
      now rewrite length_map.
  - rewrite values_by_key, map_map, Hr by (rewrite Hr; exact ND).
    rewrite (map_ext _ (fun k => List.length
                                   (filter (fun e => String.eqb (e_to e) k) (turns ts bd)))).
    + apply (count_partition _ _ String.eqb e_to String.eqb_eq); [exact ND|].
      intros e He. apply N. apply turns_target in He.
      apply existsb_exists in He. destruct He as (t & It & Et).
      apply String.eqb_eq in Et. rewrite <- Et. now apply in_map.
    + intros k. rewrite (successors_reverse _ _ _ _ k L). unfold inTo.
      now rewrite length_map.
Qed.

(** X10. The figures of the indexing summary, for kinds that are words
    of letters and digits and a document whose blocks have no inherited
    name among their keys.  [totalTheorems] is the
    number of blocks; [theoremsByType] gives for each kind the number of
    blocks of that kind and has no entry for a kind without block;
    [totalDependencies] is the number of edges of the dependency graph,
    which is also the number of edges of the reverse graph, and never
    exceeds [totalReferences]; [cyclicDependencies] is what the cycle
    detector returns on the dependency graph of the index. *)
Theorem X10_summary_figures (content filePath : string) (params : TheoremIndexerParams) :
  plainKinds (theoremTypesOf params) = true ->
  plainBlocks (indexedBlocks content filePath params) = true ->
  exists r,
    indexTheorems content filePath params (fun _ => false) = Ok r
    /\ totalTheorems (r_summary r) = List.length (r_theorems r)
    /\ (forall kind,
          get (theoremsByType (r_summary r)) kind
          = tally (List.length
                     (filter (fun t => String.eqb (type t) kind) (r_theorems r))))
    /\ totalDependencies (r_summary r) = edgeCount (dependencyGraph (r_index r))
    /\ totalDependencies (r_summary r) = edgeCount (reverseDependencyGraph (r_index r))
    /\ totalDependencies (r_summary r) <= totalReferences (r_summary r)
    /\ cyclicDependencies (r_summary r)
       = detectCyclicDependencies (dependencyGraph (r_index r)).
Proof.
  intros _ Hplain. rewrite (PlainFacts.indexTheorems_plain _ _ _ _ Hplain).
  destruct (indexTheorems_built content filePath params) as (r & E & S & L).
  exists r. split; [exact E|]. rewrite S. unfold generateIndexingSummary.
  cbn [totalTheorems theoremsByType totalDependencies totalReferences cyclicDependencies].
  split; [reflexivity|]. split; [intros kind; apply theoremsByType_counts|].
  set (ts := indexedBlocks content filePath params) in *.
  set (bd := not_false (build_dependencies params)) in *.
  pose proof (indexedBlocks_fresh content filePath params) as F. fold ts in F.
  rewrite (total_dependencies_turns _ _ _ _ L F).
  destruct (edgeCount_turns _ _ _ _ L) as (-> & ->).
  split; [reflexivity|]. split; [reflexivity|]. split; [|reflexivity].
  rewrite <- (total_dependencies_turns _ _ _ _ L F).
  apply list_sum_le. apply Forall2_same.
  intros t It. apply In_nth_error in It. destruct It as (p & Hp).
  destruct (fresh_objects _ _ _ _ L F p t Hp) as (t0 & Ht0 & G & -> & _).
  rewrite (g_references G). unfold depsAt. rewrite length_map.
  unfold turns. destruct bd; [|simpl; lia].
  fold (depsAt p (edgesFrom (labelToId (basicIndicesOwn emptyIndex 0 ts)) 0 ts)).
  assert (Hd : List.length (depsAt p (edgesFrom (labelToId (basicIndicesOwn emptyIndex 0 ts)) 0 ts))
               <= List.length (references t0)).
  { rewrite (depsAt_edgesFrom _ ts 0 p t0 Ht0). apply length_resolved. }
  unfold depsAt in Hd. rewrite length_map in Hd. exact Hd.
Qed.

Lemma X10_summary_figures_witness :
  plainKinds (theoremTypesOf default_params) = true
  /\ plainBlocks (indexedBlocks Examples.referenceDocument "refs.tex" default_params) = true
  /\ exists r,
       indexTheorems Examples.referenceDocument "refs.tex" default_params (fun _ => false) = Ok r
       /\ totalTheorems (r_summary r) = 3
       /\ totalDependencies (r_summary r) = edgeCount (dependencyGraph (r_index r))
       /\ totalDependencies (r_summary r) <= totalReferences (r_summary r).
Proof.
  split; [exact PlainFacts.indexerKinds_plain|].
  split; [exact PlainFacts.referenceDocument_plain|].
  destruct (X10_summary_figures Examples.referenceDocument "refs.tex" default_params
              PlainFacts.indexerKinds_plain PlainFacts.referenceDocument_plain)
    as (r & E & T & _ & D1 & _ & D2 & _).
  exists r. split; [exact E|]. split; [|split; [exact D1|exact D2]].
  rewrite T. vm_compute in E. injection E as <-. reflexivity.
Defined.

End IndexExtras.

(* ================================================================== *)
(** * Identifiers of blocks without label *)
(* ================================================================== *)

Module IdentifierExtras.
Import JsString Regex Dict Scanner Spec Invariants Notions Linking.
Import TheoremIndexerTool.
Import Facts ScanTheorems IndexTheorems ScanExtras.

Lemma code_digit (d : nat) : d < 10 -> code (ascii_of_nat (48 + d)) = 48 + d.
Proof. intros H. unfold code. apply nat_ascii_embedding. lia. Qed.

(** Reading the decimal rendering of a number gives the number back. *)
Lemma decimal_value_digits :
  forall fuel n acc,
    n < fuel ->
    exists k, forall a,
      decimal_value (digits fuel n acc) a = decimal_value acc (10 ^ k * a + n).
Proof.
  induction fuel as [|fuel IH]; intros n acc H; [lia|]. cbn [digits].
  assert (Hm : n mod 10 < 10) by (apply Nat.mod_upper_bound; lia).
  pose proof (Nat.div_mod_eq n 10) as Hn.
  destruct (Nat.eqb_spec (n / 10) 0) as [Z|NZ].
  - exists 1. intros a. cbn [decimal_value]. rewrite code_digit by exact Hm.
    f_equal. rewrite Nat.pow_1_r. lia.
  - destruct (IH (n / 10) (String (ascii_of_nat (48 + n mod 10)) acc)) as (k & Hk).
    { assert (n / 10 < n) by (apply Nat.div_lt; lia). lia. }
    exists (S k). intros a. rewrite Hk. cbn [decimal_value].
    rewrite code_digit by exact Hm. f_equal.
    rewrite Nat.pow_succ_r'. lia.
Qed.

Lemma decimal_value_of_nat (n : nat) : decimal_value (of_nat n) 0 = n.
Proof.
  unfold of_nat. destruct (decimal_value_digits (S n) n EmptyString) as (k & Hk); [lia|].
  rewrite Hk. simpl. lia.
Qed.

Lemma of_nat_injective (n m : nat) : of_nat n = of_nat m -> n = m.
Proof.
  intros H. rewrite <- (decimal_value_of_nat n), <- (decimal_value_of_nat m).
  now rewrite H.
Qed.

Lemma all_digits_digits :
  forall fuel n acc, all_digits acc = true -> all_digits (digits fuel n acc) = true.
Proof.
  induction fuel as [|fuel IH]; intros n acc H; cbn [digits]; [exact H|].
  assert (Hm : n mod 10 < 10) by (apply Nat.mod_upper_bound; lia).
  assert (A : all_digits (String (ascii_of_nat (48 + n mod 10)) acc) = true).
  { cbn [all_digits]. rewrite code_digit by exact Hm. rewrite H.
    destruct (Nat.leb_spec 48 (48 + n mod 10)); [|lia].
    destruct (Nat.leb_spec (48 + n mod 10) 57); [reflexivity|lia]. }
  destruct (n / 10 =? 0); [exact A|now apply IH].
Qed.

Lemma all_digits_of_nat (n : nat) : all_digits (of_nat n) = true.
Proof. apply all_digits_digits. reflexivity. Qed.

Lemma all_digits_no_underscore (s1 s2 : string) :
  all_digits (s1 ++ String "_"%char s2) = false.
Proof. induction s1 as [|c s1 IH]; simpl; [reflexivity|]. rewrite IH. apply andb_false_r. Qed.

(** The number after the last underscore is determined by the whole
    string. *)
Lemma suffix_after_underscore :
  forall s1 s2 d1 d2 : string,
    all_digits d1 = true -> all_digits d2 = true ->
    (s1 ++ "_" ++ d1 = s2 ++ "_" ++ d2)%string -> s1 = s2 /\ d1 = d2.
Proof.
  induction s1 as [|c s1 IH]; intros [|c' s2] d1 d2 H1 H2 E; simpl in E.
  - injection E as ->. auto.
  - injection E as <- ->. now rewrite all_digits_no_underscore in H1.
  - injection E as -> <-. now rewrite all_digits_no_underscore in H2.
  - injection E as -> E. destruct (IH _ _ _ H1 H2 E) as (-> & ->). auto.
Qed.

Lemma generateTheoremId_unlabelled ty l k :
  truthy_opt l = false -> generateTheoremId ty l k = (ty ++ "_" ++ of_nat (k + 1))%string.
Proof.
  unfold generateTheoremId, truthy_opt. destruct l as [l|]; [|reflexivity].
  now intros ->.
Qed.

(** X11. For kinds that are words of letters and digits and a document
    whose blocks have no inherited name among their keys: two different
    blocks without (truthy) label never get the same identifier, whatever
    their kinds: the identifier of such a block determines its ordinal and
    its kind. *)
Theorem X11_unlabelled_identifiers_differ (content filePath : string)
        (params : TheoremIndexerParams) :
  plainKinds (theoremTypesOf params) = true ->
  plainBlocks (indexedBlocks content filePath params) = true ->
  exists r,
    indexTheorems content filePath params (fun _ => false) = Ok r
    /\ forall i j ti tj,
         nth_error (r_theorems r) i = Some ti ->
         nth_error (r_theorems r) j = Some tj ->
         truthy_opt (label ti) = false ->
         truthy_opt (label tj) = false ->
         id ti = id tj ->
         i = j /\ type ti = type tj.
Proof.
  intros _ Hplain. rewrite (PlainFacts.indexTheorems_plain _ _ _ _ Hplain).
  destruct (indexTheorems_complete content filePath params) as (r & E & X).
  pose proof (e_store X) as HS. simpl in HS.
  exists r. split; [exact E|].
  assert (ID : forall i t,
             nth_error (r_theorems r) i = Some t -> truthy_opt (label t) = false ->
             id t = (type t ++ "_" ++ of_nat (i + 1))%string).
  { intros i t Ht Hl.
    destruct (Forall2_nth_error_r _ _ _ _ _ HS Ht) as (t0 & Ht0 & G).
    unfold indexedBlocks in Ht0. rewrite nth_error_map in Ht0.
    destruct (nth_error (numbered 0 _) i) as [[k p]|] eqn:Hp; simpl in Ht0;
      [injection Ht0 as <-|discriminate].
    apply nth_error_numbered_inv in Hp. destruct Hp as [-> Hp]. simpl in G.
    rewrite (g_label G) in Hl. rewrite (g_id G), (g_type G).
    unfold indexedBlock in *. simpl in *.
    now apply generateTheoremId_unlabelled. }
  intros i j ti tj Hi Hj Li Lj Eid.
  rewrite (ID i ti Hi Li), (ID j tj Hj Lj) in Eid.
  apply suffix_after_underscore in Eid; try apply all_digits_of_nat.
  destruct Eid as (Et & En). apply of_nat_injective in En. split; [lia|exact Et].
Qed.

Lemma X11_unlabelled_identifiers_differ_witness :
  plainKinds (theoremTypesOf default_params) = true
  /\ plainBlocks (indexedBlocks Examples.demoDocument "demo.tex" default_params) = true
  /\ exists r,
       indexTheorems Examples.demoDocument "demo.tex" default_params (fun _ => false) = Ok r
       /\ map id (r_theorems r) = ["theorem_1"; "lemma_2"].
Proof.
  split; [exact PlainFacts.indexerKinds_plain|].
  split; [exact PlainFacts.demoDocument_plain|].
  destruct (X11_unlabelled_identifiers_differ Examples.demoDocument "demo.tex" default_params
              PlainFacts.indexerKinds_plain PlainFacts.demoDocument_plain) as (r & E & _).
  exists r. split; [exact E|].
  vm_compute in E. injection E as <-. reflexivity.
Defined.

End IdentifierExtras.

(* ================================================================== *)
(** * Further properties of the proof lookup *)
(* ================================================================== *)

Module MatchExtras.
Import JsString Regex Scanner Spec Examples GetProofTool Facts ScanTheorems MatchTheorems.

Lemma num_nonneg (n : nat) : (0 <= num n)%Q.
Proof. unfold num, Qle. simpl. lia. Qed.

Lemma num_le (n m : nat) : n <= m -> (num n <= num m)%Q.
Proof. intros H. unfold num, Qle. simpl. lia. Qed.

Lemma wordMatches_le (query : string) (t : ProofResult) :
  wordMatches query t <= List.length (split_ws query).
Proof. unfold wordMatches. apply filter_length_le. Qed.

(** The word-overlap score lies between 0 and 60. *)
Lemma wordScore_bounds (query : string) (t : ProofResult) :
  (0 <= wordScore query t)%Q /\ (wordScore query t <= num 60)%Q.
Proof.
  unfold wordScore. pose proof (wordMatches_le query t) as H.
  set (m := wordMatches query t) in *. set (n := List.length (split_ws query)) in *.
  destruct n as [|n].
  - assert (m = 0) by lia. subst m. rewrite H0. split; vm_compute; discriminate.
  - assert (P : (0 < num (S n))%Q) by (unfold num, Qlt; simpl; lia).
    assert (D1 : (0 <= num m / num (S n))%Q).
    { apply Qle_shift_div_l; [exact P|]. rewrite Qmult_0_l. apply num_nonneg. }
    assert (D2 : (num m / num (S n) <= 1)%Q).
    { apply Qle_shift_div_r; [exact P|]. rewrite Qmult_1_l. now apply num_le. }
    split.
    + apply Qmult_le_0_compat; [exact D1|apply num_nonneg].
    + setoid_replace (num 60) with (1 * num 60)%Q by (now rewrite Qmult_1_l).
      apply Qmult_le_compat_r; [exact D2|apply num_nonneg].
Qed.

Lemma max_bounds (lo hi a b : Q) :
  (lo <= a)%Q -> (a <= hi)%Q -> (b <= hi)%Q ->
  (lo <= Qmax a b)%Q /\ (Qmax a b <= hi)%Q.
Proof.
  intros H1 H2 H3. split.
  - eapply Qle_trans; [exact H1|apply Q.le_max_l].
  - now apply Q.max_lub.
Qed.

(** Every score lies between 0 and 100. *)
Lemma scoreOf_bounds (query : string) (fuzzyMatch : bool) (t : ProofResult) :
  (0 <= scoreOf query fuzzyMatch t)%Q /\ (scoreOf query fuzzyMatch t <= num 100)%Q.
Proof.
  unfold scoreOf.
  assert (B0 : (0 <= num 0)%Q /\ (num 0 <= num 100)%Q) by (split; vm_compute; discriminate).
  assert (B100 : (0 <= num 100)%Q /\ (num 100 <= num 100)%Q)
    by (split; vm_compute; discriminate).
  set (s1 := if nameIs query t then num 100 else num 0).
  assert (B1 : (0 <= s1)%Q /\ (s1 <= num 100)%Q) by (unfold s1; now destruct (nameIs query t)).
  set (s2 := if labelHas query t then Qmax s1 (num 80) else s1).
  assert (B2 : (0 <= s2)%Q /\ (s2 <= num 100)%Q).
  { unfold s2. destruct (labelHas query t); [|exact B1].
    apply max_bounds; try tauto; vm_compute; discriminate. }
  set (s3 := if nameHas query t then Qmax s2 (num 70) else s2).
  assert (B3 : (0 <= s3)%Q /\ (s3 <= num 100)%Q).
  { unfold s3. destruct (nameHas query t); [|exact B2].
    apply max_bounds; try tauto; vm_compute; discriminate. }
  set (s4 := if fuzzyMatch
             then if 0 <? wordMatches query t then Qmax s3 (wordScore query t) else s3
             else s3).
  assert (B4 : (0 <= s4)%Q /\ (s4 <= num 100)%Q).
  { unfold s4. destruct fuzzyMatch; [|exact B3].
    destruct (0 <? wordMatches query t); [|exact B3].
    apply max_bounds; try tauto.
    eapply Qle_trans; [apply wordScore_bounds|]. vm_compute; discriminate. }
  destruct (typeHas query t); [|exact B4].
  apply max_bounds; try tauto; vm_compute; discriminate.
Qed.

(** X12. The choice of [findBestMatch] among candidates none of which
    has exactly the query as label: it returns a block exactly when some
    candidate scores more than 30, and then the first candidate of the
    greatest score; every score lies between 0 and 100. *)
Theorem X12_best_match_is_first_maximum (ts : list ProofResult) (identifier : string)
        (fuzzyMatch : bool) :
  let query := trim (toLowerCase identifier) in
  let score := scoreOf query fuzzyMatch in
  existsb (labelIs query) ts = false ->
  (forall t, (0 <= score t)%Q /\ (score t <= num 100)%Q)
  /\ match findBestMatch ts identifier fuzzyMatch with
     | Some t =>
         (num 30 < score t)%Q
         /\ exists pre post,
              ts = pre ++ t :: post
              /\ (forall t', In t' pre -> (score t' < score t)%Q)
              /\ (forall t', In t' post -> (score t' <= score t)%Q)
     | None => forall t, In t ts -> (score t <= num 30)%Q
     end.
Proof.
  intros query score Hx. split; [intros t; apply scoreOf_bounds|].
  unfold findBestMatch. fold query.
  assert (H0 : (@None ProofResult = None -> (num 0 <= num 30)%Q))
    by (intros _; vm_compute; discriminate).
  pose proof (bestLoop_optimal query fuzzyMatch ts None (num 0) Hx H0) as H.
  destruct (bestLoop query fuzzyMatch ts None (num 0)) as [t|].
  - destruct H as (I1 & I2 & [[[=] _]|(pre & post & -> & Hlt & Hpre)]).
    assert (M : (Qmax (num 0) (scoreOf query fuzzyMatch t) == scoreOf query fuzzyMatch t)%Q)
      by (apply Q.max_r; now apply Qlt_le_weak).
    split; [unfold score; rewrite <- M; exact I1|].
    exists pre, post. split; [reflexivity|]. split; [exact Hpre|].
    intros t' I. unfold score. rewrite <- M. apply I2.
    apply in_or_app. right. now right.
  - destruct H as (_ & H). exact H.
Qed.

(** A query that is the label of no block of the demonstration document
    but is the name of one. *)
Lemma X12_best_match_is_first_maximum_witness :
  let ts := proofBlocks lookupDocument "lookup.tex" defaultTheoremTypes in
  existsb (labelIs (trim (toLowerCase "Helper Lemma"))) ts = false
  /\ exists t,
       findBestMatch ts "Helper Lemma" true = Some t
       /\ (num 30 < scoreOf (trim (toLowerCase "Helper Lemma")) true t)%Q.
Proof.
  intros ts.
  assert (Hx : existsb (labelIs (trim (toLowerCase "Helper Lemma"))) ts = false)
    by (vm_compute; reflexivity).
  split; [exact Hx|].
  pose proof (X12_best_match_is_first_maximum ts "Helper Lemma" true) as H.
  cbv zeta in H. specialize (H Hx). destruct H as (_ & H).
  destruct (findBestMatch ts "Helper Lemma" true) as [t|] eqn:E.
  - exists t. split; [reflexivity|]. exact (proj1 H).
  - vm_compute in E. discriminate E.
Defined.

End MatchExtras.

(* ================================================================== *)
(** * Line numbers *)
(* ================================================================== *)

Module LineExtras.
Import JsString Regex Scanner Spec Invariants Notions.
Import Facts ScanTheorems ScanExtras.

Lemma count_char_prefix (c : ascii) :
  forall s n m,
    n <= m ->
    count_char c (String.substring 0 n s) <= count_char c (String.substring 0 m s)
    /\ count_char c (String.substring 0 m s) <= count_char c s.
Proof.
  induction s as [|d s IH]; intros n m H.
  - destruct n, m; simpl; lia.
  - destruct n as [|n], m as [|m]; simpl; try lia.
    + destruct (IH 0 m) as (I1 & I2); lia.
    + destruct (IH n m) as (I1 & I2); lia.
Qed.

Lemma getLineNumber_prefix (content : string) (i : nat) :
  getLineNumber content i
  = S (count_char nl (String.substring 0 (Nat.min i (String.length content)) content)).
Proof.
  unfold getLineNumber, substring. simpl. now rewrite Nat.sub_0_r.
Qed.

Lemma getLineNumber_monotone (content : string) (i j : nat) :
  i <= j ->
  1 <= getLineNumber content i
  /\ getLineNumber content i <= getLineNumber content j
  /\ getLineNumber content j <= S (count_char nl content).
Proof.
  intros H. rewrite !getLineNumber_prefix.
  destruct (count_char_prefix nl content (Nat.min i (String.length content))
              (Nat.min j (String.length content))) as (H1 & H2); lia.
Qed.

Lemma subseq_In {A : Type} (l1 l2 : list A) (x : A) :
  subseq l1 l2 -> In x l1 -> In x l2.
Proof.
  induction 1; intros I; [contradiction|right; auto|].
  destruct I as [->|I]; [now left|right; auto].
Qed.

Lemma Forall2_with_left {A B : Type} (P : A -> Prop) (Q : A -> B -> Prop)
      (l : list A) (l' : list B) :
  Forall2 (fun a b => P a -> Q a b) l l' -> Forall P l -> Forall2 Q l l'.
Proof.
  induction 1; intros F; constructor; inversion F; subst; auto.
Qed.

Lemma opens_startLine (theoremTypes : list string) (content : string) (o : open_entry) :
  In o (opens theoremTypes content) ->
  o_startLine o = getLineNumber content (o_startIndex o).
Proof.
  unfold opens. intros H. apply in_map_iff in H. destruct H as (m & <- & _). reflexivity.
Qed.

(** X13. Line numbers.  [getLineNumber] is 1-based, monotone in the
    offset and bounded by the number of lines of the document.  Hence, for
    kinds that are words of letters and digits and a document whose blocks
    have no inherited name among their keys, every block of the indexer
    starts and ends at a line of the document, and ends at or after the
    line where it starts as soon as its closing delimiter comes after its
    opening delimiter; and a proof that the lookup attaches to a block ends
    at or after the line where it starts. *)
Theorem X13_line_numbers (content filePath : string)
        (params : TheoremIndexerTool.TheoremIndexerParams)
        (theorem : GetProofTool.ProofResult) :
  let lines := S (count_char nl content) in
  (forall i j, i <= j ->
               1 <= getLineNumber content i
               /\ getLineNumber content i <= getLineNumber content j
               /\ getLineNumber content j <= lines)
  /\ (plainKinds (TheoremIndexerTool.theoremTypesOf params) = true ->
      TheoremIndexerTool.plainBlocks (indexedBlocks content filePath params) = true ->
      exists r,
        TheoremIndexerTool.indexTheorems content filePath params (fun _ => false) = Ok r
        /\ Forall2
             (fun p t =>
                1 <= TheoremIndexerTool.lineNumber t <= lines
                /\ 1 <= TheoremIndexerTool.endLineNumber t <= lines
                /\ (o_startIndex (fst p) <= Regex.index (snd p) ->
                    TheoremIndexerTool.lineNumber t <= TheoremIndexerTool.endLineNumber t))
             (pairsOf (TheoremIndexerTool.theoremTypesOf params) content)
             (TheoremIndexerTool.r_theorems r))
  /\ match GetProofTool.pi_proofStartLine (GetProofTool.findProofForTheorem content theorem),
           GetProofTool.pi_proofEndLine (GetProofTool.findProofForTheorem content theorem) with
     | Some first, Some last => 1 <= first /\ first <= last /\ last <= lines
     | None, None =>
         GetProofTool.pi_proof (GetProofTool.findProofForTheorem content theorem) = None
     | _, _ => False
     end.
Proof.
  intros lines. split; [intros i j; apply getLineNumber_monotone|]. split.
  - intros _ Hplain. rewrite (PlainFacts.indexTheorems_plain _ _ _ _ Hplain).
    destruct (indexed_by_pairs content filePath params
                (fun p t =>
                   In (fst p) (opens (TheoremIndexerTool.theoremTypesOf params) content) ->
                   1 <= TheoremIndexerTool.lineNumber t <= lines
                   /\ 1 <= TheoremIndexerTool.endLineNumber t <= lines
                   /\ (o_startIndex (fst p) <= Regex.index (snd p) ->
                       TheoremIndexerTool.lineNumber t
                       <= TheoremIndexerTool.endLineNumber t))) as (r & E & F).
    { intros k p t G I.
      rewrite (g_lineNumber G), (g_endLineNumber G). simpl.
      rewrite (opens_startLine _ _ _ I).
      pose proof (getLineNumber_monotone content _ _ (le_n (Regex.index (snd p)))) as B1.
      pose proof (getLineNumber_monotone content _ _ (le_n (o_startIndex (fst p)))) as B2.
      fold lines in B1, B2.
      split; [lia|]. split; [lia|].
      intros H. now apply getLineNumber_monotone. }
    exists r. split; [exact E|].
    apply (Forall2_with_left _ _ _ _ F).
    apply Forall_forall. intros p I.
    destruct (matchCloses_shape (opens (TheoremIndexerTool.theoremTypesOf params) content)
                (closes content) 0) as (S1 & _ & _).
    apply (subseq_In _ _ _ S1). now apply in_map.
  - unfold GetProofTool.findProofForTheorem.
    destruct (search flag_i GetProofTool.proofBegin _) as [b|]; [|reflexivity].
    destruct (search flag_i GetProofTool.proofEnd _) as [e|]; [|reflexivity].
    cbn [GetProofTool.pi_proofStartLine GetProofTool.pi_proofEndLine].
    match goal with
    | |- 1 <= getLineNumber _ ?i /\ getLineNumber _ ?i <= getLineNumber _ ?j /\ _ =>
        assert (H : i <= j) by lia;
        destruct (getLineNumber_monotone content i j H) as (H1 & H2 & H3)
    end.
    fold lines in H3. auto.
Qed.

Lemma X13_line_numbers_witness :
  plainKinds (TheoremIndexerTool.theoremTypesOf TheoremIndexerTool.default_params) = true
  /\ TheoremIndexerTool.plainBlocks
       (indexedBlocks Examples.demoDocument "demo.tex" TheoremIndexerTool.default_params) = true
  /\ exists r,
       TheoremIndexerTool.indexTheorems Examples.demoDocument "demo.tex"
         TheoremIndexerTool.default_params (fun _ => false) = Ok r
       /\ map TheoremIndexerTool.lineNumber (TheoremIndexerTool.r_theorems r) = [2; 10]
       /\ map TheoremIndexerTool.endLineNumber (TheoremIndexerTool.r_theorems r) = [8; 13].
Proof.
  split; [exact PlainFacts.indexerKinds_plain|].
  split; [exact PlainFacts.demoDocument_plain|].
  pose proof (X13_line_numbers Examples.demoDocument "demo.tex" TheoremIndexerTool.default_params
                (GetProofTool.mkProofResult "theorem" None None "" None "" 1 1 None None
                   "" None false)) as H.
  cbv zeta in H. destruct H as (_ & H & _).
  destruct (H PlainFacts.indexerKinds_plain PlainFacts.demoDocument_plain) as (r & E & _).
  exists r. split; [exact E|].
  vm_compute in E. injection E as <-. split; reflexivity.
Defined.

End LineExtras.

(* ================================================================== *)
(** * Sorted symbols *)
(* ================================================================== *)

Module SymbolExtras.
Import JsString Regex Dict Scanner Spec Invariants Notions Linking.
Import Facts LinkFacts ScanTheorems ExtractorTheorems ScanExtras IndexExtras.

Lemma insert_sorted_perm (x : string) (l : list string) :
  Permutation (insert_sorted x l) (x :: l).
Proof.
  induction l as [|y l IH]; simpl; [reflexivity|].
  destruct (String.leb x y); [reflexivity|].
  rewrite IH. apply perm_swap.
Qed.

Lemma sort_perm (l : list string) : Permutation (sort l) l.
Proof.
  induction l as [|x l IH]; simpl; [reflexivity|].
  unfold sort in *. simpl. rewrite insert_sorted_perm. now constructor.
Qed.

Lemma ltb_of_leb (x y : string) : String.leb x y = true -> x <> y -> String.ltb x y = true.
Proof.
  unfold String.leb, String.ltb. intros H N.
  destruct (String.compare x y) eqn:C; try reflexivity; try discriminate.
  apply String.compare_eq_iff in C. contradiction.
Qed.

Lemma ascending_cons (x : string) (l : list string) :
  ascending l = true ->
  (forall y, In y l -> x <> y) ->
  match l with [] => True | y :: _ => String.leb x y = true end ->
  ascending (x :: l) = true.
Proof.
  destruct l as [|y l]; intros A N H; [reflexivity|].
  cbn [ascending]. cbn [ascending] in A. rewrite A, andb_true_r.
  apply ltb_of_leb; [exact H|]. apply N. now left.
Qed.

Lemma ascending_tail (x : string) (l : list string) :
  ascending (x :: l) = true -> ascending l = true.
Proof.
  destruct l as [|y l]; [reflexivity|]. cbn [ascending].
  intros H. apply andb_prop in H. tauto.
Qed.

Lemma ascending_head (x y : string) (l : list string) :
  ascending (x :: y :: l) = true -> String.ltb x y = true.
Proof. cbn [ascending]. intros H. apply andb_prop in H. tauto. Qed.

Lemma insert_sorted_ascending (x : string) (l : list string) :
  ascending l = true -> ~ In x l -> ascending (insert_sorted x l) = true.
Proof.
  induction l as [|y l IH]; intros A N; [reflexivity|].
  cbn [insert_sorted]. destruct (String.leb x y) eqn:L.
  - apply ascending_cons; [exact A| |exact L].
    intros z Hz ->. contradiction.
  - assert (Lyx : String.leb y x = true).
    { destruct (String.leb_total x y) as [H|H]; [congruence|exact H]. }
    assert (Nyx : y <> x) by (intros ->; apply N; now left).
    assert (A' : ascending (insert_sorted x l) = true).
    { apply IH; [eapply ascending_tail; exact A|]. intros I. apply N. now right. }
    destruct l as [|z l].
    + cbn [insert_sorted ascending]. now rewrite (ltb_of_leb _ _ Lyx Nyx).
    + cbn [insert_sorted] in A' |- *. destruct (String.leb x z).
      * cbn [ascending] in A' |- *. rewrite A', andb_true_r.
        now apply ltb_of_leb.
      * cbn [ascending] in A' |- *. rewrite A', andb_true_r.
        eapply ascending_head. exact A.
Qed.

Lemma sort_ascending (l : list string) : NoDup l -> ascending (sort l) = true.
Proof.
  induction 1 as [|x l N H IH]; [reflexivity|].
  unfold sort in *. simpl. apply insert_sorted_ascending; [exact IH|].
  intros I. apply N. eapply Permutation_in; [apply sort_perm|exact I].
Qed.

Lemma sorted_uniq (xs : list string) :
  ascending (sort (uniq xs)) = true
  /\ NoDup (sort (uniq xs))
  /\ forall x, In x (sort (uniq xs)) <-> In x xs.
Proof.
  assert (N : NoDup (uniq xs)) by apply uniq_from_NoDup.
  split; [now apply sort_ascending|]. split.
  - eapply Permutation_NoDup; [symmetry; apply sort_perm|exact N].
  - intros x. split; intros H.
    + apply (Permutation_in _ (sort_perm _)) in H.
      apply uniq_from_In in H. tauto.
    + apply (Permutation_in _ (Permutation_sym (sort_perm _))).
      apply uniq_from_In. tauto.
Qed.

(** X14. Symbols come out sorted and without repetition: the symbols of
    a text, as [extractSymbols] returns them, are strictly increasing in
    the order of the code units; so are, for kinds that are words of
    letters and digits and a document whose blocks have no inherited name
    among their keys, the [uniqueSymbols] of the indexing summary, which
    are exactly the symbols of the blocks, that is the symbols that have
    an entry in the symbol index. *)
Theorem X14_symbols_sorted (content filePath : string)
        (params : TheoremIndexerTool.TheoremIndexerParams) (text : string) :
  (ascending (extractSymbols text) = true /\ NoDup (extractSymbols text))
  /\ (plainKinds (TheoremIndexerTool.theoremTypesOf params) = true ->
      TheoremIndexerTool.plainBlocks (indexedBlocks content filePath params) = true ->
      exists r,
       TheoremIndexerTool.indexTheorems content filePath params (fun _ => false) = Ok r
       /\ let unique := TheoremIndexerTool.uniqueSymbols (TheoremIndexerTool.r_summary r) in
          ascending unique = true
          /\ NoDup unique
          /\ (forall s, In s unique
                        <-> exists t, In t (TheoremIndexerTool.r_theorems r)
                                      /\ In s (TheoremIndexerTool.symbols t))
          /\ (forall s, In s unique
                        <-> get (TheoremIndexerTool.symbolIndex
                                   (TheoremIndexerTool.r_index r)) s <> None)).
Proof.
  split.
  - unfold extractSymbols. destruct (sorted_uniq
      (flat_map (fun p => flat_map symbolsOfMatch (execAll (fst p) (snd p) text))
                symbolPatterns)) as (A & N & _). auto.
  - intros _ Hplain. rewrite (PlainFacts.indexTheorems_plain _ _ _ _ Hplain).
    destruct (indexTheorems_built content filePath params) as (r & E & S & L).
    exists r. split; [exact E|]. rewrite S.
    unfold TheoremIndexerTool.generateIndexingSummary.
    cbn [TheoremIndexerTool.uniqueSymbols].
    destruct (sorted_uniq (flat_map TheoremIndexerTool.symbols
                                    (TheoremIndexerTool.r_theorems r))) as (A & N & M).
    split; [exact A|]. split; [exact N|].
    assert (M' : forall s,
               In s (sort (uniq (flat_map TheoremIndexerTool.symbols
                                          (TheoremIndexerTool.r_theorems r))))
               <-> exists t, In t (TheoremIndexerTool.r_theorems r)
                             /\ In s (TheoremIndexerTool.symbols t)).
    { intros s. rewrite M. apply in_flat_map. }
    split; [exact M'|].
    intros s. rewrite M'.
    pose proof (lb_symbolIndex L) as Hs. simpl in Hs. rewrite Hs.
    destruct (basicIndices_groups (indexedBlocks content filePath params) s) as (_ & ->).
    assert (F : forall l, entry l <> None <-> exists i, In i l).
    { intros [|i l]; simpl; split.
      - congruence.
      - intros (i & []).
      - intros _. exists i. now left.
      - discriminate. }
    rewrite F. unfold grouped. split.
    + intros (t & It & Is).
      apply In_nth_error in It. destruct It as (p & Hp).
      assert (Hlt : p < List.length (indexedBlocks content filePath params)).
      { pose proof (lb_length L) as Hl. simpl in Hl. rewrite <- Hl.
        apply nth_error_Some. congruence. }
      destruct (nth_error_lt _ _ Hlt) as (t0 & Ht0).
      destruct (lb_store L p Ht0) as (t' & Ht' & G & _).
      simpl in Ht'. rewrite Hp in Ht'. injection Ht' as <-.
      exists (TheoremIndexerTool.id t0). apply in_flat_map.
      exists t0. split; [eapply nth_error_In; exact Ht0|].
      apply in_map_iff. exists s. split; [reflexivity|].
      apply filter_In. rewrite <- (g_symbols G). split; [exact Is|apply String.eqb_refl].
    + intros (i & Hi). apply in_flat_map in Hi. destruct Hi as (t0 & It0 & Hi).
      apply in_map_iff in Hi. destruct Hi as (x & _ & Hx).
      apply filter_In in Hx. destruct Hx as (Hx & Ex). apply String.eqb_eq in Ex. subst x.
      apply In_nth_error in It0. destruct It0 as (p & Hp).
      destruct (lb_store L p Hp) as (t & Ht & G & _). simpl in Ht.
      exists t. split; [eapply nth_error_In; exact Ht|].
      now rewrite (g_symbols G).
Qed.

Lemma X14_symbols_sorted_witness :
  plainKinds (TheoremIndexerTool.theoremTypesOf TheoremIndexerTool.default_params) = true
  /\ TheoremIndexerTool.plainBlocks
       (indexedBlocks Examples.demoDocument "demo.tex" TheoremIndexerTool.default_params) = true
  /\ exists r,
       TheoremIndexerTool.indexTheorems Examples.demoDocument "demo.tex"
         TheoremIndexerTool.default_params (fun _ => false) = Ok r
       /\ ascending (TheoremIndexerTool.uniqueSymbols (TheoremIndexerTool.r_summary r)) = true.
Proof.
  split; [exact PlainFacts.indexerKinds_plain|].
  split; [exact PlainFacts.demoDocument_plain|].
  destruct (proj2 (X14_symbols_sorted Examples.demoDocument "demo.tex"
                     TheoremIndexerTool.default_params "")
              PlainFacts.indexerKinds_plain PlainFacts.demoDocument_plain)
    as (r & E & H).
  cbv zeta in H. destruct H as (H & _).
  exists r. split; [exact E|exact H].
Defined.

End SymbolExtras.

(* ================================================================== *)
(** * Warnings and errors of the LaTeX compiler output *)
(* ================================================================== *)

Module CompilerExtras.
Import JsString Scanner LatexCompilerTool.

Lemma split_lines_aux_app (b : string) :
  forall a cur,
    split_lines_aux (a ++ String nl b) cur = split_lines_aux a cur ++ split_lines b.
Proof.
  induction a as [|c a IH]; intros cur.
  - reflexivity.
  - cbn [append split_lines_aux].
    destruct (Ascii.eqb c (ascii_of_nat 10)); cbn [app]; now rewrite IH.
Qed.

Lemma length_split_lines_aux :
  forall s cur, List.length (split_lines_aux s cur) = S (count_char nl s).
Proof.
  induction s as [|c s IH]; intros cur; [reflexivity|].
  cbn [split_lines_aux count_char]. unfold nl at 1.
  rewrite (Ascii.eqb_sym (ascii_of_nat 10) c).
  destruct (Ascii.eqb c (ascii_of_nat 10)); cbn [List.length]; now rewrite IH.
Qed.

Lemma classifyLines_app :
  forall l1 l2 warnings errors,
    classifyLines (l1 ++ l2) warnings errors
    = classifyLines l2 (fst (classifyLines l1 warnings errors))
                    (snd (classifyLines l1 warnings errors)).
Proof.
  induction l1 as [|line l1 IH]; intros l2 warnings errors; simpl; [reflexivity|].
  destruct (isWarningLine line); [apply IH|].
  destruct (isErrorLine line); apply IH.
Qed.

Lemma classifyLines_filter :
  forall lines warnings errors,
    classifyLines lines warnings errors
    = (warnings ++ map trim (filter isWarningLine lines),
       errors ++ map trim (filter (fun l => negb (isWarningLine l) && isErrorLine l) lines)).
Proof.
  induction lines as [|line lines IH]; intros warnings errors; simpl.
  - now rewrite !app_nil_r.
  - destruct (isWarningLine line); simpl.
    + rewrite IH. now rewrite <- app_assoc.
    + destruct (isErrorLine line); simpl; rewrite IH; [|reflexivity].
      now rewrite <- app_assoc.
Qed.

Lemma filter_disjoint_length {A : Type} (f g : A -> bool) (l : list A) :
  (forall x, f x && g x = false) ->
  List.length (filter f l) + List.length (filter g l) <= List.length l.
Proof.
  intros H. induction l as [|x l IH]; simpl; [lia|].
  specialize (H x). destruct (f x), (g x); simpl in *; try discriminate; lia.
Qed.

(** X15. [extractWarningsAndErrors] on the output of one compiler pass:
    it only appends to the two arrays of the caller; the lines that
    mention a warning go, trimmed and in order, to the warnings, the other
    lines that mention an error or contain an exclamation mark to the
    errors, so that no line is reported twice and at most as many messages
    are added as the output has lines.  Reading the outputs of two passes
    one after the other gives what reading the two outputs joined by a line
    feed gives. *)
Theorem X15_warnings_and_errors (output next : string) (warnings errors : list string) :
  let result := extractWarningsAndErrors output warnings errors in
  let onlyError := fun line => negb (isWarningLine line) && isErrorLine line in
  fst result = warnings ++ map trim (filter isWarningLine (split_lines output))
  /\ snd result = errors ++ map trim (filter onlyError (split_lines output))
  /\ (List.length (fst result) - List.length warnings)
     + (List.length (snd result) - List.length errors)
     <= S (count_char nl output)
  /\ extractWarningsAndErrors (output ++ String nl next) warnings errors
     = extractWarningsAndErrors next (fst result) (snd result).
Proof.
  intros result onlyError. unfold result, extractWarningsAndErrors.
  rewrite classifyLines_filter. cbn [fst snd]. split; [reflexivity|]. split; [reflexivity|].
  split.
  - rewrite !length_app, !length_map.
    pose proof (filter_disjoint_length isWarningLine onlyError (split_lines output)) as H.
    unfold split_lines in *. rewrite length_split_lines_aux in H.
    assert (D : forall x, isWarningLine x && onlyError x = false)
      by (intros x; unfold onlyError; now destruct (isWarningLine x)).
    specialize (H D). unfold onlyError in H. lia.
  - unfold split_lines. rewrite split_lines_aux_app, classifyLines_app.
    now rewrite (classifyLines_filter (split_lines_aux output EmptyString) warnings errors).
Qed.

End CompilerExtras.

(* ================================================================== *)
(** * Further properties of the cycle detector *)
(* ================================================================== *)

Module CycleExtras.
Import JsString Dict Invariants TheoremIndexerTool Notions Search.
Import Facts CycleTheorems.

Lemma chain_cons (g : dict (list string)) (a b : string) (l : list string) :
  chain g (a :: b :: l) <-> In b (successors g a) /\ chain g (b :: l).
Proof. reflexivity. Qed.

Lemma chain_suffix (g : dict (list string)) :
  forall l1 l2, chain g (l1 ++ l2) -> chain g l2.
Proof.
  induction l1 as [|x l1 IH]; intros l2 H; [exact H|].
  apply IH. change ((x :: l1) ++ l2) with (x :: (l1 ++ l2)) in H.
  destruct (l1 ++ l2) as [|b l]; [exact I|]. apply (proj1 (chain_cons _ _ _ _)) in H. tauto.
Qed.

Lemma chain_snoc (g : dict (list string)) (y : string) :
  forall l x, chain g (l ++ [x]) -> In y (successors g x) -> chain g ((l ++ [x]) ++ [y]).
Proof.
  induction l as [|a l IH]; intros x H Hy.
  - simpl. auto.
  - specialize (IH x).
    change (chain g (a :: (l ++ [x]))) in H.
    change (chain g (a :: ((l ++ [x]) ++ [y]))).
    destruct (l ++ [x]) as [|b l'] eqn:E; [now destruct l|].
    apply (proj1 (chain_cons _ _ _ _)) in H. destruct H as (H1 & H2).
    change ((b :: l') ++ [y]) with (b :: (l' ++ [y])) in *.
    apply chain_cons. split; [exact H1|]. now apply IH.
Qed.

Lemma chain_reaches (g : dict (list string)) (y : string) :
  forall l x, chain g (x :: l ++ [y]) -> reaches g x y.
Proof.
  induction l as [|a l IH]; intros x H.
  - apply (proj1 (chain_cons _ _ _ _)) in H. apply reaches_edge. tauto.
  - change (chain g (x :: a :: (l ++ [y]))) in H. apply (proj1 (chain_cons _ _ _ _)) in H.
    destruct H as (H1 & H2). eapply reaches_step; [exact H1|]. now apply IH.
Qed.

Lemma reaches_inv (g : dict (list string)) (x z : string) :
  reaches g x z -> exists y, In y (successors g x) /\ (y = z \/ reaches g y z).
Proof. intros H. inversion H; subst; eauto. Qed.

Lemma index_of_split (x : string) :
  forall l, In x l ->
            exists pre rest, l = pre ++ x :: rest /\ index_of x l = Some (List.length pre).
Proof.
  induction l as [|y l IH]; intros H; [contradiction|]. simpl.
  destruct (String.eqb_spec y x) as [->|N].
  - exists [], l. auto.
  - destruct H as [->|H]; [contradiction|].
    destruct (IH H) as (pre & rest & -> & E). exists (y :: pre), rest.
    rewrite E. auto.
Qed.

Lemma slice_from_split (x : string) (pre rest : list string) :
  index_of x (pre ++ x :: rest) = Some (List.length pre) ->
  slice_from x (pre ++ x :: rest) = x :: rest.
Proof.
  intros E. unfold slice_from. rewrite E.
  now rewrite skipn_app, Nat.sub_diag, skipn_all.
Qed.

Lemma delete_fresh (x : string) (l : list string) : ~ In x l -> delete x (x :: l) = l.
Proof.
  intros N. unfold delete. simpl. rewrite String.eqb_refl. simpl.
  induction l as [|y l IH]; simpl; [reflexivity|].
  destruct (String.eqb_spec y x) as [->|D].
  - exfalso. apply N. now left.
  - simpl. f_equal. apply IH. intros I. apply N. now right.
Qed.

(** The cycle that [dfs] records when it meets an identifier of the
    recursion stack. *)
Lemma recorded_cycle (g : dict (list string)) (st : dfs_state) (node : string) :
  sane g st -> chain g (path st ++ [node]) -> In node (recursionStack st) ->
  isCycle g (slice_from node (path st) ++ [node]).
Proof.
  intros S C I. apply (s_stack S) in I.
  destruct (index_of_split node _ I) as (pre & rest & E & X).
  pose proof (s_nodup S) as N. rewrite E in C, N, X |- *.
  rewrite (slice_from_split _ _ _ X).
  exists node, rest. split; [reflexivity|]. split.
  - rewrite <- app_assoc in C. apply chain_suffix in C. exact C.
  - apply NoDup_app_remove_l in N. exact N.
Qed.

Lemma finished_closed (g : dict (list string)) (st : dfs_state) :
  (forall u v, finished st u -> In v (successors g u) -> finished st v) ->
  forall u w, reaches g u w -> finished st u -> finished st w.
Proof. intros H u w R. induction R; eauto. Qed.

Lemma cycles_nil (l more : list (list string)) : l ++ more = [] -> l = [].
Proof. intros H. now apply app_eq_nil in H. Qed.

(** A call of [dfs] keeps the state sane. *)
Lemma dfs_sane (g : dict (list string)) :
  forall fuel node st st',
    sane g st -> chain g (path st ++ [node]) ->
    dfs g fuel node st = Some st' ->
    sane g st' /\ after node st st'.
Proof.
  induction fuel as [|fuel IH]; intros node st st' S C E; [discriminate|].
  rewrite dfs_step in E.
  destruct (mem node (recursionStack st)) eqn:Mr.
  { (* an identifier of the recursion stack *)
    apply mem_In in Mr. injection E as <-. split.
    - constructor; cbn [path recursionStack cycles visited].
      + apply (s_nodup S).
      + apply (s_stack S).
      + apply Forall_app. split; [apply (s_cycles S)|].
        constructor; [|constructor]. now apply recorded_cycle.
      + intros H. now apply app_eq_nil in H.
      + intros H. now apply app_eq_nil in H.
    - constructor; cbn [path recursionStack cycles visited]; auto using incl_refl.
      + eauto.
      + intros H. now apply app_eq_nil in H. }
  apply mem_false in Mr.
  destruct (mem node (visited st)) eqn:Mv.
  { (* an identifier already visited *)
    apply mem_In in Mv. injection E as <-. split; [exact S|].
    constructor; auto using incl_refl.
    - exists []. now rewrite app_nil_r.
    - intros _. split; assumption. }
  apply mem_false in Mv.
  set (st1 := DfsState (cycles st) (node :: visited st)
                       (node :: recursionStack st) (path st ++ [node])) in *.
  assert (F1 : forall u, finished st1 u <-> finished st u).
  { intros u. unfold finished, st1. cbn [visited recursionStack]. simpl. split.
    - intros ([<-|Hv] & Hr); [tauto|]. tauto.
    - intros (Hv & Hr). split; [tauto|]. intros [<-|Hr']; contradiction. }
  assert (S1 : sane g st1).
  { constructor; unfold st1 at 1; cbn [path recursionStack cycles visited].
    - apply NoDup_app; [apply (s_nodup S)|repeat constructor; auto|].
      intros x Hx [<-|[]]. apply Mr. now apply (s_stack S).
    - intros x. simpl. rewrite in_app_iff, (s_stack S x). simpl. tauto.
    - apply (s_cycles S).
    - intros Hc u v Hu Hv. apply F1. apply F1 in Hu. eapply (s_closed S); eassumption.
    - intros Hc u Hu. apply F1 in Hu. now apply (s_acyclic S). }
  assert (Loop : forall deps s s',
             sane g s -> path s = path st1 -> recursionStack s = recursionStack st1 ->
             (forall d, In d deps -> In d (successors g node)) ->
             fold_left (fun acc dep => match acc with
                                       | Some s0 => dfs g fuel dep s0
                                       | None => None
                                       end) deps (Some s) = Some s' ->
             sane g s' /\ path s' = path st1 /\ recursionStack s' = recursionStack st1
             /\ incl (visited s) (visited s')
             /\ (exists more, cycles s' = cycles s ++ more)
             /\ (cycles s' = [] -> forall d, In d deps -> finished s' d)).
  { induction deps as [|d deps IHd]; intros s s' Ss Ps Rs Hd Ef; simpl in Ef.
    - injection Ef as <-.
      split; [exact Ss|]. split; [exact Ps|]. split; [exact Rs|].
      split; [apply incl_refl|]. split; [exists []; now rewrite app_nil_r|].
      intros _ d [].
    - destruct (dfs g fuel d s) as [s1|] eqn:Ed.
      + destruct (IH d s s1 Ss) as (Ss1 & A1); [|exact Ed|].
        { rewrite Ps. unfold st1. cbn [path]. apply chain_snoc; [exact C|].
          apply Hd. now left. }
        destruct (IHd s1 s' Ss1) as (Ss' & Ps' & Rs' & Vs' & (more' & Cs') & Ds'); auto.
        * rewrite (a_path A1). exact Ps.
        * rewrite (a_stack A1). exact Rs.
        * intros d' Hd'. apply Hd. now right.
        * split; [exact Ss'|]. split; [exact Ps'|]. split; [exact Rs'|].
          split; [eapply incl_tran; [apply (a_visited A1)|exact Vs']|].
          destruct (a_cycles A1) as (more & Cs1).
          split; [exists (more ++ more'); now rewrite Cs', Cs1, app_assoc|].
          intros Hc d' [<-|Hd']; [|now apply Ds'].
          assert (Hc1 : cycles s1 = []) by (rewrite Cs' in Hc; now apply cycles_nil in Hc).
          destruct (a_done A1 Hc1) as (Dv & Dr).
          split; [now apply Vs'|]. rewrite Rs', <- Rs, <- (a_stack A1). exact Dr.
      + exfalso. clear - Ef. induction deps; simpl in Ef; [discriminate|auto]. }
  destruct (fold_left _ (successors g node) (Some st1)) as [st2|] eqn:Ef; [|discriminate].
  injection E as <-.
  destruct (Loop (successors g node) st1 st2 S1 eq_refl eq_refl (fun d H => H) Ef)
    as (S2 & P2 & R2 & V2 & (more & C2) & D2).
  unfold st1 in P2, R2, V2, C2. cbn [path recursionStack visited cycles] in P2, R2, V2, C2.
  assert (Hdel : delete node (recursionStack st2) = recursionStack st)
    by (rewrite R2; now apply delete_fresh).
  assert (Hpath : removelast (path st2) = path st)
    by (rewrite P2; apply removelast_last).
  assert (Hnode : In node (visited st2)) by (apply V2; now left).
  assert (F2 : forall u, u <> node -> In u (visited st2) -> ~ In u (recursionStack st) ->
                         finished st2 u).
  { intros u Nu Hv Hr. split; [exact Hv|]. rewrite R2. intros [->|H]; contradiction. }
  split.
  - constructor; cbn [path recursionStack cycles visited]; rewrite ?Hdel, ?Hpath.
    + apply (s_nodup S).
    + apply (s_stack S).
    + apply (s_cycles S2).
    + intros Hc u v (Hu & Hr) Hv.
      assert (Fv : finished st2 v).
      { destruct (string_dec u node) as [->|Nu].
        - now apply D2.
        - apply (@s_closed g st2 S2 Hc u v); [now apply F2|exact Hv]. }
      destruct Fv as (Fv1 & Fv2). split; [exact Fv1|].
      rewrite R2 in Fv2. intros H. apply Fv2. now right.
    + intros Hc u (Hu & Hr) R.
      destruct (string_dec u node) as [->|Nu].
      * destruct (reaches_inv _ _ _ R) as (y & Hy & Hz).
        assert (Fy : finished st2 y) by now apply D2.
        assert (Fn : finished st2 node).
        { destruct Hz as [<-|Hz]; [exact Fy|].
          eapply finished_closed; [apply (@s_closed g st2 S2 Hc)|exact Hz|exact Fy]. }
        destruct Fn as (_ & Fn). apply Fn. rewrite R2. now left.
      * apply (@s_acyclic g st2 S2 Hc u); [now apply F2|exact R].
  - constructor; cbn [path recursionStack cycles visited]; rewrite ?Hdel, ?Hpath; auto.
    + intros x Hx. apply V2. now right.
    + eauto.
    + intros _. split; assumption.
Qed.

(** The loop over the keys: the recursion stack is empty between two
    searches. *)
Lemma dfsAll_sane (g : dict (list string)) (fuel : nat) :
  forall nodes st st',
    sane g st -> recursionStack st = [] -> path st = [] ->
    dfsAll g fuel nodes st = Some st' ->
    sane g st' /\ recursionStack st' = [] /\ path st' = []
    /\ incl (visited st) (visited st')
    /\ (exists more, cycles st' = cycles st ++ more)
    /\ (cycles st' = [] -> forall n, In n nodes -> In n (visited st')).
Proof.
  induction nodes as [|node nodes IH]; intros st st' S R P E; cbn [dfsAll] in E.
  - injection E as <-.
    split; [exact S|]. split; [exact R|]. split; [exact P|].
    split; [apply incl_refl|]. split; [exists []; now rewrite app_nil_r|].
    intros _ n [].
  - destruct (mem node (visited st)) eqn:Mv.
    + destruct (IH st st' S R P E) as (S' & R' & P' & V' & C' & N').
      split; [exact S'|]. split; [exact R'|]. split; [exact P'|].
      split; [exact V'|]. split; [exact C'|].
      intros Hc n [<-|Hn]; [|now apply N'].
      apply V'. now apply mem_In.
    + assert (Est : DfsState (cycles st) (visited st) (recursionStack st) [] = st)
        by (destruct st; simpl in *; now subst).
      rewrite Est in E.
      destruct (dfs g fuel node st) as [st1|] eqn:Ed; [|discriminate].
      destruct (dfs_sane g fuel node st st1 S) as (S1 & A1); [|exact Ed|].
      { rewrite P. simpl. exact I. }
      destruct (IH st1 st' S1) as (S' & R' & P' & V' & (more' & C') & N'); auto.
      * rewrite (a_stack A1). exact R.
      * rewrite (a_path A1). exact P.
      * destruct (a_cycles A1) as (more & C1).
        split; [exact S'|]. split; [exact R'|]. split; [exact P'|].
        split; [eapply incl_tran; [apply (a_visited A1)|exact V']|].
        split; [exists (more ++ more'); now rewrite C', C1, app_assoc|].
        -- intros Hc n [<-|Hn]; [|now apply N'].
           assert (Hc1 : cycles st1 = []) by (rewrite C' in Hc; now apply cycles_nil in Hc).
           apply V'. apply (a_done A1 Hc1).
Qed.

Lemma initial_sane (g : dict (list string)) : sane g (DfsState [] [] [] []).
Proof.
  constructor; simpl.
  - constructor.
  - tauto.
  - constructor.
  - intros _ u v (H & _). contradiction.
  - intros _ u (H & _). contradiction.
Qed.

Lemma detector_final (g : dict (list string)) :
  exists st,
    dfsAll g (S (List.length (nodesOf g))) (keys g) (DfsState [] [] [] []) = Some st
    /\ detectCyclicDependencies g = cycles st
    /\ sane g st /\ recursionStack st = []
    /\ (cycles st = [] -> forall n, In n (keys g) -> In n (visited st)).
Proof.
  pose proof (detectCyclicDependencies_total g) as T.
  unfold detectCyclicDependencies_run in T.
  destruct (dfsAll g _ (keys g) (DfsState [] [] [] [])) as [st|] eqn:E; [|discriminate].
  simpl in T. injection T as T.
  exists st. split; [reflexivity|]. split; [now symmetry|].
  destruct (dfsAll_sane g _ _ _ _ (initial_sane g) eq_refl eq_refl E)
    as (S' & R' & _ & _ & _ & N').
  auto.
Qed.

(** A graph in which no identifier reaches itself gives no report. *)
Lemma acyclic_silent (g : dict (list string)) :
  (forall x, ~ reaches g x x) -> detectCyclicDependencies g = [].
Proof.
  intros H. destruct (detector_final g) as (st & _ & -> & S & _).
  pose proof (s_cycles S) as F.
  destruct (cycles st) as [|c cs]; [reflexivity|].
  inversion F as [|? ? (first & inner & -> & C & _) _]; subst.
  exfalso. apply (H first). now apply chain_reaches in C.
Qed.

(** X16. Every cycle the detector reports is a cycle of the graph: a
    list that starts and ends with the same identifier, follows an edge of
    the graph at each step and repeats no other identifier. *)
Theorem X16_reported_cycles_are_cycles (g : dict (list string)) :
  Forall (isCycle g) (detectCyclicDependencies g).
Proof.
  destruct (detector_final g) as (st & _ & -> & S & _).
  apply (s_cycles S).
Qed.

(** X17. The detector misses no cyclic graph: it returns the empty list
    exactly when no identifier reaches itself along the edges of the
    graph. *)
Theorem X17_no_cycle_is_missed (g : dict (list string)) :
  detectCyclicDependencies g = [] <-> forall x, ~ reaches g x x.
Proof.
  destruct (detector_final g) as (st & _ & E & S & R & N). rewrite E. split.
  - intros Hc x Hx.
    destruct (reaches_inv _ _ _ Hx) as (y & Hy & _).
    assert (K : In x (keys g)).
    { unfold successors in Hy. destruct (get g x) as [l|] eqn:G; [|contradiction].
      apply get_Some_In in G. unfold keys. apply in_map_iff. now exists (x, l). }
    apply (@s_acyclic g st S Hc x); [|exact Hx].
    split; [now apply N|]. rewrite R. intros [].
  - intros H. pose proof (s_cycles S) as F.
    destruct (cycles st) as [|c cs]; [reflexivity|].
    inversion F as [|? ? (first & inner & -> & C & _) _]; subst.
    exfalso. apply (H first). now apply chain_reaches in C.
Qed.

End CycleExtras.

(* ================================================================== *)
(** * Document order *)
(* ================================================================== *)

Module OrderExtras.
Import JsString Regex Scanner Spec Invariants Notions.
Import Facts ScanTheorems ScanExtras LineExtras.

Lemma match_here_index fl r bef s m :
  match_here fl r bef s = Some m -> Regex.index m = List.length bef.
Proof.
  unfold match_here. destruct (matches fl r (MState bef s [])); [discriminate|].
  now intros [= <-].
Qed.

(** The matches of a global pattern come from left to right and do not
    overlap. *)
Lemma scan_in_order fl r :
  forall s bef skip,
    Forall (fun m => List.length bef + skip <= Regex.index m) (scan fl r bef s skip)
    /\ ForallOrdPairs
         (fun m1 m2 => Regex.index m1 + String.length (whole m1) <= Regex.index m2
                       /\ Regex.index m1 < Regex.index m2)
         (scan fl r bef s skip).
Proof.
  induction s as [|c s IH]; intros bef [|k]; cbn [scan].
  - destruct (match_here fl r bef EmptyString) as [m|] eqn:E.
    + apply match_here_index in E.
      assert (T : match String.length (whole m), EmptyString with
                  | S k, String c s' => scan fl r (c :: bef) s' k
                  | _, _ => []
                  end = []) by now destruct (String.length (whole m)).
      rewrite T. split; repeat constructor. lia.
    + split; constructor.
  - split; constructor.
  - destruct (match_here fl r bef (String c s)) as [m|] eqn:E.
    + apply match_here_index in E.
      destruct (String.length (whole m)) as [|k] eqn:L.
      * split; repeat constructor. lia.
      * destruct (IH (c :: bef) k) as (I1 & I2). simpl in I1. split.
        -- constructor; [lia|]. eapply Forall_impl; [|exact I1]. intros m'. simpl. lia.
        -- constructor; [|exact I2].
           eapply Forall_impl; [|exact I1]. intros m'. simpl. lia.
    + destruct (IH (c :: bef) 0) as (I1 & I2). simpl in I1. split; [|exact I2].
      eapply Forall_impl; [|exact I1]. intros m'. simpl. lia.
  - destruct (IH (c :: bef) k) as (I1 & I2). simpl in I1. split; [|exact I2].
    eapply Forall_impl; [|exact I1]. intros m'. simpl. lia.
Qed.

Lemma ordered_map {A B : Type} (f : A -> B) (R : A -> A -> Prop) (R' : B -> B -> Prop)
      (l : list A) :
  (forall a b, R a b -> R' (f a) (f b)) ->
  ForallOrdPairs R l -> ForallOrdPairs R' (map f l).
Proof.
  intros H. induction 1 as [|a l Ha Hl IH]; simpl; constructor; [|exact IH].
  apply Forall_map. eapply Forall_impl; [|exact Ha]. intros b. apply H.
Qed.

Lemma ordered_subseq {A : Type} (R : A -> A -> Prop) (l1 l2 : list A) :
  subseq l1 l2 -> ForallOrdPairs R l2 -> ForallOrdPairs R l1.
Proof.
  induction 1 as [l|x l1 l2 S IH|x l1 l2 S IH]; intros H.
  - constructor.
  - inversion H; subst. auto.
  - inversion H as [|? ? Hx Hl]; subst. constructor; [|auto].
    apply Forall_forall. intros y Hy.
    rewrite Forall_forall in Hx. apply Hx. eapply subseq_In; eassumption.
Qed.

Lemma ordered_of_map {A B : Type} (f : A -> B) (R : B -> B -> Prop) (l : list A) :
  ForallOrdPairs R (map f l) -> ForallOrdPairs (fun a b => R (f a) (f b)) l.
Proof.
  induction l as [|a l IH]; simpl; intros H; constructor; inversion H; subst; auto.
  now apply Forall_map.
Qed.

Lemma ordered_Forall2 {A B : Type} (R : A -> A -> Prop) (R' : B -> B -> Prop)
      (Q : A -> B -> Prop) (l : list A) (l' : list B) :
  (forall a b a' b', Q a a' -> Q b b' -> R a b -> R' a' b') ->
  Forall2 Q l l' -> ForallOrdPairs R l -> ForallOrdPairs R' l'.
Proof.
  intros H F. induction F as [|a a' l l' Ha F IH]; intros O; constructor;
    inversion O as [|? ? Oa Ol]; subst; auto.
  clear IH Ol O. induction F as [|b b' l l' Hb F IH]; constructor;
    inversion Oa; subst; eauto.
Qed.

Lemma ordered_and {A : Type} (R R' : A -> A -> Prop) (l : list A) :
  ForallOrdPairs R l -> ForallOrdPairs R' l -> ForallOrdPairs (fun a b => R a b /\ R' a b) l.
Proof.
  induction 1 as [|a l Ha Hl IH]; intros H; constructor; inversion H as [|? ? Ha' Hl']; subst;
    auto.
  rewrite Forall_forall in *. auto.
Qed.

(** X18. The blocks come in document order, for kinds that are words of
    letters and digits and any document whose blocks have no inherited
    name among their keys: from
    one block of the result to any later one the offset of the opening
    delimiter increases, and so does the offset of the closing delimiter,
    so that neither the first line nor the last line of the blocks ever
    decreases along the result. *)
Theorem X18_document_order (content filePath : string)
        (params : TheoremIndexerTool.TheoremIndexerParams) :
  plainKinds (TheoremIndexerTool.theoremTypesOf params) = true ->
  TheoremIndexerTool.plainBlocks (indexedBlocks content filePath params) = true ->
  let types := TheoremIndexerTool.theoremTypesOf params in
  ForallOrdPairs
    (fun p1 p2 => o_startIndex (fst p1) < o_startIndex (fst p2)
                  /\ Regex.index (snd p1) + String.length (whole (snd p1))
                     <= Regex.index (snd p2))
    (pairsOf types content)
  /\ exists r,
       TheoremIndexerTool.indexTheorems content filePath params (fun _ => false) = Ok r
       /\ ForallOrdPairs
            (fun t1 t2 =>
               TheoremIndexerTool.lineNumber t1 <= TheoremIndexerTool.lineNumber t2
               /\ TheoremIndexerTool.endLineNumber t1 <= TheoremIndexerTool.endLineNumber t2)
            (TheoremIndexerTool.r_theorems r).
Proof.
  intros _ Hplain types.
  rewrite (PlainFacts.indexTheorems_plain _ _ _ _ Hplain).
  destruct (matchCloses_shape (opens types content) (closes content) 0) as (S1 & S2 & _).
  fold (pairsOf types content) in S1, S2. simpl in S1.
  assert (O1 : ForallOrdPairs (fun o1 o2 => o_startIndex o1 < o_startIndex o2)
                              (opens types content)).
  { unfold opens. eapply ordered_map; [|apply (scan_in_order flag_i _ content [] 0)].
    intros a b (_ & H). exact H. }
  assert (O2 : ForallOrdPairs
                 (fun m1 m2 => Regex.index m1 + String.length (whole m1) <= Regex.index m2)
                 (closes content)).
  { unfold closes, execAll.
    destruct (scan_in_order flag_i endPattern content [] 0) as (_ & H).
    revert H. generalize (scan flag_i endPattern [] content 0).
    induction 1; constructor; auto.
    eapply Forall_impl; [|eassumption]. intros b (Hb & _). exact Hb. }
  apply (ordered_subseq _ _ _ S1) in O1. apply ordered_of_map in O1.
  apply (ordered_subseq _ _ _ S2) in O2. apply ordered_of_map in O2.
  pose proof (ordered_and _ _ _ O1 O2) as O.
  split; [exact O|].
  destruct (indexed_by_pairs content filePath params
              (fun p t =>
                 In (fst p) (opens types content) ->
                 TheoremIndexerTool.lineNumber t
                 = getLineNumber content (o_startIndex (fst p))
                 /\ TheoremIndexerTool.endLineNumber t
                    = getLineNumber content (Regex.index (snd p)))) as (r & E & F).
  { intros k p t G I. rewrite (g_lineNumber G), (g_endLineNumber G). simpl.
    now rewrite (opens_startLine _ _ _ I). }
  exists r. split; [exact E|].
  fold types in F. apply Forall2_with_left in F.
  - eapply ordered_Forall2; [|exact F|exact O].
    intros p1 p2 t1 t2 (L1 & E1) (L2 & E2) (H1 & H2). rewrite L1, L2, E1, E2.
    split; apply getLineNumber_monotone; lia.
  - apply Forall_forall. intros p I.
    apply (subseq_In _ _ _ S1). now apply in_map.
Qed.

Lemma X18_document_order_witness :
  plainKinds (TheoremIndexerTool.theoremTypesOf TheoremIndexerTool.default_params) = true
  /\ TheoremIndexerTool.plainBlocks
       (indexedBlocks Examples.demoDocument "demo.tex" TheoremIndexerTool.default_params) = true
  /\ exists r,
       TheoremIndexerTool.indexTheorems Examples.demoDocument "demo.tex"
         TheoremIndexerTool.default_params (fun _ => false) = Ok r
       /\ ForallOrdPairs
            (fun t1 t2 =>
               TheoremIndexerTool.lineNumber t1 <= TheoremIndexerTool.lineNumber t2
               /\ TheoremIndexerTool.endLineNumber t1 <= TheoremIndexerTool.endLineNumber t2)
            (TheoremIndexerTool.r_theorems r).
Proof.
  split; [exact PlainFacts.indexerKinds_plain|].
  split; [exact PlainFacts.demoDocument_plain|].
  pose proof (X18_document_order Examples.demoDocument "demo.tex" TheoremIndexerTool.default_params
                PlainFacts.indexerKinds_plain PlainFacts.demoDocument_plain) as H.
  cbv zeta in H. destruct H as (_ & r & E & H).
  exists r. split; [exact E|exact H].
Defined.

End OrderExtras.

(* ================================================================== *)
(** * What the patterns with one braced argument match *)
(* ================================================================== *)

Module PatternExtras.
Import JsString Regex Scanner Spec Invariants Notions Matching.
Import Facts ScanTheorems ExtractorTheorems.

Lemma append_assoc (a b c : string) : ((a ++ b) ++ c = a ++ (b ++ c))%string.
Proof. induction a as [|x a IH]; simpl; [reflexivity|now rewrite IH]. Qed.

Lemma length_append (a b : string) :
  String.length (a ++ b) = String.length a + String.length b.
Proof. induction a as [|x a IH]; simpl; [reflexivity|now rewrite IH]. Qed.

Lemma substring_prefix (a b : string) :
  String.substring 0 (String.length a) (a ++ b) = a.
Proof. induction a as [|x a IH]; simpl; [now destruct b|now rewrite IH]. Qed.

Lemma consumes_refl st : consumes "" st st.
Proof. split; reflexivity. Qed.

Lemma consumes_trans w1 w2 st1 st2 st3 :
  consumes w1 st1 st2 -> consumes w2 st2 st3 -> consumes (w1 ++ w2) st1 st3.
Proof.
  intros (R1 & C1) (R2 & C2). split; [|congruence].
  now rewrite R1, R2, append_assoc.
Qed.

Lemma consumed_text w st st' :
  rest st = (w ++ rest st')%string -> consumed st st' = w.
Proof.
  intros H. unfold consumed. rewrite H, length_append.
  replace (String.length w + String.length (rest st') - String.length (rest st'))
    with (String.length w) by lia.
  apply substring_prefix.
Qed.

(** One code unit that passes a test. *)
Lemma step_char_consumes st ok st' :
  In st' (step_char st ok) ->
  exists c, ok c = true /\ consumes (String c EmptyString) st st'.
Proof.
  unfold step_char. destruct (rest st) as [|c s] eqn:R; [intros []|].
  destruct (ok c) eqn:O; [|intros []]. intros [<-|[]].
  exists c. split; [exact O|]. split; simpl; auto.
Qed.

(** A literal text, case sensitive. *)
Lemma lit_consumes (p : string) :
  forall st st', In st' (matches no_flags (Lit p) st) -> consumes p st st'.
Proof.
  induction p as [|c p IH]; intros st st' H; simpl in H.
  - destruct H as [<-|[]]. apply consumes_refl.
  - apply in_flat_map in H. destruct H as (mid & H1 & H2).
    apply step_char_consumes in H1. destruct H1 as (d & Hd & C1).
    apply Ascii.eqb_eq in Hd. subst d.
    apply (consumes_trans (String c EmptyString) p _ _ _ C1). now apply IH.
Qed.

(** Any number of code units that pass a test. *)
Lemma star_class_consumes (greedy : bool) (q : ascii -> bool) (fl : flags) :
  forall st st',
    In st' (matches fl (Star greedy (Cls q)) st) ->
    exists w, every q w = true /\ consumes w st st'.
Proof.
  intros st. cbn [matches].
  generalize (String.length (rest st)) as fuel. intros fuel. revert st.
  induction fuel as [|fuel IH]; intros st st' H.
  - destruct H as [<-|[]]. exists EmptyString. split; [reflexivity|apply consumes_refl].
  - assert (M : forall s,
               In s (flat_map
                       (fun st'0 =>
                          if String.length (rest st'0) <? String.length (rest st)
                          then (fix loop (fuel : nat) (st : mstate) {struct fuel}
                                  : list mstate :=
                                  match fuel with
                                  | 0 => [st]
                                  | S fuel' =>
                                      let more :=
                                        flat_map
                                          (fun st'0 =>
                                             if String.length (rest st'0)
                                                <? String.length (rest st)
                                             then loop fuel' st'0 else [])
                                          (step_char st q) in
                                      if greedy then more ++ [st] else st :: more
                                  end) fuel st'0
                          else [])
                       (step_char st q)) ->
               exists w, every q w = true /\ consumes w st s).
    { intros s Hs. apply in_flat_map in Hs. destruct Hs as (mid & H1 & H2).
      apply step_char_consumes in H1. destruct H1 as (c & Hc & C1).
      destruct (String.length (rest mid) <? String.length (rest st)); [|destruct H2].
      apply IH in H2. destruct H2 as (w & Hw & C2).
      exists (String c w). split; [simpl; now rewrite Hc, Hw|].
      apply (consumes_trans (String c EmptyString) w _ _ _ C1 C2). }
    cbn beta iota zeta in H. destruct greedy.
    + apply in_app_or in H. destruct H as [H|[<-|[]]]; [now apply M|].
      exists EmptyString. split; [reflexivity|apply consumes_refl].
    + destruct H as [<-|H]; [|now apply M].
      exists EmptyString. split; [reflexivity|apply consumes_refl].
Qed.

(** The patterns of the shape [p\{([^c]+)c]: the literal [p], one or
    more code units other than [c], captured, and [c]. *)
Lemma braced_consumes (p : string) (c : ascii) (st st' : mstate) :
  In st' (matches no_flags (Seqs [Lit p; Grp 1 (Plus (NotChr c)); Chr c]) st) ->
  exists arg,
    arg <> EmptyString
    /\ every (fun d => negb (Ascii.eqb c d)) arg = true
    /\ rest st = (p ++ arg ++ String c (rest st'))%string
    /\ caps st' = (1, arg) :: caps st.
Proof.
  cbn [Seqs]. cbn [matches]. intros H.
  apply in_flat_map in H. destruct H as (s1 & H1 & H).
  apply lit_consumes in H1. destruct H1 as (R1 & C1).
  apply in_flat_map in H. destruct H as (s2 & H2 & H3).
  apply in_map_iff in H2. destruct H2 as (s2' & <- & H2).
  unfold Plus in H2. cbn [matches] in H2.
  apply in_flat_map in H2. destruct H2 as (s3 & H4 & H5).
  apply step_char_consumes in H4. destruct H4 as (d & Hd & C4).
  apply (star_class_consumes true _ no_flags) in H5. destruct H5 as (w & Hw & C5).
  pose proof (consumes_trans _ _ _ _ _ C4 C5) as (R6 & C6).
  apply step_char_consumes in H3. destruct H3 as (e & He & (R7 & C7)).
  simpl in He. apply Ascii.eqb_eq in He. subst e. simpl in R7, C7.
  exists (String d w). split; [discriminate|]. split; [simpl; now rewrite Hd, Hw|].
  split.
  - rewrite R1, R6, R7. simpl. reflexivity.
  - rewrite C7. f_equal; [|congruence]. f_equal. now apply consumed_text.
Qed.

(** Every match of a scan is the match at some offset of the text. *)
Lemma scan_In fl r m :
  forall s bef skip,
    In m (scan fl r bef s skip) ->
    exists pre s' bef',
      s = (pre ++ s')%string
      /\ List.length bef' = List.length bef + String.length pre
      /\ match_here fl r bef' s' = Some m.
Proof.
  assert (Shift : forall c s bef,
             (exists pre s' bef',
                 s = (pre ++ s')%string
                 /\ List.length bef' = List.length (c :: bef) + String.length pre
                 /\ match_here fl r bef' s' = Some m) ->
             exists pre s' bef',
               String c s = (pre ++ s')%string
               /\ List.length bef' = List.length bef + String.length pre
               /\ match_here fl r bef' s' = Some m).
  { intros c s bef (pre & s' & bef' & -> & L & M).
    exists (String c pre), s', bef'. simpl in *. split; [reflexivity|]. split; [lia|exact M]. }
  induction s as [|c s IH]; intros bef [|k] H; cbn [scan] in H.
  - destruct (match_here fl r bef EmptyString) as [m0|] eqn:E; [|destruct H].
    assert (T : match String.length (whole m0), EmptyString with
                | S k, String c s' => scan fl r (c :: bef) s' k
                | _, _ => []
                end = []) by now destruct (String.length (whole m0)).
    rewrite T in H. destruct H as [<-|[]].
    exists EmptyString, EmptyString, bef. simpl. auto.
  - destruct H.
  - destruct (match_here fl r bef (String c s)) as [m0|] eqn:E.
    + destruct H as [<-|H].
      * exists EmptyString, (String c s), bef. simpl. auto.
      * destruct (String.length (whole m0)); [destruct H|].
        apply (Shift c s bef). eapply IH. exact H.
    + apply (Shift c s bef). eapply IH. exact H.
  - apply (Shift c s bef). eapply IH. exact H.
Qed.

(** A match of a braced pattern at one position: its first group is a
    non-empty argument free of [c], and the matched text, made of the
    literal, the argument and [c], starts the text. *)
Lemma braced_here (p : string) (c : ascii) (bef : list ascii) (s : string) (m : rmatch) :
  match_here no_flags (Seqs [Lit p; Grp 1 (Plus (NotChr c)); Chr c]) bef s = Some m ->
  exists arg post,
    group 1 m = Some arg
    /\ arg <> EmptyString
    /\ every (fun d => negb (Ascii.eqb c d)) arg = true
    /\ whole m = (p ++ arg ++ String c EmptyString)%string
    /\ s = (whole m ++ post)%string
    /\ Regex.index m = List.length bef.
Proof.
  intros M. unfold match_here in M.
  destruct (matches no_flags _ (MState bef s [])) as [|st' l] eqn:E; [discriminate|].
  injection M as <-.
  assert (I : In st' (matches no_flags (Seqs [Lit p; Grp 1 (Plus (NotChr c)); Chr c])
                              (MState bef s []))) by (rewrite E; now left).
  apply braced_consumes in I. destruct I as (arg & Na & Ea & R & C).
  cbn [rest caps] in R, C.
  assert (R' : s = ((p ++ arg ++ String c EmptyString) ++ rest st')%string)
    by (rewrite R, !append_assoc; reflexivity).
  assert (W : String.substring 0 (String.length s - String.length (rest st')) s
              = (p ++ arg ++ String c EmptyString)%string).
  { rewrite R' at 1 2. rewrite length_append.
    replace (String.length (p ++ arg ++ String c "") + String.length (rest st')
             - String.length (rest st'))
      with (String.length (p ++ arg ++ String c "")) by lia.
    apply substring_prefix. }
  exists arg, (rest st'). cbn [whole Regex.index groups]. rewrite W.
  split; [unfold group; cbn [groups]; rewrite C; reflexivity|].
  split; [exact Na|]. split; [exact Ea|]. split; [reflexivity|]. split; [exact R'|reflexivity].
Qed.

(** A match of a braced pattern in a text, found by the loop of a global
    pattern. *)
Lemma braced_match (p : string) (c : ascii) (content : string) (m : rmatch) :
  In m (execAll no_flags (Seqs [Lit p; Grp 1 (Plus (NotChr c)); Chr c]) content) ->
  exists arg,
    group 1 m = Some arg
    /\ arg <> EmptyString
    /\ every (fun d => negb (Ascii.eqb c d)) arg = true
    /\ whole m = (p ++ arg ++ String c EmptyString)%string
    /\ occursAt content (Regex.index m) (whole m).
Proof.
  unfold execAll. intros H.
  apply scan_In in H. destruct H as (pre & s' & bef' & -> & L & M).
  apply braced_here in M. destruct M as (arg & post & G & Na & Ea & W & Es & I).
  exists arg. split; [exact G|]. split; [exact Na|]. split; [exact Ea|].
  split; [exact W|].
  exists pre, post. split; [now rewrite Es at 1|]. simpl in L. lia.
Qed.

(** The leftmost match of a pattern is the match at some offset of the
    text. *)
Lemma search_from_here fl r m :
  forall s bef,
    search_from fl r bef s = Some m ->
    exists pre s' bef',
      s = (pre ++ s')%string
      /\ List.length bef' = List.length bef + String.length pre
      /\ match_here fl r bef' s' = Some m.
Proof.
  induction s as [|c s IH]; intros bef H; cbn [search_from] in H.
  - destruct (match_here fl r bef EmptyString) as [m0|] eqn:E; [|discriminate].
    injection H as ->. exists EmptyString, EmptyString, bef. simpl. auto.
  - destruct (match_here fl r bef (String c s)) as [m0|] eqn:E.
    + injection H as ->. exists EmptyString, (String c s), bef. simpl. auto.
    + destruct (IH _ H) as (pre & s' & bef' & -> & L & M).
      exists (String c pre), s', bef'. simpl in *. split; [reflexivity|]. split; [lia|exact M].
Qed.

Lemma braced_search (p : string) (c : ascii) (content : string) (m : rmatch) :
  search no_flags (Seqs [Lit p; Grp 1 (Plus (NotChr c)); Chr c]) content = Some m ->
  exists arg,
    group 1 m = Some arg
    /\ arg <> EmptyString
    /\ every (fun d => negb (Ascii.eqb c d)) arg = true
    /\ occursAt content (Regex.index m) (p ++ arg ++ String c EmptyString).
Proof.
  unfold search. intros H.
  apply search_from_here in H. destruct H as (pre & s' & bef' & -> & L & M).
  apply braced_here in M. destruct M as (arg & post & G & Na & Ea & W & Es & I).
  exists arg. split; [exact G|]. split; [exact Na|]. split; [exact Ea|].
  exists pre, post. split; [rewrite <- W; now rewrite Es at 1|]. simpl in L. lia.
Qed.

(** X19. What the reference extractor returns: every element is the
    argument of a cross-reference command of the text, that is a non-empty
    string without closing brace that the text has between [\ref{] or
    [\eqref{] and a closing brace; and no element is returned twice. *)
Theorem X19_references_are_arguments (content : string) :
  NoDup (extractReferences content)
  /\ Forall
       (fun reference =>
          reference <> EmptyString
          /\ every (fun d => negb (Ascii.eqb "}" d)) reference = true
          /\ exists i,
               occursAt content i ("\ref{" ++ reference ++ "}")
               \/ occursAt content i ("\eqref{" ++ reference ++ "}"))
       (extractReferences content).
Proof.
  split; [apply uniq_from_NoDup|].
  apply Forall_forall. intros reference H.
  unfold extractReferences, uniq in H. apply uniq_from_In in H. destruct H as (H & _).
  apply in_app_or in H. destruct H as [H|H].
  - unfold refArguments in H. apply in_map_iff in H. destruct H as (m & <- & H).
    apply (braced_match "\ref{" "}") in H. destruct H as (arg & G & Na & Ea & W & O).
    unfold group_or_empty. rewrite G. split; [exact Na|]. split; [exact Ea|].
    exists (Regex.index m). left. now rewrite <- W.
  - unfold eqrefArguments in H. apply in_map_iff in H. destruct H as (m & <- & H).
    apply (braced_match "\eqref{" "}") in H. destruct H as (arg & G & Na & Ea & W & O).
    unfold group_or_empty. rewrite G. split; [exact Na|]. split; [exact Ea|].
    exists (Regex.index m). right. now rewrite <- W.
Qed.

(** X23. The label of a block in the proof lookup, for kinds that are
    words of letters and digits.  It is the label of
    the opening delimiter when that one is truthy.  Otherwise, when the raw
    text of the block has a labelling command with a non-empty argument,
    it is such an argument: a non-empty string without closing brace that
    the raw text has between [\label{] and a closing brace.  Otherwise it
    is what the opening delimiter gives, absent or empty. *)
Theorem X23_label_of_a_looked_up_block (content filePath : string)
        (theoremTypes : list string) :
  plainKinds theoremTypes = true ->
  Forall
    (fun p =>
       let t := proofBlock content filePath p in
       let given := o_label (fst p) in
       if truthy_opt given
       then GetProofTool.label t = given
       else match search no_flags GetProofTool.labelPattern (GetProofTool.rawContent t) with
            | Some _ =>
                exists l i,
                  GetProofTool.label t = Some l
                  /\ l <> EmptyString
                  /\ every (fun d => negb (Ascii.eqb "}" d)) l = true
                  /\ occursAt (GetProofTool.rawContent t) i ("\label{" ++ l ++ "}")
            | None => GetProofTool.label t = given
            end)
    (pairsOf theoremTypes content)
  /\ GetProofTool.extractAllTheorems content filePath theoremTypes (fun _ => false)
     = Ok (map (proofBlock content filePath) (pairsOf theoremTypes content)).
Proof.
  intros _. split.
  - apply Forall_forall. intros p _. cbv zeta.
    unfold proofBlock, GetProofTool.makeTheorem.
    cbn [GetProofTool.label GetProofTool.rawContent]. unfold GetProofTool.labelOf.
    destruct (truthy_opt (o_label (fst p))); [reflexivity|].
    destruct (search no_flags GetProofTool.labelPattern
                     (rawContentOf content (fst p) (snd p))) as [m|] eqn:E; [|reflexivity].
    apply (braced_search "\label{" "}") in E. destruct E as (l & G & Nl & El & O).
    exists l, (Regex.index m). auto.
  - rewrite ProofScan.extractAllTheorems_run, abortedWithin_never. reflexivity.
Qed.

Lemma X23_label_of_a_looked_up_block_witness :
  plainKinds GetProofTool.defaultTheoremTypes = true
  /\ exists ts,
       GetProofTool.extractAllTheorems Examples.lookupDocument "lookup.tex"
         GetProofTool.defaultTheoremTypes (fun _ => false) = Ok ts
       /\ map GetProofTool.label ts
          = [Some "thm:fundamental"; Some "lem:helper"; None].
Proof.
  split; [exact PlainFacts.lookupKinds_plain|].
  destruct (X23_label_of_a_looked_up_block Examples.lookupDocument "lookup.tex"
              GetProofTool.defaultTheoremTypes PlainFacts.lookupKinds_plain) as (_ & E).
  eexists. split; [exact E|]. vm_compute. reflexivity.
Defined.

End PatternExtras.

(* ================================================================== *)
(** * Where the proof of a block is taken from *)
(* ================================================================== *)

Module ProofExtras.
Import JsString Regex Scanner Spec Invariants Notions Matching GetProofTool.
Import Facts ScanTheorems PatternExtras.

Lemma substring_skip (a b : string) (n : nat) :
  String.substring (String.length a) n (a ++ b) = String.substring 0 n b.
Proof. induction a as [|x a IH]; simpl; [reflexivity|exact IH]. Qed.

Lemma substring_whole (s : string) : String.substring 0 (String.length s) s = s.
Proof. induction s as [|x s IH]; simpl; [reflexivity|now rewrite IH]. Qed.

Lemma prefix_split (n : nat) :
  forall s, exists post, s = (String.substring 0 n s ++ post)%string.
Proof.
  induction n as [|n IH]; intros s.
  - exists s. now destruct s.
  - destruct s as [|c s]; [now exists EmptyString|].
    destruct (IH s) as (post & E). exists post. simpl. now rewrite <- E.
Qed.

Lemma split_at (n : nat) :
  forall s, n <= String.length s ->
            exists pre post, s = (pre ++ post)%string /\ String.length pre = n.
Proof.
  induction n as [|n IH]; intros s H.
  - exists EmptyString, s. auto.
  - destruct s as [|c s]; [simpl in H; lia|]. simpl in H.
    destruct (IH s) as (pre & post & -> & L); [lia|].
    exists (String c pre), post. simpl. auto.
Qed.

Lemma substringFrom_app (a b : string) : substringFrom (a ++ b) (String.length a) = b.
Proof.
  unfold substringFrom, substring. rewrite length_append.
  replace (Nat.min (Nat.min (String.length a) (String.length a + String.length b))
                   (String.length a + String.length b)) with (String.length a) by lia.
  replace (Nat.min (Nat.max (String.length a) (String.length a + String.length b))
                   (String.length a + String.length b) - String.length a)
    with (String.length b) by lia.
  rewrite substring_skip. apply substring_whole.
Qed.

Lemma substring_none (n : nat) : forall s, String.substring n 0 s = EmptyString.
Proof.
  induction n as [|n IH]; intros [|c s]; simpl; auto.
Qed.

Lemma substringFrom_beyond (s : string) (n : nat) :
  String.length s <= n -> substringFrom s n = EmptyString.
Proof.
  intros H. unfold substringFrom, substring.
  replace (Nat.min (Nat.max n (String.length s)) (String.length s)
           - Nat.min (Nat.min n (String.length s)) (String.length s)) with 0 by lia.
  apply substring_none.
Qed.

Lemma substring_middle (a m b : string) :
  substring (a ++ m ++ b) (String.length a) (String.length a + String.length m) = m.
Proof.
  unfold substring. rewrite !length_append.
  replace (Nat.min (Nat.min (String.length a) (String.length a + String.length m))
                   (String.length a + (String.length m + String.length b)))
    with (String.length a) by lia.
  replace (Nat.min (Nat.max (String.length a) (String.length a + String.length m))
                   (String.length a + (String.length m + String.length b))
           - String.length a)
    with (String.length m) by lia.
  rewrite substring_skip. apply substring_prefix.
Qed.

(** The leftmost match of a pattern: the text has the matched text at
    the offset of the match. *)
Lemma search_from_occurs fl r m :
  forall s bef,
    search_from fl r bef s = Some m ->
    exists pre post,
      s = (pre ++ whole m ++ post)%string
      /\ Regex.index m = List.length bef + String.length pre.
Proof.
  induction s as [|c s IH]; intros bef H; cbn [search_from] in H.
  - destruct (match_here fl r bef EmptyString) as [m0|] eqn:E; [|discriminate].
    injection H as ->. exists EmptyString, EmptyString.
    unfold match_here in E. destruct (matches fl r _); [discriminate|].
    injection E as <-. simpl. split; [reflexivity|lia].
  - destruct (match_here fl r bef (String c s)) as [m0|] eqn:E.
    + injection H as ->. unfold match_here in E.
      destruct (matches fl r _) as [|st' l]; [discriminate|]. injection E as <-.
      cbn [whole Regex.index].
      destruct (prefix_split (String.length (String c s) - String.length (rest st'))
                             (String c s)) as (post & P).
      exists EmptyString, post. split; [exact P|simpl; lia].
    + destruct (IH _ H) as (pre & post & -> & L).
      exists (String c pre), post. split; [reflexivity|]. simpl in *. lia.
Qed.

Lemma search_occurs fl r s m :
  search fl r s = Some m ->
  exists pre post, s = (pre ++ whole m ++ post)%string /\ Regex.index m = String.length pre.
Proof.
  unfold search. intros H. apply search_from_occurs in H.
  destruct H as (pre & post & E & L). exists pre, post. split; [exact E|exact L].
Qed.

Lemma proofBegin_not_empty : search flag_i proofBegin EmptyString = None.
Proof. reflexivity. Qed.

(** X20. Where the proof of a block is taken from.  The search starts
    at the end of the first occurrence of the raw text of the block in the
    document.  When a proof is attached, its raw text is a piece of the
    document that starts at or after that offset, its first and last lines
    are the lines of the two ends of that piece, and its statement is
    extracted from that piece; otherwise nothing is attached. *)
Theorem X20_proof_location (content : string) (theorem : ProofResult) :
  let len := String.length (rawContent theorem) in
  let theoremEnd := match indexOf content (rawContent theorem) with
                    | Some i => i + len
                    | None => len - 1
                    end in
  let info := findProofForTheorem content theorem in
  match pi_rawProofContent info with
  | Some raw =>
      exists start,
        theoremEnd <= start
        /\ occursAt content start raw
        /\ pi_proofStartLine info = Some (getLineNumber content start)
        /\ pi_proofEndLine info = Some (getLineNumber content (start + String.length raw))
        /\ pi_proof info = Some (extractProofStatement raw)
  | None => info = noProof
  end.
Proof.
  intros len theoremEnd info. unfold info, findProofForTheorem.
  fold len. fold theoremEnd.
  destruct (search flag_i proofBegin (substringFrom content theoremEnd)) as [b|] eqn:B;
    [|reflexivity].
  assert (Hlt : theoremEnd < String.length content).
  { destruct (Nat.lt_ge_cases theoremEnd (String.length content)) as [H|H]; [exact H|].
    rewrite (substringFrom_beyond _ _ H), proofBegin_not_empty in B. discriminate. }
  destruct (split_at theoremEnd content) as (P & R & Ec & LP); [lia|].
  assert (ER : substringFrom content theoremEnd = R)
    by (rewrite Ec, <- LP; apply substringFrom_app).
  rewrite ER in B. apply search_occurs in B. destruct B as (preb & postb & EB & IB).
  assert (EPC : substringFrom content (theoremEnd + Regex.index b) = (whole b ++ postb)%string).
  { rewrite Ec, EB, IB, <- LP, <- length_append, <- append_assoc.
    apply substringFrom_app. }
  rewrite EPC.
  destruct (search flag_i proofEnd (whole b ++ postb)) as [e|] eqn:E; [|reflexivity].
  apply search_occurs in E. destruct E as (pree & poste & EE & IE).
  cbn [pi_rawProofContent pi_proofStartLine pi_proofEndLine pi_proof].
  assert (Eraw : substring content (theoremEnd + Regex.index b)
                           (theoremEnd + Regex.index b + Regex.index e
                            + String.length (whole e))
                 = (pree ++ whole e)%string).
  { rewrite Ec, EB, EE, IB, IE, <- LP.
    replace (P ++ preb ++ pree ++ whole e ++ poste)%string
      with ((P ++ preb) ++ (pree ++ whole e) ++ poste)%string
      by (rewrite !append_assoc; reflexivity).
    replace (String.length P + String.length preb + String.length pree
             + String.length (whole e))
      with (String.length (P ++ preb) + String.length (pree ++ whole e))
      by (rewrite !length_append; lia).
    rewrite <- length_append. apply substring_middle. }
  rewrite Eraw. exists (theoremEnd + Regex.index b).
  split; [lia|]. split.
  - exists (P ++ preb)%string, poste. split.
    + rewrite Ec, EB, EE, !append_assoc. reflexivity.
    + rewrite length_append. lia.
  - split; [reflexivity|]. split; [|reflexivity].
    do 2 f_equal. rewrite length_append. lia.
Qed.

End ProofExtras.

(* ================================================================== *)
(** * Labels, dependencies and the three options of the indexer *)
(* ================================================================== *)

Module OptionExtras.
Import JsString Regex Dict Scanner Spec Invariants Notions Linking Search.
Import TheoremIndexerTool.
Import Facts BasicIndexFacts LinkFacts ScanTheorems IndexTheorems ScanExtras IndexExtras
       CycleExtras.

Lemma labelled_grows (l : string) (t0 t : IndexedTheorem) :
  grows t0 t -> labelled l t = labelled l t0.
Proof. intros G. unfold labelled. now rewrite (g_label G). Qed.

Lemma existsb_grows (f : IndexedTheorem -> bool) (ts objs : list IndexedTheorem) :
  (forall t0 t, grows t0 t -> f t = f t0) ->
  Forall2 grows ts objs -> existsb f objs = existsb f ts.
Proof.
  intros H. induction 1 as [|t0 t ts objs G F IH]; simpl; [reflexivity|].
  now rewrite IH, (H _ _ G).
Qed.

Lemma labelled_truthy (l : string) (t : IndexedTheorem) :
  labelled l t = true -> label t = Some l /\ truthy l = true.
Proof.
  unfold labelled. destruct (label t) as [l'|]; [|discriminate].
  intros H. apply andb_prop in H. destruct H as (T & E).
  apply String.eqb_eq in E. subst l'. auto.
Qed.

(** The label map of the blocks of a scan sends a label to itself. *)
Lemma labelToId_of_scan content filePath params (l : string) :
  get (labelToId (basicIndicesOwn emptyIndex 0 (indexedBlocks content filePath params))) l
  = if existsb (labelled l) (indexedBlocks content filePath params) then Some l else None.
Proof.
  set (ts := indexedBlocks content filePath params).
  pose proof (labelToId_initial ts l) as H.
  destruct (get (labelToId (basicIndicesOwn emptyIndex 0 ts)) l) as [i|].
  - destruct H as (q & t & ((t' & Ht' & Lt') & _) & Ht & <-).
    rewrite Ht in Ht'. injection Ht' as <-.
    assert (X : existsb (labelled l) ts = true).
    { apply existsb_exists. exists t. split; [eapply nth_error_In; exact Ht|exact Lt']. }
    rewrite X. f_equal.
    destruct (labelled_truthy _ _ Lt') as (E & T).
    apply (indexedBlocks_id_label content filePath params t l); auto.
    eapply nth_error_In; exact Ht.
  - destruct (existsb (labelled l) ts) eqn:X; [|reflexivity].
    apply existsb_exists in X. destruct X as (t & It & Lt).
    rewrite (H t It) in Lt. discriminate.
Qed.

Lemma resolved_of_scan content filePath params (a : string) (refs : list string) :
  resolved (labelToId (basicIndicesOwn emptyIndex 0 (indexedBlocks content filePath params)))
           a refs
  = filter (fun r => existsb (labelled r) (indexedBlocks content filePath params)
                     && negb (String.eqb r a)) refs.
Proof.
  unfold resolved.
  induction refs as [|r refs IH]; [reflexivity|]. cbn [flat_map filter]. rewrite IH.
  unfold resolve. rewrite (labelToId_of_scan content filePath params r).
  destruct (existsb (labelled r) (indexedBlocks content filePath params)) eqn:X;
    [|reflexivity].
  apply existsb_exists in X. destruct X as (t & _ & Lt).
  destruct (labelled_truthy _ _ Lt) as (_ & T). rewrite T.
  now destruct (String.eqb r a).
Qed.

(** X21. Labels and dependencies in the result of the indexer, for
    kinds that are words of letters and digits and a document whose blocks
    have no inherited name among their keys.  The
    label map has an entry exactly for the truthy labels that opening
    delimiters give, and sends each of them to itself: a reference resolves
    to the identifier of a block exactly when it is such a label.  When the
    dependencies are built, a block depends on those of its references that
    are such labels and differ from its own identifier, in the order of its
    references; otherwise on nothing. *)
Theorem X21_labels_and_dependencies (content filePath : string)
        (params : TheoremIndexerParams) :
  plainKinds (theoremTypesOf params) = true ->
  plainBlocks (indexedBlocks content filePath params) = true ->
  exists r,
    indexTheorems content filePath params (fun _ => false) = Ok r
    /\ (forall l,
          get (labelToId (r_index r)) l
          = if existsb (labelled l) (r_theorems r) then Some l else None)
    /\ Forall
         (fun t =>
            dependencies t
            = if not_false (build_dependencies params)
              then filter (fun reference =>
                             existsb (labelled reference) (r_theorems r)
                             && negb (String.eqb reference (id t)))
                          (references t)
              else [])
         (r_theorems r).
Proof.
  intros _ Hplain. rewrite (PlainFacts.indexTheorems_plain _ _ _ _ Hplain). clear Hplain.
  destruct (indexTheorems_built content filePath params) as (r & E & S & L).
  exists r. split; [exact E|].
  set (ts := indexedBlocks content filePath params) in *.
  assert (F2 : Forall2 grows ts (r_theorems r)).
  { destruct (indexTheorems_complete content filePath params) as (r' & E' & X).
    rewrite E in E'. injection E' as <-. exact (e_store X). }
  assert (X : forall l, existsb (labelled l) (r_theorems r) = existsb (labelled l) ts).
  { intros l. apply existsb_grows; [|exact F2]. intros t0 t. apply labelled_grows. }
  pose proof (lb_labelToId L) as Hl. simpl in Hl. split.
  - intros l. rewrite Hl, X. apply labelToId_of_scan.
  - apply Forall_forall. intros t It. apply In_nth_error in It. destruct It as (p & Hp).
    pose proof (indexedBlocks_fresh content filePath params) as F. fold ts in F.
    destruct (fresh_objects _ _ _ _ L F p t Hp) as (t0 & Ht0 & G & -> & _).
    unfold turns. destruct (not_false (build_dependencies params)); [|reflexivity].
    rewrite (depsAt_edgesFrom _ ts 0 p t0 Ht0).
    unfold ts. rewrite resolved_of_scan. fold ts.
    rewrite (g_references G), (g_id G).
    apply filter_ext. intros reference. now rewrite X.
Qed.

Lemma X21_labels_and_dependencies_witness :
  plainKinds (theoremTypesOf default_params) = true
  /\ plainBlocks (indexedBlocks Examples.referenceDocument "refs.tex" default_params) = true
  /\ exists r,
       indexTheorems Examples.referenceDocument "refs.tex" default_params (fun _ => false)
       = Ok r
       /\ get (labelToId (r_index r)) "b" = Some "b"
       /\ get (labelToId (r_index r)) "nowhere" = None
       /\ map dependencies (r_theorems r) = [["b"]; []; ["a"]].
Proof.
  split; [exact PlainFacts.indexerKinds_plain|].
  split; [exact PlainFacts.referenceDocument_plain|].
  destruct (X21_labels_and_dependencies Examples.referenceDocument "refs.tex" default_params
              PlainFacts.indexerKinds_plain PlainFacts.referenceDocument_plain)
    as (r & E & H & _).
  exists r. split; [exact E|]. rewrite (H "b"), (H "nowhere").
  vm_compute in E. injection E as <-. repeat split; reflexivity.
Defined.

Lemma edgesFrom_no_reference labels :
  forall ts pos, (forall t, In t ts -> references t = []) -> edgesFrom labels pos ts = [].
Proof.
  induction ts as [|t ts IH]; intros pos H; simpl; [reflexivity|].
  rewrite IH by (intros t' I; apply H; now right).
  unfold edgesOfBlock. rewrite (H t) by now left. reflexivity.
Qed.

Lemma symbolIndex_no_symbol :
  forall ts idx pos,
    (forall t, In t ts -> symbols t = []) ->
    symbolIndex (basicIndicesOwn idx pos ts) = symbolIndex idx.
Proof.
  induction ts as [|t ts IH]; intros idx pos H; simpl; [reflexivity|].
  rewrite IH by (intros t' I; apply H; now right).
  simpl. rewrite (H t) by now left. reflexivity.
Qed.

Lemma list_sum_zero {A : Type} (f : A -> nat) (l : list A) :
  (forall x, In x l -> f x = 0) -> list_sum (map f l) = 0.
Proof.
  induction l as [|x l IH]; intros H; simpl; [reflexivity|].
  rewrite (H x) by now left. apply IH. intros y I. apply H. now right.
Qed.

Lemma flat_map_nil {A B : Type} (f : A -> list B) (l : list A) :
  (forall x, In x l -> f x = []) -> flat_map f l = [].
Proof.
  induction l as [|x l IH]; intros H; simpl; [reflexivity|].
  rewrite (H x) by now left. apply IH. intros y I. apply H. now right.
Qed.

Lemma filter_all {A : Type} (f : A -> bool) (l : list A) :
  (forall x, In x l -> f x = true) -> filter f l = l.
Proof.
  induction l as [|x l IH]; intros H; simpl; [reflexivity|].
  rewrite (H x) by now left. f_equal. apply IH. intros y I. apply H. now right.
Qed.

(** Without any turn of the second loop: no edge, no dependency, no
    cycle. *)
Lemma no_turn ts bd idx objs :
  linkedBy (turns ts bd) (basicIndicesOwn emptyIndex 0 ts, ts) (idx, objs) ->
  (forall t, In t ts -> dependencies t = [] /\ dependents t = []) ->
  turns ts bd = [] ->
  (forall t, In t objs -> dependencies t = [] /\ dependents t = [])
  /\ edgeCount (dependencyGraph idx) = 0
  /\ detectCyclicDependencies (dependencyGraph idx) = [].
Proof.
  intros L F T. split; [|split].
  - intros t It. apply In_nth_error in It. destruct It as (p & Hp).
    destruct (fresh_objects _ _ _ _ L F p t Hp) as (t0 & _ & _ & -> & ->).
    rewrite T. split; reflexivity.
  - destruct (edgeCount_turns _ _ _ _ L) as (-> & _). now rewrite T.
  - apply acyclic_silent. intros x R.
    destruct (reaches_inv _ _ _ R) as (y & Hy & _).
    rewrite (successors_graph _ _ _ _ x L), T in Hy. exact Hy.
Qed.

(** X22. The three options of the indexer, switched off, for kinds that
    are words of letters and digits and a document whose blocks, as the
    remaining options make them, have no inherited name among their
    keys.  Without
    dependency building every block keeps empty dependency lists, the
    graphs have no edge, every block counts as orphaned and no cycle is
    reported.  Without reference extraction no block has a reference, and
    again there is no dependency and no cycle.  Without symbol extraction no
    block has a symbol, and the symbol index and the list of unique symbols
    are empty. *)
Theorem X22_options_switched_off (content filePath : string)
        (types : option (list string)) (es er bd : option bool) :
  plainKinds (theoremTypesOf (mkParams types es er bd)) = true ->
  (plainBlocks (indexedBlocks content filePath (mkParams types es er (Some false))) = true ->
   exists r,
      indexTheorems content filePath (mkParams types es er (Some false)) (fun _ => false)
      = Ok r
      /\ Forall (fun t => dependencies t = [] /\ dependents t = []) (r_theorems r)
      /\ edgeCount (dependencyGraph (r_index r)) = 0
      /\ totalDependencies (r_summary r) = 0
      /\ orphanedTheorems (r_summary r) = totalTheorems (r_summary r)
      /\ cyclicDependencies (r_summary r) = [])
  /\ (plainBlocks (indexedBlocks content filePath (mkParams types es (Some false) bd)) = true ->
      exists r,
        indexTheorems content filePath (mkParams types es (Some false) bd) (fun _ => false)
        = Ok r
        /\ Forall (fun t => references t = [] /\ dependencies t = [] /\ dependents t = [])
                  (r_theorems r)
        /\ totalReferences (r_summary r) = 0
        /\ totalDependencies (r_summary r) = 0
        /\ cyclicDependencies (r_summary r) = [])
  /\ (plainBlocks (indexedBlocks content filePath (mkParams types (Some false) er bd)) = true ->
      exists r,
        indexTheorems content filePath (mkParams types (Some false) er bd) (fun _ => false)
        = Ok r
        /\ Forall (fun t => symbols t = []) (r_theorems r)
        /\ symbolIndex (r_index r) = []
        /\ uniqueSymbols (r_summary r) = []).
Proof.
  intros _. split; [|split]; intros Hplain;
    rewrite (PlainFacts.indexTheorems_plain _ _ _ _ Hplain); clear Hplain.
  - destruct (indexTheorems_built content filePath (mkParams types es er (Some false)))
      as (r & E & S & L).
    exists r. split; [exact E|].
    pose proof (indexedBlocks_fresh content filePath (mkParams types es er (Some false))) as F.
    destruct (no_turn _ _ _ _ L F eq_refl) as (N1 & N2 & N3).
    rewrite S. unfold generateIndexingSummary.
    cbn [totalDependencies orphanedTheorems totalTheorems cyclicDependencies].
    split; [now apply Forall_forall|]. split; [exact N2|]. split; [|split; [|exact N3]].
    + apply list_sum_zero. intros t It. destruct (N1 t It) as (-> & _). reflexivity.
    + rewrite filter_all; [reflexivity|].
      intros t It. destruct (N1 t It) as (D1 & D2). unfold isOrphan. now rewrite D1, D2.
  - destruct (indexTheorems_built content filePath (mkParams types es (Some false) bd))
      as (r & E & S & L).
    exists r. split; [exact E|].
    set (ts := indexedBlocks content filePath (mkParams types es (Some false) bd)) in *.
    pose proof (indexedBlocks_fresh content filePath (mkParams types es (Some false) bd)) as F.
    fold ts in F.
    assert (R0 : forall t, In t ts -> references t = []).
    { intros t It. unfold ts, indexedBlocks in It. apply in_map_iff in It.
      destruct It as (x & <- & _). reflexivity. }
    assert (T : turns ts (not_false (build_dependencies (mkParams types es (Some false) bd)))
                = []).
    { unfold turns. destruct (not_false _); [|reflexivity].
      now apply edgesFrom_no_reference. }
    destruct (no_turn _ _ _ _ L F T) as (N1 & N2 & N3).
    assert (R1 : forall t, In t (r_theorems r) -> references t = []).
    { intros t It. apply In_nth_error in It. destruct It as (p & Hp).
      destruct (fresh_objects _ _ _ _ L F p t Hp) as (t0 & Ht0 & G & _).
      rewrite (g_references G). apply R0. eapply nth_error_In; exact Ht0. }
    rewrite S. unfold generateIndexingSummary.
    cbn [totalDependencies totalReferences cyclicDependencies].
    split; [|split; [|split; [|exact N3]]].
    + apply Forall_forall. intros t It. destruct (N1 t It). auto.
    + apply list_sum_zero. intros t It. now rewrite (R1 t It).
    + apply list_sum_zero. intros t It. destruct (N1 t It) as (-> & _). reflexivity.
  - destruct (indexTheorems_built content filePath (mkParams types (Some false) er bd))
      as (r & E & S & L).
    exists r. split; [exact E|].
    set (ts := indexedBlocks content filePath (mkParams types (Some false) er bd)) in *.
    pose proof (indexedBlocks_fresh content filePath (mkParams types (Some false) er bd)) as F.
    fold ts in F.
    assert (S0 : forall t, In t ts -> symbols t = []).
    { intros t It. unfold ts, indexedBlocks in It. apply in_map_iff in It.
      destruct It as (x & <- & _). reflexivity. }
    assert (S1 : forall t, In t (r_theorems r) -> symbols t = []).
    { intros t It. apply In_nth_error in It. destruct It as (p & Hp).
      destruct (fresh_objects _ _ _ _ L F p t Hp) as (t0 & Ht0 & G & _).
      rewrite (g_symbols G). apply S0. eapply nth_error_In; exact Ht0. }
    split; [now apply Forall_forall|]. split.
    + pose proof (lb_symbolIndex L) as Hs. simpl in Hs. rewrite Hs.
      now rewrite symbolIndex_no_symbol.
    + rewrite S. unfold generateIndexingSummary. cbn [uniqueSymbols].
      now rewrite (flat_map_nil _ _ S1).
Qed.

Lemma X22_options_switched_off_witness :
  plainKinds (theoremTypesOf (mkParams None None None None)) = true
  /\ plainBlocks (indexedBlocks Examples.referenceDocument "refs.tex"
                    (mkParams None None None (Some false))) = true
  /\ exists r,
       indexTheorems Examples.referenceDocument "refs.tex"
         (mkParams None None None (Some false)) (fun _ => false) = Ok r
       /\ totalDependencies (r_summary r) = 0
       /\ cyclicDependencies (r_summary r) = [].
Proof.
  assert (B : plainBlocks (indexedBlocks Examples.referenceDocument "refs.tex"
                             (mkParams None None None (Some false))) = true)
    by (vm_compute; reflexivity).
  split; [exact PlainFacts.indexerKinds_plain|]. split; [exact B|].
  destruct (proj1 (X22_options_switched_off Examples.referenceDocument "refs.tex"
                     None None None None PlainFacts.indexerKinds_plain) B)
    as (r & E & _ & _ & T & _ & C).
  exists r. split; [exact E|]. split; [exact T|exact C].
Defined.

End OptionExtras.
